(* ===== verification/_CoqProject ===== *)
-Q . S2P
Prelude.v
JsValue.v
JsonText.v
Scripts.v
Regex.v
JsUri.v
Routes.v
JsDate.v
Validator.v
ValidatorSpec.v
GeneratedClient.v
Negotiation.v
ApiClient.v
ApiClientSpec.v
SupportCompatibility.v
AccessPolicy.v
AccessPolicySpec.v
PolicyCases.v
PolicyFixture.v
PolicyCasesSpec.v
ClientGenerator.v
ClientGeneratorSpec.v
OpenApiDocument.v
ContractCurrent.v
ModuleGraph.v
ModuleRegistry.v
ModulePaths.v
ModuleRegistrySpec.v
ModuleBoundaries.v
PythonBoundariesSpec.v
ModuleBoundariesSpec.v
BoundariesEnd.v
RepositoryFiles.v
RepositoryRun.v
ContractCompatibility.v
ContractCompatibilitySpec.v
ThreatReports.v
ThreatReferences.v
ThreatModel.v
ThreatRegister.v
ThreatClosure.v
ThreatModelSpec.v
ThreatTrace.v
ThreatClosureSpec.v
ThreatSample.v
Domain.v
Repositories.v
HttpJourneyRepository.v
JourneyService.v
DomainSpec.v
Timeline.v
JourneyServiceSpec.v
JourneySession.v
HttpJourneySpec.v
CommandProtocol.v
CommandProtocolSpec.v
AppState.v
AppStateSpec.v
Quarantine.v
QuarantineSpec.v
Effects.v
PrivateFiles.v
Client.v
UploadSpec.v
Reset.v
ResetSpec.v
CommandLife.v
CommandServer.v
CommandServerSpec.v
EndToEnd.v
ResetRuns.v
