(* ===== verification/Prelude.v ===== *)
(** A verification of Trax OS: the web application's Journey domain, its
    typed API client and the generator and checks behind it, the checks of
    module boundaries and of the threat register, the access policy, and the
    synchronisation harness (client, command protocol and command
    server).  The language modelled is TypeScript; file
    names below are relative to [src/].

    * How the parts interact

    A page of the web application runs an operation of the Journey service on
    the current [JourneyData], gives the result to a repository and shows what
    comes back.  The HTTP repositories turn that into calls of the typed API
    client, which negotiates a version, validates requests and responses
    against the generated schema table and sends them with [fetch].  In the
    harness a client admits commands into an upload queue the SDK keeps and
    into its own SQLite file, uploads them to the command server, which
    applies each at most once, and records the results; when the server calls
    the replica stale, a reset moves what still waits into a quarantine file,
    takes a new session and clears the replica.

    * Files

    JavaScript, once for all components:
    - [Prelude]: fallible code ([outcome], [throw_if], [for_each]), lists,
      options, the tactics [inv_ok] and [zcmp];
    - [Scripts]: code that stops at its first error ([script]), with [inv_script]
      for runs that returned and the hints [ends] for runs that end;
    - [JsValue], [JsonText]: values, property access, numbers, UTF-16 strings,
      [JSON.stringify] and its injectivity; [Regex]: the regular expressions
      the sources write; [JsUri]: URI components; [JsDate]: UTC calendar.

    Web application ([apps/web/src]):
    - [Routes]: [routes.ts];
    - [Domain], [DomainSpec]: [features/journeys/domain.ts] and what
      [parseJourneyData] accepts;
    - [JourneyService], [Timeline], [JourneyServiceSpec], [JourneySession]:
      [features/journeys/journey-service.ts], every exported operation, and
      the sessions a page can run;
    - [Repositories]: the interfaces of [repositories/], the in-memory
      adapters, [adapters/http-auth-repository.ts] and
      [adapters/http-instance-repository.ts];
    - [HttpJourneyRepository], [HttpJourneySpec]:
      [adapters/http-journey-repository.ts].

    API client ([packages/api-client]):
    - [Validator], [ValidatorSpec]: [src/validator.ts];
    - [GeneratedClient]: the tables of [generated/client.ts];
    - [Negotiation]: [src/negotiation.ts];
    - [ApiClient], [ApiClientSpec]: [src/client.ts].  The class [TraxClient] of
      [Repositories] is the interface the adapters are verified against.

    - [SupportCompatibility]: [scripts/support-compatibility.mjs], the check of
      the versions a server advertises;
    - [ClientGenerator], [ClientGeneratorSpec]: [scripts/generate-api-client.mjs],
      which writes the tables of [GeneratedClient]; [OpenApiDocument],
      [ContractCurrent]: the contract of the repository and the run on it.

    - [ContractCompatibility], [ContractCompatibilitySpec]:
      [scripts/contract-compatibility.mjs], which compares two contracts.

    Module boundaries ([scripts/module-boundaries.mjs]):
    - [ModuleGraph]: the search for a cycle; [ModuleRegistry],
      [ModuleRegistrySpec]: the registry and what a validated one is;
      [ModulePaths]: paths as lists of segments;
    - [ModuleBoundaries]: the checks of manifests, imports and the Python
      report; [ModuleBoundariesSpec], [PythonBoundariesSpec], [BoundariesEnd]:
      what a check that passes means, and that it ends;
    - [RepositoryFiles], [RepositoryRun]: the registry, the manifests and the
      imports of the repository, and the run on them.

    Threat register ([scripts/check-threat-model.mjs]):
    - [ThreatReports]: checks that collect diagnostics ([report]), the checks of
      single values and the patterns; a run is [silent] when it found nothing;
    - [ThreatReferences]: files, anchors, commits and the map of entities;
      [ThreatModel], [ThreatRegister]: the sections of [validateModel] and the
      links between entities; [ThreatClosure]: the overview, the closure of a
      review, [validateModel] and the command line;
    - [ThreatModelSpec], [ThreatTrace], [ThreatClosureSpec], [ThreatSample]:
      what a register that passes is, and one that does.

    Access policy ([scripts/architecture-decisions.mjs], ADR-016):
    - [AccessPolicy], [AccessPolicySpec]: the reference evaluation and the
      decision record's terms, which it decides;
    - [PolicyCases], [PolicyFixture], [PolicyCasesSpec]: merging, validating and
      evaluating the shared cases, and the cases of the repository.

    Harness ([spikes/powersync/harness/src]):
    - [CommandProtocol], [CommandProtocolSpec]: [command-protocol.ts];
    - [AppState], [AppStateSpec]: class [ApplicationState] of [client.ts] and
      the accounting before it; tables are finite maps, a statement is a
      function of type [Sql];
    - [Quarantine], [QuarantineSpec]: the two sidecar files of [client.ts];
    - [PrivateFiles]: how [client.ts] writes them, on a file system that may
      fail at any call;
    - [Effects]: programs that call for effects, what a process killed between
      two of them leaves ([crashed]), and the logic of invariants that hold at
      every such point ([safe], [keeps]);
    - [Client], [UploadSpec]: the connector and the operations on commands;
      the state that outlives the process is [World], what a client keeps in
      memory is [Memory], the network, the SDK and the disk are any instance
      of [Environment] with the laws [QueueLaws];
    - [Reset], [ResetSpec]: [performReplicaReset] and [openSpikeClient];
    - [CommandLife]: all operations of a client composed;
    - [CommandServer], [CommandServerSpec]: [command-server.ts] on its tables;
    - [EndToEnd], [ResetRuns]: an environment with the command server at its
      end, and concrete runs: the witnesses of the theorems, and the runs on
      which a promise of the sources fails.

    * What the theorems show

    - No command is lost: [UploadSpec.upload_never_loses] for an upload, and,
      unless a command is queued while a reset is interrupted,
      [ResetSpec.reset_loses_no_command] for a reset and
      [CommandLife.no_command_lost] for a life; uploads end while the SDK
      works ([gives_up_after_five]) and never rewrite an outcome
      ([contradicting_answer_refused]).
    - Exactly once: [EndToEnd.applied_means_applied_once] for what the client
      shows, [CommandServerSpec.ledger_exactly_once] for the server; with
      [applied_when_current], [replayed_command], [denied_without_grant],
      [rate_window_bound] and [reset_rotates] for its single requests.
    - Messages and files: round trips and what parsers accept
      ([parseCommandEnvelope_canonical], [parseCommandResponse_answers],
      [commandDigest_binds], [sidecar_roundtrip]), and
      [application_state_healthy] for the SQLite file and what it reserves.
    - Journeys: the invariant of [JourneyData] over all sessions whose forms
      hand over well-formed dates, and how it breaks with others
      ([operation_keeps_valid], [session_parses]), what each operation throws
      and does to timelines and packing lists, and what is sent to the server
      for it ([save_unchanged], [save_after_move], [save_after_delete],
      [command_id_names_one_command]).
    - The API client: the validator decides the relation [conforms]
      ([validate_decides]); nothing outside the contract goes out or comes in
      ([prepare_within_contract], [request_returns_declared]).
    - The contract's tools: what the generator writes is complete and readable
      for the validator ([generated_tables_sound]), is what the repository holds
      ([generated_client_current]) and negotiates with its server
      ([generated_client_negotiates]); the support check lets exactly those
      changes through that leave no client behind ([support_check_exact]); a
      contract is loaded exactly when its references resolve in it
      ([loadOpenApi_exact], [pointer_roundtrip]), and no change of its security
      metadata passes but the one correction, which [legacy_correction] spells
      out ([security_changes_block]).
    - Module boundaries: a check that passes leaves no cycle of roots and no
      import across layers ([roots_stay_acyclic], [imports_respect_layers]), is
      exact for Python ([verifyPython_exact]), the first and the last when no
      name holds the character [>], and ends
      ([boundary_check_ends]); the registry is well formed
      ([validated_registry_well_formed]) and the search for cycles is exact
      ([assertAcyclic_exact]).
    - Threats: a register that passes is linked both ways
      ([validated_register_traceable]) and rated by the rubric
      ([validated_risks_rated]); one that is closed was approved by a code owner
      who did not write it, for the design as it still is
      ([closure_means_approved], [stableJson_same]).
    - Access: the evaluation is the normative order of the decision record
      ([evaluate_normative]), taking authority away never widens an access
      ([narrowing_never_widens]), privileged bases borrow nothing from a user
      ([privileged_basis_isolated]), and the 39 shared cases come out as
      written ([policy_cases_conform]).

    * Bounds and fuel

    The validator and the API client follow [$ref]s with fuel; [depth_ok]
    bounds what the generated table needs and [request_never_out_of_fuel]
    shows the client has it.  The generator's check of a schema is given its
    depth, which is enough ([generate_ends]).  The search for a cycle is given
    the number of nodes, the walk through a source tree the number of its
    directories and the search for a module the length of its name
    ([boundary_check_ends]).  Number printing is fuelled by the digits of the
    number.  Everything else is structural.  Integers are [Z] with the bounds
    the sources check (safe integers, 64 records, 65536 bytes).

    * Parameters

    [NumPrinter] and [NumReader] are the texts of numbers that are no plain
    integers, [Collation] is [localeCompare], [sha256] and [hmac] the hashes,
    [pg_uuid] PostgreSQL's reading of a UUID, [fetch] and the cookies of the
    browser arguments of the API client, [RegExpSyntax] whether a text is a
    regular expression, and reading a file and parsing it as JSON are arguments
    of the checks.  [Host] and [EndingHost] are the file system, the TypeScript
    compiler and the Python scanner of the boundary check, [Workspace] the file
    system and git of the threat check, [UnicodeTables] the tables of Unicode,
    [ApiCompare] the comparison of [api-smart-diff].  Hypotheses about them are named
    where they are used ([hex_digest] of a hash, a hash that does not collide,
    [keyed] of a document: no object has a key twice) and have witnesses.

    * Not modelled

    React pages and components, the translation texts, the generated type
    declarations of [api-contract] (no code), two scripts of the build
    ([contracts.mjs], which runs other programs, and [check-pwa-offline.mjs],
    which drives a browser), the checks of documents in
    [architecture-decisions.mjs], and the harness's token server and evidence
    tooling.  Of the boundary check: the walk through a syntax tree
    ([collectSpecifiers]), the compiler options and the check for duplicate
    keys, which are operations of the host.  The API service is
    Python.  Of the harness client: the functions that are one query of the
    SDK, [waitForInitialSync] (part of [env_connect]) and timeouts.  The
    operations of one client run one after another: this is an assumption of
    the model.  The gate of [client.ts] makes it true of queueing, resetting,
    acknowledging and discarding, but [uploadData] is not under the gate, and
    [connect] starts the loop of the SDK that calls it; an upload while another
    operation waits for the network or the disk is not modelled ([QueueLaws]
    says that the queue is as it was after each of those calls).
    [EndToEnd.life] queues, uploads and acknowledges against a live server; it
    has no reset, no opening and no discard of a quarantined command, which
    write no results ([CommandLife] has the resets and openings, against any
    server).  Results whose id or
    code is no text are taken as refused by the database, which is what
    binding them to a statement does.  Of the command server: the health check,
    the test endpoints, starting and stopping.  SQL is its effect on the
    tables. *)
From stdpp Require Export prelude list gmap strings sorting.
From Stdlib Require Export ZArith Lia ZifyBool ZifyN ZifyNat.
From Stdlib Require Ascii String.
From Stdlib Require Export Sorted.

#[global] Open Scope Z_scope.
#[global] Set Default Goal Selector "!".

#[global] Arguments Z.compare : simpl never.
#[global] Arguments Z.leb : simpl never.
#[global] Arguments Z.ltb : simpl never.
#[global] Arguments Z.eqb : simpl never.
#[global] Arguments N.leb : simpl never.
#[global] Arguments N.ltb : simpl never.
#[global] Arguments N.eqb : simpl never.

(** ** Fallible code: a value or a thrown error *)

Inductive outcome (E A : Type) : Type :=
| Ok (a : A)
| Throw (e : E).
Arguments Ok {E A} a.
Arguments Throw {E A} e.

#[export] Instance outcome_ret {E} : MRet (outcome E) := fun A a => Ok a.
#[export] Instance outcome_bind {E} : MBind (outcome E) :=
  fun A B f m => match m with Ok a => f a | Throw e => Throw e end.
#[export] Instance outcome_fmap {E} : FMap (outcome E) :=
  fun A B f m => match m with Ok a => Ok (f a) | Throw e => Throw e end.

(** [throw_if b e] is the statement [if (b) throw e;]. *)
Definition throw_if {E} (b : bool) (e : E) : outcome E () :=
  if b then Throw e else Ok ().

Definition is_ok {E A} (m : outcome E A) : bool :=
  match m with Ok _ => true | Throw _ => false end.

(** [try_catch m h] is [try { return m } catch (e) { return h(e) }]. *)
Definition try_catch {E E' A} (m : outcome E A) (h : E -> outcome E' A) : outcome E' A :=
  match m with Ok a => Ok a | Throw e => h e end.

Lemma bind_Ok {E A B} (f : A -> outcome E B) (m : outcome E A) (b : B) :
  m ≫= f = Ok b <-> exists a, m = Ok a /\ f a = Ok b.
Proof. destruct m; cbn; split; [eauto | by intros (?&[= ->]&?) | done | by intros (?&?&?)]. Qed.

Lemma bind_Throw {E A B} (f : A -> outcome E B) (m : outcome E A) (e : E) :
  m ≫= f = Throw e <-> m = Throw e \/ exists a, m = Ok a /\ f a = Throw e.
Proof.
  destruct m; cbn; split; try (intros [?|(?&?&?)]; congruence); eauto.
  intros ?; left; congruence.
Qed.

Lemma fmap_Ok {E A B} (f : A -> B) (m : outcome E A) (b : B) :
  f <$> m = Ok b <-> exists a, f a = b /\ m = Ok a.
Proof.
  destruct m; cbn; split; [intros [= <-]; eauto | by intros (?&<-&[= ->]) | done | by intros (?&?&?)].
Qed.

Lemma throw_if_Ok {E} (b : bool) (e : E) u : throw_if b e = Ok u <-> b = false.
Proof. by destruct b, u. Qed.

Lemma throw_if_Throw {E} (b : bool) (e e' : E) : throw_if b e = Throw e' <-> b = true /\ e = e'.
Proof. destruct b; cbn; split; [intros [=]; eauto | by intros [_ ->] | done | by intros [? _]]. Qed.

(** Peel one monadic bind (or guard) off a hypothesis that says the code
    returned, keeping the intermediate value and the remaining code. *)
Ltac inv_ok_step :=
  match goal with
  | H : Ok _ = Ok _ |- _ => injection H as H; try subst
  | H : Throw _ = Throw _ |- _ => injection H as H; try subst
  | H : Ok _ = Throw _ |- _ => discriminate H
  | H : Throw _ = Ok _ |- _ => discriminate H
  | H : mret _ = _ |- _ => unfold mret, outcome_ret in H
  | H : throw_if _ _ = Ok _ |- _ => apply throw_if_Ok in H
  | H : throw_if _ _ = Throw _ |- _ =>
      let Hb := fresh "Hb" in let He := fresh "He" in
      apply throw_if_Throw in H; destruct H as [Hb He]; try subst
  | H : mbind _ _ = Ok _ |- _ =>
      let a := fresh "a" in let Ha := fresh "Ha" in
      apply bind_Ok in H; destruct H as (a & Ha & H)
  end.
Ltac inv_ok := repeat inv_ok_step.

(** [for (const x of l) f(x)], where [f] may throw. *)
Fixpoint for_each {E A} (f : A -> outcome E ()) (l : list A) : outcome E () :=
  match l with
  | [] => Ok ()
  | x :: l => _ ← f x; for_each f l
  end.

Lemma for_each_ok {E A} (f : A -> outcome E ()) (l : list A) :
  for_each f l = Ok () <-> forall x, x ∈ l -> f x = Ok ().
Proof.
  induction l as [|y l IH]; cbn; [split; [intros _ x ?%elem_of_nil|]; done|].
  setoid_rewrite elem_of_cons. destruct (f y) as [[]|] eqn:Ey; cbn.
  - rewrite IH. naive_solver.
  - split; [done|]. intros H. rewrite H in Ey by auto. done.
Qed.

Lemma for_each_throw {E A} (f : A -> outcome E ()) (l : list A) e :
  for_each f l = Throw e -> exists x, x ∈ l /\ f x = Throw e.
Proof.
  induction l as [|y l IH]; cbn; [done|]. destruct (f y) as [[]|] eqn:Ey; cbn.
  - intros (x & ? & ?)%IH. exists x. by split; [apply list_elem_of_further|].
  - intros [= ->]. exists y. by split; [apply list_elem_of_here|].
Qed.

(** ** Lists used as JavaScript arrays *)

(** [arr.findIndex(p)]: [-1] when nothing matches. *)
Fixpoint findIndex {A} (p : A -> bool) (l : list A) : Z :=
  match l with
  | [] => -1
  | x :: l => if p x then 0 else let i := findIndex p l in if i <? 0 then -1 else i + 1
  end.

(** [arr[i]]: [undefined] out of range. *)
Definition at_index {A} (l : list A) (i : Z) : option A :=
  if i <? 0 then None else l !! Z.to_nat i.

(** [arr[i] = x] for an index inside the array. *)
Definition set_index {A} (l : list A) (i : Z) (x : A) : list A :=
  if i <? 0 then l else <[Z.to_nat i := x]> l.

(** [arr.sort((a, b) => key(a) - key(b))]: ECMAScript sorts are stable, so
    the insertion sort below is the result of any of them. *)
Fixpoint insert_by {A} (key : A -> Z) (x : A) (l : list A) : list A :=
  match l with
  | [] => [x]
  | y :: l => if key x <=? key y then x :: y :: l else y :: insert_by key x l
  end.

Definition sort_by {A} (key : A -> Z) (l : list A) : list A :=
  foldr (insert_by key) [] l.

Section SortBy.
Context {A : Type} (key : A -> Z).

Lemma insert_by_perm x l : insert_by key x l ≡ₚ x :: l.
Proof.
  induction l as [|y l IH]; cbn; [done|].
  case_match; [done|]. rewrite IH. apply Permutation_swap.
Qed.

Lemma sort_by_perm l : sort_by key l ≡ₚ l.
Proof. induction l as [|x l IH]; cbn; [done|]. by rewrite insert_by_perm, IH. Qed.

Lemma insert_by_sorted x l :
  StronglySorted (fun a b => key a <= key b) l ->
  StronglySorted (fun a b => key a <= key b) (insert_by key x l).
Proof.
  induction 1 as [|y l Hs IH Hy]; cbn; [repeat constructor|].
  case_match eqn:E; constructor.
  - by constructor.
  - apply Forall_cons; split; [lia|]. eapply Forall_impl; [exact Hy|]. cbn; lia.
  - done.
  - rewrite insert_by_perm. apply Forall_cons; split; [lia|done].
Qed.

Lemma sort_by_sorted l : StronglySorted (fun a b => key a <= key b) (sort_by key l).
Proof. induction l; cbn; [constructor | by apply insert_by_sorted]. Qed.

Lemma sorted_strict l :
  NoDup (key <$> l) ->
  StronglySorted (fun a b => key a <= key b) l -> StronglySorted (fun a b => key a < key b) l.
Proof.
  intros Hnd. induction 1 as [|y l Hs IH Hy]; [constructor|].
  cbn in Hnd. apply NoDup_cons in Hnd as [Hn Hnd]. constructor; [by apply IH|].
  rewrite Forall_forall in Hy |- *. intros z Hz.
  enough (key y ≠ key z) by (specialize (Hy z Hz); cbn in Hy; lia).
  intros Heq. apply Hn, list_elem_of_fmap. eauto.
Qed.

(** Distinct keys leave one sorted order: the array every sort returns. *)
Lemma sort_by_unique l l' :
  l' ≡ₚ l -> StronglySorted (fun a b => key a < key b) l' -> sort_by key l = l'.
Proof.
  intros Hp Hs.
  assert (AntiSymm (=) (fun a b : A => key a < key b)) by (intros ???; lia).
  assert (NoDup (key <$> l')).
  { clear Hp. induction Hs as [|y l1 Hs IH Hy]; cbn; [constructor|].
    apply NoDup_cons; split; [|done].
    rewrite list_elem_of_fmap. intros (z & Heq & Hz).
    rewrite Forall_forall in Hy. specialize (Hy z Hz). lia. }
  apply (StronglySorted_unique (fun a b : A => key a < key b)).
  - apply sorted_strict; [by rewrite sort_by_perm, <- Hp | apply sort_by_sorted].
  - exact Hs.
  - by rewrite sort_by_perm.
Qed.

Lemma sort_by_length l : length (sort_by key l) = length l.
Proof. by rewrite sort_by_perm. Qed.
End SortBy.

(** Stdlib's [filter], [existsb], [find] and stdpp's membership. *)
(** The elements of an array with their indices, as [forEach] visits them. *)
Definition indexed {A} (l : list A) : list (Z * A) := imap (fun i x => (Z.of_nat i, x)) l.

Lemma indexed_elem {A} (l : list A) i x : (i, x) ∈ indexed l -> x ∈ l.
Proof.
  unfold indexed. intros [k Hk]%list_elem_of_lookup. rewrite list_lookup_imap in Hk.
  destruct (l !! k) eqn:E; [|done]. injection Hk as _ ->. by apply list_elem_of_lookup_2 in E.
Qed.

Lemma elem_indexed {A} (l : list A) x : x ∈ l -> exists i, (i, x) ∈ indexed l.
Proof.
  intros [k Hk]%list_elem_of_lookup. exists (Z.of_nat k). apply list_elem_of_lookup. exists k.
  unfold indexed. by rewrite list_lookup_imap, Hk.
Qed.

Lemma indexed_snd {A} (l : list A) : (indexed l).*2 = l.
Proof.
  apply list_eq. intros i. unfold indexed. rewrite list_lookup_fmap, list_lookup_imap. by destruct (l !! i).
Qed.

Lemma elem_of_lfilter {A} (f : A -> bool) (l : list A) x :
  x ∈ List.filter f l <-> x ∈ l /\ f x = true.
Proof. rewrite !list_elem_of_In. apply filter_In. Qed.

Lemma sublist_lfilter {A} (f : A -> bool) (l : list A) : sublist (List.filter f l) l.
Proof. induction l as [|x l IH]; cbn; [constructor|]. destruct (f x); by constructor. Qed.

Lemma existsb_elem {A} (f : A -> bool) (l : list A) :
  existsb f l = true <-> exists x, x ∈ l /\ f x = true.
Proof. rewrite existsb_exists. by setoid_rewrite <- list_elem_of_In. Qed.

Lemma existsb_false {A} (f : A -> bool) (l : list A) :
  existsb f l = false <-> forall x, x ∈ l -> f x = false.
Proof.
  rewrite <- not_true_iff_false, existsb_elem. setoid_rewrite <- not_true_iff_false. naive_solver.
Qed.

Lemma find_Some_elem {A} (f : A -> bool) (l : list A) x :
  List.find f l = Some x -> x ∈ l /\ f x = true.
Proof. intros H. apply find_some in H as [? ?]. by rewrite list_elem_of_In. Qed.

Lemma find_None_elem {A} (f : A -> bool) (l : list A) x :
  List.find f l = None -> x ∈ l -> f x = false.
Proof. intros H Hx. eapply find_none; [exact H|]. by apply list_elem_of_In. Qed.

#[export] Instance lfilter_perm {A} (f : A -> bool) :
  Proper ((≡ₚ) ==> (≡ₚ)) (List.filter f).
Proof.
  intros l l'. induction 1; cbn; repeat case_match; try done.
  - by apply Permutation_skip.
  - apply Permutation_swap.
  - by etrans.
Qed.

Lemma lfilter_fmap {A B} (f : B -> bool) (g : A -> B) (l : list A) :
  List.filter f (g <$> l) = g <$> List.filter (fun x => f (g x)) l.
Proof. induction l; cbn; [done|]. case_match; cbn; congruence. Qed.

Lemma lfilter_ext {A} (f g : A -> bool) (l : list A) :
  (forall x, x ∈ l -> f x = g x) -> List.filter f l = List.filter g l.
Proof.
  induction l as [|x l IH]; cbn; [done|]. intros H.
  rewrite (H x) by apply list_elem_of_here. rewrite IH; [done|].
  intros y Hy. apply H. by apply list_elem_of_further.
Qed.

Lemma NoDup_fmap_lfilter {A B} (f : A -> bool) (g : A -> B) (l : list A) :
  NoDup (g <$> l) -> NoDup (g <$> List.filter f l).
Proof.
  induction l as [|x l IH]; cbn; [done|]. rewrite NoDup_cons. intros [Hx Hl].
  case_match; cbn; [|auto]. apply NoDup_cons; split; [|auto].
  rewrite list_elem_of_fmap in Hx |- *. intros (y & ? & Hy). apply Hx.
  apply elem_of_lfilter in Hy as [Hy _]. eauto.
Qed.

(** Elements with equal keys are equal when the keys are distinct. *)
Lemma NoDup_fmap_inj {A B} (g : A -> B) (l : list A) x y :
  NoDup (g <$> l) -> x ∈ l -> y ∈ l -> g x = g y -> x = y.
Proof.
  induction l as [|z l IH]; cbn; [by intros _ ?%elem_of_nil|].
  rewrite NoDup_cons, !elem_of_cons. intros [Hz Hl] [->|Hx] [->|Hy] Heq; auto.
  - destruct Hz. rewrite Heq. by apply list_elem_of_fmap_2.
  - destruct Hz. rewrite <- Heq. by apply list_elem_of_fmap_2.
Qed.

Lemma Forall_lfilter {A} (P : A -> Prop) (f : A -> bool) l :
  Forall P l -> Forall P (List.filter f l).
Proof.
  rewrite !Forall_forall. intros H x Hx. apply elem_of_lfilter in Hx as [? _]. auto.
Qed.

(** [findIndex] and [at_index]. *)
Lemma findIndex_spec {A} (p : A -> bool) (l : list A) :
  (findIndex p l = -1 /\ Forall (fun x => p x = false) l) \/
  exists i x, findIndex p l = Z.of_nat i /\ l !! i = Some x /\ p x = true.
Proof.
  induction l as [|x l IH]; cbn; [left; by constructor|].
  destruct (p x) eqn:E; [right; by exists 0%nat, x|].
  destruct IH as [[-> H]|(i & y & -> & Hi & Hy)].
  - left. split; [done|]. by constructor.
  - right. exists (S i), y. split; [|done].
    replace (Z.of_nat i <? 0) with false by lia. lia.
Qed.

Lemma at_index_nat {A} (l : list A) (i : nat) : at_index l (Z.of_nat i) = l !! i.
Proof.
  unfold at_index. replace (Z.of_nat i <? 0) with false by lia. by rewrite Nat2Z.id.
Qed.
Lemma set_index_nat {A} (l : list A) (i : nat) x : set_index l (Z.of_nat i) x = <[i := x]> l.
Proof.
  unfold set_index. replace (Z.of_nat i <? 0) with false by lia. by rewrite Nat2Z.id.
Qed.

Lemma at_index_inv {A} (l : list A) (i : Z) x :
  at_index l i = Some x -> exists n : nat, i = Z.of_nat n /\ l !! n = Some x.
Proof.
  unfold at_index. destruct (i <? 0) eqn:E; [done|]. intros H. exists (Z.to_nat i). split; [lia|done].
Qed.

(** [l[i] = y; l[j] = x] where [l[i]] was [x] and [l[j]] was [y]. *)
Lemma set_index_swap {A} (l : list A) (i j : Z) x y :
  at_index l i = Some x -> at_index l j = Some y ->
  set_index (set_index l i y) j x ≡ₚ l.
Proof.
  intros (n & -> & Hn)%at_index_inv (m & -> & Hm)%at_index_inv.
  rewrite !set_index_nat. by apply Permutation_insert_swap.
Qed.

(** Case analysis on integer comparisons. *)
Ltac zcmp :=
  repeat match goal with
  | |- context [(?a ?= ?b)%Z] => destruct (Z.compare_spec a b)
  | H : context [(?a ?= ?b)%Z] |- _ => destruct (Z.compare_spec a b)
  end.

Lemma StronglySorted_lookup_intro {A} (R : A -> A -> Prop) (l : list A) :
  (forall (i j : nat) x y, (i < j)%nat -> l !! i = Some x -> l !! j = Some y -> R x y) ->
  StronglySorted R l.
Proof.
  induction l as [|x l IH]; intros H; constructor.
  - apply IH. intros i j y z Hij Hi Hj. apply (H (S i) (S j)); [lia|done|done].
  - rewrite Forall_forall. intros y [j Hj]%list_elem_of_lookup. apply (H 0%nat (S j)); [lia|done|done].
Qed.


(** [list.map(x => p(x) ? new : x)]. *)
Lemma fmap_replace {A B} (g : A -> B) (p : A -> bool) (new : A) (l : list A) :
  (forall x, x ∈ l -> p x = true -> g new = g x) ->
  g <$> ((fun x => if p x then new else x) <$> l) = g <$> l.
Proof.
  intros H. rewrite <- list_fmap_compose. apply list_fmap_ext.
  intros i x Hx%list_elem_of_lookup_2. cbn. destruct (p x) eqn:E; [by apply H|done].
Qed.

Lemma Forall_fmap_if {A} (P : A -> Prop) (p : A -> bool) (f : A -> A) (l : list A) :
  (forall x, x ∈ l -> p x = true -> P x -> P (f x)) -> Forall P l ->
  Forall P ((fun x => if p x then f x else x) <$> l).
Proof.
  intros Hf. rewrite Forall_fmap, !Forall_forall. intros Hl x Hx. cbn.
  destruct (p x) eqn:E; auto.
Qed.
