(* ===== verification/JsValue.v ===== *)
(** JavaScript values.  The parts of ECMAScript the program uses, once, for
    every component: numbers, UTF-16 strings, object property access and
    [JSON.stringify].  None of it is code of the repository; the components
    that are translate their source lines into these operations. *)
From S2P Require Export Prelude.
From Stdlib Require Import QArith_base Qreduction.
#[local] Open Scope Z_scope.

(** ** Strings: sequences of UTF-16 code units *)

Definition jstr : Type := list N.

#[export] Instance jstr_eq_dec : EqDecision jstr := _.
#[export] Instance jstr_countable : Countable jstr := _.

(** ASCII literals of the source. *)
Definition js (s : string) : jstr := Ascii.N_of_ascii <$> String.list_ascii_of_string s.
Coercion js : string >-> jstr.
Arguments js : simpl never.

Definition str_eqb (a b : jstr) : bool := bool_decide (a = b).

Lemma str_eqb_eq a b : str_eqb a b = true <-> a = b.
Proof. apply bool_decide_eq_true. Qed.
Lemma str_eqb_neq a b : str_eqb a b = false <-> a <> b.
Proof. apply bool_decide_eq_false. Qed.
Lemma str_eqb_refl a : str_eqb a a = true.
Proof. by apply str_eqb_eq. Qed.

(** [a < b] on strings: lexicographic on code units. *)
Fixpoint str_ltb (a b : jstr) : bool :=
  match a, b with
  | _, [] => false
  | [], _ :: _ => true
  | x :: a, y :: b => if (x <? y)%N then true else if (y <? x)%N then false else str_ltb a b
  end.

(** [''] is the only falsy string. *)
Definition str_truthy (s : jstr) : bool := match s with [] => false | _ => true end.
Definition str_length (s : jstr) : Z := Z.of_nat (length s).

(** WhiteSpace and LineTerminator code units (what [trim] and [\s] match). *)
Definition is_space (c : N) : bool :=
  ((9 <=? c) && (c <=? 13) || (c =? 32) || (c =? 160) || (c =? 5760)
   || ((8192 <=? c) && (c <=? 8202)) || (c =? 8232) || (c =? 8233)
   || (c =? 8239) || (c =? 8287) || (c =? 12288) || (c =? 65279))%N.

Fixpoint trimStart (s : jstr) : jstr :=
  match s with
  | [] => []
  | c :: s' => if is_space c then trimStart s' else s
  end.
Definition trim (s : jstr) : jstr := reverse (trimStart (reverse (trimStart s))).

Fixpoint startsWith (s prefix : jstr) : bool :=
  match prefix, s with
  | [], _ => true
  | p :: prefix, c :: s => (c =? p)%N && startsWith s prefix
  | _ :: _, [] => false
  end.
Definition str_includes (s : jstr) (c : N) : bool := existsb (N.eqb c) s.
(** [s.indexOf(c)] for a one-unit [c]. *)
Definition str_indexOf (s : jstr) (c : N) : Z := findIndex (N.eqb c) s.

(** [s.replace(pattern, replacement)] for a string pattern: the first
    occurrence.  (The sources' replacements hold no dollar sign.) *)
Fixpoint replace_first (s pattern replacement : jstr) : jstr :=
  if startsWith s pattern then replacement ++ drop (length pattern) s
  else match s with [] => [] | c :: s => c :: replace_first s pattern replacement end.

(** [s.split(sep)] for a non-empty [sep]; [skip] units of a separator that has
    been seen are still to be passed over. *)
Fixpoint split_loop (sep s piece : jstr) (skip : nat) : list jstr :=
  match s with
  | [] => [reverse piece]
  | c :: s' =>
      match skip with
      | S skip => split_loop sep s' piece skip
      | O => if startsWith s sep then reverse piece :: split_loop sep s' [] (length sep - 1)
             else split_loop sep s' (c :: piece) 0
      end
  end.
Definition str_split (s sep : jstr) : list jstr := split_loop sep s [] 0.
(** [s.endsWith(suffix)], [s.slice(0, -n)] *)
Definition endsWith (s suffix : jstr) : bool := startsWith (reverse s) (reverse suffix).
Definition slice_end (s : jstr) (n : nat) : jstr := take (length s - n) s.

(** [l.sort()] and [l.join(sep)] on arrays of strings. *)
Fixpoint insert_str (x : jstr) (l : list jstr) : list jstr :=
  match l with
  | [] => [x]
  | y :: l => if str_ltb y x then y :: insert_str x l else x :: y :: l
  end.
Definition sort_strings (l : list jstr) : list jstr := foldr insert_str [] l.
Lemma insert_str_perm s l : insert_str s l ≡ₚ s :: l.
Proof. induction l as [|x l IH]; cbn; [done|]. destruct (str_ltb x s); [|done]. rewrite IH. constructor. Qed.
Lemma sort_strings_perm l : sort_strings l ≡ₚ l.
Proof. induction l as [|x l IH]; cbn; [done|]. by rewrite insert_str_perm, IH. Qed.
(** A stable sort by [key(a).localeCompare(key(b))], which the platform's
    locale decides: [locale_le a b] is that it is not positive. *)
Class Collation := locale_le : jstr -> jstr -> bool.
Fixpoint insert_collated {A} `{Collation} (key : A -> jstr) (x : A) (l : list A) : list A :=
  match l with
  | [] => [x]
  | y :: l => if locale_le (key x) (key y) then x :: y :: l else y :: insert_collated key x l
  end.
Definition sort_collated {A} `{Collation} (key : A -> jstr) (l : list A) : list A := foldr (insert_collated key) [] l.
Lemma insert_collated_perm {A} `{Collation} (key : A -> jstr) x l : insert_collated key x l ≡ₚ x :: l.
Proof. induction l as [|y l IH]; cbn; [done|]. destruct (locale_le _ _); [done|]. rewrite IH. constructor. Qed.
Lemma sort_collated_perm {A} `{Collation} (key : A -> jstr) l : sort_collated key l ≡ₚ l.
Proof. induction l as [|x l IH]; cbn; [done|]. by rewrite insert_collated_perm, IH. Qed.

Definition join (sep : jstr) (l : list jstr) : jstr :=
  match l with [] => [] | x :: l => x ++ (l ≫= fun y => sep ++ y) end.

Definition is_digit (c : N) : bool := ((48 <=? c) && (c <=? 57))%N.
Definition is_lower_hex (c : N) : bool := (is_digit c || (97 <=? c) && (c <=? 102))%N.
Definition is_hex (c : N) : bool := (is_lower_hex c || (65 <=? c) && (c <=? 70))%N.
Definition is_upper (c : N) : bool := ((65 <=? c) && (c <=? 90))%N.

(** [toLowerCase].  Exact on ASCII and on the two other characters whose
    image contains an ASCII letter (U+0130, U+212A); other code units are kept.
    The program only matches the result against ASCII patterns. *)
Definition lower_unit (c : N) : list N :=
  if is_upper c then [(c + 32)%N]
  else if (c =? 304)%N then [105; 775]%N
  else if (c =? 8490)%N then [107%N]
  else [c].
Definition toLowerCase (s : jstr) : jstr := s ≫= lower_unit.

(** A fixed-width regular expression [^c1c2...cn$]: one class per position. *)
Fixpoint match_classes (cs : list (N -> bool)) (s : jstr) : bool :=
  match cs, s with
  | [], [] => true
  | c :: cs, u :: s => c u && match_classes cs s
  | _, _ => false
  end.

(** Surrogates and code points. *)
Definition is_high (c : N) : bool := ((55296 <=? c) && (c <=? 56319))%N.
Definition is_low (c : N) : bool := ((56320 <=? c) && (c <=? 57343))%N.

(** [[...s].length]: surrogate pairs count once. *)
Fixpoint code_point_count (s : jstr) : Z :=
  match s with
  | [] => 0
  | h :: s1 =>
      match s1 with
      | l :: s2 => if is_high h && is_low l then 1 + code_point_count s2
                   else 1 + code_point_count s1
      | [] => 1
      end
  end.

(** [Buffer.byteLength(s, "utf8")]: lone surrogates become U+FFFD. *)
Definition utf8_unit_length (c : N) : Z :=
  if (c <? 128)%N then 1 else if (c <? 2048)%N then 2 else 3.
Fixpoint utf8_length (s : jstr) : Z :=
  match s with
  | [] => 0
  | h :: s1 =>
      match s1 with
      | l :: s2 => if is_high h && is_low l then 4 + utf8_length s2
                   else utf8_unit_length h + utf8_length s1
      | [] => utf8_unit_length h
      end
  end.

(** ** Numbers *)

(** A double: an integral value, a value with a fractional part (every
    double is a rational), or one of the special values. *)
Inductive jsnum : Type :=
| NInt (z : Z)
| NFrac (q : Q)
| NNegZero
| NNaN
| NInf (negative : bool).

#[export] Instance Q_eq_dec : EqDecision Q.
Proof. solve_decision. Defined.
#[export] Instance jsnum_eq_dec : EqDecision jsnum.
Proof. solve_decision. Defined.

Definition num_Q (n : jsnum) : Q :=
  match n with NInt z => inject_Z z | NFrac q => q | _ => 0%Q end.

Definition num_cmp (a b : jsnum) : option comparison :=
  match a, b with
  | NNaN, _ | _, NNaN => None
  | NInf x, NInf y => Some (match x, y with
                            | true, false => Lt | false, true => Gt | _, _ => Eq end)
  | NInf true, _ | _, NInf false => Some Lt
  | NInf false, _ | _, NInf true => Some Gt
  | NInt x, NInt y => Some (x ?= y)
  | NNegZero, NInt y => Some (0 ?= y)
  | NInt x, NNegZero => Some (x ?= 0)
  | _, _ => Some (num_Q a ?= num_Q b)%Q
  end.
Definition num_ltb (a b : jsnum) : bool :=
  match num_cmp a b with Some Lt => true | _ => false end.
Definition num_gtb (a b : jsnum) : bool := num_ltb b a.
Definition num_leb (a b : jsnum) : bool :=
  match num_cmp a b with Some Lt | Some Eq => true | _ => false end.
(** [a === b] on numbers. *)
Definition num_eqb (a b : jsnum) : bool :=
  match num_cmp a b with Some Eq => true | _ => false end.

Definition isInteger (n : jsnum) : bool :=
  match n with NInt _ | NNegZero => true | _ => false end.
Definition max_safe : Z := 9007199254740991.
Definition isSafeInteger (n : jsnum) : bool :=
  match n with NInt z => (- max_safe <=? z) && (z <=? max_safe) | NNegZero => true | _ => false end.
Definition isFinite (n : jsnum) : bool :=
  match n with NInt _ | NFrac _ | NNegZero => true | _ => false end.

(** [Math.min] and [Math.max]: NaN is contagious. *)
Definition num_min (a b : jsnum) : jsnum :=
  match num_cmp a b with
  | None => NNaN
  | Some Lt => a
  | Some Gt => b
  | Some Eq => match a with NNegZero => a | _ => b end
  end.
Definition num_max (a b : jsnum) : jsnum :=
  match num_cmp a b with
  | None => NNaN
  | Some Lt => b
  | Some Gt => a
  | Some Eq => match a with NNegZero => b | _ => a end
  end.

(** [a + b].  Integers round to 53 bits, ties to even, and overflow to an
    infinity; a sum with a fractional operand is kept exact. *)
Definition round53 (z : Z) : jsnum :=
  if Z.abs z <=? 2 ^ 53 then NInt z
  else
    let u := 2 ^ (Z.log2 (Z.abs z) - 52) in
    let k := Z.abs z / u in
    let r := Z.abs z mod u in
    let k := if 2 * r <? u then k else if u <? 2 * r then k + 1
             else if Z.even k then k else k + 1 in
    if 2 ^ 1024 <=? k * u then NInf (z <? 0) else NInt (Z.sgn z * (k * u)).
Definition num_of_Q (q : Q) : jsnum :=
  let q := Qred q in if (Qden q =? 1)%positive then NInt (Qnum q) else NFrac q.
Definition num_add (a b : jsnum) : jsnum :=
  match a, b with
  | NNaN, _ | _, NNaN => NNaN
  | NInf x, NInf y => if Bool.eqb x y then a else NNaN
  | NInf _, _ => a
  | _, NInf _ => b
  | NInt x, NInt y => round53 (x + y)
  | NNegZero, _ => b
  | _, NNegZero => a
  | _, _ => num_of_Q (num_Q a + num_Q b)
  end.

(** The integer an integral number denotes. *)
Definition num_int (n : jsnum) : option Z :=
  match n with NInt z => Some z | NNegZero => Some 0 | _ => None end.

(** ** Values *)

(** [VFun] is any function value (what an inherited method reads as).  The
    fields of [VObj] are its own enumerable properties in enumeration order. *)
#[warnings="-register-all"]
Inductive jsval : Type :=
| VUndef
| VNull
| VBool (b : bool)
| VNum (n : jsnum)
| VStr (s : jstr)
| VArr (l : list jsval)
| VObj (fs : list (jstr * jsval))
| VFun.

Section jsval_ind.
Context (P : jsval -> Prop).
Context (HU : P VUndef) (HN : P VNull) (HB : forall b, P (VBool b))
  (HM : forall n, P (VNum n)) (HS : forall s, P (VStr s))
  (HA : forall l, Forall P l -> P (VArr l))
  (HO : forall fs, Forall (fun kv => P (kv.2)) fs -> P (VObj fs))
  (HF : P VFun).

(** Induction that reaches the elements of arrays and the fields of objects. *)
Fixpoint jsval_induct (v : jsval) : P v :=
  match v with
  | VUndef => HU | VNull => HN | VBool b => HB b | VNum n => HM n | VStr s => HS s
  | VArr l => HA l ((fix go l : Forall P l :=
      match l with
      | [] => Forall_nil_2 P
      | v :: l => Forall_cons_2 P v l (jsval_induct v) (go l)
      end) l)
  | VObj fs => HO fs ((fix go fs : Forall (fun kv => P (kv.2)) fs :=
      match fs with
      | [] => Forall_nil_2 _
      | kv :: fs => Forall_cons_2 (fun kv => P (kv.2)) kv fs (jsval_induct kv.2) (go fs)
      end) fs)
  | VFun => HF
  end.
End jsval_ind.

Definition truthy (v : jsval) : bool :=
  match v with
  | VUndef | VNull => false
  | VBool b => b
  | VNum n => negb (bool_decide (n = NInt 0) || bool_decide (n = NNegZero) || bool_decide (n = NNaN))
  | VStr s => str_truthy s
  | _ => true
  end.

(** [a === b] where one side is a primitive of the source text; two objects
    are never the same reference there. *)
Definition strict_eq (a b : jsval) : bool :=
  match a, b with
  | VUndef, VUndef | VNull, VNull => true
  | VBool x, VBool y => Bool.eqb x y
  | VNum x, VNum y => num_eqb x y
  | VStr x, VStr y => str_eqb x y
  | _, _ => false
  end.

(** [Object.is]: like [===] but NaN is itself and the two zeros differ. *)
Definition object_is (a b : jsval) : bool :=
  match a, b with
  | VNum NNaN, VNum NNaN => true
  | VNum NNegZero, VNum NNegZero => true
  | VNum NNegZero, VNum _ | VNum _, VNum NNegZero => false
  | _, _ => strict_eq a b
  end.

(** ** Properties *)

Definition own (fs : list (jstr * jsval)) (k : jstr) : option jsval :=
  snd <$> List.find (fun kv => str_eqb (kv.1) k) fs.

(** The names every object literal and every [JSON.parse] result inherits. *)
Definition object_prototype : list jstr :=
  js <$> ["constructor"; "__defineGetter__"; "__defineSetter__"; "hasOwnProperty";
          "__lookupGetter__"; "__lookupSetter__"; "isPrototypeOf";
          "propertyIsEnumerable"; "toString"; "valueOf"; "toLocaleString"]%string.

Definition inherited (k : jstr) : option jsval :=
  if str_eqb k "__proto__" then Some (VObj [])
  else if existsb (str_eqb k) object_prototype then Some VFun else None.

(** [obj[k]] and [k in obj]. *)
Definition get (fs : list (jstr * jsval)) (k : jstr) : jsval :=
  match own fs k with
  | Some v => v
  | None => default VUndef (inherited k)
  end.
Definition has_property (fs : list (jstr * jsval)) (k : jstr) : bool :=
  match own fs k with Some _ => true | None => bool_decide (is_Some (inherited k)) end.

Definition object_keys (fs : list (jstr * jsval)) : list jstr := fs.*1.

(** [typeof v === "object" && v !== null && !Array.isArray(v)], which the
    sources repeat under the names [isRecord] and [record]. *)
Definition as_record (v : jsval) : option (list (jstr * jsval)) :=
  match v with VObj fs => Some fs | _ => None end.
(** [obj[k] = v] on a plain object, for a key other than [__proto__] (which
    would change the prototype). *)
Fixpoint set_field (fs : list (jstr * jsval)) (k : jstr) (v : jsval) : list (jstr * jsval) :=
  match fs with
  | [] => [(k, v)]
  | (k', v') :: fs => if str_eqb k' k then (k', v) :: fs else (k', v') :: set_field fs k v
  end.

(** [v.k] where [v] is known to be an object. *)
Definition prop (v : jsval) (k : jstr) : jsval :=
  match as_record v with Some fs => get fs k | None => VUndef end.
Definition as_string (v : jsval) : option jstr :=
  match v with VStr s => Some s | _ => None end.

(** [Date.parse] of a string that is not in the ECMAScript date format is
    implementation defined, so what it returns is an argument; [None] is NaN. *)
Class DateParser := date_parse : jstr -> option Z.

(** ** [JSON.stringify] *)

(** How a number that is not a plain integer prints (Number::toString of
    fractions and of magnitudes from [10^21]) is left to the engine. *)
Class NumPrinter := print_nonplain : jsnum -> jstr.

Fixpoint dec_loop (fuel : nat) (n : N) (acc : jstr) : jstr :=
  match fuel with
  | O => acc
  | S fuel =>
      let acc := (48 + n mod 10)%N :: acc in
      if (n <? 10)%N then acc else dec_loop fuel (n / 10)%N acc
  end.
Definition dec_digits (n : N) : jstr := dec_loop (S (N.to_nat (N.size n))) n [].

Definition print_int (z : Z) : jstr :=
  if z <? 0 then 45%N :: dec_digits (Z.to_N (- z)) else dec_digits (Z.to_N z).

Definition num_text `{NumPrinter} (n : jsnum) : jstr :=
  match n with
  | NInt z => if Z.abs z <? 10 ^ 21 then print_int z else print_nonplain n
  | NFrac _ => print_nonplain n
  | NNegZero => "0"
  | NNaN | NInf _ => "null"
  end.

Definition hex_digit (d : N) : N := (if d <? 10 then 48 + d else 87 + d)%N.
Definition quote_unit (c : N) : jstr :=
  if (c =? 8)%N then [92; 98]%N
  else if (c =? 9)%N then [92; 116]%N
  else if (c =? 10)%N then [92; 110]%N
  else if (c =? 12)%N then [92; 102]%N
  else if (c =? 13)%N then [92; 114]%N
  else if (c =? 34)%N then [92; 34]%N
  else if (c =? 92)%N then [92; 92]%N
  else if (c <? 32)%N || is_high c || is_low c then
    [92; 117; hex_digit (c / 4096); hex_digit (c / 256 mod 16);
     hex_digit (c / 16 mod 16); hex_digit (c mod 16)]%N
  else [c].
Fixpoint quote_body (s : jstr) : jstr :=
  match s with
  | [] => []
  | h :: s1 =>
      match s1 with
      | l :: s2 => if is_high h && is_low l then h :: l :: quote_body s2
                   else quote_unit h ++ quote_body s1
      | [] => quote_unit h
      end
  end.
Definition quote (s : jstr) : jstr := 34%N :: quote_body s ++ [34%N].

(** The items of an array or object, comma separated. *)
Definition commas (l : list jstr) : jstr :=
  match l with
  | [] => []
  | x :: l => x ++ foldr (fun y acc => 44%N :: y ++ acc) [] l
  end.

Definition absent (v : jsval) : bool :=
  match v with VUndef | VFun => true | _ => false end.

Fixpoint json_text `{NumPrinter} (v : jsval) : jstr :=
  match v with
  | VUndef | VFun | VNull => "null"
  | VBool b => if b then "true" else "false"
  | VNum n => num_text n
  | VStr s => quote s
  | VArr l => 91%N :: commas (json_text <$> l) ++ [93%N]
  | VObj fs =>
      123%N :: commas ((fix fields fs := match fs with
                        | [] => []
                        | (k, v) :: fs =>
                            if absent v then fields fs
                            else (quote k ++ 58%N :: json_text v) :: fields fs
                        end) fs) ++ [125%N]
  end.

(** [String(v)].  The text of a function value is left out: no value the
    program converts is one. *)
Definition num_string `{NumPrinter} (n : jsnum) : jstr :=
  match n with
  | NNaN => "NaN"
  | NInf b => if b then "-Infinity" else "Infinity"
  | _ => num_text n
  end.
Fixpoint to_string `{NumPrinter} (v : jsval) : jstr :=
  match v with
  | VUndef => "undefined"
  | VNull => "null"
  | VBool b => if b then "true" else "false"
  | VNum n => num_string n
  | VStr s => s
  | VArr l => commas ((fun v => match v with VUndef | VNull => [] | _ => to_string v end) <$> l)
  | VObj _ => "[object Object]"
  | VFun => "function"
  end.

Definition stringify `{NumPrinter} (v : jsval) : option jstr :=
  if absent v then None else Some (json_text v).

(** ** Property lookup *)

Lemma get_cons k v fs k' :
  get ((k, v) :: fs) k' = if str_eqb k k' then v else get fs k'.
Proof. unfold get, own. cbn. by destruct (str_eqb k k'). Qed.

(** Read a property of an object literal whose keys are source literals. *)
Ltac get_lit :=
  repeat match goal with
  | |- context [get ((?k, ?v) :: ?fs) ?k'] =>
      rewrite (get_cons k v fs k');
      let b := eval vm_compute in (str_eqb k k') in
      change (str_eqb k k') with b; cbv beta iota
  end.

(** Evaluate [===] between two source literals. *)
Ltac eval_strict_eq :=
  repeat match goal with
  | |- context [strict_eq ?a ?b] =>
      let r := eval vm_compute in (strict_eq a b) in
      first [ constr_eq r true | constr_eq r false ];
      change (strict_eq a b) with r; cbv beta iota
  end.

(** ** [trim] *)

Lemma startsWith_app p s : startsWith (p ++ s) p = true.
Proof. induction p; cbn; [by destruct s|]. by rewrite N.eqb_refl. Qed.

Lemma startsWith_drop s p : startsWith s p = true -> s = p ++ drop (length p) s.
Proof.
  revert s. induction p as [|c p IH]; intros [|d s]; cbn; try done.
  rewrite andb_true_iff. intros [->%N.eqb_eq Hs]. f_equal. auto.
Qed.

Lemma strict_eq_str v s : strict_eq v (VStr s) = true <-> v = VStr s.
Proof. destruct v; cbn; try done. rewrite str_eqb_eq. naive_solver. Qed.

Lemma trimStart_head s c s' : trimStart s = c :: s' -> is_space c = false.
Proof. induction s as [|x s IH]; cbn; [done|]. case_match; [done|]. by intros [= -> ->]. Qed.

Lemma trimStart_id s : (forall c s', s = c :: s' -> is_space c = false) -> trimStart s = s.
Proof. destruct s as [|c s]; cbn; [done|]. intros H. by rewrite (H c s). Qed.

Lemma trimStart_idem s : trimStart (trimStart s) = trimStart s.
Proof. apply trimStart_id. intros c s' H. by apply trimStart_head in H. Qed.

Lemma trimStart_suffix s : exists p, s = p ++ trimStart s /\ Forall (fun c => is_space c = true) p.
Proof.
  induction s as [|c s (p & Hp & Hf)]; cbn; [by exists []|].
  destruct (is_space c) eqn:E; [|by exists []].
  exists (c :: p). cbn. split; [by f_equal|]. by constructor.
Qed.

Lemma trim_idem s : trim (trim s) = trim s.
Proof.
  unfold trim. set (a := trimStart s).
  rewrite (trimStart_id (reverse (trimStart (reverse a)))).
  - by rewrite reverse_involutive, trimStart_idem.
  - intros c s' H. destruct a as [|d t] eqn:Ha; [done|].
    assert (is_space d = false) as Hd by (by eapply trimStart_head).
    assert (exists u, reverse (trimStart (reverse (d :: t))) = d :: u) as [u Hu].
    { destruct (trimStart_suffix (reverse (d :: t))) as (p & Hp & Hf).
      destruct (reverse (trimStart (reverse (d :: t)))) as [|e u] eqn:He.
      - apply (f_equal reverse) in He. rewrite reverse_involutive in He.
        change (reverse []) with (@nil N) in He.
        rewrite He, app_nil_r in Hp. rewrite <- Hp in Hf.
        rewrite Forall_forall in Hf. specialize (Hf d).
        rewrite elem_of_reverse in Hf. rewrite Hf in Hd by apply list_elem_of_here. done.
      - apply (f_equal reverse) in Hp. rewrite reverse_involutive, reverse_app, He in Hp.
        injection Hp as -> _. eauto. }
    rewrite Hu in H. by injection H as -> _.
Qed.

Lemma trim_nonblank_trim s : (str_length (trim (trim s)) =? 0) = (str_length (trim s) =? 0).
Proof. by rewrite trim_idem. Qed.

(** ** Decimal digits *)

Definition dec_value (s : jstr) : N := foldl (fun acc c => 10 * acc + (c - 48))%N 0%N s.

Lemma dec_loop_value fuel n acc :
  (n < 2 ^ N.of_nat fuel)%N ->
  foldl (fun a c => 10 * a + (c - 48))%N 0%N (dec_loop fuel n acc) =
  foldl (fun a c => 10 * a + (c - 48))%N n acc.
Proof.
  revert n acc. induction fuel as [|fuel IH]; intros n acc Hn; cbn [dec_loop].
  { cbn in Hn. by replace n with 0%N by lia. }
  destruct (n <? 10)%N eqn:E; [|rewrite IH]; cbn [foldl].
  - f_equal. rewrite N.mod_small by lia. lia.
  - f_equal. pose proof (N.div_mod n 10). lia.
  - rewrite Nat2N.inj_succ, N.pow_succ_r' in Hn. pose proof (N.div_mod n 10). lia.
Qed.

Lemma dec_value_digits n : dec_value (dec_digits n) = n.
Proof.
  unfold dec_value, dec_digits. rewrite dec_loop_value; [done|].
  rewrite Nat2N.inj_succ, N2Nat.id, N.pow_succ_r'. pose proof (N.size_gt n). lia.
Qed.

Lemma dec_loop_digits fuel n acc :
  Forall (fun c => is_digit c = true) acc -> Forall (fun c => is_digit c = true) (dec_loop fuel n acc).
Proof.
  revert n acc. induction fuel as [|fuel IH]; intros n acc Ha; cbn [dec_loop]; [done|].
  assert (is_digit (48 + n mod 10) = true) as Hd
    by (unfold is_digit; pose proof (N.mod_lt n 10); lia).
  destruct (n <? 10)%N; [|apply IH]; by constructor.
Qed.

Lemma dec_digits_digits n : Forall (fun c => is_digit c = true) (dec_digits n).
Proof. apply dec_loop_digits. constructor. Qed.

Lemma dec_loop_nonempty fuel n acc : acc <> [] -> dec_loop fuel n acc <> [].
Proof.
  revert n acc. induction fuel as [|fuel IH]; intros n acc Ha; cbn [dec_loop]; [done|].
  destruct (n <? 10)%N; [done|]. by apply IH.
Qed.

Lemma dec_digits_nonempty n : dec_digits n <> [].
Proof. unfold dec_digits. cbn [dec_loop]. destruct (n <? 10)%N; [done|]. by apply dec_loop_nonempty. Qed.

#[export] Instance dec_digits_inj : Inj (=) (=) dec_digits.
Proof. intros a b H. rewrite <- (dec_value_digits a), <- (dec_value_digits b). by rewrite H. Qed.

#[export] Instance print_int_inj : Inj (=) (=) print_int.
Proof.
  intros a b. unfold print_int.
  assert (forall n t, dec_digits n <> 45%N :: t) as Hd.
  { intros n t H. pose proof (dec_digits_digits n) as Hf. rewrite H in Hf.
    apply Forall_cons in Hf as [Hf _]. discriminate Hf. }
  destruct (a <? 0) eqn:Ea, (b <? 0) eqn:Eb; intros H.
  - injection H as H. apply dec_digits_inj in H. lia.
  - symmetry in H. by apply Hd in H.
  - by apply Hd in H.
  - apply dec_digits_inj in H. lia.
Qed.
