(* ===== verification/JsonText.v ===== *)
(** [JSON.stringify] is injective on JSON values: two values with plain
    integers print the same text only when they are the same value.  The
    signatures and digests the program compares are JSON texts, so this is
    what makes equal signatures mean equal commands. *)
From S2P Require Export JsValue.

(** Values that hold only what JSON can say exactly: no [undefined], no
    function, and integers of the range that prints as plain digits. *)
Inductive plain_json : jsval -> Prop :=
| plain_null : plain_json VNull
| plain_bool b : plain_json (VBool b)
| plain_num z : Z.abs z < 10 ^ 21 -> plain_json (VNum (NInt z))
| plain_str s : plain_json (VStr s)
| plain_arr l : (forall v, v ∈ l -> plain_json v) -> plain_json (VArr l)
| plain_obj fs : (forall k v, (k, v) ∈ fs -> plain_json v) -> plain_json (VObj fs).

Lemma plain_obj_fields fs : Forall (fun kv => plain_json kv.2) fs -> plain_json (VObj fs).
Proof. intros Hf. constructor. intros k v Hin. rewrite Forall_forall in Hf. apply (Hf (k, v) Hin). Qed.

(** ** Reading a quoted string back *)

Definition unhex (c : N) : N := (if c <? 58 then c - 48 else c - 87)%N.
Definition unescape (c : N) : N :=
  (if c =? 98 then 8 else if c =? 116 then 9 else if c =? 110 then 10
   else if c =? 102 then 12 else if c =? 114 then 13 else c)%N.

Fixpoint unquote (fuel : nat) (s : jstr) : jstr * jstr :=
  match fuel, s with
  | S fuel, c :: s =>
      if (c =? 34)%N then ([], s)
      else if (c =? 92)%N then
        match s with
        | e :: s =>
            if (e =? 117)%N then
              match s with
              | a :: b :: c :: d :: s =>
                  let (t, r) := unquote fuel s in
                  ((4096 * unhex a + 256 * unhex b + 16 * unhex c + unhex d)%N :: t, r)
              | _ => ([], s)
              end
            else let (t, r) := unquote fuel s in (unescape e :: t, r)
        | [] => ([], [])
        end
      else let (t, r) := unquote fuel s in (c :: t, r)
  | _, _ => ([], s)
  end.

Lemma unhex_digit d : (d < 16)%N -> unhex (hex_digit d) = d.
Proof.
  intros Hd. unfold unhex, hex_digit. destruct (d <? 10)%N eqn:E.
  - replace (48 + d <? 58)%N with true by lia. lia.
  - replace (87 + d <? 58)%N with false by lia. lia.
Qed.

Lemma unquote_raw fuel c s :
  c <> 34%N -> c <> 92%N ->
  unquote (S fuel) (c :: s) = (c :: (unquote fuel s).1, (unquote fuel s).2).
Proof.
  intros H1 H2. cbn [unquote]. rewrite (proj2 (N.eqb_neq _ _) H1), (proj2 (N.eqb_neq _ _) H2).
  by destruct (unquote fuel s).
Qed.

Lemma hex_value c :
  (c < 65536)%N ->
  (4096 * unhex (hex_digit (c / 4096)) + 256 * unhex (hex_digit (c / 256 mod 16))
   + 16 * unhex (hex_digit (c / 16 mod 16)) + unhex (hex_digit (c mod 16)))%N = c.
Proof.
  intros Hc. rewrite !unhex_digit; [|apply N.mod_lt; done..|by apply N.Div0.div_lt_upper_bound].
  assert (c / 256 = c / 16 / 16)%N as -> by by rewrite N.Div0.div_div.
  assert (c / 4096 = c / 16 / 16 / 16)%N as -> by by rewrite !N.Div0.div_div.
  pose proof (N.div_mod c 16). pose proof (N.div_mod (c / 16) 16).
  pose proof (N.div_mod (c / 16 / 16) 16). lia.
Qed.

Lemma unquote_unit fuel c s :
  unquote (S fuel) (quote_unit c ++ s) = (c :: (unquote fuel s).1, (unquote fuel s).2).
Proof.
  unfold quote_unit.
  repeat match goal with |- context [if (c =? ?x)%N then _ else _] =>
    destruct (N.eqb_spec c x) as [->|?]; [cbn; by destruct (unquote fuel s)|] end.
  destruct ((c <? 32)%N || is_high c || is_low c) eqn:E; [|by apply unquote_raw].
  cbn [unquote app N.eqb Pos.eqb]. rewrite hex_value; [by destruct (unquote fuel s)|].
  unfold is_high, is_low in E. lia.
Qed.

Lemma quote_body_cons c s :
  (exists l s', s = l :: s' /\ is_high c && is_low l = true /\ quote_body (c :: s) = c :: l :: quote_body s') \/
  quote_body (c :: s) = quote_unit c ++ quote_body s.
Proof.
  destruct s as [|l s]; cbn; [right; by rewrite app_nil_r|].
  destruct (is_high c && is_low l) eqn:E; [left; by exists l, s|by right].
Qed.

Lemma unquote_body n s r fuel :
  (length s <= n)%nat -> (length s < fuel)%nat ->
  unquote fuel (quote_body s ++ 34%N :: r) = (s, r).
Proof.
  revert s fuel. induction n as [|n IH]; intros s fuel Hn Hf.
  { destruct s; [|cbn in Hn; lia]. destruct fuel; [cbn in Hf; lia|]. done. }
  destruct s as [|c s]; [destruct fuel; [cbn in Hf; lia|done]|].
  destruct fuel as [|fuel]; [cbn in Hf; lia|]. cbn [length] in Hn, Hf.
  destruct (quote_body_cons c s) as [(l & s' & -> & Hp & ->)| ->].
  - cbn [length] in Hn, Hf. unfold is_high, is_low in Hp. cbn [app].
    rewrite unquote_raw by lia. destruct fuel as [|fuel]; [lia|].
    rewrite unquote_raw by lia. by rewrite IH by lia.
  - rewrite <- app_assoc, unquote_unit. by rewrite IH by lia.
Qed.

Lemma quote_prefix s s' r r' : quote s ++ r = quote s' ++ r' -> s = s' /\ r = r'.
Proof.
  unfold quote. cbn [app]. rewrite <- !app_assoc. cbn [app]. intros [= H].
  set (n := (length s + length s' + 1)%nat).
  pose proof (unquote_body _ s r n (le_n _)) as E1.
  pose proof (unquote_body _ s' r' n (le_n _)) as E2.
  rewrite H, E2 in E1 by lia. specialize (E1 ltac:(lia)). by injection E1 as -> ->.
Qed.

(** ** Numbers *)

(** Where a number ends. *)
Definition stops (s : jstr) : Prop := match s with c :: _ => is_digit c = false | [] => True end.

Lemma digits_prefix a a' s s' :
  Forall (fun c => is_digit c = true) a -> Forall (fun c => is_digit c = true) a' ->
  stops s -> stops s' -> a ++ s = a' ++ s' -> a = a' /\ s = s'.
Proof.
  intros Ha. revert a'. induction Ha as [|c a Hc _ IH]; intros [|c' a'] Ha' Hs Hs' Heq.
  - done.
  - cbn in Heq. subst s. apply Forall_cons in Ha' as [? _]. cbn in Hs. congruence.
  - cbn in Heq. subst s'. cbn in Hs'. congruence.
  - injection Heq as -> Heq. apply Forall_cons in Ha' as [_ Ha'].
    destruct (IH a') as [-> ->]; done.
Qed.

Lemma print_int_prefix z z' s s' :
  stops s -> stops s' -> print_int z ++ s = print_int z' ++ s' -> z = z' /\ s = s'.
Proof.
  intros Hs Hs'. unfold print_int.
  assert (forall n t u, dec_digits n ++ t <> 45%N :: u) as Hd.
  { intros n t u Hx. pose proof (dec_digits_digits n) as Hf. pose proof (dec_digits_nonempty n).
    destruct (dec_digits n) as [|c l]; [done|]. injection Hx as -> _.
    apply Forall_cons in Hf as [Hf _]. discriminate Hf. }
  destruct (z <? 0) eqn:Ez, (z' <? 0) eqn:Ez'; cbn [app]; intros Heq.
  - injection Heq as Heq. apply digits_prefix in Heq as [Heq%dec_digits_inj ->];
      [split; [lia|done]|apply dec_digits_digits..|done|done].
  - symmetry in Heq. by apply Hd in Heq.
  - by apply Hd in Heq.
  - apply digits_prefix in Heq as [Heq%dec_digits_inj ->];
      [split; [lia|done]|apply dec_digits_digits..|done|done].
Qed.

(** ** Comma-separated items *)

Section Items.
Context {A : Type} (enc : A -> jstr) (P : A -> Prop) (close : N).

(** What follows the text of [x] can be told from it. *)
Definition delimits (x : A) : Prop :=
  forall y s s', P y -> stops s -> stops s' -> enc x ++ s = enc y ++ s' -> x = y /\ s = s'.

Definition rest_of (l : list A) : jstr := foldr (fun y acc => 44%N :: y ++ acc) [] (enc <$> l).

Hypothesis close_stops : is_digit close = false.
Hypothesis close_comma : close <> 44%N.
Hypothesis enc_head : forall x s, P x -> exists c t, enc x ++ s = c :: t /\ c <> close.

Lemma rest_stops l s : stops (rest_of l ++ close :: s).
Proof. destruct l; cbn; [apply close_stops|done]. Qed.

Lemma rest_prefix l l' s s' :
  (forall x, x ∈ l -> delimits x) -> (forall x, x ∈ l' -> P x) ->
  rest_of l ++ close :: s = rest_of l' ++ close :: s' -> l = l' /\ s = s'.
Proof.
  revert l'. induction l as [|x l IH]; intros [|y l'] Hl Hl' Heq.
  - by injection Heq as ->.
  - injection Heq as Hc _. by destruct close_comma.
  - injection Heq as Hc _. by destruct close_comma.
  - unfold rest_of in Heq. cbn in Heq. rewrite <- !app_assoc in Heq. injection Heq as Heq.
    destruct (Hl x (list_elem_of_here _ _) y _ _ (Hl' y (list_elem_of_here _ _))
      (rest_stops l s) (rest_stops l' s') Heq) as [-> Heq'].
    destruct (IH l') as [-> ->]; [|..|exact Heq'|done].
    + intros z Hz. apply Hl. by apply list_elem_of_further.
    + intros z Hz. apply Hl'. by apply list_elem_of_further.
Qed.

Lemma commas_prefix l l' s s' :
  (forall x, x ∈ l -> P x) -> (forall x, x ∈ l -> delimits x) -> (forall x, x ∈ l' -> P x) ->
  commas (enc <$> l) ++ close :: s = commas (enc <$> l') ++ close :: s' -> l = l' /\ s = s'.
Proof.
  intros HP Hl Hl' Heq. destruct l as [|x l], l' as [|y l']; cbn in Heq.
  - by injection Heq as ->.
  - destruct (enc_head y (rest_of l' ++ close :: s') (Hl' y (list_elem_of_here _ _))) as (c & t & Hc & Hne).
    rewrite <- app_assoc in Heq. change (close :: s = enc y ++ rest_of l' ++ close :: s') in Heq.
    rewrite Hc in Heq. injection Heq as Hcc _. by destruct Hne.
  - destruct (enc_head x (rest_of l ++ close :: s) (HP x (list_elem_of_here _ _))) as (c & t & Hc & Hne).
    rewrite <- app_assoc in Heq. change (enc x ++ rest_of l ++ close :: s = close :: s') in Heq.
    rewrite Hc in Heq. injection Heq as Hcc _. by destruct Hne.
  - rewrite <- !app_assoc in Heq.
    change (enc x ++ rest_of l ++ close :: s = enc y ++ rest_of l' ++ close :: s') in Heq.
    destruct (Hl x (list_elem_of_here _ _) y _ _ (Hl' y (list_elem_of_here _ _))
      (rest_stops l s) (rest_stops l' s') Heq) as [-> Heq'].
    destruct (rest_prefix l l' s s') as [-> ->]; [..|exact Heq'|done].
    + intros z Hz. apply Hl. by apply list_elem_of_further.
    + intros z Hz. apply Hl'. by apply list_elem_of_further.
Qed.
End Items.

(** ** Values *)

Section Text.
Context `{NumPrinter}.

Definition field_text (kv : jstr * jsval) : jstr := quote kv.1 ++ 58%N :: json_text kv.2.
Definition plain_field (kv : jstr * jsval) : Prop := plain_json kv.2.

Lemma json_text_obj fs :
  (forall k v, (k, v) ∈ fs -> plain_json v) ->
  json_text (VObj fs) = 123%N :: commas (field_text <$> fs) ++ [125%N].
Proof.
  intros Hp. cbn. do 3 f_equal. induction fs as [|[k v] fs IH]; cbn; [done|].
  assert (absent v = false) as ->.
  { specialize (Hp k v (list_elem_of_here _ _)). by destruct Hp. }
  f_equal. apply IH. intros k' v' Hin. eapply Hp. by apply list_elem_of_further.
Qed.

(** The first unit of a text tells the kind of value. *)
Definition kind_unit (v : jsval) (c : N) : Prop :=
  match v with
  | VNull => c = 110 | VBool true => c = 116 | VBool false => c = 102
  | VNum _ => c = 45 \/ is_digit c = true
  | VStr _ => c = 34 | VArr _ => c = 91 | VObj _ => c = 123
  | _ => False
  end%N.

Lemma json_text_head v s : plain_json v -> exists c t, json_text v ++ s = c :: t /\ kind_unit v c.
Proof.
  intros Hv. destruct Hv as [|[]|z Hz|x|l _|fs _]; try (cbn; eauto; fail).
  cbn [json_text num_text]. replace (Z.abs z <? 10 ^ 21) with true by lia. unfold print_int.
  destruct (z <? 0); [cbn; eauto|].
  pose proof (dec_digits_digits (Z.to_N z)) as Hf. pose proof (dec_digits_nonempty (Z.to_N z)).
  destruct (dec_digits (Z.to_N z)) as [|c t]; [done|]. cbn. exists c, (t ++ s).
  apply Forall_cons in Hf as [Hf _]. auto.
Qed.

Lemma json_text_delimits v : plain_json v -> delimits json_text plain_json v.
Proof.
  induction v as [| |b|n|x|l IH|fs IH|] using jsval_induct; intros Hv w s s' Hw Hs Hs' Heq;
    inversion Hv; subst; destruct (json_text_head _ s Hv) as (c & t & Hc & Hk);
    destruct (json_text_head _ s' Hw) as (c' & t' & Hc' & Hk');
    pose proof Heq as Hcc; rewrite Hc, Hc' in Hcc; injection Hcc as <- _; clear Hc Hc' t t';
    inversion Hw; subst;
    try (exfalso; repeat match goal with b : bool |- _ => destruct b end; cbn in Hk, Hk';
         repeat match goal with Hx : _ \/ _ |- _ => destruct Hx end; subst; discriminate).
  - by injection Heq as ->.
  - destruct b, b0; cbn in Hk, Hk'; subst; try discriminate; by injection Heq as ->.
  - cbn [json_text num_text] in Heq.
    rewrite (proj2 (Z.ltb_lt (Z.abs z) _)), (proj2 (Z.ltb_lt (Z.abs z0) _)) in Heq by done.
    apply print_int_prefix in Heq as [-> ->]; done.
  - cbn [json_text] in Heq. by apply quote_prefix in Heq as [-> ->].
  - cbn [json_text app] in Heq. injection Heq as Heq. rewrite <- !app_assoc in Heq. cbn [app] in Heq.
    apply (commas_prefix json_text plain_json) in Heq as [-> ->]; try done.
    + intros x u Hx. destruct (json_text_head x u Hx) as (d & t & -> & Hd). exists d, t. split; [done|].
      intros ->. destruct x as [| |[]| | | | |]; cbn in Hd; try done. by destruct Hd.
    + intros x Hx. rewrite Forall_forall in IH. by apply IH; [|auto].
  - rewrite !json_text_obj in Heq by done. cbn [app] in Heq. injection Heq as Heq.
    rewrite <- !app_assoc in Heq. cbn [app] in Heq.
    apply (commas_prefix field_text plain_field) in Heq as [-> ->]; try done.
    + intros [k x] u Hx. cbn. by eexists _, _.
    + intros [k x] Hx. unfold plain_field. cbn. eauto.
    + intros [k x] Hx [k' x'] u u' Hx' Hu Hu' Hkv. unfold field_text in Hkv. cbn [fst snd] in Hkv.
      rewrite Forall_forall in IH. pose proof (IH _ Hx) as IHx. cbn in IHx.
      rewrite <- !app_assoc in Hkv.
      change (quote k ++ (58%N :: json_text x ++ u) = quote k' ++ (58%N :: json_text x' ++ u')) in Hkv.
      apply quote_prefix in Hkv as [-> [= Hkv]].
      destruct (IHx ltac:(eauto) x' u u' Hx' Hu Hu' Hkv) as [-> ->]. done.
    + intros [k x] Hx. unfold plain_field. cbn. eauto.
Qed.

Lemma json_text_inj v w : plain_json v -> plain_json w -> json_text v = json_text w -> v = w.
Proof.
  intros Hv Hw Heq. apply (json_text_delimits v Hv w [] []); [done..|]. by rewrite Heq.
Qed.

Lemma stringify_inj v w : plain_json v -> plain_json w -> stringify v = stringify w -> v = w.
Proof.
  intros Hv Hw. unfold stringify.
  assert (forall x, plain_json x -> absent x = false) as Ha by by intros x [].
  rewrite !Ha by done. intros [= Heq]. by apply json_text_inj.
Qed.
End Text.
