(* ===== verification/Scripts.v ===== *)
(** What the scripts of the repository share: they stop at the first error, an
    error is a thrown message, and reading a property of [undefined] or [null]
    is a crash.  A recursion that is fuelled in the model is shown to end. *)
From S2P Require Export JsonText.

Inductive ScriptError :=
| Failed (message : jstr)
| Crashed
| Unfinished (** out of fuel *).

Abbreviation script := (outcome ScriptError).

Definition script_fail {A} (message : jstr) : script A := Throw (Failed message).
Definition fail_when (b : bool) (message : jstr) : script () := throw_if b (Failed message).

(** [`${label}.${key}`] *)
Definition dotted (label key : jstr) : jstr := label ++ 46%N :: key.

Definition defined (v : jsval) : bool := match v with VUndef => false | _ => true end.
Definition string_value (v : jsval) : bool := match v with VStr _ => true | _ => false end.

(** An object with a [toString] of its own, which JSON cannot make callable,
    has no text. *)
Fixpoint printable (v : jsval) : bool :=
  match v with
  | VObj fs => bool_decide (own fs "toString" = None)
  | VArr l => forallb printable l
  | _ => true
  end.

(** [`${v}`] *)
Definition template `{NumPrinter} (v : jsval) : script jstr :=
  if printable v then Ok (to_string v) else Throw Crashed.

(** [["a", "b"].includes(s)] *)
Definition named_in (names : list string) (s : jstr) : bool := existsb (fun n => str_eqb (js n) s) names.

Lemma fail_when_ok b message u : fail_when b message = Ok u -> b = false.
Proof. by destruct b. Qed.

Lemma for_each_elem {E A} (f : A -> outcome E ()) l u x : for_each f l = Ok u -> x ∈ l -> f x = Ok ().
Proof. destruct u. rewrite for_each_ok. auto. Qed.

Lemma existsb_str_elem (x : jstr) l : existsb (str_eqb x) l = true <-> x ∈ l.
Proof.
  rewrite existsb_elem. split; [intros (y & Hy & ->%str_eqb_eq); done|]. intros Hx. exists x. by rewrite str_eqb_refl.
Qed.

(** Membership of a literal in a literal list. *)
Ltac in_list := solve [repeat first [apply list_elem_of_here | apply list_elem_of_further]].

(** ** Ending *)

Definition ends {A} (m : script A) : Prop := m <> Throw Unfinished.

Lemma ends_ok {A} (a : A) : ends (Ok a).
Proof. done. Qed.
Lemma ends_fail {A} message : ends (script_fail (A := A) message).
Proof. done. Qed.
Lemma ends_crash {A} : ends (A := A) (Throw Crashed).
Proof. done. Qed.
Lemma ends_when b message : ends (fail_when b message).
Proof. unfold ends, fail_when. by destruct b. Qed.
Lemma ends_bind {A B} (m : script A) (f : A -> script B) :
  ends m -> (forall a, m = Ok a -> ends (f a)) -> ends (m ≫= f).
Proof. unfold ends. destruct m; cbn; [eauto|]. intros H _ [= ->]. done. Qed.
Lemma ends_each {A} (f : A -> script ()) l : (forall x, x ∈ l -> ends (f x)) -> ends (for_each f l).
Proof. intros H (x & Hx & E)%for_each_throw. by apply (H x). Qed.
Lemma ends_fmap {A B} (f : A -> B) (m : script A) : ends m -> ends (f <$> m).
Proof. unfold ends. destruct m; cbn; congruence. Qed.

Create HintDb ends.
#[export] Hint Resolve ends_ok ends_fail ends_crash ends_when ends_fmap : ends.
#[export] Hint Resolve ends_bind ends_each | 5 : ends.
#[export] Hint Extern 6 (ends (if ?b then _ else _)) => destruct b : ends.
#[export] Hint Extern 6 (ends (match ?x with _ => _ end)) => destruct x : ends.

(** Peel binds and branches; what is left is a call that ends. *)
Ltac ends_all :=
  repeat first
    [ solve [eauto with ends]
    | apply ends_bind; [|intros ? _]
    | match goal with
      | |- ends (if ?b then _ else _) => destruct b
      | |- ends (match ?x with _ => _ end) => destruct x
      end
    | apply ends_each; intros ? _ ].

(** Peel a run that returned. *)
Ltac inv_script :=
  repeat first
    [ progress inv_ok
    | match goal with
      | E : fail_when _ _ = Ok _ |- _ => apply fail_when_ok in E
      | E : script_fail _ = Ok _ |- _ => discriminate E
      | E : (_, _) = (_, _) |- _ => injection E as E; try subst
      end ].
