(* ===== verification/Regex.v ===== *)
(** Regular expressions, for the patterns the sources write: sequences of
    character classes with [*], [+] and [?], anchored at both ends.  Matching
    is by derivatives, shown equal to membership in the language. *)
From S2P Require Export JsValue.

Inductive regex :=
| REmpty
| REps
| RClass (p : N -> bool)
| RSeq (a b : regex)
| RAlt (a b : regex)
| RStar (a : regex).

Inductive matches : regex -> jstr -> Prop :=
| m_eps : matches REps []
| m_class p c : p c = true -> matches (RClass p) [c]
| m_seq a b s t : matches a s -> matches b t -> matches (RSeq a b) (s ++ t)
| m_alt_l a b s : matches a s -> matches (RAlt a b) s
| m_alt_r a b s : matches b s -> matches (RAlt a b) s
| m_star_nil a : matches (RStar a) []
| m_star_cons a c s t : matches a (c :: s) -> matches (RStar a) t -> matches (RStar a) (c :: s ++ t).

Fixpoint nullable (r : regex) : bool :=
  match r with
  | REmpty | RClass _ => false
  | REps | RStar _ => true
  | RSeq a b => nullable a && nullable b
  | RAlt a b => nullable a || nullable b
  end.

Fixpoint deriv (c : N) (r : regex) : regex :=
  match r with
  | REmpty | REps => REmpty
  | RClass p => if p c then REps else REmpty
  | RSeq a b => if nullable a then RAlt (RSeq (deriv c a) b) (deriv c b) else RSeq (deriv c a) b
  | RAlt a b => RAlt (deriv c a) (deriv c b)
  | RStar a => RSeq (deriv c a) (RStar a)
  end.

(** [/^r$/.test(s)] *)
Fixpoint regex_test (r : regex) (s : jstr) : bool :=
  match s with [] => nullable r | c :: s => regex_test (deriv c r) s end.

Lemma matches_seq a b s :
  matches (RSeq a b) s <-> exists t u, s = t ++ u /\ matches a t /\ matches b u.
Proof.
  split; [inversion 1; subst; eauto|]. intros (t & u & -> & ? & ?). by apply m_seq.
Qed.

Lemma nullable_spec r : nullable r = true <-> matches r [].
Proof.
  induction r; cbn.
  - split; [done|inversion 1].
  - split; [constructor|done].
  - split; [done|inversion 1].
  - rewrite andb_true_iff, IHr1, IHr2, matches_seq. split.
    + intros [? ?]. by exists [], [].
    + by intros (t & u & [-> ->]%eq_sym%app_nil & ? & ?).
  - rewrite orb_true_iff, IHr1, IHr2. split.
    + intros [?|?]; [by apply m_alt_l|by apply m_alt_r].
    + inversion 1; auto.
  - split; [constructor|done].
Qed.

Lemma deriv_spec c r s : matches (deriv c r) s <-> matches r (c :: s).
Proof.
  revert s. induction r as [| |p|a IHa b IHb|a IHa b IHb|a IHa]; intros s; cbn.
  - split; inversion 1.
  - split; inversion 1.
  - destruct (p c) eqn:E; split; inversion 1; subst; try congruence; by constructor.
  - assert (matches (RSeq (deriv c a) b) s <->
            exists t u, c :: s = (c :: t) ++ u /\ matches a (c :: t) /\ matches b u) as Hseq.
    { rewrite matches_seq. split.
      - intros (t & u & -> & Ht & Hu). exists t, u. by rewrite IHa in Ht.
      - intros (t & u & [= ->] & Ht & Hu). exists t, u. by rewrite IHa. }
    assert (matches (RSeq a b) (c :: s) <->
            (exists t u, c :: s = (c :: t) ++ u /\ matches a (c :: t) /\ matches b u) \/
            (matches a [] /\ matches b (c :: s))) as ->.
    { rewrite matches_seq. split.
      - intros ([|d t] & u & Heq & Ht & Hu); [right; cbn in Heq; by subst|].
        injection Heq as -> ->. left. by exists t, u.
      - intros [(t & u & -> & Ht & Hu)|[H1 H2]]; [by exists (c :: t), u|by exists [], (c :: s)]. }
    rewrite <- Hseq, <- nullable_spec. destruct (nullable a).
    + split.
      * inversion 1; subst; [by left|right; split; [done|by apply IHb]].
      * intros [?|[_ ?]]; [by apply m_alt_l|apply m_alt_r; by apply IHb].
    + split; [by left|]. by intros [?|[? _]].
  - split.
    + inversion 1; subst; [apply m_alt_l; by apply IHa|apply m_alt_r; by apply IHb].
    + inversion 1; subst; [apply m_alt_l; by apply IHa|apply m_alt_r; by apply IHb].
  - split.
    + inversion 1; subst. apply m_star_cons; [by apply IHa|done].
    + inversion 1; subst. apply m_seq; [by apply IHa|done].
Qed.

Lemma regex_test_spec r s : regex_test r s = true <-> matches r s.
Proof.
  revert r. induction s as [|c s IH]; intros r; cbn; [apply nullable_spec|].
  rewrite IH. apply deriv_spec.
Qed.

(** ** Pattern text

    The part of the pattern syntax the contract uses: [^items$] where an item
    is a character, [\d], [\.] or a bracketed class of characters and ranges,
    with an optional [*], [+] or [?].  [None] outside of it. *)

Fixpoint parse_class (p : jstr) (acc : N -> bool) : option ((N -> bool) * jstr) :=
  match p with
  | [] => None
  | 93%N :: p => Some (acc, p)
  | a :: p' =>
      match p' with
      | 45%N :: b :: p'' =>
          if (b =? 93)%N then Some (fun c => acc c || (c =? a)%N || (c =? 45)%N, p'')
          else parse_class p'' (fun c => acc c || ((a <=? c)%N && (c <=? b)%N))
      | _ => parse_class p' (fun c => acc c || (c =? a)%N)
      end
  end.

Definition parse_atom (p : jstr) : option ((N -> bool) * jstr) :=
  match p with
  | 91%N :: p => parse_class p (fun _ => false)
  | 92%N :: 100%N :: p => Some (is_digit, p)
  | 92%N :: 46%N :: p => Some (N.eqb 46, p)
  | c :: p => if is_digit c || is_upper c || ((97 <=? c) && (c <=? 122))%N || (c =? 45)%N
              then Some (N.eqb c, p) else None
  | [] => None
  end.

Definition quantify (a : regex) (p : jstr) : regex * jstr :=
  match p with
  | 42%N :: p => (RStar a, p)
  | 43%N :: p => (RSeq a (RStar a), p)
  | 63%N :: p => (RAlt a REps, p)
  | _ => (a, p)
  end.

Fixpoint parse_items (fuel : nat) (p : jstr) : option regex :=
  match fuel with
  | O => None
  | S fuel =>
      match p with
      | [36%N] => Some REps
      | _ => '(c, p) ← parse_atom p;
             let '(r, p) := quantify (RClass c) p in
             rest ← parse_items fuel p;
             Some (RSeq r rest)
      end
  end.

Definition parse_pattern (p : jstr) : option regex :=
  match p with 94%N :: p => parse_items (S (length p)) p | _ => None end.

(** [new RegExp(pattern).test(s)] for a pattern of that part. *)
Definition regexp_test (pattern s : jstr) : bool :=
  match parse_pattern pattern with Some r => regex_test r s | None => false end.

Example regexp_version : regexp_test "^\d+\.\d+\.\d+$" "10.2.33" = true.
Proof. reflexivity. Qed.
Example regexp_key : regexp_test "^[a-z][a-z0-9_.-]*$" "trip.list_all-1" = true.
Proof. reflexivity. Qed.
Example regexp_key_upper : regexp_test "^[a-z][a-z0-9_.-]*$" "tripX" = false.
Proof. reflexivity. Qed.
