(* ===== verification/JsUri.v ===== *)
(** [encodeURIComponent] and [decodeURIComponent].  [None] stands for the
    [URIError] they throw: a lone surrogate when encoding, malformed escapes
    or malformed UTF-8 when decoding. *)
From S2P Require Export JsValue.

#[local] Open Scope N_scope.

(** ** Code points *)

Definition cp_units (c : N) : jstr :=
  if c <? 65536 then [c]
  else [55296 + (c - 65536) / 1024; 56320 + (c - 65536) mod 1024].

Fixpoint code_points (s : jstr) : option (list N) :=
  match s with
  | [] => Some []
  | h :: s1 =>
      if is_low h then None
      else if is_high h then
        match s1 with
        | l :: s2 =>
            if is_low l then
              rest ← code_points s2;
              Some (65536 + (h - 55296) * 1024 + (l - 56320) :: rest)
            else None
        | [] => None
        end
      else rest ← code_points s1; Some (h :: rest)
  end.

Definition is_cp (c : N) : bool := (c <? 1114112) && negb (is_high c || is_low c).

(** ** UTF-8 *)

Definition utf8 (c : N) : list N :=
  if c <? 128 then [c]
  else if c <? 2048 then [192 + c / 64; 128 + c mod 64]
  else if c <? 65536 then [224 + c / 4096; 128 + c / 64 mod 64; 128 + c mod 64]
  else [240 + c / 262144; 128 + c / 4096 mod 64; 128 + c / 64 mod 64; 128 + c mod 64].

Definition upper_hex (d : N) : N := if d <? 10 then 48 + d else 55 + d.
Definition percent (b : N) : jstr := [37; upper_hex (b / 16); upper_hex (b mod 16)].

(** Letters, digits and the marks [- _ . ! ~ * ' ( )]. *)
Definition uri_unreserved (c : N) : bool :=
  is_digit c || is_upper c || (97 <=? c) && (c <=? 122)
  || existsb (N.eqb c) [45; 95; 46; 33; 126; 42; 39; 40; 41].

Definition encode_cp (c : N) : jstr :=
  if uri_unreserved c then [c] else utf8 c ≫= percent.

Definition encodeURIComponent (s : jstr) : option jstr :=
  cs ← code_points s; Some (cs ≫= encode_cp).

(** ** Decoding *)

Inductive uri_token := Lit (c : N) | Byte (b : N).

Definition hex_value (c : N) : N :=
  if is_digit c then c - 48 else if 97 <=? c then c - 87 else c - 55.

Fixpoint uri_tokens (s : jstr) : option (list uri_token) :=
  match s with
  | [] => Some []
  | c :: s1 =>
      if c =? 37 then
        match s1 with
        | h :: l :: s2 =>
            if is_hex h && is_hex l then
              rest ← uri_tokens s2; Some (Byte (16 * hex_value h + hex_value l) :: rest)
            else None
        | _ => None
        end
      else rest ← uri_tokens s1; Some (Lit c :: rest)
  end.

Definition is_cont (b : N) : bool := (128 <=? b) && (b <? 192).

(** The code point of a well formed multi-byte sequence and no other. *)
Definition two_bytes (b b1 : N) : option N :=
  let c := (b - 192) * 64 + (b1 - 128) in
  if is_cont b1 && (128 <=? c) then Some c else None.
Definition three_bytes (b b1 b2 : N) : option N :=
  let c := (b - 224) * 4096 + (b1 - 128) * 64 + (b2 - 128) in
  if is_cont b1 && is_cont b2 && (2048 <=? c) && is_cp c then Some c else None.
Definition four_bytes (b b1 b2 b3 : N) : option N :=
  let c := (b - 240) * 262144 + (b1 - 128) * 4096 + (b2 - 128) * 64 + (b3 - 128) in
  if is_cont b1 && is_cont b2 && is_cont b3 && (65536 <=? c) && is_cp c then Some c else None.

Fixpoint decode_tokens (ts : list uri_token) : option jstr :=
  match ts with
  | [] => Some []
  | Lit c :: ts => rest ← decode_tokens ts; Some (c :: rest)
  | Byte b :: ts =>
      if b <? 128 then rest ← decode_tokens ts; Some (b :: rest)
      else if (192 <=? b) && (b <? 224) then
        match ts with
        | Byte b1 :: ts =>
            c ← two_bytes b b1; rest ← decode_tokens ts; Some (cp_units c ++ rest)
        | _ => None
        end
      else if (224 <=? b) && (b <? 240) then
        match ts with
        | Byte b1 :: Byte b2 :: ts =>
            c ← three_bytes b b1 b2; rest ← decode_tokens ts; Some (cp_units c ++ rest)
        | _ => None
        end
      else if (240 <=? b) && (b <? 248) then
        match ts with
        | Byte b1 :: Byte b2 :: Byte b3 :: ts =>
            c ← four_bytes b b1 b2 b3; rest ← decode_tokens ts; Some (cp_units c ++ rest)
        | _ => None
        end
      else None
  end.

Definition decodeURIComponent (s : jstr) : option jstr :=
  ts ← uri_tokens s; decode_tokens ts.

(** ** Decoding undoes encoding *)

Lemma hex_value_upper d : d < 16 -> is_hex (upper_hex d) = true /\ hex_value (upper_hex d) = d.
Proof.
  intros Hd. unfold upper_hex, is_hex, is_lower_hex, hex_value, is_digit.
  destruct (d <? 10) eqn:E; split; repeat case_match; lia.
Qed.

Lemma tokens_percent b s :
  b < 256 -> uri_tokens (percent b ++ s) = (fun ts => Byte b :: ts) <$> uri_tokens s.
Proof.
  intros Hb. unfold percent. cbn [app uri_tokens].
  destruct (hex_value_upper (b / 16)) as [-> E1]; [lia|].
  destruct (hex_value_upper (b mod 16)) as [-> E2]; [lia|]. rewrite E1, E2. cbn.
  replace (16 * (b / 16) + b mod 16) with b by lia. by destruct (uri_tokens s).
Qed.

Lemma tokens_bytes bs s :
  Forall (fun b => b < 256) bs ->
  uri_tokens ((bs ≫= percent) ++ s) = (fun ts => (Byte <$> bs) ++ ts) <$> uri_tokens s.
Proof.
  induction 1 as [|b bs Hb _ IH]; [by cbn; destruct (uri_tokens s)|].
  rewrite bind_cons, <- app_assoc, tokens_percent, IH by done. by destruct (uri_tokens s).
Qed.

Lemma utf8_bytes c : c < 1114112 -> Forall (fun b => b < 256) (utf8 c).
Proof.
  intros Hc. unfold utf8. repeat case_match; repeat constructor; lia.
Qed.

(** The decoder reads back the bytes of one code point. *)
Lemma decode_utf8 c ts :
  is_cp c = true -> decode_tokens ((Byte <$> utf8 c) ++ ts) = (fun r => cp_units c ++ r) <$> decode_tokens ts.
Proof.
  intros Hc. assert (Hcp := Hc). unfold is_cp, is_high, is_low in Hc.
  unfold utf8. destruct (c <? 128) eqn:E1; [|destruct (c <? 2048) eqn:E2; [|destruct (c <? 65536) eqn:E3]].
  - cbn. rewrite E1. unfold cp_units. replace (c <? 65536) with true by lia. by destruct (decode_tokens ts).
  - cbn. replace (192 + c / 64 <? 128) with false by lia.
    replace ((192 <=? 192 + c / 64) && (192 + c / 64 <? 224)) with true by lia.
    unfold two_bytes, is_cont.
    replace ((192 + c / 64 - 192) * 64 + (128 + c mod 64 - 128)) with c by lia.
    replace (_ && _ && _) with true by lia. cbn. by destruct (decode_tokens ts).
  - cbn. replace (224 + c / 4096 <? 128) with false by lia.
    replace ((192 <=? 224 + c / 4096) && (224 + c / 4096 <? 224)) with false by lia.
    replace ((224 <=? 224 + c / 4096) && (224 + c / 4096 <? 240)) with true by lia.
    unfold three_bytes, is_cont.
    replace ((224 + c / 4096 - 224) * 4096 + (128 + c / 64 mod 64 - 128) * 64 + (128 + c mod 64 - 128)) with c by lia.
    rewrite Hcp. replace (_ && _ && _ && _) with true by lia. cbn. by destruct (decode_tokens ts).
  - cbn. replace (240 + c / 262144 <? 128) with false by lia.
    replace ((192 <=? 240 + c / 262144) && (240 + c / 262144 <? 224)) with false by lia.
    replace ((224 <=? 240 + c / 262144) && (240 + c / 262144 <? 240)) with false by lia.
    replace ((240 <=? 240 + c / 262144) && (240 + c / 262144 <? 248)) with true by lia.
    unfold four_bytes, is_cont.
    replace ((240 + c / 262144 - 240) * 262144 + (128 + c / 4096 mod 64 - 128) * 4096
             + (128 + c / 64 mod 64 - 128) * 64 + (128 + c mod 64 - 128)) with c by lia.
    rewrite Hcp. replace (_ && _ && _ && _ && _) with true by lia. cbn. by destruct (decode_tokens ts).
Qed.

Lemma unreserved_ascii c : uri_unreserved c = true -> c < 128 /\ c <> 37.
Proof. unfold uri_unreserved, is_digit, is_upper. cbn. lia. Qed.

Lemma decode_encode_cp c s ts :
  is_cp c = true -> uri_tokens s = Some ts ->
  exists ts', uri_tokens (encode_cp c ++ s) = Some ts' /\
    decode_tokens ts' = (fun r => cp_units c ++ r) <$> decode_tokens ts.
Proof.
  intros Hc Hs. unfold encode_cp. destruct (uri_unreserved c) eqn:E.
  - apply unreserved_ascii in E as [Hlt Hne]. exists (Lit c :: ts). cbn.
    replace (c =? 37) with false by lia. rewrite Hs. split; [done|].
    unfold cp_units. replace (c <? 65536) with true by lia. by destruct (decode_tokens ts).
  - exists ((Byte <$> utf8 c) ++ ts). rewrite tokens_bytes, Hs; [|apply utf8_bytes; unfold is_cp in Hc; lia].
    split; [done|]. by apply decode_utf8.
Qed.

Lemma decode_encode_cps cs :
  Forall (fun c => is_cp c = true) cs ->
  exists ts, uri_tokens (cs ≫= encode_cp) = Some ts /\ decode_tokens ts = Some (cs ≫= cp_units).
Proof.
  induction 1 as [|c cs Hc _ (ts & Ht & Hd)]; [by exists []|].
  destruct (decode_encode_cp c _ _ Hc Ht) as (ts' & Ht' & Hd').
  exists ts'. rewrite bind_cons, Ht', Hd', Hd. done.
Qed.

(** Strings of UTF-16 code units. *)
Definition units_ok (s : jstr) : Prop := Forall (fun c => c < 65536) s.

Lemma code_points_units s cs :
  units_ok s -> code_points s = Some cs ->
  Forall (fun c => is_cp c = true) cs /\ cs ≫= cp_units = s.
Proof.
  remember (length s) as n eqn:Hn. revert s cs Hn.
  induction (Wf_nat.lt_wf n) as [n _ IH]. intros [|h s1] cs Hn Hu; cbn; [by intros [= <-]|].
  apply Forall_cons in Hu as [Hh Hu]. destruct (is_low h) eqn:El; [done|].
  destruct (is_high h) eqn:Eh.
  - destruct s1 as [|l s2]; [done|]. apply Forall_cons in Hu as [Hl Hu].
    destruct (is_low l) eqn:Ell; [|done].
    destruct (code_points s2) as [cs2|] eqn:E2; [|done]. intros [= <-].
    destruct (IH (length s2)) with (s := s2) (cs := cs2) as [Hf Hc]; [cbn in Hn; lia|done..|].
    set (c := 65536 + (h - 55296) * 1024 + (l - 56320)).
    unfold is_high, is_low in *.
    split; [constructor; [unfold is_cp, is_high, is_low; subst c; lia|done]|].
    rewrite bind_cons, Hc. unfold cp_units. replace (c <? 65536) with false by (subst c; lia).
    replace (55296 + (c - 65536) / 1024) with h by (subst c; lia).
    by replace (56320 + (c - 65536) mod 1024) with l by (subst c; lia).
  - destruct (code_points s1) as [cs1|] eqn:E1; [|done]. intros [= <-].
    destruct (IH (length s1)) with (s := s1) (cs := cs1) as [Hf Hc]; [cbn in Hn; lia|done..|].
    split; [constructor; [unfold is_cp; rewrite El, Eh; cbn; lia|done]|].
    rewrite bind_cons, Hc. unfold cp_units. by replace (h <? 65536) with true by lia.
Qed.

Lemma decode_encode s e :
  units_ok s -> encodeURIComponent s = Some e -> decodeURIComponent e = Some s.
Proof.
  intros Hu. unfold encodeURIComponent. destruct (code_points s) as [cs|] eqn:E; [|done].
  intros [= <-]. destruct (code_points_units s cs Hu E) as [Hf <-].
  destruct (decode_encode_cps cs Hf) as (ts & Ht & Hd).
  unfold decodeURIComponent. by rewrite Ht.
Qed.

(** What encoding writes: only unreserved characters and escapes. *)
Lemma encode_chars s e :
  units_ok s -> encodeURIComponent s = Some e ->
  Forall (fun c => uri_unreserved c = true \/ c = 37) e.
Proof.
  intros Hu. unfold encodeURIComponent. destruct (code_points s) as [cs|] eqn:E; [|done].
  intros [= <-]. destruct (code_points_units s cs Hu E) as [Hf _]. clear E Hu.
  induction Hf as [|c cs Hc _ IH]; [constructor|]. rewrite bind_cons. apply Forall_app. split; [|done].
  unfold encode_cp. destruct (uri_unreserved c) eqn:Eu; [constructor; [by left|done]|].
  assert (Forall (fun b => b < 256) (utf8 c)) as Hb by (apply utf8_bytes; unfold is_cp in Hc; lia).
  induction Hb as [|b bs Hb _ IHb]; [constructor|]. rewrite bind_cons. apply Forall_app. split; [|done].
  assert (forall d, d < 16 -> uri_unreserved (upper_hex d) = true) as Hx.
  { intros d Hd. unfold upper_hex, uri_unreserved, is_digit, is_upper. case_match; cbn; lia. }
  unfold percent. repeat (apply Forall_cons; split); [by right|left; apply Hx; lia|left; apply Hx; lia|done].
Qed.

Lemma encode_nil_iff s : encodeURIComponent s = Some [] <-> s = [].
Proof.
  split; [|by intros ->]. unfold encodeURIComponent. destruct (code_points s) as [cs|] eqn:E; [|done].
  destruct cs as [|c cs].
  - destruct s as [|h s1]; [done|]. cbn in E.
    repeat (case_match; try done); destruct (code_points _); done.
  - cbn. unfold encode_cp. intros [= H]. apply app_nil in H as [H _].
    destruct (uri_unreserved c); [done|]. unfold utf8 in H. repeat case_match; done.
Qed.
