(* ===== verification/Routes.v ===== *)
(** Routes: [apps/web/src/routes.ts].  Links are built with
    [encodeURIComponent], paths are parsed back with [decodeURIComponent]. *)
From S2P Require Export JsUri.

Inductive AppRoute :=
| route_journeys
| route_journey_new
| route_journey (journeyId : jstr)
| route_timeline (journeyId : jstr)
| route_packing (journeyId : jstr)
| route_settings
| route_about
| route_not_found.

#[export] Instance AppRoute_eq_dec : EqDecision AppRoute.
Proof. solve_decision. Defined.

(** The longest prefix without a slash and the rest, as [([^/]+)] takes it. *)
Fixpoint split_slash (s : jstr) : jstr * jstr :=
  match s with
  | [] => ([], [])
  | c :: s' => if (c =? 47)%N then ([], s)
               else let '(a, b) := split_slash s' in (c :: a, b)
  end.

Inductive journey_page := page_overview | page_timeline | page_packing.

(** [/^\/journeys\/([^/]+)(?:\/(timeline|packing))?$/] *)
Definition match_journey (pathname : jstr) : option (jstr * journey_page) :=
  if startsWith pathname "/journeys/" then
    let '(id, rest) := split_slash (drop (length (js "/journeys/")) pathname) in
    if negb (str_truthy id) then None
    else if str_eqb rest [] then Some (id, page_overview)
    else if str_eqb rest "/timeline" then Some (id, page_timeline)
    else if str_eqb rest "/packing" then Some (id, page_packing)
    else None
  else None.

Definition parseRoute (pathname : jstr) : AppRoute :=
  if str_eqb pathname "/" then route_journeys
  else if str_eqb pathname "/journeys/new" then route_journey_new
  else if str_eqb pathname "/settings/data" then route_settings
  else if str_eqb pathname "/about" then route_about
  else match match_journey pathname with
       | None => route_not_found
       | Some (segment, page) =>
           match decodeURIComponent segment with
           | None => route_not_found
           | Some journeyId =>
               match page with
               | page_timeline => route_timeline journeyId
               | page_packing => route_packing journeyId
               | page_overview => route_journey journeyId
               end
           end
       end.

(** The [routes] object; [None] when [encodeURIComponent] throws. *)
Definition routes_journeys : jstr := "/".
Definition routes_newJourney : jstr := "/journeys/new".
Definition routes_journey (id : jstr) : option jstr :=
  e ← encodeURIComponent id; Some (js "/journeys/" ++ e).
Definition routes_timeline (id : jstr) : option jstr :=
  e ← encodeURIComponent id; Some (js "/journeys/" ++ e ++ js "/timeline").
Definition routes_packing (id : jstr) : option jstr :=
  e ← encodeURIComponent id; Some (js "/journeys/" ++ e ++ js "/packing").
Definition routes_settings : jstr := "/settings/data".
Definition routes_about : jstr := "/about".

(** The link to a page, as the components build it. *)
Definition route_link (r : AppRoute) : option jstr :=
  match r with
  | route_journeys => Some routes_journeys
  | route_journey_new => Some routes_newJourney
  | route_journey id => routes_journey id
  | route_timeline id => routes_timeline id
  | route_packing id => routes_packing id
  | route_settings => Some routes_settings
  | route_about => Some routes_about
  | route_not_found => None
  end.

(** ** Round trip *)

Lemma split_slash_app e rest :
  Forall (fun c => c <> 47%N) e -> (rest = [] \/ exists t, rest = 47%N :: t) ->
  split_slash (e ++ rest) = (e, rest).
Proof.
  intros He Hr. induction He as [|c e Hc _ IH]; cbn.
  - by destruct Hr as [->|[t ->]].
  - replace (c =? 47)%N with false by lia. by rewrite IH.
Qed.

Lemma encode_no_slash id e :
  units_ok id -> encodeURIComponent id = Some e -> Forall (fun c => c <> 47%N) e.
Proof.
  intros Hu He. eapply Forall_impl; [by eapply encode_chars|].
  intros c [Hc| ->]; [|done]. intros ->. discriminate Hc.
Qed.

Lemma encode_new (id : jstr) : units_ok id -> encodeURIComponent id = Some (js "new") <-> id = "new".
Proof.
  intros Hu. split; [|by intros ->]. intros He. apply decode_encode in He; [|done].
  vm_compute in He. by injection He as <-.
Qed.

(** A path under [/journeys/] is none of the fixed ones but [/journeys/new]. *)
Lemma parseRoute_under (e : jstr) :
  e <> "new" -> parseRoute (js "/journeys/" ++ e) =
  match match_journey (js "/journeys/" ++ e) with
  | None => route_not_found
  | Some (segment, page) =>
      match decodeURIComponent segment with
      | None => route_not_found
      | Some journeyId =>
          match page with
          | page_timeline => route_timeline journeyId
          | page_packing => route_packing journeyId
          | page_overview => route_journey journeyId
          end
      end
  end.
Proof.
  intros He. unfold parseRoute.
  replace (str_eqb (js "/journeys/" ++ e) "/") with false by (symmetry; apply str_eqb_neq; done).
  replace (str_eqb (js "/journeys/" ++ e) "/journeys/new") with false.
  { done. }
  symmetry. apply str_eqb_neq. intros H. apply He.
  change (js "/journeys/new") with (js "/journeys/" ++ js "new") in H. by apply app_inv_head in H.
Qed.

Lemma match_journey_under (id e rest : jstr) :
  units_ok id -> id <> [] -> encodeURIComponent id = Some e ->
  (rest = [] \/ exists t, rest = 47%N :: t) ->
  match_journey (js "/journeys/" ++ e ++ rest) =
  if str_eqb rest [] then Some (e, page_overview)
  else if str_eqb rest "/timeline" then Some (e, page_timeline)
  else if str_eqb rest "/packing" then Some (e, page_packing)
  else None.
Proof.
  intros Hu Hne He Hr. unfold match_journey.
  change (startsWith (js "/journeys/" ++ e ++ rest) "/journeys/") with (startsWith (e ++ rest) []).
  replace (startsWith (e ++ rest) []) with true by (by destruct (e ++ rest)).
  rewrite drop_app_length, (split_slash_app _ _ (encode_no_slash _ _ Hu He) Hr).
  assert (str_truthy e = true) as ->; [|done].
  destruct e; [|done]. by apply encode_nil_iff in He.
Qed.

Lemma parse_link_page (id e rest : jstr) :
  units_ok id -> id <> [] -> encodeURIComponent id = Some e -> e ++ rest <> js "new" ->
  (rest = [] \/ exists t, rest = 47%N :: t) ->
  parseRoute (js "/journeys/" ++ e ++ rest) =
  if str_eqb rest [] then route_journey id
  else if str_eqb rest "/timeline" then route_timeline id
  else if str_eqb rest "/packing" then route_packing id
  else route_not_found.
Proof.
  intros Hu Hne He Hnew Hr. rewrite parseRoute_under, (match_journey_under id) by done.
  pose proof (decode_encode _ _ Hu He) as Hd.
  by repeat (case_match; simplify_eq; rewrite ?Hd).
Qed.

(** The ids for which [encodeURIComponent] returns. *)
Definition encodable (id : jstr) : Prop := units_ok id /\ is_Some (encodeURIComponent id).

Definition route_id (r : AppRoute) : option jstr :=
  match r with route_journey id | route_timeline id | route_packing id => Some id | _ => None end.

(** Parsing the link of a page gives that page back, for every id that can
    be encoded and is not empty; the one exception is the overview of a
    Journey whose id is "new", whose link is the form for a new Journey. *)
Theorem parse_route_link r :
  r <> route_not_found -> (forall id, route_id r = Some id -> encodable id /\ id <> []) ->
  exists link, route_link r = Some link /\
    parseRoute link = if decide (r = route_journey "new") then route_journey_new else r.
Proof.
  intros Hr Hid. destruct r as [| |id|id|id| | |]; try done; try (eexists; split; [reflexivity|done]).
  all: destruct (Hid id eq_refl) as [[Hu [e He]] Hne]; cbn [route_link];
    unfold routes_journey, routes_timeline, routes_packing; rewrite He; cbn; eexists; split; [reflexivity|].
  - destruct (decide (route_journey id = route_journey "new")) as [[= ->]|Hn].
    + vm_compute in He. by injection He as <-.
    + pose proof (parse_link_page id e [] Hu Hne He) as Hp. rewrite app_nil_r in Hp. apply Hp; [|by left].
      intros ->. apply encode_new in He; [|done]. congruence.
  - apply (parse_link_page id e "/timeline" Hu Hne He); [|right; by eexists].
    intros H%(f_equal length). rewrite length_app in H. change (length (js "/timeline")) with 9%nat in H. change (length (js "new")) with 3%nat in H. lia.
  - apply (parse_link_page id e "/packing" Hu Hne He); [|right; by eexists].
    intros H%(f_equal length). rewrite length_app in H. change (length (js "/packing")) with 8%nat in H. change (length (js "new")) with 3%nat in H. lia.
Qed.

Lemma parse_route_link_witness :
  exists link, route_link (route_timeline "a/b c") = Some link /\
    link = "/journeys/a%2Fb%20c/timeline" /\ parseRoute link = route_timeline "a/b c".
Proof.
  destruct (parse_route_link (route_timeline "a/b c")) as (link & Hl & Hp).
  - discriminate.
  - intros id [= <-]. split; [|discriminate]. split; [|by eexists].
    vm_compute. repeat constructor.
  - exists link. split; [exact Hl|]. split; [by injection Hl as <-|exact Hp].
Defined.
