(* ===== verification/JsDate.v ===== *)
(** The UTC calendar of ECMAScript dates: [Date.UTC] and the [getUTC...]
    readings, on day numbers counted from 1970-01-01. *)
From S2P Require Export Prelude.

Definition is_leap (y : Z) : bool :=
  (y mod 4 =? 0) && (negb (y mod 100 =? 0) || (y mod 400 =? 0)).

(** The number of the first day of a year (DayFromYear). *)
Definition day_from_year (y : Z) : Z :=
  365 * (y - 1970) + (y - 1969) / 4 - (y - 1901) / 100 + (y - 1601) / 400.

Definition month_lengths (leap : bool) : list Z :=
  [31; if leap then 29 else 28; 31; 30; 31; 30; 31; 31; 30; 31; 30; 31].
Definition days_before_month (leap : bool) (m : Z) : Z :=
  foldr Z.add 0 (take (Z.to_nat m) (month_lengths leap)).

(** [Date.UTC(year, month, date)] as a day number: months and dates outside
    their ranges carry over, and the years 0..99 stand for 1900..1999. *)
Definition date_utc (year month date : Z) : Z :=
  let year := if (0 <=? year) && (year <=? 99) then 1900 + year else year in
  let y := year + month / 12 in
  day_from_year y + days_before_month (is_leap y) (month mod 12) + date - 1.

(** [getUTCFullYear]: the year the day falls in. *)
Definition utc_year (d : Z) : Z :=
  let y := 1970 + (400 * d) / 146097 in
  if d <? day_from_year y then y - 1
  else if day_from_year (y + 1) <=? d then y + 1 else y.

(** The month and the date in the year, from the day of the year. *)
Fixpoint split_months (ls : list Z) (m d : Z) : Z * Z :=
  match ls with
  | [] => (m, d)
  | l :: ls => if d <? l then (m, d) else split_months ls (m + 1) (d - l)
  end.
Definition utc_month_date (d : Z) : Z * Z :=
  let y := utc_year d in split_months (month_lengths (is_leap y)) 0 (d - day_from_year y).
Definition utc_month (d : Z) : Z := (utc_month_date d).1.
Definition utc_date (d : Z) : Z := (utc_month_date d).2 + 1.

Definition days_in_month (y m : Z) : Z :=
  default 0 (month_lengths (is_leap y) !! Z.to_nat (m - 1)).

(** ** The readings invert [Date.UTC] *)

Lemma year_length y : day_from_year (y + 1) - day_from_year y = if is_leap y then 366 else 365.
Proof.
  unfold day_from_year, is_leap.
  destruct (y mod 4 =? 0) eqn:E4, (y mod 100 =? 0) eqn:E100, (y mod 400 =? 0) eqn:E400; cbn;
    Z.to_euclidean_division_equations; lia.
Qed.

Lemma utc_year_unique y d : day_from_year y <= d < day_from_year (y + 1) -> utc_year d = y.
Proof.
  intros Hd. unfold utc_year. set (z := 1970 + 400 * d / 146097).
  assert (y - 1 <= z <= y + 1) as Hz.
  { subst z. unfold day_from_year in Hd. Z.to_euclidean_division_equations; lia. }
  assert (z = y - 1 \/ z = y \/ z = y + 1) as [->|[->| ->]] by lia.
  - pose proof (year_length (y - 1)) as Hl. replace (y - 1 + 1) with y in * by lia.
    destruct (is_leap (y - 1)); repeat (case_match); lia.
  - repeat case_match; lia.
  - repeat case_match; lia.
Qed.

Lemma sum_nonneg ls : Forall (Z.le 0) ls -> 0 <= foldr Z.add 0 ls.
Proof. induction 1 as [|x xs Hx _ IH]; [done|]. change (0 <= x + foldr Z.add 0 xs). lia. Qed.

Lemma split_months_sum ls k m d :
  Forall (Z.le 0) ls -> 0 <= d < default 0 (ls !! k) ->
  split_months ls m (foldr Z.add 0 (take k ls) + d) = (m + Z.of_nat k, d) /\
  0 <= foldr Z.add 0 (take k ls) + d < foldr Z.add 0 ls.
Proof.
  revert k m. induction ls as [|l ls IH]; intros k m Hf Hd; [rewrite lookup_nil in Hd; cbn in Hd; lia|].
  apply Forall_cons in Hf as [Hl Hf].
  pose proof (sum_nonneg ls Hf).
  destruct k as [|k]; cbn in *.
  - replace (0 + d) with d by lia. replace (d <? l) with true by lia. split; [f_equal; lia|lia].
  - destruct (IH k (m + 1)) as [E Hb]; [done|done|].
    replace (l + foldr Z.add 0 (take k ls) + d <? l) with false by lia.
    replace (l + foldr Z.add 0 (take k ls) + d - l) with (foldr Z.add 0 (take k ls) + d) by lia.
    rewrite E. split; [f_equal; lia|lia].
Qed.

Lemma month_lengths_pos leap : Forall (Z.le 0) (month_lengths leap).
Proof. destruct leap; repeat constructor; done. Qed.

Lemma month_lengths_sum leap : foldr Z.add 0 (month_lengths leap) = if leap then 366 else 365.
Proof. by destruct leap. Qed.

Lemma days_before_month_bound leap m d :
  0 <= m < 12 -> 0 <= d < default 0 (month_lengths leap !! Z.to_nat m) ->
  split_months (month_lengths leap) 0 (days_before_month leap m + d) = (m, d) /\
  0 <= days_before_month leap m + d < if leap then 366 else 365.
Proof.
  intros Hm Hd. rewrite <- month_lengths_sum. unfold days_before_month.
  destruct (split_months_sum (month_lengths leap) (Z.to_nat m) 0 d) as [-> ?];
    [apply month_lengths_pos|done|]. split; [f_equal; lia|done].
Qed.

(** A date in the calendar, outside the two-digit years, reads back. *)
Lemma utc_roundtrip y m d :
  ~ (0 <= y <= 99) -> 0 <= m < 12 -> 1 <= d <= days_in_month y (m + 1) ->
  utc_year (date_utc y m d) = y /\ utc_month (date_utc y m d) = m /\ utc_date (date_utc y m d) = d.
Proof.
  intros Hy Hm Hd. unfold days_in_month in Hd. replace (m + 1 - 1) with m in Hd by lia.
  destruct (days_before_month_bound (is_leap y) m (d - 1)) as [Hs Hb]; [lia|lia|].
  assert (date_utc y m d = day_from_year y + (days_before_month (is_leap y) m + (d - 1))) as E.
  { unfold date_utc. replace (_ && _) with false by lia.
    rewrite Z.div_small, Z.mod_small by lia. replace (y + 0) with y by lia. lia. }
  assert (utc_year (date_utc y m d) = y) as Hyear.
  { apply utc_year_unique. pose proof (year_length y). rewrite E. destruct (is_leap y); lia. }
  split; [done|]. unfold utc_month, utc_date, utc_month_date. rewrite Hyear, E.
  replace (day_from_year y + (days_before_month (is_leap y) m + (d - 1)) - day_from_year y)
    with (days_before_month (is_leap y) m + (d - 1)) by lia.
  rewrite Hs. cbn. lia.
Qed.

(** What the readings return is always a date of the calendar. *)
Lemma utc_year_bounds d : day_from_year (utc_year d) <= d < day_from_year (utc_year d + 1).
Proof.
  unfold utc_year. set (y := 1970 + 400 * d / 146097).
  assert (day_from_year (y - 1) <= d < day_from_year (y + 2)) as Hd.
  { subst y. unfold day_from_year. Z.to_euclidean_division_equations; lia. }
  destruct (d <? day_from_year y) eqn:E1; [replace (y - 1 + 1) with y by lia; lia|].
  destruct (day_from_year (y + 1) <=? d) eqn:E2; [replace (y + 1 + 1) with (y + 2) by lia; lia|lia].
Qed.

Lemma split_months_bound ls m d :
  Forall (Z.le 0) ls -> 0 <= d < foldr Z.add 0 ls ->
  m <= (split_months ls m d).1 < m + Z.of_nat (length ls) /\
  0 <= (split_months ls m d).2 < default 0 (ls !! Z.to_nat ((split_months ls m d).1 - m)).
Proof.
  revert m d. induction ls as [|l ls IH]; intros m d Hf Hd; cbn in *; [lia|].
  apply Forall_cons in Hf as [Hl Hf]. destruct (d <? l) eqn:E; cbn.
  - rewrite Z.sub_diag. change (Z.to_nat 0) with 0%nat. cbn [lookup list_lookup default from_option id]. lia.
  - destruct (IH (m + 1) (d - l)) as [H1 H2]; [done|lia|]. split; [lia|].
    replace (Z.to_nat ((split_months ls (m + 1) (d - l)).1 - m))
      with (S (Z.to_nat ((split_months ls (m + 1) (d - l)).1 - (m + 1)))) by lia. done.
Qed.

Lemma utc_readings_bound d :
  0 <= utc_month d < 12 /\ 1 <= utc_date d <= days_in_month (utc_year d) (utc_month d + 1).
Proof.
  unfold utc_month, utc_date, utc_month_date, days_in_month.
  pose proof (utc_year_bounds d) as Hy. pose proof (year_length (utc_year d)) as Hl.
  destruct (split_months_bound (month_lengths (is_leap (utc_year d))) 0 (d - day_from_year (utc_year d)))
    as [H1 H2]; [apply month_lengths_pos|rewrite month_lengths_sum; destruct (is_leap _); lia|].
  set (p := split_months _ _ _) in *. replace (p.1 - 0) with p.1 in H2 by lia.
  replace (p.1 + 1 - 1) with p.1 by lia.
  replace (length (month_lengths (is_leap (utc_year d)))) with 12%nat in H1 by by destruct (is_leap _).
  lia.
Qed.

(** The year read back from a two-digit year is never that year. *)
Lemma utc_two_digit y m d :
  0 <= y <= 99 -> -1 <= m <= 98 -> 0 <= d <= 99 -> utc_year (date_utc y m d) <> y.
Proof.
  intros Hy Hm Hd Heq. pose proof (utc_year_bounds (date_utc y m d)) as Hb. rewrite Heq in Hb.
  unfold date_utc in Hb. replace (_ && _) with true in Hb by lia.
  assert (0 <= days_before_month (is_leap (1900 + y + m / 12)) (m mod 12)) as H0.
  { apply sum_nonneg, Forall_take, month_lengths_pos. }
  unfold day_from_year in Hb. Z.to_euclidean_division_equations; lia.
Qed.

Example utc_example : (utc_year 20574, utc_month 20574, utc_date 20574) = (2026, 4, 1).
Proof. reflexivity. Qed.
