(* ===== verification/Validator.v ===== *)
(** The schema validator: [packages/api-client/src/validator.ts].  Schemas and
    values are both JavaScript values; the generated schema table is an
    argument.  The recursion follows [$ref]s through that table, so it is
    fuelled; [depth_ok] bounds the fuel a schema needs whatever the value. *)
From S2P Require Export Regex JsDate.

Abbreviation Schema := (list (jstr * jsval)).

Inductive ValidationMode := request_mode | response_mode.
Definition mode_eqb (a b : ValidationMode) : bool :=
  match a, b with
  | request_mode, request_mode | response_mode, response_mode => true
  | _, _ => false
  end.

Inductive ValidatorError :=
| SchemaValidationError (pointer : jstr)
| OutOfFuel.

Abbreviation checked := (outcome ValidatorError).

(** [if (!ok) throw new SchemaValidationError(pointer)] *)
Definition expect (ok : bool) (pointer : jstr) : checked () :=
  throw_if (negb ok) (SchemaValidationError pointer).

Definition asSchema (value : jsval) (pointer : jstr) : checked Schema :=
  match as_record value with Some fs => Ok fs | None => Throw (SchemaValidationError pointer) end.

(** [`${pointer}/${key}`] *)
Definition child (pointer key : jstr) : jstr := pointer ++ 47%N :: key.

(** ** Formats *)

(** [Number(digits)] *)
Definition digits_value (s : jstr) : Z :=
  foldl (fun acc c => 10 * acc + (Z.of_N c - 48)) 0 s.

Definition DATE : list (N -> bool) :=
  let d := is_digit in let dash := N.eqb 45 in
  [d; d; d; d; dash; d; d; dash; d; d].

Definition validDate (value : jstr) : bool :=
  if match_classes DATE value then
    let year := digits_value (take 4 value) in
    let month := digits_value (take 2 (drop 5 value)) in
    let day := digits_value (drop 8 value) in
    let date := date_utc year (month - 1) day in
    (utc_year date =? year) && (utc_month date =? month - 1) && (utc_date date =? day)
  else false.

(** The groups of the date-time pattern: date, hour, minute, second and the
    offset's hour and minute when it has one. *)
Record DateTimeMatch := {
  group_date : jstr;
  group_hour : jstr;
  group_minute : jstr;
  group_second : jstr;
  group_offset : option (jstr * jstr);
}.

(** [(?:\.\d+)?]: the digits are taken greedily, what follows is no digit. *)
Fixpoint skip_digits (s : jstr) : jstr :=
  match s with c :: s' => if is_digit c then skip_digits s' else s | [] => [] end.
Definition skip_fraction (s : jstr) : option jstr :=
  match s with
  | 46%N :: c :: s => if is_digit c then Some (skip_digits s) else None
  | 46%N :: [] => None
  | _ => Some s
  end.

(** [(?:Z|([+-])(\d{2}):(\d{2}))$] *)
Definition match_zone (s : jstr) : option (option (jstr * jstr)) :=
  match s with
  | [90%N] => Some None
  | sign :: rest =>
      if ((sign =? 43) || (sign =? 45))%N
         && match_classes [is_digit; is_digit; N.eqb 58; is_digit; is_digit] rest
      then Some (Some (take 2 rest, drop 3 rest)) else None
  | [] => None
  end.

Definition match_date_time (value : jstr) : option DateTimeMatch :=
  let d := is_digit in
  if match_classes (DATE ++ [N.eqb 84; d; d; N.eqb 58; d; d; N.eqb 58; d; d])%N (take 19 value) then
    rest ← skip_fraction (drop 19 value);
    offset ← match_zone rest;
    Some {| group_date := take 10 value;
            group_hour := take 2 (drop 11 value);
            group_minute := take 2 (drop 14 value);
            group_second := take 2 (drop 17 value);
            group_offset := offset |}
  else None.

Definition UUID : list (N -> bool) :=
  let h := is_hex in let dash := [N.eqb 45] in
  replicate 8 h ++ dash ++ replicate 4 h ++ dash ++ replicate 4 h ++ dash ++ replicate 4 h
  ++ dash ++ replicate 12 h.

(** [/^[^\s@]+@[^\s@]+\.[^\s@]+$/] *)
Definition EMAIL : regex :=
  let c := RClass (fun u => negb (is_space u || (u =? 64)%N)) in
  let plus r := RSeq r (RStar r) in
  RSeq (plus c) (RSeq (RClass (N.eqb 64)) (RSeq (plus c) (RSeq (RClass (N.eqb 46)) (plus c)))).

Definition validFormat `{DateParser} (format value : jstr) : bool :=
  if str_eqb format "uuid" then match_classes UUID value
  else if str_eqb format "date" then validDate value
  else if str_eqb format "date-time" then
    match match_date_time value with
    | None => false
    | Some m =>
        validDate (group_date m)
        && (digits_value (group_hour m) <=? 23)
        && (digits_value (group_minute m) <=? 59)
        && (digits_value (group_second m) <=? 59)
        && (digits_value (default (js "0") (fst <$> group_offset m)) <=? 23)
        && (digits_value (default (js "0") (snd <$> group_offset m)) <=? 59)
        && bool_decide (is_Some (date_parse value))
    end
  else if str_eqb format "email" then regex_test EMAIL value && (str_length value <=? 320)
  else false.

(** ** The validator *)

Section Validator.
Context `{DateParser} `{NumPrinter}.
Context (componentSchemas : Schema).

Definition validateNumber (schema : Schema) (value : jsnum) (pointer : jstr) : checked () :=
  _ ← (match get schema "minimum" with
       | VNum n => expect (negb (num_ltb value n)) pointer
       | _ => Ok () end);
  match get schema "maximum" with
  | VNum n => expect (negb (num_gtb value n)) pointer
  | _ => Ok ()
  end.

Definition validateString (schema : Schema) (value : jsval) (pointer : jstr) : checked () :=
  match value with
  | VStr s =>
      let codePoints := NInt (code_point_count s) in
      _ ← (match get schema "minLength" with
           | VNum n => expect (negb (num_ltb codePoints n)) pointer
           | _ => Ok () end);
      _ ← (match get schema "maxLength" with
           | VNum n => expect (negb (num_gtb codePoints n)) pointer
           | _ => Ok () end);
      _ ← (match get schema "pattern" with
           | VStr p => expect (regexp_test p s) pointer
           | _ => Ok () end);
      match get schema "format" with
      | VStr f => expect (validFormat f s) pointer
      | _ => Ok ()
      end
  | _ => Throw (SchemaValidationError pointer)
  end.

(** [validate] is the recursive call. *)
Definition validateObject (validate : Schema -> jsval -> jstr -> checked ())
    (schema : Schema) (value : jsval) (mode : ValidationMode) (pointer : jstr) : checked () :=
  match as_record value with
  | None => Throw (SchemaValidationError pointer)
  | Some fields =>
      let properties := default [] (as_record (get schema "properties")) in
      let required := match get schema "required" with VArr l => l | _ => [] end in
      _ ← for_each (fun key =>
            match key with
            | VStr k => expect (has_property fields k) (child pointer k)
            | _ => Throw (SchemaValidationError (child pointer (to_string key)))
            end) required;
      for_each (fun '(key, propertyValue) =>
        let propertySchema := get properties key in
        let additional := get schema "additionalProperties" in
        if truthy propertySchema then
          s ← asSchema propertySchema (child pointer key);
          validate s propertyValue (child pointer key)
        else
          match additional with
          | VObj _ | VArr _ =>
              s ← asSchema additional (child pointer key);
              validate s propertyValue (child pointer key)
          | _ => expect (negb (mode_eqb mode request_mode && strict_eq additional (VBool false)))
                   (child pointer key)
          end) fields
  end.

(** The loop over [anyOf]: the first candidate that does not throw; only
    schema errors are caught. *)
Fixpoint first_valid (validate : jsval -> checked ()) (pointer : jstr) (l : list jsval) : checked () :=
  match l with
  | [] => Throw (SchemaValidationError pointer)
  | candidate :: l =>
      match validate candidate with
      | Throw (SchemaValidationError _) => first_valid validate pointer l
      | r => r
      end
  end.

Definition REF_PREFIX : jstr := "#/components/schemas/".

(** The keywords next to [type]; [validate] is the recursive call. *)
Definition validateKeywords (validate : Schema -> jsval -> jstr -> checked ())
    (mode : ValidationMode) (schema : Schema) (value : jsval) (pointer : jstr) : checked () :=
  _ ← expect (negb (has_property schema "const") || object_is value (get schema "const")) pointer;
  _ ← (match get schema "enum" with
       | VArr candidates => expect (existsb (fun c => object_is c value) candidates) pointer
       | _ => Ok () end);
  let type := get schema "type" in
  if strict_eq type (VStr "null") then
    expect (match value with VNull => true | _ => false end) pointer
  else if strict_eq type (VStr "boolean") then
    expect (match value with VBool _ => true | _ => false end) pointer
  else if strict_eq type (VStr "integer") then
    match value with
    | VNum n => _ ← expect (isSafeInteger n) pointer; validateNumber schema n pointer
    | _ => Throw (SchemaValidationError pointer)
    end
  else if strict_eq type (VStr "number") then
    match value with
    | VNum n => _ ← expect (isFinite n) pointer; validateNumber schema n pointer
    | _ => Throw (SchemaValidationError pointer)
    end
  else if strict_eq type (VStr "string") then validateString schema value pointer
  else if strict_eq type (VStr "array") then
    match value with
    | VArr l =>
        _ ← expect (truthy (get schema "items")) pointer;
        for_each (fun '(index, item) =>
          s ← asSchema (get schema "items") (child pointer (print_int index));
          validate s item (child pointer (print_int index))) (indexed l)
    | _ => Throw (SchemaValidationError pointer)
    end
  else if strict_eq type (VStr "object") then validateObject validate schema value mode pointer
  else Throw (SchemaValidationError pointer).

Fixpoint validate (fuel : nat) (mode : ValidationMode) (schema : Schema) (value : jsval)
    (pointer : jstr) : checked () :=
  match fuel with
  | O => Throw OutOfFuel
  | S fuel =>
      match get schema "$ref", get schema "anyOf" with
      | VStr ref, _ =>
          _ ← expect (startsWith ref REF_PREFIX) pointer;
          let target := get componentSchemas (drop (length REF_PREFIX) ref) in
          _ ← expect (truthy target) pointer;
          s ← asSchema target pointer;
          validate fuel mode s value pointer
      | _, VArr anyOf =>
          first_valid (fun candidate =>
            s ← asSchema candidate pointer; validate fuel mode s value pointer) pointer anyOf
      | _, _ => validateKeywords (fun s v p => validate fuel mode s v p) mode schema value pointer
      end
  end.

Definition assertValid (fuel : nat) (schema value : jsval) (mode : ValidationMode) : checked () :=
  s ← asSchema schema "$"; validate fuel mode s value "$".
End Validator.
