(* ===== verification/ValidatorSpec.v ===== *)
(** What the validator decides.  [conforms] states, without fuel, pointers or
    exceptions, which values a schema admits in each mode; the validator is
    shown to decide it, with a fuel that depends on the schema only. *)
From S2P Require Export Validator.

Lemma expect_ok ok pointer : expect ok pointer = Ok () <-> ok = true.
Proof. unfold expect. rewrite throw_if_Ok. by destruct ok. Qed.

Lemma asSchema_ok v p s : asSchema v p = Ok s <-> v = VObj s.
Proof. destruct v; cbn; naive_solver. Qed.

(** ** The specification *)

Section Conforms.
Context `{DateParser} `{NumPrinter}.
Context (componentSchemas : Schema) (mode : ValidationMode).

Definition plain (schema : Schema) : Prop :=
  (forall r, get schema "$ref" <> VStr r) /\ (forall l, get schema "anyOf" <> VArr l).

Definition const_enum_ok (schema : Schema) (value : jsval) : Prop :=
  (has_property schema "const" = true -> object_is value (get schema "const") = true) /\
  (forall cs, get schema "enum" = VArr cs -> exists c, c ∈ cs /\ object_is c value = true).

Definition number_ok (schema : Schema) (n : jsnum) : Prop :=
  (forall m, get schema "minimum" = VNum m -> num_ltb n m = false) /\
  (forall m, get schema "maximum" = VNum m -> num_gtb n m = false).

Definition string_ok (schema : Schema) (s : jstr) : Prop :=
  (forall m, get schema "minLength" = VNum m -> num_ltb (NInt (code_point_count s)) m = false) /\
  (forall m, get schema "maxLength" = VNum m -> num_gtb (NInt (code_point_count s)) m = false) /\
  (forall p, get schema "pattern" = VStr p -> regexp_test p s = true) /\
  (forall f, get schema "format" = VStr f -> validFormat f s = true).

Inductive scalar_ok (schema : Schema) : jsval -> Prop :=
| scalar_null : get schema "type" = VStr "null" -> scalar_ok schema VNull
| scalar_boolean b : get schema "type" = VStr "boolean" -> scalar_ok schema (VBool b)
| scalar_integer n :
    get schema "type" = VStr "integer" -> isSafeInteger n = true -> number_ok schema n ->
    scalar_ok schema (VNum n)
| scalar_number n :
    get schema "type" = VStr "number" -> isFinite n = true -> number_ok schema n ->
    scalar_ok schema (VNum n)
| scalar_string s :
    get schema "type" = VStr "string" -> string_ok schema s -> scalar_ok schema (VStr s).

(** What an object schema says of a property. *)
Inductive ruling := Against (s : Schema) | Free | Forbidden.

Definition rule (schema : Schema) (key : jstr) : ruling :=
  let p := get (default [] (as_record (get schema "properties"))) key in
  if truthy p then match p with VObj s => Against s | _ => Forbidden end
  else match get schema "additionalProperties" with
       | VObj s => Against s
       | VArr _ => Forbidden
       | a => if mode_eqb mode request_mode && strict_eq a (VBool false) then Forbidden else Free
       end.

Definition required_ok (schema : Schema) (fields : list (jstr * jsval)) : Prop :=
  forall l, get schema "required" = VArr l ->
    forall key, key ∈ l -> exists k, key = VStr k /\ has_property fields k = true.

Inductive conforms : Schema -> jsval -> Prop :=
| conforms_ref schema value name target :
    get schema "$ref" = VStr (REF_PREFIX ++ name) -> get componentSchemas name = VObj target ->
    conforms target value -> conforms schema value
| conforms_any schema value candidates s :
    (forall r, get schema "$ref" <> VStr r) -> get schema "anyOf" = VArr candidates ->
    VObj s ∈ candidates -> conforms s value -> conforms schema value
| conforms_scalar schema value :
    plain schema -> const_enum_ok schema value -> scalar_ok schema value -> conforms schema value
| conforms_array schema l items :
    plain schema -> const_enum_ok schema (VArr l) -> get schema "type" = VStr "array" ->
    truthy (get schema "items") = true -> (l = [] \/ get schema "items" = VObj items) ->
    (forall v, v ∈ l -> conforms items v) -> conforms schema (VArr l)
| conforms_object schema fields :
    plain schema -> const_enum_ok schema (VObj fields) -> get schema "type" = VStr "object" ->
    required_ok schema fields ->
    (forall k v, (k, v) ∈ fields -> rule schema k <> Forbidden) ->
    (forall k v s, (k, v) ∈ fields -> rule schema k = Against s -> conforms s v) ->
    conforms schema (VObj fields).

(** ** Reflection of the leaves *)

Lemma opt_num_ok v (P : jsnum -> bool) p :
  (match v with VNum n => expect (negb (P n)) p | _ => Ok () end) = Ok () <->
  (forall m, v = VNum m -> P m = false).
Proof.
  destruct v; try (split; [intros _ m [=]|done]).
  rewrite expect_ok, negb_true_iff. naive_solver.
Qed.

Lemma opt_str_ok v (P : jstr -> bool) p :
  (match v with VStr s => expect (P s) p | _ => Ok () end) = Ok () <->
  (forall s, v = VStr s -> P s = true).
Proof.
  destruct v; try (split; [intros _ m [=]|done]). rewrite expect_ok. naive_solver.
Qed.

Lemma opt_arr_ok v (P : list jsval -> bool) p :
  (match v with VArr s => expect (P s) p | _ => Ok () end) = Ok () <->
  (forall l, v = VArr l -> P l = true).
Proof.
  destruct v; try (split; [intros _ m [=]|done]). rewrite expect_ok. naive_solver.
Qed.

Lemma bind_unit_ok (m m' : checked ()) : (_ ← m; m') = Ok () <-> m = Ok () /\ m' = Ok ().
Proof. destruct m as [[]|]; cbn; naive_solver. Qed.

Lemma validateNumber_ok schema n p : validateNumber schema n p = Ok () <-> number_ok schema n.
Proof.
  unfold validateNumber, number_ok.
  rewrite bind_unit_ok, (opt_num_ok _ (num_ltb n)), (opt_num_ok _ (num_gtb n)). done.
Qed.

Lemma validateString_ok schema v p :
  validateString schema v p = Ok () <-> exists s, v = VStr s /\ string_ok schema s.
Proof.
  destruct v as [| | | |s| | |]; cbn; try (split; [done|by intros (? & [=] & _)]).
  rewrite !bind_unit_ok, (opt_num_ok _ (num_ltb _)), (opt_num_ok _ (num_gtb _)),
    (opt_str_ok _ (fun p => regexp_test p s)), (opt_str_ok _ (fun f => validFormat f s)).
  unfold string_ok. naive_solver.
Qed.

Lemma rule_ok (rec : Schema -> jsval -> jstr -> checked ()) schema key v p :
  (let propertySchema := get (default [] (as_record (get schema "properties"))) key in
   let additional := get schema "additionalProperties" in
   if truthy propertySchema then
     s ← asSchema propertySchema (child p key); rec s v (child p key)
   else
     match additional with
     | VObj _ | VArr _ => s ← asSchema additional (child p key); rec s v (child p key)
     | _ => expect (negb (mode_eqb mode request_mode && strict_eq additional (VBool false))) (child p key)
     end) =
  match rule schema key with
  | Against s => rec s v (child p key)
  | Free => Ok ()
  | Forbidden => Throw (SchemaValidationError (child p key))
  end.
Proof.
  unfold rule. cbv zeta. destruct (truthy _); [by destruct (get _ key)|].
  destruct (get schema "additionalProperties"); try done; unfold expect; by destruct (_ && _).
Qed.

Lemma required_list_ok schema fields p :
  for_each (fun key => match key with
            | VStr k => expect (has_property fields k) (child p k)
            | _ => Throw (SchemaValidationError (child p (to_string key)))
            end) (match get schema "required" with VArr l => l | _ => [] end) = Ok () <->
  required_ok schema fields.
Proof.
  rewrite for_each_ok. unfold required_ok. split.
  - intros Hr l Hl key Hkey. rewrite Hl in Hr. specialize (Hr key Hkey).
    destruct key; try done. apply expect_ok in Hr. eauto.
  - intros Hr key Hkey. destruct (get schema "required") as [| | | | |l| |]; try by apply elem_of_nil in Hkey.
    destruct (Hr l eq_refl key Hkey) as (k & -> & Hk). by apply expect_ok.
Qed.

Lemma validateObject_ok rec schema v p :
  validateObject rec schema v mode p = Ok () <->
  exists fields, v = VObj fields /\ required_ok schema fields /\
    forall k w, (k, w) ∈ fields ->
      match rule schema k with
      | Against s => rec s w (child p k) = Ok () | Free => True | Forbidden => False
      end.
Proof.
  unfold validateObject. destruct v as [| | | | | |fields|]; cbn [as_record];
    try (split; [done|by intros (? & [=] & _)]).
  rewrite bind_unit_ok, required_list_ok, for_each_ok. split.
  - intros [Hr Hf]. exists fields. split_and!; [done..|]. intros k w Hin.
    specialize (Hf (k, w) Hin). cbn beta iota in Hf. rewrite rule_ok in Hf. by destruct (rule schema k).
  - intros (? & [= <-] & Hr & Hf). split; [done|]. intros [k w] Hin.
    rewrite rule_ok. specialize (Hf k w Hin). by destruct (rule schema k).
Qed.

Lemma first_valid_ok (f : jsval -> checked ()) p l :
  first_valid f p l = Ok () -> exists c, c ∈ l /\ f c = Ok ().
Proof.
  induction l as [|c l IH]; cbn; [done|]. destruct (f c) as [[]|[]] eqn:E; try done.
  - intros _. exists c. split; [apply list_elem_of_here|done].
  - intros (x & ? & ?)%IH. exists x. split; [by apply list_elem_of_further|done].
Qed.

(** The keywords of a plain schema, given what the recursive call decides. *)
Lemma validateKeywords_sound (rec : Schema -> jsval -> jstr -> checked ()) schema v p :
  (forall s w q, rec s w q = Ok () -> conforms s w) ->
  plain schema -> validateKeywords rec mode schema v p = Ok () -> conforms schema v.
Proof.
  intros Hrec Hpl. unfold validateKeywords. rewrite !bind_unit_ok, expect_ok.
  rewrite (opt_arr_ok _ (fun l => existsb (fun c => object_is c v) l)).
  intros (Hc & He & Ht).
  assert (const_enum_ok schema v) as Hce.
  { split; [intros Hh; by rewrite Hh in Hc|]. intros cs Hcs. apply existsb_elem. auto. }
  revert Ht.
  destruct (strict_eq _ (VStr "null")) eqn:Hn; [apply strict_eq_str in Hn; rewrite expect_ok;
    destruct v; try done; intros _; apply conforms_scalar; [done..|by constructor]|].
  destruct (strict_eq _ (VStr "boolean")) eqn:Hb; [apply strict_eq_str in Hb; rewrite expect_ok;
    destruct v; try done; intros _; apply conforms_scalar; [done..|by constructor]|].
  destruct (strict_eq _ (VStr "integer")) eqn:Hi; [apply strict_eq_str in Hi; destruct v; try done;
    rewrite bind_unit_ok, expect_ok, validateNumber_ok; intros []; apply conforms_scalar;
    [done..|by apply scalar_integer]|].
  destruct (strict_eq _ (VStr "number")) eqn:Hnm; [apply strict_eq_str in Hnm; destruct v; try done;
    rewrite bind_unit_ok, expect_ok, validateNumber_ok; intros []; apply conforms_scalar;
    [done..|by apply scalar_number]|].
  destruct (strict_eq _ (VStr "string")) eqn:Hs; [apply strict_eq_str in Hs;
    rewrite validateString_ok; intros (s & -> & ?); apply conforms_scalar; [done..|by constructor]|].
  destruct (strict_eq _ (VStr "array")) eqn:Ha.
  - apply strict_eq_str in Ha. destruct v as [| | | | |l| |]; try done.
    rewrite bind_unit_ok, expect_ok, for_each_ok. intros [Hit Hf].
    assert (forall w, w ∈ l -> exists items, get schema "items" = VObj items /\ conforms items w) as Hw.
    { intros w (i & Hin)%elem_indexed. specialize (Hf _ Hin). cbn in Hf.
      apply bind_Ok in Hf as (s & Hs' & Hv). apply asSchema_ok in Hs'. eauto. }
    destruct l as [|w l]; [apply (conforms_array _ _ []); try done; [by left|by intros ? ?%elem_of_nil]|].
    destruct (Hw w) as (items & Hitems & _); [apply list_elem_of_here|].
    apply (conforms_array _ _ items); try done; [by right|].
    intros x (items' & Heq & Hx)%Hw. congruence.
  - destruct (strict_eq _ (VStr "object")) eqn:Ho; [|done]. apply strict_eq_str in Ho.
    intros (fields & -> & Hr & Hf)%validateObject_ok. apply conforms_object; try done.
    + intros k w Hin%Hf Hru. by rewrite Hru in Hin.
    + intros k w s Hin%Hf Hru. rewrite Hru in Hin. eauto.
Qed.

(** Whatever the fuel, an accepted value conforms. *)
Lemma validate_sound n schema v p :
  validate componentSchemas n mode schema v p = Ok () -> conforms schema v.
Proof.
  revert schema v p. induction n as [|n IH]; intros schema v p; cbn [validate]; [done|].
  destruct (get schema "$ref") as [| | | |ref| | |] eqn:Hr.
  all: try (destruct (get schema "anyOf") as [| | | | |cs| |] eqn:Ha;
    try (apply validateKeywords_sound; [exact IH|split; intros ? ?; congruence]);
    intros (c & Hc & Hv)%first_valid_ok; apply bind_Ok in Hv as (s & ->%asSchema_ok & Hv);
    eapply conforms_any; [intros r; rewrite Hr; discriminate|exact Ha|exact Hc|eauto]).
  rewrite !bind_unit_ok, !expect_ok. intros (Hp & _ & Hv).
  apply bind_Ok in Hv as (s & Hs%asSchema_ok & Hv). eapply conforms_ref; [|exact Hs|eauto].
  rewrite Hr. f_equal. by apply startsWith_drop.
Qed.

(** ** Fuel

    [depth_ok n schema]: along any path of subschemas and references, at most
    [n] nested calls of [validate].  It does not look at a value. *)
Fixpoint depth_ok (n : nat) (schema : Schema) : bool :=
  match n with
  | O => false
  | S n =>
      let sub v := match v with VObj s => depth_ok n s | _ => true end in
      match get schema "$ref", get schema "anyOf" with
      | VStr ref, _ => sub (get componentSchemas (drop (length REF_PREFIX) ref))
      | _, VArr l => forallb sub l
      | _, _ =>
          (negb (strict_eq (get schema "type") (VStr "array")) || sub (get schema "items"))
          && (negb (strict_eq (get schema "type") (VStr "object"))
              || sub (get schema "additionalProperties") && sub (VObj [])
                 && forallb (fun kv => sub kv.2) (default [] (as_record (get schema "properties"))))
      end
  end.

Definition fuelled (m : checked ()) : Prop := m <> Throw OutOfFuel.

Lemma fuelled_expect b p : fuelled (expect b p).
Proof. unfold expect. by destruct b. Qed.
Lemma fuelled_bind (m m' : checked ()) : fuelled m -> fuelled m' -> fuelled (_ ← m; m').
Proof. unfold fuelled. destruct m; cbn; congruence. Qed.
Lemma fuelled_asSchema v p (f : Schema -> checked ()) :
  (forall s, v = VObj s -> fuelled (f s)) -> fuelled (s ← asSchema v p; f s).
Proof. destruct v; cbn; try done. auto. Qed.
Lemma fuelled_for_each {A} (f : A -> checked ()) l : (forall x, x ∈ l -> fuelled (f x)) -> fuelled (for_each f l).
Proof. intros Hf Hl. apply for_each_throw in Hl as (x & Hx & E). by apply (Hf x Hx). Qed.
Lemma fuelled_first_valid (f : jsval -> checked ()) p l :
  (forall x, x ∈ l -> fuelled (f x)) -> fuelled (first_valid f p l).
Proof.
  induction l as [|c l IH]; intros Hf; cbn; [done|].
  specialize (Hf c (list_elem_of_here _ _)) as Hc.
  destruct (f c) as [|[|]] eqn:E; try done. apply IH. intros x Hx. apply Hf. by apply list_elem_of_further.
Qed.

Lemma validateKeywords_fuelled (rec : Schema -> jsval -> jstr -> checked ()) schema v p :
  (forall s, get schema "type" = VStr "array" -> get schema "items" = VObj s ->
     forall w q, fuelled (rec s w q)) ->
  (forall k s, get schema "type" = VStr "object" -> rule schema k = Against s ->
     forall w q, fuelled (rec s w q)) ->
  fuelled (validateKeywords rec mode schema v p).
Proof.
  intros Hi Hru. unfold validateKeywords. apply fuelled_bind; [apply fuelled_expect|].
  apply fuelled_bind; [destruct (get schema "enum"); try done; apply fuelled_expect|].
  assert (forall n, fuelled (validateNumber schema n p)) as Hnum.
  { intros n. unfold validateNumber.
    apply fuelled_bind; [destruct (get schema "minimum")|destruct (get schema "maximum")]; try done;
      apply fuelled_expect. }
  do 2 (destruct (strict_eq _ _); [apply fuelled_expect|]).
  do 2 (destruct (strict_eq _ _);
    [destruct v; try done; apply fuelled_bind; [apply fuelled_expect|apply Hnum]|]).
  destruct (strict_eq _ _);
    [|destruct (strict_eq _ (VStr "array")) eqn:Hta;
      [|destruct (strict_eq _ (VStr "object")) eqn:Hto; [|done]]].
  - unfold validateString. destruct v; try done.
    repeat apply fuelled_bind; case_match; try done; apply fuelled_expect.
  - destruct v; try done. apply fuelled_bind; [apply fuelled_expect|].
    apply fuelled_for_each. intros [i x] _. apply fuelled_asSchema. intros s Hs.
    apply strict_eq_str in Hta. by apply Hi.
  - unfold validateObject. destruct v as [| | | | | |fields|]; try done. cbn [as_record].
    apply fuelled_bind.
    + apply fuelled_for_each. intros key _. destruct key; try done. apply fuelled_expect.
    + apply fuelled_for_each. intros [k w] _. rewrite rule_ok.
      destruct (rule schema k) eqn:E; try done.
      apply strict_eq_str in Hto. by eapply Hru.
Qed.

Lemma sub_properties n fs k s :
  forallb (fun kv => match kv.2 with VObj s => depth_ok n s | _ => true end) fs = true ->
  depth_ok n [] = true -> get fs k = VObj s -> depth_ok n s = true.
Proof.
  intros Hf Hp0. unfold get, own. destruct (List.find _ fs) as [[k' v]|] eqn:E; cbn.
  - intros ->. apply find_Some_elem in E as [Hin _].
    rewrite forallb_forall in Hf. by apply (Hf (k', VObj s)), list_elem_of_In.
  - unfold inherited. case_match; cbn; [by intros [= <-]|]. by case_match.
Qed.

Lemma depth_ok_rule n schema k s :
  plain schema -> get schema "type" = VStr "object" -> depth_ok (S n) schema = true ->
  rule schema k = Against s -> depth_ok n s = true.
Proof.
  intros [Hr Ha] Hty. cbn [depth_ok]. rewrite Hty. eval_strict_eq.
  destruct (get schema "$ref"); try (by destruct (Hr _ eq_refl)); destruct (get schema "anyOf"); try (by destruct (Ha _ eq_refl)).
  all: cbv beta iota zeta; cbn [negb orb andb]; rewrite !andb_true_iff; intros [[Hadd Hp0] Hp]; unfold rule;
    (destruct (truthy _); [destruct (get _ k) eqn:E; try done; intros [= <-]; by eapply sub_properties|]);
    (destruct (get schema "additionalProperties"); try (by case_match); by intros [= <-]).
Qed.

Lemma depth_ok_items n schema s :
  plain schema -> get schema "type" = VStr "array" -> depth_ok (S n) schema = true ->
  get schema "items" = VObj s -> depth_ok n s = true.
Proof.
  intros [Hr Ha] Hty. cbn [depth_ok]. rewrite Hty. eval_strict_eq.
  destruct (get schema "$ref"); try (by destruct (Hr _ eq_refl)); destruct (get schema "anyOf"); try (by destruct (Ha _ eq_refl)).
  all: cbv beta iota zeta; cbn [negb orb]; rewrite !andb_true_iff; intros [Hi _] Hs; by rewrite Hs in Hi.
Qed.

(** A schema is a reference, a choice, or plain. *)
Lemma schema_cases schema :
  (exists ref, get schema "$ref" = VStr ref) \/
  ((forall r, get schema "$ref" <> VStr r) /\ exists cs, get schema "anyOf" = VArr cs) \/
  plain schema.
Proof.
  unfold plain. destruct (get schema "$ref"); eauto; right;
  destruct (get schema "anyOf"); eauto; right; by split.
Qed.

Lemma validate_ref n schema ref v p :
  get schema "$ref" = VStr ref ->
  validate componentSchemas (S n) mode schema v p =
  (_ ← expect (startsWith ref REF_PREFIX) p;
   let target := get componentSchemas (drop (length REF_PREFIX) ref) in
   _ ← expect (truthy target) p; s ← asSchema target p; validate componentSchemas n mode s v p).
Proof. intros Hr. cbn [validate]. by rewrite Hr. Qed.

Lemma validate_any n schema cs v p :
  (forall r, get schema "$ref" <> VStr r) -> get schema "anyOf" = VArr cs ->
  validate componentSchemas (S n) mode schema v p =
  first_valid (fun c => s ← asSchema c p; validate componentSchemas n mode s v p) p cs.
Proof.
  intros Hr Ha. cbn [validate]. rewrite Ha. destruct (get schema "$ref"); try done. by destruct (Hr _ eq_refl).
Qed.

Lemma validate_plain n schema v p :
  plain schema ->
  validate componentSchemas (S n) mode schema v p =
  validateKeywords (fun s v p => validate componentSchemas n mode s v p) mode schema v p.
Proof.
  intros [Hr Ha]. cbn [validate].
  destruct (get schema "$ref"); try (by destruct (Hr _ eq_refl)); destruct (get schema "anyOf"); try done; by destruct (Ha _ eq_refl).
Qed.

Lemma depth_ok_ref n schema ref s :
  get schema "$ref" = VStr ref -> depth_ok (S n) schema = true ->
  get componentSchemas (drop (length REF_PREFIX) ref) = VObj s -> depth_ok n s = true.
Proof. intros Hr. cbn [depth_ok]. rewrite Hr. intros Hd Ht. by rewrite Ht in Hd. Qed.

Lemma depth_ok_any n schema cs s :
  (forall r, get schema "$ref" <> VStr r) -> get schema "anyOf" = VArr cs ->
  depth_ok (S n) schema = true -> VObj s ∈ cs -> depth_ok n s = true.
Proof.
  intros Hr Ha. cbn [depth_ok]. rewrite Ha.
  destruct (get schema "$ref"); try (by destruct (Hr _ eq_refl)); rewrite forallb_forall;
    intros Hf Hin%list_elem_of_In; exact (Hf _ Hin).
Qed.

Lemma validate_fuelled n schema v p :
  depth_ok n schema = true -> fuelled (validate componentSchemas n mode schema v p).
Proof.
  revert schema v p. induction n as [|n IH]; intros schema v p Hd; [done|].
  destruct (schema_cases schema) as [[ref Hr]|[[Hr [cs Ha]]|Hpl]].
  - rewrite (validate_ref _ _ ref) by done. apply fuelled_bind; [apply fuelled_expect|]. cbv zeta.
    apply fuelled_bind; [apply fuelled_expect|]. apply fuelled_asSchema. intros s Hs.
    apply IH. by eapply depth_ok_ref.
  - rewrite (validate_any _ _ cs) by done. apply fuelled_first_valid. intros c Hc.
    apply fuelled_asSchema. intros s ->. apply IH. by eapply depth_ok_any.
  - rewrite validate_plain by done. apply validateKeywords_fuelled.
    + intros s Hty Hs w q. apply IH. by eapply depth_ok_items.
    + intros k s Hty Hs w q. apply IH. by eapply depth_ok_rule.
Qed.

(** ** Completeness *)

Lemma first_valid_complete (f : jsval -> checked ()) p l c :
  (forall x, x ∈ l -> fuelled (f x)) -> c ∈ l -> f c = Ok () -> first_valid f p l = Ok ().
Proof.
  induction l as [|d l IH]; intros Hf Hc Hok; [by apply elem_of_nil in Hc|]. cbn.
  destruct (f d) as [[]|[]] eqn:E; [done| |by apply (Hf d (list_elem_of_here _ _)) in E].
  apply elem_of_cons in Hc as [->|Hc]; [congruence|].
  apply IH; [|done|done]. intros x Hx. apply Hf. by apply list_elem_of_further.
Qed.

Lemma has_const_ok schema v :
  const_enum_ok schema v ->
  negb (has_property schema "const") || object_is v (get schema "const") = true.
Proof. intros [Hc _]. destruct (has_property schema "const"); cbn; [by apply Hc|done]. Qed.

Lemma enum_ok schema v p :
  const_enum_ok schema v ->
  (match get schema "enum" with
   | VArr cs => expect (existsb (fun c => object_is c v) cs) p | _ => Ok () end) = Ok ().
Proof.
  intros [_ He]. apply (opt_arr_ok _ (fun l => existsb (fun c => object_is c v) l)).
  intros l Hl. apply existsb_elem. auto.
Qed.

(** Evaluate the switch on a known [type]. *)
Ltac switch Hty := unfold validateKeywords; rewrite Hty; eval_strict_eq.

Lemma validate_complete schema v :
  conforms schema v ->
  forall n p, depth_ok n schema = true -> validate componentSchemas n mode schema v p = Ok ().
Proof.
  induction 1 as [schema v name target Hr Ht _ IH|schema v cs s Hr Ha Hin _ IH|schema v Hpl Hce Hsc
    |schema l items Hpl Hce Hty Htr Hit _ IH|schema fields Hpl Hce Hty Hreq Hforb _ IH];
    intros [|n] p Hd; try done.
  - rewrite (validate_ref _ _ _ _ _ Hr), startsWith_app, drop_app_length, Ht. cbn.
    apply IH. eapply depth_ok_ref; [done..|]. by rewrite drop_app_length.
  - rewrite (validate_any _ _ cs) by done. apply (first_valid_complete _ _ _ (VObj s)); [|done|].
    + intros c Hc. apply fuelled_asSchema. intros s' ->. apply validate_fuelled. by eapply depth_ok_any.
    + cbn. apply IH. by eapply depth_ok_any.
  - rewrite validate_plain by done.
    destruct Hsc as [Hty|b Hty|z Hty Hz Hnum|z Hty Hz Hnum|s Hty Hs]; switch Hty;
      rewrite !bind_unit_ok, expect_ok, has_const_ok, enum_ok by done; try done; split_and!;
      rewrite ?expect_ok, ?validateNumber_ok; try done.
    apply validateString_ok. eauto.
  - rewrite validate_plain by done. switch Hty.
    rewrite !bind_unit_ok, !expect_ok, has_const_ok, enum_ok by done. split_and!; try done.
    apply for_each_ok. intros [i x] Hx%indexed_elem.
    destruct Hit as [->|Hit]; [by apply elem_of_nil in Hx|]. rewrite Hit. cbn.
    apply IH; [done|]. by eapply depth_ok_items.
  - rewrite validate_plain by done. switch Hty.
    rewrite !bind_unit_ok, expect_ok, has_const_ok, enum_ok by done. split_and!; try done.
    apply validateObject_ok. exists fields. split_and!; try done.
    intros k w Hin. destruct (rule schema k) eqn:E; [|done|by eapply Hforb].
    eapply IH; [done..|]. by eapply depth_ok_rule.
Qed.

(** What a plain string schema admits. *)
Lemma conforms_string schema v :
  conforms schema v -> plain schema -> get schema "type" = VStr "string" ->
  exists s, v = VStr s /\ string_ok schema s.
Proof.
  intros Hc [Hr Ha] Hty.
  destruct Hc as [? ? ? ? Hr'|? ? ? ? _ Ha'|? ? _ _ Hsc|? ? ? _ _ Hty'|? ? _ _ Hty'];
    try (by destruct (Hr _ Hr')); try (by destruct (Ha _ Ha')); try (rewrite Hty in Hty'; discriminate Hty').
  destruct Hsc as [Hty'|? Hty'|? Hty'|? Hty'|s _ Hs]; try (rewrite Hty in Hty'; discriminate Hty').
  eauto.
Qed.
End Conforms.

(** ** Dates *)

Lemma digits_value_bound s :
  Forall (fun c => is_digit c = true) s -> 0 <= digits_value s < 10 ^ Z.of_nat (length s).
Proof.
  unfold digits_value. induction s as [|c s IH] using rev_ind; [by cbn|].
  rewrite Forall_app, Forall_singleton. intros [Hs Hc]. specialize (IH Hs).
  rewrite foldl_app, length_app. cbn [foldl length]. unfold is_digit in Hc.
  replace (Z.of_nat (length s + 1)) with (Z.succ (Z.of_nat (length s))) by lia.
  rewrite Z.pow_succ_r by lia. lia.
Qed.

Lemma match_digits_slice n k cs s :
  match_classes cs s = true -> Forall (fun c => c = is_digit) (take n (drop k cs)) ->
  Forall (fun c => is_digit c = true) (take n (drop k s)).
Proof.
  revert n k s. induction cs as [|c cs IH]; intros n k [|u s]; cbn; try done.
  - intros _ _. by rewrite drop_nil, take_nil.
  - intros [Hu Hs]%andb_true_iff. destruct k as [|k]; cbn; [|by apply IH].
    destruct n as [|n]; cbn; [constructor|]. rewrite Forall_cons. intros [-> Hf].
    constructor; [done|]. by apply (IH n 0%nat).
Qed.

Lemma match_classes_length cs s : match_classes cs s = true -> length s = length cs.
Proof.
  revert s. induction cs as [|c cs IH]; intros [|u s]; cbn; try done.
  intros [_ Hs]%andb_true_iff. f_equal. auto.
Qed.

Definition date_year (s : jstr) : Z := digits_value (take 4 s).
Definition date_month (s : jstr) : Z := digits_value (take 2 (drop 5 s)).
Definition date_day (s : jstr) : Z := digits_value (drop 8 s).

Lemma date_parts_bound s :
  match_classes DATE s = true ->
  0 <= date_year s < 10000 /\ 0 <= date_month s < 100 /\ 0 <= date_day s < 100.
Proof.
  intros Hm. pose proof (match_classes_length _ _ Hm) as Hl.
  unfold date_year, date_month, date_day.
  pose proof (digits_value_bound (take 4 (drop 0 s))) as H1.
  pose proof (digits_value_bound (take 2 (drop 5 s))) as H2.
  pose proof (digits_value_bound (take 2 (drop 8 s))) as H3.
  rewrite !length_take, !length_drop, Hl in *. change (length DATE) with 10%nat in *.
  rewrite (take_ge (drop 8 s)) in H3 by (rewrite length_drop, Hl; cbn; lia).
  change (10 ^ Z.of_nat (4 `min` (10 - 0))) with 10000 in H1.
  change (10 ^ Z.of_nat (2 `min` (10 - 5))) with 100 in H2.
  change (10 ^ Z.of_nat (2 `min` (10 - 8))) with 100 in H3. rewrite drop_0 in H1.
  assert (Forall (fun c => is_digit c = true) (take 4 s)) as F1
    by (apply (match_digits_slice 4 0 DATE s Hm); repeat constructor).
  assert (Forall (fun c => is_digit c = true) (take 2 (drop 5 s))) as F2
    by (apply (match_digits_slice 2 5 DATE s Hm); repeat constructor).
  assert (Forall (fun c => is_digit c = true) (take 2 (drop 8 s))) as F3
    by (apply (match_digits_slice 2 8 DATE s Hm); repeat constructor).
  rewrite (take_ge (drop 8 s)) in F3 by (rewrite length_drop, Hl; cbn; lia).
  auto.
Qed.

(** the [date] format admits exactly the dates of the calendar from the
    year 100 on; years 0000 to 0099 are refused, since [Date.UTC] reads them
    as 1900 to 1999. *)
Theorem validDate_calendar s :
  validDate s = true <->
  match_classes DATE s = true /\ 100 <= date_year s /\ 1 <= date_month s <= 12 /\
  1 <= date_day s <= days_in_month (date_year s) (date_month s).
Proof.
  unfold validDate. destruct (match_classes DATE s) eqn:Hm; [|by split; [|intros []]].
  pose proof (date_parts_bound s Hm) as (Hy & Hmo & Hd).
  fold (date_year s) (date_month s) (date_day s). cbv zeta.
  rewrite !andb_true_iff, !Z.eqb_eq. split.
  - intros [[Ey Em] Ed].
    pose proof (utc_readings_bound (date_utc (date_year s) (date_month s - 1) (date_day s))) as Hb.
    rewrite Ey, Em, Ed in Hb. replace (date_month s - 1 + 1) with (date_month s) in Hb by lia.
    split_and!; try lia.
    destruct (decide (100 <= date_year s)); [done|]. exfalso.
    eapply (utc_two_digit (date_year s) (date_month s - 1) (date_day s)); [..|exact Ey]; lia.
  - intros (_ & H100 & Hmo' & Hd').
    destruct (utc_roundtrip (date_year s) (date_month s - 1) (date_day s)) as (-> & -> & ->);
      [lia|lia|by replace (date_month s - 1 + 1) with (date_month s) by lia|done].
Qed.

(** ** The two modes *)

Section Modes.
Context `{DateParser} `{NumPrinter}.
Context (componentSchemas : Schema).

Lemma rule_response schema k :
  rule request_mode schema k <> Forbidden -> rule response_mode schema k = rule request_mode schema k.
Proof.
  unfold rule. destruct (truthy _); [done|].
  destruct (get schema "additionalProperties"); try done; cbn; by case_match.
Qed.

Lemma conforms_response schema v :
  conforms componentSchemas request_mode schema v -> conforms componentSchemas response_mode schema v.
Proof.
  induction 1 as [? ? ? ? ? ? _ IH|? ? ? ? ? ? ? _ IH|? ? ? ? ?|? ? ? ? ? ? ? ? _ IH
    |schema fields Hpl Hce Hty Hreq Hforb _ IH].
  - by eapply conforms_ref.
  - by eapply conforms_any.
  - by apply conforms_scalar.
  - by eapply conforms_array.
  - apply conforms_object; try done.
    + intros k v Hin. rewrite rule_response; by eapply Hforb.
    + intros k v s Hin. rewrite rule_response by (by eapply Hforb). by apply IH.
Qed.

Lemma own_app_ne fs k v k' : k <> k' -> own (fs ++ [(k, v)]) k' = own fs k'.
Proof.
  intros Hne. unfold own. induction fs as [|[k1 v1] fs IH]; cbn.
  - assert (str_eqb k k' = false) as -> by by apply str_eqb_neq. done.
  - by destruct (str_eqb k1 k').
Qed.

Lemma has_property_app fs k v k' : has_property fs k' = true -> has_property (fs ++ [(k, v)]) k' = true.
Proof.
  unfold has_property. intros Hh. destruct (decide (k = k')) as [<-|Hne]; [|by rewrite own_app_ne].
  assert (is_Some (own (fs ++ [(k, v)]) k)) as [w ->]; [|done].
  unfold own. clear Hh. induction fs as [|[k1 v1] fs IH]; cbn.
  - rewrite str_eqb_refl. by eexists.
  - destruct (str_eqb k1 k); [by eexists|done].
Qed.

Lemma conforms_object_inv mode schema fields :
  conforms componentSchemas mode schema (VObj fields) -> plain schema ->
  required_ok schema fields /\
  (forall k v, (k, v) ∈ fields -> rule mode schema k <> Forbidden) /\
  (forall k v s, (k, v) ∈ fields -> rule mode schema k = Against s -> conforms componentSchemas mode s v) /\
  has_property schema "const" = false /\ (forall cs, get schema "enum" <> VArr cs).
Proof.
  intros Hc [Hr Ha]. inversion Hc as [? ? ? ? Hr'|? ? ? ? _ Ha'|? ? _ _ Hsc|
    |? ? ? [Hcon Hen] _ ? ? ?]; subst.
  - by destruct (Hr _ Hr').
  - by destruct (Ha _ Ha').
  - inversion Hsc.
  - split_and!; try done.
    + destruct (has_property schema "const"); [|done]. by specialize (Hcon eq_refl).
    + intros cs Hcs. destruct (Hen cs Hcs) as (c & _ & Hob). by destruct c as [| | |[]| | | |].
Qed.

Lemma conforms_empty_schema mode v : ~ conforms componentSchemas mode [] v.
Proof.
  intros Hc. inversion Hc as [? ? ? ? Hr|? ? ? ? _ Ha|? ? _ _ Hsc|? ? ? _ _ Hty|? ? _ _ Hty]; subst;
    try (vm_compute in Hr; discriminate Hr); try (vm_compute in Ha; discriminate Ha);
    try (vm_compute in Hty; discriminate Hty).
  inversion Hsc as [Hty|? Hty|? Hty|? Hty|? Hty]; vm_compute in Hty; discriminate Hty.
Qed.

(** C11: given the fuel its depth asks for, the validator accepts a value
    exactly when it conforms, at every pointer; in particular it returns. *)
Theorem validate_decides n mode schema v pointer :
  depth_ok componentSchemas n schema = true ->
  (validate componentSchemas n mode schema v pointer = Ok () <->
   conforms componentSchemas mode schema v) /\
  validate componentSchemas n mode schema v pointer <> Throw OutOfFuel.
Proof.
  intros Hd. split; [split; [apply validate_sound|intros Hc; by apply validate_complete]|].
  by apply validate_fuelled.
Qed.

(** The request mode is the stricter one: what may be sent under a schema
    would be accepted as a response under it. *)
Theorem request_mode_stricter n schema v pointer :
  depth_ok componentSchemas n schema = true ->
  validate componentSchemas n request_mode schema v pointer = Ok () ->
  validate componentSchemas n response_mode schema v pointer = Ok ().
Proof. intros Hd Hv%validate_sound. apply validate_complete; [by apply conforms_response|done]. Qed.

(** A response may carry properties its object schema does not name --
    unless the name is one that objects inherit, such as "constructor", which
    makes the response invalid. *)
Theorem response_extra_property schema fields k v :
  plain schema -> get schema "type" = VStr "object" ->
  as_record (get schema "additionalProperties") = None ->
  (forall l, get schema "additionalProperties" <> VArr l) ->
  own (default [] (as_record (get schema "properties"))) k = None ->
  conforms componentSchemas response_mode schema (VObj fields) ->
  conforms componentSchemas response_mode schema (VObj (fields ++ [(k, v)])) <-> inherited k = None.
Proof.
  intros Hpl Hty Hadd Hadd' Hown Hc.
  destruct (conforms_object_inv _ _ _ Hc Hpl) as (Hreq & Hforb & Hag & Hcon & Hen).
  assert (rule response_mode schema k = match inherited k with
    | None => Free | Some (VObj s) => Against s | Some _ => Forbidden end) as Hrule.
  { unfold rule, get at 1. rewrite Hown. unfold get at 1. rewrite Hown.
    unfold inherited. destruct (str_eqb k "__proto__"); [done|]. destruct (existsb _ _); [done|]. cbn.
    destruct (get schema "additionalProperties"); try done. by destruct (Hadd' l). }
  assert ((k, v) ∈ fields ++ [(k, v)]) as Hlast by (apply elem_of_app; right; apply list_elem_of_here).
  split.
  - intros Hc'. destruct (conforms_object_inv _ _ _ Hc' Hpl) as (_ & Hf & Ha & _).
    specialize (Hf k v Hlast). specialize (fun s => Ha k v s Hlast).
    rewrite Hrule in Hf, Ha. unfold inherited in *.
    destruct (str_eqb k "__proto__"); [by destruct (conforms_empty_schema _ _ (Ha [] eq_refl))|].
    by destruct (existsb _ _).
  - intros Hi. rewrite Hi in Hrule. apply conforms_object; try done.
    + split; [by rewrite Hcon|]. intros cs Hcs. by destruct (Hen cs).
    + intros l Hl key Hkey. destruct (Hreq l Hl key Hkey) as (k' & -> & Hk').
      exists k'. split; [done|]. by apply has_property_app.
    + intros k' w [Hin|[= -> ->]%list_elem_of_singleton]%elem_of_app; [by eapply Hforb|by rewrite Hrule].
    + intros k' w s [Hin|[= -> ->]%list_elem_of_singleton]%elem_of_app; [by eapply Hag|by rewrite Hrule].
Qed.
End Modes.

(** ** Witnesses *)

Module ValidatorWitnesses.
Definition no_dates : DateParser := fun _ => None.
Definition no_numbers : NumPrinter := fun _ => [].
#[local] Existing Instance no_dates.
#[local] Existing Instance no_numbers.

Definition named : Schema :=
  [(js "additionalProperties", VBool false);
   (js "properties", VObj [(js "name", VObj [(js "type", VStr "string"); (js "maxLength", VNum (NInt 4))])]);
   (js "required", VArr [VStr "name"]); (js "type", VStr "object")].
Definition trip : list (jstr * jsval) := [(js "name", VStr "Trip")].

Lemma validate_decides_witness :
  conforms [] request_mode named (VObj trip) /\ ~ conforms [] request_mode named (VObj []).
Proof.
  split.
  - apply (validate_decides [] 3 request_mode named (VObj trip) "$"); vm_compute; reflexivity.
  - intros Hc. apply (validate_decides [] 3 request_mode named (VObj []) "$") in Hc;
      vm_compute in *; [discriminate Hc|reflexivity].
Defined.

Lemma request_mode_stricter_witness :
  validate [] 3 response_mode named (VObj trip) "$" = Ok ().
Proof. apply request_mode_stricter; vm_compute; reflexivity. Defined.

Lemma response_extra_property_witness :
  conforms [] response_mode named (VObj (trip ++ [(js "colour", VNull)])) /\
  ~ conforms [] response_mode named (VObj (trip ++ [(js "constructor", VNull)])).
Proof.
  assert (plain named) as Hpl by (split; intros ? E; vm_compute in E; discriminate E).
  assert (conforms [] response_mode named (VObj trip)) as Hc
    by (apply (validate_sound [] response_mode 3 _ _ (js "$")); vm_compute; reflexivity).
  split.
  - apply (response_extra_property [] named trip "colour" VNull Hpl); try (vm_compute; reflexivity); [|exact Hc].
    intros l E. vm_compute in E. discriminate E.
  - intros Hc'. apply (response_extra_property [] named trip "constructor" VNull Hpl) in Hc';
      try (vm_compute; reflexivity); [vm_compute in Hc'; discriminate Hc'| |exact Hc].
    intros l E. vm_compute in E. discriminate E.
Defined.
End ValidatorWitnesses.
