(* ===== verification/GeneratedClient.v ===== *)
(** The generated client tables: [packages/api-client/generated/client.ts].
    One definition per component schema and per operation, value for value, in
    the enumeration order of the source. *)
From S2P Require Export Validator.

(** The view of an operation in [client.ts]; [None] is [null]. *)
Record RuntimeOperation := {
  bodySchema : option jsval;
  canonicalErrorStatuses : list jstr;
  commandType : option jstr;
  csrf : bool;
  method : jstr;
  path : jstr;
  pathSchemas : list (jstr * jsval);
  responses : list (jstr * option jsval);
}.

(** A reference to a component schema. *)
Definition ref_to (name : string) : jsval :=
  VObj [(js "$ref", VStr (js "#/components/schemas/" ++ js name))].

(** ** [componentSchemas] *)

Definition schema_CapabilitiesResponse : jsval := VObj [
  (js "additionalProperties", VBool false);
  (js "properties", VObj [
    (js "capabilities", VObj [
      (js "items", VObj [
        (js "$ref", VStr "#/components/schemas/Capability")]);
      (js "title", VStr "Capabilities");
      (js "type", VStr "array")]);
    (js "schema_version", VObj [
      (js "const", VStr "1");
      (js "title", VStr "Schema Version");
      (js "type", VStr "string")])]);
  (js "required", VArr [VStr "schema_version"; VStr "capabilities"]);
  (js "title", VStr "CapabilitiesResponse");
  (js "type", VStr "object")].

Definition schema_Capability : jsval := VObj [
  (js "additionalProperties", VBool false);
  (js "properties", VObj [
    (js "key", VObj [
      (js "title", VStr "Key");
      (js "type", VStr "string")]);
    (js "status", VObj [
      (js "enum", VArr [VStr "available"; VStr "unavailable"]);
      (js "title", VStr "Status");
      (js "type", VStr "string")])]);
  (js "required", VArr [VStr "key"; VStr "status"]);
  (js "title", VStr "Capability");
  (js "type", VStr "object")].

Definition schema_CommandEntityVersion : jsval := VObj [
  (js "additionalProperties", VBool false);
  (js "properties", VObj [
    (js "entity_id", VObj [
      (js "format", VStr "uuid");
      (js "title", VStr "Entity Id");
      (js "type", VStr "string")]);
    (js "entity_type", VObj [
      (js "const", VStr "journey");
      (js "title", VStr "Entity Type");
      (js "type", VStr "string")]);
    (js "record_version", VObj [
      (js "minimum", VNum (NInt 1));
      (js "title", VStr "Record Version");
      (js "type", VStr "integer")])]);
  (js "required", VArr [VStr "entity_type"; VStr "entity_id"; VStr "record_version"]);
  (js "title", VStr "CommandEntityVersion");
  (js "type", VStr "object")].

Definition schema_CommandVersionSupport : jsval := VObj [
  (js "additionalProperties", VBool false);
  (js "properties", VObj [
    (js "command_type", VObj [
      (js "maxLength", VNum (NInt 120));
      (js "minLength", VNum (NInt 1));
      (js "pattern", VStr "^[a-z][a-z0-9_.-]*$");
      (js "title", VStr "Command Type");
      (js "type", VStr "string")]);
    (js "current", VObj [
      (js "minimum", VNum (NInt 1));
      (js "title", VStr "Current");
      (js "type", VStr "integer")]);
    (js "maximum_supported", VObj [
      (js "minimum", VNum (NInt 1));
      (js "title", VStr "Maximum Supported");
      (js "type", VStr "integer")]);
    (js "minimum_supported", VObj [
      (js "minimum", VNum (NInt 1));
      (js "title", VStr "Minimum Supported");
      (js "type", VStr "integer")])]);
  (js "required", VArr [VStr "current"; VStr "minimum_supported"; VStr "maximum_supported"; VStr "command_type"]);
  (js "title", VStr "CommandVersionSupport");
  (js "type", VStr "object")].

Definition schema_ContractDiscoveryResponse : jsval := VObj [
  (js "additionalProperties", VBool false);
  (js "properties", VObj [
    (js "api", VObj [
      (js "$ref", VStr "#/components/schemas/SupportedVersionRange")]);
    (js "commands", VObj [
      (js "items", VObj [
        (js "$ref", VStr "#/components/schemas/CommandVersionSupport")]);
      (js "title", VStr "Commands");
      (js "type", VStr "array")]);
    (js "schema_version", VObj [
      (js "const", VStr "1");
      (js "title", VStr "Schema Version");
      (js "type", VStr "string")])]);
  (js "required", VArr [VStr "schema_version"; VStr "api"; VStr "commands"]);
  (js "title", VStr "ContractDiscoveryResponse");
  (js "type", VStr "object")].

Definition schema_ErrorBody : jsval := VObj [
  (js "additionalProperties", VBool false);
  (js "properties", VObj [
    (js "code", VObj [
      (js "title", VStr "Code");
      (js "type", VStr "string")]);
    (js "details", VObj [
      (js "additionalProperties", VBool true);
      (js "title", VStr "Details");
      (js "type", VStr "object")]);
    (js "message", VObj [
      (js "title", VStr "Message");
      (js "type", VStr "string")]);
    (js "request_id", VObj [
      (js "title", VStr "Request Id");
      (js "type", VStr "string")])]);
  (js "required", VArr [VStr "code"; VStr "message"; VStr "details"; VStr "request_id"]);
  (js "title", VStr "ErrorBody");
  (js "type", VStr "object")].

Definition schema_ErrorResponse : jsval := VObj [
  (js "additionalProperties", VBool false);
  (js "properties", VObj [
    (js "error", VObj [
      (js "$ref", VStr "#/components/schemas/ErrorBody")])]);
  (js "required", VArr [VStr "error"]);
  (js "title", VStr "ErrorResponse");
  (js "type", VStr "object")].

Definition schema_JourneyCreate : jsval := VObj [
  (js "additionalProperties", VBool false);
  (js "properties", VObj [
    (js "end_date", VObj [
      (js "anyOf", VArr [
        VObj [
          (js "format", VStr "date");
          (js "type", VStr "string")];
        VObj [
          (js "type", VStr "null")]]);
      (js "title", VStr "End Date")]);
    (js "id", VObj [
      (js "anyOf", VArr [
        VObj [
          (js "format", VStr "uuid");
          (js "type", VStr "string")];
        VObj [
          (js "type", VStr "null")]]);
      (js "title", VStr "Id")]);
    (js "name", VObj [
      (js "maxLength", VNum (NInt 200));
      (js "minLength", VNum (NInt 1));
      (js "title", VStr "Name");
      (js "type", VStr "string")]);
    (js "start_date", VObj [
      (js "anyOf", VArr [
        VObj [
          (js "format", VStr "date");
          (js "type", VStr "string")];
        VObj [
          (js "type", VStr "null")]]);
      (js "title", VStr "Start Date")])]);
  (js "required", VArr [VStr "name"]);
  (js "title", VStr "JourneyCreate");
  (js "type", VStr "object")].

Definition schema_JourneyListResponse : jsval := VObj [
  (js "additionalProperties", VBool false);
  (js "properties", VObj [
    (js "items", VObj [
      (js "items", VObj [
        (js "$ref", VStr "#/components/schemas/JourneyResponse")]);
      (js "title", VStr "Items");
      (js "type", VStr "array")])]);
  (js "required", VArr [VStr "items"]);
  (js "title", VStr "JourneyListResponse");
  (js "type", VStr "object")].

Definition schema_JourneyResponse : jsval := VObj [
  (js "additionalProperties", VBool false);
  (js "properties", VObj [
    (js "created_at", VObj [
      (js "format", VStr "date-time");
      (js "title", VStr "Created At");
      (js "type", VStr "string")]);
    (js "end_date", VObj [
      (js "anyOf", VArr [
        VObj [
          (js "format", VStr "date");
          (js "type", VStr "string")];
        VObj [
          (js "type", VStr "null")]]);
      (js "title", VStr "End Date")]);
    (js "id", VObj [
      (js "format", VStr "uuid");
      (js "title", VStr "Id");
      (js "type", VStr "string")]);
    (js "name", VObj [
      (js "title", VStr "Name");
      (js "type", VStr "string")]);
    (js "record_version", VObj [
      (js "title", VStr "Record Version");
      (js "type", VStr "integer")]);
    (js "start_date", VObj [
      (js "anyOf", VArr [
        VObj [
          (js "format", VStr "date");
          (js "type", VStr "string")];
        VObj [
          (js "type", VStr "null")]]);
      (js "title", VStr "Start Date")]);
    (js "status", VObj [
      (js "enum", VArr [VStr "planning"; VStr "active"; VStr "completed"; VStr "archived"]);
      (js "title", VStr "Status");
      (js "type", VStr "string")]);
    (js "updated_at", VObj [
      (js "format", VStr "date-time");
      (js "title", VStr "Updated At");
      (js "type", VStr "string")])]);
  (js "required", VArr [VStr "id"; VStr "name"; VStr "start_date"; VStr "end_date"; VStr "status"; VStr "record_version"; VStr "created_at"; VStr "updated_at"]);
  (js "title", VStr "JourneyResponse");
  (js "type", VStr "object")].

Definition schema_JourneyUpdate : jsval := VObj [
  (js "additionalProperties", VBool false);
  (js "properties", VObj [
    (js "end_date", VObj [
      (js "anyOf", VArr [
        VObj [
          (js "format", VStr "date");
          (js "type", VStr "string")];
        VObj [
          (js "type", VStr "null")]]);
      (js "title", VStr "End Date")]);
    (js "expected_record_version", VObj [
      (js "minimum", VNum (NInt 1));
      (js "title", VStr "Expected Record Version");
      (js "type", VStr "integer")]);
    (js "name", VObj [
      (js "maxLength", VNum (NInt 200));
      (js "minLength", VNum (NInt 1));
      (js "title", VStr "Name");
      (js "type", VStr "string")]);
    (js "start_date", VObj [
      (js "anyOf", VArr [
        VObj [
          (js "format", VStr "date");
          (js "type", VStr "string")];
        VObj [
          (js "type", VStr "null")]]);
      (js "title", VStr "Start Date")]);
    (js "status", VObj [
      (js "enum", VArr [VStr "planning"; VStr "active"; VStr "completed"; VStr "archived"]);
      (js "title", VStr "Status");
      (js "type", VStr "string")])]);
  (js "required", VArr [VStr "name"; VStr "expected_record_version"; VStr "status"]);
  (js "title", VStr "JourneyUpdate");
  (js "type", VStr "object")].

Definition schema_JourneyUpdateCommand : jsval := VObj [
  (js "additionalProperties", VBool false);
  (js "properties", VObj [
    (js "command_id", VObj [
      (js "format", VStr "uuid");
      (js "title", VStr "Command Id");
      (js "type", VStr "string")]);
    (js "command_type", VObj [
      (js "const", VStr "journey.update");
      (js "title", VStr "Command Type");
      (js "type", VStr "string")]);
    (js "command_version", VObj [
      (js "minimum", VNum (NInt 1));
      (js "title", VStr "Command Version");
      (js "type", VStr "integer")]);
    (js "payload", VObj [
      (js "$ref", VStr "#/components/schemas/JourneyUpdateCommandPayload")])]);
  (js "required", VArr [VStr "command_id"; VStr "command_type"; VStr "command_version"; VStr "payload"]);
  (js "title", VStr "JourneyUpdateCommand");
  (js "type", VStr "object")].

Definition schema_JourneyUpdateCommandPayload : jsval := VObj [
  (js "additionalProperties", VBool false);
  (js "properties", VObj [
    (js "end_date", VObj [
      (js "anyOf", VArr [
        VObj [
          (js "format", VStr "date");
          (js "type", VStr "string")];
        VObj [
          (js "type", VStr "null")]]);
      (js "title", VStr "End Date")]);
    (js "expected_record_version", VObj [
      (js "minimum", VNum (NInt 1));
      (js "title", VStr "Expected Record Version");
      (js "type", VStr "integer")]);
    (js "journey_id", VObj [
      (js "format", VStr "uuid");
      (js "title", VStr "Journey Id");
      (js "type", VStr "string")]);
    (js "name", VObj [
      (js "maxLength", VNum (NInt 200));
      (js "minLength", VNum (NInt 1));
      (js "title", VStr "Name");
      (js "type", VStr "string")]);
    (js "start_date", VObj [
      (js "anyOf", VArr [
        VObj [
          (js "format", VStr "date");
          (js "type", VStr "string")];
        VObj [
          (js "type", VStr "null")]]);
      (js "title", VStr "Start Date")]);
    (js "status", VObj [
      (js "enum", VArr [VStr "planning"; VStr "active"; VStr "completed"; VStr "archived"]);
      (js "title", VStr "Status");
      (js "type", VStr "string")])]);
  (js "required", VArr [VStr "name"; VStr "expected_record_version"; VStr "status"; VStr "journey_id"]);
  (js "title", VStr "JourneyUpdateCommandPayload");
  (js "type", VStr "object")].

Definition schema_JourneyUpdateCommandResponse : jsval := VObj [
  (js "additionalProperties", VBool false);
  (js "properties", VObj [
    (js "change_set_id", VObj [
      (js "format", VStr "uuid");
      (js "title", VStr "Change Set Id");
      (js "type", VStr "string")]);
    (js "command_id", VObj [
      (js "format", VStr "uuid");
      (js "title", VStr "Command Id");
      (js "type", VStr "string")]);
    (js "command_type", VObj [
      (js "const", VStr "journey.update");
      (js "title", VStr "Command Type");
      (js "type", VStr "string")]);
    (js "command_version", VObj [
      (js "title", VStr "Command Version");
      (js "type", VStr "integer")]);
    (js "outcome", VObj [
      (js "const", VStr "applied");
      (js "title", VStr "Outcome");
      (js "type", VStr "string")]);
    (js "replayed", VObj [
      (js "title", VStr "Replayed");
      (js "type", VStr "boolean")]);
    (js "result", VObj [
      (js "$ref", VStr "#/components/schemas/CommandEntityVersion")])]);
  (js "required", VArr [VStr "command_id"; VStr "command_type"; VStr "command_version"; VStr "outcome"; VStr "replayed"; VStr "change_set_id"; VStr "result"]);
  (js "title", VStr "JourneyUpdateCommandResponse");
  (js "type", VStr "object")].

Definition schema_LiveResponse : jsval := VObj [
  (js "additionalProperties", VBool false);
  (js "properties", VObj [
    (js "status", VObj [
      (js "const", VStr "live");
      (js "title", VStr "Status");
      (js "type", VStr "string")])]);
  (js "required", VArr [VStr "status"]);
  (js "title", VStr "LiveResponse");
  (js "type", VStr "object")].

Definition schema_LoginRequest : jsval := VObj [
  (js "additionalProperties", VBool false);
  (js "properties", VObj [
    (js "email", VObj [
      (js "format", VStr "email");
      (js "title", VStr "Email");
      (js "type", VStr "string")]);
    (js "password", VObj [
      (js "maxLength", VNum (NInt 256));
      (js "minLength", VNum (NInt 1));
      (js "title", VStr "Password");
      (js "type", VStr "string")])]);
  (js "required", VArr [VStr "email"; VStr "password"]);
  (js "title", VStr "LoginRequest");
  (js "type", VStr "object")].

Definition schema_LogoutResponse : jsval := VObj [
  (js "additionalProperties", VBool false);
  (js "properties", VObj [
    (js "authenticated", VObj [
      (js "const", VBool false);
      (js "title", VStr "Authenticated");
      (js "type", VStr "boolean")])]);
  (js "required", VArr [VStr "authenticated"]);
  (js "title", VStr "LogoutResponse");
  (js "type", VStr "object")].

Definition schema_PackingCreate : jsval := VObj [
  (js "additionalProperties", VBool false);
  (js "properties", VObj [
    (js "category", VObj [
      (js "enum", VArr [VStr "documents"; VStr "clothing"; VStr "toiletries"; VStr "electronics"; VStr "other"]);
      (js "title", VStr "Category");
      (js "type", VStr "string")]);
    (js "essential", VObj [
      (js "default", VBool false);
      (js "title", VStr "Essential");
      (js "type", VStr "boolean")]);
    (js "id", VObj [
      (js "anyOf", VArr [
        VObj [
          (js "format", VStr "uuid");
          (js "type", VStr "string")];
        VObj [
          (js "type", VStr "null")]]);
      (js "title", VStr "Id")]);
    (js "label", VObj [
      (js "maxLength", VNum (NInt 200));
      (js "minLength", VNum (NInt 1));
      (js "title", VStr "Label");
      (js "type", VStr "string")]);
    (js "quantity", VObj [
      (js "maximum", VNum (NInt 99));
      (js "minimum", VNum (NInt 1));
      (js "title", VStr "Quantity");
      (js "type", VStr "integer")])]);
  (js "required", VArr [VStr "label"; VStr "category"; VStr "quantity"]);
  (js "title", VStr "PackingCreate");
  (js "type", VStr "object")].

Definition schema_PackingListResponse : jsval := VObj [
  (js "additionalProperties", VBool false);
  (js "properties", VObj [
    (js "items", VObj [
      (js "items", VObj [
        (js "$ref", VStr "#/components/schemas/PackingResponse")]);
      (js "title", VStr "Items");
      (js "type", VStr "array")])]);
  (js "required", VArr [VStr "items"]);
  (js "title", VStr "PackingListResponse");
  (js "type", VStr "object")].

Definition schema_PackingProgressUpdate : jsval := VObj [
  (js "additionalProperties", VBool false);
  (js "properties", VObj [
    (js "expected_record_version", VObj [
      (js "minimum", VNum (NInt 1));
      (js "title", VStr "Expected Record Version");
      (js "type", VStr "integer")]);
    (js "packed_quantity", VObj [
      (js "maximum", VNum (NInt 99));
      (js "minimum", VNum (NInt 0));
      (js "title", VStr "Packed Quantity");
      (js "type", VStr "integer")])]);
  (js "required", VArr [VStr "expected_record_version"; VStr "packed_quantity"]);
  (js "title", VStr "PackingProgressUpdate");
  (js "type", VStr "object")].

Definition schema_PackingResponse : jsval := VObj [
  (js "additionalProperties", VBool false);
  (js "properties", VObj [
    (js "category", VObj [
      (js "enum", VArr [VStr "documents"; VStr "clothing"; VStr "toiletries"; VStr "electronics"; VStr "other"]);
      (js "title", VStr "Category");
      (js "type", VStr "string")]);
    (js "created_at", VObj [
      (js "format", VStr "date-time");
      (js "title", VStr "Created At");
      (js "type", VStr "string")]);
    (js "essential", VObj [
      (js "default", VBool false);
      (js "title", VStr "Essential");
      (js "type", VStr "boolean")]);
    (js "id", VObj [
      (js "format", VStr "uuid");
      (js "title", VStr "Id");
      (js "type", VStr "string")]);
    (js "journey_id", VObj [
      (js "format", VStr "uuid");
      (js "title", VStr "Journey Id");
      (js "type", VStr "string")]);
    (js "label", VObj [
      (js "maxLength", VNum (NInt 200));
      (js "minLength", VNum (NInt 1));
      (js "title", VStr "Label");
      (js "type", VStr "string")]);
    (js "packed_quantity", VObj [
      (js "title", VStr "Packed Quantity");
      (js "type", VStr "integer")]);
    (js "quantity", VObj [
      (js "maximum", VNum (NInt 99));
      (js "minimum", VNum (NInt 1));
      (js "title", VStr "Quantity");
      (js "type", VStr "integer")]);
    (js "record_version", VObj [
      (js "title", VStr "Record Version");
      (js "type", VStr "integer")]);
    (js "updated_at", VObj [
      (js "format", VStr "date-time");
      (js "title", VStr "Updated At");
      (js "type", VStr "string")])]);
  (js "required", VArr [VStr "label"; VStr "category"; VStr "quantity"; VStr "id"; VStr "journey_id"; VStr "packed_quantity"; VStr "record_version"; VStr "created_at"; VStr "updated_at"]);
  (js "title", VStr "PackingResponse");
  (js "type", VStr "object")].

Definition schema_PackingUpdate : jsval := VObj [
  (js "additionalProperties", VBool false);
  (js "properties", VObj [
    (js "category", VObj [
      (js "enum", VArr [VStr "documents"; VStr "clothing"; VStr "toiletries"; VStr "electronics"; VStr "other"]);
      (js "title", VStr "Category");
      (js "type", VStr "string")]);
    (js "essential", VObj [
      (js "default", VBool false);
      (js "title", VStr "Essential");
      (js "type", VStr "boolean")]);
    (js "expected_record_version", VObj [
      (js "minimum", VNum (NInt 1));
      (js "title", VStr "Expected Record Version");
      (js "type", VStr "integer")]);
    (js "label", VObj [
      (js "maxLength", VNum (NInt 200));
      (js "minLength", VNum (NInt 1));
      (js "title", VStr "Label");
      (js "type", VStr "string")]);
    (js "quantity", VObj [
      (js "maximum", VNum (NInt 99));
      (js "minimum", VNum (NInt 1));
      (js "title", VStr "Quantity");
      (js "type", VStr "integer")])]);
  (js "required", VArr [VStr "label"; VStr "category"; VStr "quantity"; VStr "expected_record_version"]);
  (js "title", VStr "PackingUpdate");
  (js "type", VStr "object")].

Definition schema_ReadinessChecks : jsval := VObj [
  (js "additionalProperties", VBool false);
  (js "properties", VObj [
    (js "api", VObj [
      (js "const", VStr "ready");
      (js "title", VStr "Api");
      (js "type", VStr "string")]);
    (js "database", VObj [
      (js "enum", VArr [VStr "ready"; VStr "unavailable"]);
      (js "title", VStr "Database");
      (js "type", VStr "string")])]);
  (js "required", VArr [VStr "api"; VStr "database"]);
  (js "title", VStr "ReadinessChecks");
  (js "type", VStr "object")].

Definition schema_ReadyResponse : jsval := VObj [
  (js "additionalProperties", VBool false);
  (js "properties", VObj [
    (js "checks", VObj [
      (js "$ref", VStr "#/components/schemas/ReadinessChecks")]);
    (js "status", VObj [
      (js "enum", VArr [VStr "ready"; VStr "not_ready"]);
      (js "title", VStr "Status");
      (js "type", VStr "string")])]);
  (js "required", VArr [VStr "status"; VStr "checks"]);
  (js "title", VStr "ReadyResponse");
  (js "type", VStr "object")].

Definition schema_RegisterRequest : jsval := VObj [
  (js "additionalProperties", VBool false);
  (js "properties", VObj [
    (js "display_name", VObj [
      (js "maxLength", VNum (NInt 120));
      (js "minLength", VNum (NInt 1));
      (js "title", VStr "Display Name");
      (js "type", VStr "string")]);
    (js "email", VObj [
      (js "format", VStr "email");
      (js "title", VStr "Email");
      (js "type", VStr "string")]);
    (js "password", VObj [
      (js "maxLength", VNum (NInt 256));
      (js "minLength", VNum (NInt 12));
      (js "title", VStr "Password");
      (js "type", VStr "string")])]);
  (js "required", VArr [VStr "email"; VStr "password"; VStr "display_name"]);
  (js "title", VStr "RegisterRequest");
  (js "type", VStr "object")].

Definition schema_SegmentCreate : jsval := VObj [
  (js "additionalProperties", VBool false);
  (js "properties", VObj [
    (js "destination_name", VObj [
      (js "anyOf", VArr [
        VObj [
          (js "maxLength", VNum (NInt 200));
          (js "type", VStr "string")];
        VObj [
          (js "type", VStr "null")]]);
      (js "title", VStr "Destination Name")]);
    (js "end_date", VObj [
      (js "anyOf", VArr [
        VObj [
          (js "format", VStr "date");
          (js "type", VStr "string")];
        VObj [
          (js "type", VStr "null")]]);
      (js "title", VStr "End Date")]);
    (js "id", VObj [
      (js "anyOf", VArr [
        VObj [
          (js "format", VStr "uuid");
          (js "type", VStr "string")];
        VObj [
          (js "type", VStr "null")]]);
      (js "title", VStr "Id")]);
    (js "kind", VObj [
      (js "enum", VArr [VStr "stay"; VStr "move"]);
      (js "title", VStr "Kind");
      (js "type", VStr "string")]);
    (js "notes", VObj [
      (js "default", VStr "");
      (js "maxLength", VNum (NInt 5000));
      (js "title", VStr "Notes");
      (js "type", VStr "string")]);
    (js "origin_name", VObj [
      (js "anyOf", VArr [
        VObj [
          (js "maxLength", VNum (NInt 200));
          (js "type", VStr "string")];
        VObj [
          (js "type", VStr "null")]]);
      (js "title", VStr "Origin Name")]);
    (js "place_name", VObj [
      (js "anyOf", VArr [
        VObj [
          (js "maxLength", VNum (NInt 200));
          (js "type", VStr "string")];
        VObj [
          (js "type", VStr "null")]]);
      (js "title", VStr "Place Name")]);
    (js "start_date", VObj [
      (js "anyOf", VArr [
        VObj [
          (js "format", VStr "date");
          (js "type", VStr "string")];
        VObj [
          (js "type", VStr "null")]]);
      (js "title", VStr "Start Date")]);
    (js "transport_mode", VObj [
      (js "default", VStr "");
      (js "maxLength", VNum (NInt 100));
      (js "title", VStr "Transport Mode");
      (js "type", VStr "string")])]);
  (js "required", VArr [VStr "kind"]);
  (js "title", VStr "SegmentCreate");
  (js "type", VStr "object")].

Definition schema_SegmentListResponse : jsval := VObj [
  (js "additionalProperties", VBool false);
  (js "properties", VObj [
    (js "items", VObj [
      (js "items", VObj [
        (js "$ref", VStr "#/components/schemas/SegmentResponse")]);
      (js "title", VStr "Items");
      (js "type", VStr "array")])]);
  (js "required", VArr [VStr "items"]);
  (js "title", VStr "SegmentListResponse");
  (js "type", VStr "object")].

Definition schema_SegmentReorder : jsval := VObj [
  (js "additionalProperties", VBool false);
  (js "properties", VObj [
    (js "expected_record_version", VObj [
      (js "minimum", VNum (NInt 1));
      (js "title", VStr "Expected Record Version");
      (js "type", VStr "integer")]);
    (js "new_position", VObj [
      (js "minimum", VNum (NInt 0));
      (js "title", VStr "New Position");
      (js "type", VStr "integer")])]);
  (js "required", VArr [VStr "expected_record_version"; VStr "new_position"]);
  (js "title", VStr "SegmentReorder");
  (js "type", VStr "object")].

Definition schema_SegmentResponse : jsval := VObj [
  (js "additionalProperties", VBool false);
  (js "properties", VObj [
    (js "created_at", VObj [
      (js "format", VStr "date-time");
      (js "title", VStr "Created At");
      (js "type", VStr "string")]);
    (js "destination_name", VObj [
      (js "anyOf", VArr [
        VObj [
          (js "maxLength", VNum (NInt 200));
          (js "type", VStr "string")];
        VObj [
          (js "type", VStr "null")]]);
      (js "title", VStr "Destination Name")]);
    (js "end_date", VObj [
      (js "anyOf", VArr [
        VObj [
          (js "format", VStr "date");
          (js "type", VStr "string")];
        VObj [
          (js "type", VStr "null")]]);
      (js "title", VStr "End Date")]);
    (js "id", VObj [
      (js "format", VStr "uuid");
      (js "title", VStr "Id");
      (js "type", VStr "string")]);
    (js "journey_id", VObj [
      (js "format", VStr "uuid");
      (js "title", VStr "Journey Id");
      (js "type", VStr "string")]);
    (js "kind", VObj [
      (js "enum", VArr [VStr "stay"; VStr "move"]);
      (js "title", VStr "Kind");
      (js "type", VStr "string")]);
    (js "notes", VObj [
      (js "default", VStr "");
      (js "maxLength", VNum (NInt 5000));
      (js "title", VStr "Notes");
      (js "type", VStr "string")]);
    (js "origin_name", VObj [
      (js "anyOf", VArr [
        VObj [
          (js "maxLength", VNum (NInt 200));
          (js "type", VStr "string")];
        VObj [
          (js "type", VStr "null")]]);
      (js "title", VStr "Origin Name")]);
    (js "place_name", VObj [
      (js "anyOf", VArr [
        VObj [
          (js "maxLength", VNum (NInt 200));
          (js "type", VStr "string")];
        VObj [
          (js "type", VStr "null")]]);
      (js "title", VStr "Place Name")]);
    (js "position", VObj [
      (js "title", VStr "Position");
      (js "type", VStr "integer")]);
    (js "record_version", VObj [
      (js "title", VStr "Record Version");
      (js "type", VStr "integer")]);
    (js "start_date", VObj [
      (js "anyOf", VArr [
        VObj [
          (js "format", VStr "date");
          (js "type", VStr "string")];
        VObj [
          (js "type", VStr "null")]]);
      (js "title", VStr "Start Date")]);
    (js "transport_mode", VObj [
      (js "default", VStr "");
      (js "maxLength", VNum (NInt 100));
      (js "title", VStr "Transport Mode");
      (js "type", VStr "string")]);
    (js "updated_at", VObj [
      (js "format", VStr "date-time");
      (js "title", VStr "Updated At");
      (js "type", VStr "string")])]);
  (js "required", VArr [VStr "kind"; VStr "id"; VStr "journey_id"; VStr "position"; VStr "record_version"; VStr "created_at"; VStr "updated_at"]);
  (js "title", VStr "SegmentResponse");
  (js "type", VStr "object")].

Definition schema_SegmentUpdate : jsval := VObj [
  (js "additionalProperties", VBool false);
  (js "properties", VObj [
    (js "destination_name", VObj [
      (js "anyOf", VArr [
        VObj [
          (js "maxLength", VNum (NInt 200));
          (js "type", VStr "string")];
        VObj [
          (js "type", VStr "null")]]);
      (js "title", VStr "Destination Name")]);
    (js "end_date", VObj [
      (js "anyOf", VArr [
        VObj [
          (js "format", VStr "date");
          (js "type", VStr "string")];
        VObj [
          (js "type", VStr "null")]]);
      (js "title", VStr "End Date")]);
    (js "expected_record_version", VObj [
      (js "minimum", VNum (NInt 1));
      (js "title", VStr "Expected Record Version");
      (js "type", VStr "integer")]);
    (js "kind", VObj [
      (js "enum", VArr [VStr "stay"; VStr "move"]);
      (js "title", VStr "Kind");
      (js "type", VStr "string")]);
    (js "notes", VObj [
      (js "default", VStr "");
      (js "maxLength", VNum (NInt 5000));
      (js "title", VStr "Notes");
      (js "type", VStr "string")]);
    (js "origin_name", VObj [
      (js "anyOf", VArr [
        VObj [
          (js "maxLength", VNum (NInt 200));
          (js "type", VStr "string")];
        VObj [
          (js "type", VStr "null")]]);
      (js "title", VStr "Origin Name")]);
    (js "place_name", VObj [
      (js "anyOf", VArr [
        VObj [
          (js "maxLength", VNum (NInt 200));
          (js "type", VStr "string")];
        VObj [
          (js "type", VStr "null")]]);
      (js "title", VStr "Place Name")]);
    (js "start_date", VObj [
      (js "anyOf", VArr [
        VObj [
          (js "format", VStr "date");
          (js "type", VStr "string")];
        VObj [
          (js "type", VStr "null")]]);
      (js "title", VStr "Start Date")]);
    (js "transport_mode", VObj [
      (js "default", VStr "");
      (js "maxLength", VNum (NInt 100));
      (js "title", VStr "Transport Mode");
      (js "type", VStr "string")])]);
  (js "required", VArr [VStr "kind"; VStr "expected_record_version"]);
  (js "title", VStr "SegmentUpdate");
  (js "type", VStr "object")].

Definition schema_SessionResponse : jsval := VObj [
  (js "additionalProperties", VBool false);
  (js "properties", VObj [
    (js "authenticated", VObj [
      (js "const", VBool true);
      (js "title", VStr "Authenticated");
      (js "type", VStr "boolean")]);
    (js "user", VObj [
      (js "$ref", VStr "#/components/schemas/UserResponse")])]);
  (js "required", VArr [VStr "authenticated"; VStr "user"]);
  (js "title", VStr "SessionResponse");
  (js "type", VStr "object")].

Definition schema_SupportedVersionRange : jsval := VObj [
  (js "additionalProperties", VBool false);
  (js "properties", VObj [
    (js "current", VObj [
      (js "minimum", VNum (NInt 1));
      (js "title", VStr "Current");
      (js "type", VStr "integer")]);
    (js "maximum_supported", VObj [
      (js "minimum", VNum (NInt 1));
      (js "title", VStr "Maximum Supported");
      (js "type", VStr "integer")]);
    (js "minimum_supported", VObj [
      (js "minimum", VNum (NInt 1));
      (js "title", VStr "Minimum Supported");
      (js "type", VStr "integer")])]);
  (js "required", VArr [VStr "current"; VStr "minimum_supported"; VStr "maximum_supported"]);
  (js "title", VStr "SupportedVersionRange");
  (js "type", VStr "object")].

Definition schema_UserResponse : jsval := VObj [
  (js "additionalProperties", VBool false);
  (js "properties", VObj [
    (js "display_name", VObj [
      (js "title", VStr "Display Name");
      (js "type", VStr "string")]);
    (js "email", VObj [
      (js "format", VStr "email");
      (js "title", VStr "Email");
      (js "type", VStr "string")]);
    (js "id", VObj [
      (js "format", VStr "uuid");
      (js "title", VStr "Id");
      (js "type", VStr "string")]);
    (js "workspace_id", VObj [
      (js "format", VStr "uuid");
      (js "title", VStr "Workspace Id");
      (js "type", VStr "string")])]);
  (js "required", VArr [VStr "id"; VStr "email"; VStr "display_name"; VStr "workspace_id"]);
  (js "title", VStr "UserResponse");
  (js "type", VStr "object")].

Definition schema_VersionResponse : jsval := VObj [
  (js "additionalProperties", VBool false);
  (js "properties", VObj [
    (js "api_version", VObj [
      (js "const", VStr "1");
      (js "title", VStr "Api Version");
      (js "type", VStr "string")]);
    (js "application", VObj [
      (js "const", VStr "Trax OS");
      (js "title", VStr "Application");
      (js "type", VStr "string")]);
    (js "version", VObj [
      (js "pattern", VStr "^\d+\.\d+\.\d+$");
      (js "title", VStr "Version");
      (js "type", VStr "string")])]);
  (js "required", VArr [VStr "application"; VStr "version"; VStr "api_version"]);
  (js "title", VStr "VersionResponse");
  (js "type", VStr "object")].

Definition componentSchemas : Schema := [
  (js "CapabilitiesResponse", schema_CapabilitiesResponse);
  (js "Capability", schema_Capability);
  (js "CommandEntityVersion", schema_CommandEntityVersion);
  (js "CommandVersionSupport", schema_CommandVersionSupport);
  (js "ContractDiscoveryResponse", schema_ContractDiscoveryResponse);
  (js "ErrorBody", schema_ErrorBody);
  (js "ErrorResponse", schema_ErrorResponse);
  (js "JourneyCreate", schema_JourneyCreate);
  (js "JourneyListResponse", schema_JourneyListResponse);
  (js "JourneyResponse", schema_JourneyResponse);
  (js "JourneyUpdate", schema_JourneyUpdate);
  (js "JourneyUpdateCommand", schema_JourneyUpdateCommand);
  (js "JourneyUpdateCommandPayload", schema_JourneyUpdateCommandPayload);
  (js "JourneyUpdateCommandResponse", schema_JourneyUpdateCommandResponse);
  (js "LiveResponse", schema_LiveResponse);
  (js "LoginRequest", schema_LoginRequest);
  (js "LogoutResponse", schema_LogoutResponse);
  (js "PackingCreate", schema_PackingCreate);
  (js "PackingListResponse", schema_PackingListResponse);
  (js "PackingProgressUpdate", schema_PackingProgressUpdate);
  (js "PackingResponse", schema_PackingResponse);
  (js "PackingUpdate", schema_PackingUpdate);
  (js "ReadinessChecks", schema_ReadinessChecks);
  (js "ReadyResponse", schema_ReadyResponse);
  (js "RegisterRequest", schema_RegisterRequest);
  (js "SegmentCreate", schema_SegmentCreate);
  (js "SegmentListResponse", schema_SegmentListResponse);
  (js "SegmentReorder", schema_SegmentReorder);
  (js "SegmentResponse", schema_SegmentResponse);
  (js "SegmentUpdate", schema_SegmentUpdate);
  (js "SessionResponse", schema_SessionResponse);
  (js "SupportedVersionRange", schema_SupportedVersionRange);
  (js "UserResponse", schema_UserResponse);
  (js "VersionResponse", schema_VersionResponse)].

(** ** [operationMetadata] *)

Definition contract_discovery_api_contract_get : RuntimeOperation := {|
  bodySchema := None;
  canonicalErrorStatuses := js <$> ["401"; "403"; "404"; "409"; "422"; "500"]%string;
  commandType := None;
  csrf := false;
  method := "GET";
  path := "/api/contract";
  pathSchemas := [];
  responses := [
    (js "200", Some (ref_to "ContractDiscoveryResponse"));
    (js "401", Some (ref_to "ErrorResponse"));
    (js "403", Some (ref_to "ErrorResponse"));
    (js "404", Some (ref_to "ErrorResponse"));
    (js "409", Some (ref_to "ErrorResponse"));
    (js "422", Some (ref_to "ErrorResponse"));
    (js "500", Some (ref_to "ErrorResponse"))] |}.

Definition login_route_api_v1_auth_login_post : RuntimeOperation := {|
  bodySchema := Some (ref_to "LoginRequest");
  canonicalErrorStatuses := js <$> ["401"; "403"; "404"; "409"; "422"; "500"]%string;
  commandType := None;
  csrf := false;
  method := "POST";
  path := "/api/v1/auth/login";
  pathSchemas := [];
  responses := [
    (js "200", Some (ref_to "SessionResponse"));
    (js "401", Some (ref_to "ErrorResponse"));
    (js "403", Some (ref_to "ErrorResponse"));
    (js "404", Some (ref_to "ErrorResponse"));
    (js "409", Some (ref_to "ErrorResponse"));
    (js "422", Some (ref_to "ErrorResponse"));
    (js "500", Some (ref_to "ErrorResponse"))] |}.

Definition logout_route_api_v1_auth_logout_post : RuntimeOperation := {|
  bodySchema := None;
  canonicalErrorStatuses := js <$> ["401"; "403"; "404"; "409"; "422"; "500"]%string;
  commandType := None;
  csrf := true;
  method := "POST";
  path := "/api/v1/auth/logout";
  pathSchemas := [];
  responses := [
    (js "200", Some (ref_to "LogoutResponse"));
    (js "401", Some (ref_to "ErrorResponse"));
    (js "403", Some (ref_to "ErrorResponse"));
    (js "404", Some (ref_to "ErrorResponse"));
    (js "409", Some (ref_to "ErrorResponse"));
    (js "422", Some (ref_to "ErrorResponse"));
    (js "500", Some (ref_to "ErrorResponse"))] |}.

Definition register_route_api_v1_auth_register_post : RuntimeOperation := {|
  bodySchema := Some (ref_to "RegisterRequest");
  canonicalErrorStatuses := js <$> ["401"; "403"; "404"; "409"; "422"; "500"]%string;
  commandType := None;
  csrf := false;
  method := "POST";
  path := "/api/v1/auth/register";
  pathSchemas := [];
  responses := [
    (js "201", Some (ref_to "SessionResponse"));
    (js "401", Some (ref_to "ErrorResponse"));
    (js "403", Some (ref_to "ErrorResponse"));
    (js "404", Some (ref_to "ErrorResponse"));
    (js "409", Some (ref_to "ErrorResponse"));
    (js "422", Some (ref_to "ErrorResponse"));
    (js "500", Some (ref_to "ErrorResponse"))] |}.

Definition session_route_api_v1_auth_session_get : RuntimeOperation := {|
  bodySchema := None;
  canonicalErrorStatuses := js <$> ["401"; "403"; "404"; "409"; "422"; "500"]%string;
  commandType := None;
  csrf := false;
  method := "GET";
  path := "/api/v1/auth/session";
  pathSchemas := [];
  responses := [
    (js "200", Some (ref_to "SessionResponse"));
    (js "401", Some (ref_to "ErrorResponse"));
    (js "403", Some (ref_to "ErrorResponse"));
    (js "404", Some (ref_to "ErrorResponse"));
    (js "409", Some (ref_to "ErrorResponse"));
    (js "422", Some (ref_to "ErrorResponse"));
    (js "500", Some (ref_to "ErrorResponse"))] |}.

Definition capabilities_api_v1_capabilities_get : RuntimeOperation := {|
  bodySchema := None;
  canonicalErrorStatuses := js <$> ["401"; "403"; "404"; "409"; "422"; "500"]%string;
  commandType := None;
  csrf := false;
  method := "GET";
  path := "/api/v1/capabilities";
  pathSchemas := [];
  responses := [
    (js "200", Some (ref_to "CapabilitiesResponse"));
    (js "401", Some (ref_to "ErrorResponse"));
    (js "403", Some (ref_to "ErrorResponse"));
    (js "404", Some (ref_to "ErrorResponse"));
    (js "409", Some (ref_to "ErrorResponse"));
    (js "422", Some (ref_to "ErrorResponse"));
    (js "500", Some (ref_to "ErrorResponse"))] |}.

Definition canonical_update_journey_api_v1_commands_journey_update_post : RuntimeOperation := {|
  bodySchema := Some (ref_to "JourneyUpdateCommand");
  canonicalErrorStatuses := js <$> ["401"; "403"; "404"; "409"; "422"; "500"]%string;
  commandType := Some (js "journey.update");
  csrf := true;
  method := "POST";
  path := "/api/v1/commands/journey.update";
  pathSchemas := [];
  responses := [
    (js "200", Some (ref_to "JourneyUpdateCommandResponse"));
    (js "401", Some (ref_to "ErrorResponse"));
    (js "403", Some (ref_to "ErrorResponse"));
    (js "404", Some (ref_to "ErrorResponse"));
    (js "409", Some (ref_to "ErrorResponse"));
    (js "422", Some (ref_to "ErrorResponse"));
    (js "500", Some (ref_to "ErrorResponse"))] |}.

Definition list_journeys_api_v1_journeys_get : RuntimeOperation := {|
  bodySchema := None;
  canonicalErrorStatuses := js <$> ["401"; "403"; "404"; "409"; "422"; "500"]%string;
  commandType := None;
  csrf := false;
  method := "GET";
  path := "/api/v1/journeys";
  pathSchemas := [];
  responses := [
    (js "200", Some (ref_to "JourneyListResponse"));
    (js "401", Some (ref_to "ErrorResponse"));
    (js "403", Some (ref_to "ErrorResponse"));
    (js "404", Some (ref_to "ErrorResponse"));
    (js "409", Some (ref_to "ErrorResponse"));
    (js "422", Some (ref_to "ErrorResponse"));
    (js "500", Some (ref_to "ErrorResponse"))] |}.

Definition create_journey_api_v1_journeys_post : RuntimeOperation := {|
  bodySchema := Some (ref_to "JourneyCreate");
  canonicalErrorStatuses := js <$> ["401"; "403"; "404"; "409"; "422"; "500"]%string;
  commandType := None;
  csrf := true;
  method := "POST";
  path := "/api/v1/journeys";
  pathSchemas := [];
  responses := [
    (js "201", Some (ref_to "JourneyResponse"));
    (js "401", Some (ref_to "ErrorResponse"));
    (js "403", Some (ref_to "ErrorResponse"));
    (js "404", Some (ref_to "ErrorResponse"));
    (js "409", Some (ref_to "ErrorResponse"));
    (js "422", Some (ref_to "ErrorResponse"));
    (js "500", Some (ref_to "ErrorResponse"))] |}.

Definition delete_journey_api_v1_journeys__journey_id__delete : RuntimeOperation := {|
  bodySchema := None;
  canonicalErrorStatuses := js <$> ["401"; "403"; "404"; "409"; "422"; "500"]%string;
  commandType := None;
  csrf := true;
  method := "DELETE";
  path := "/api/v1/journeys/{journey_id}";
  pathSchemas := [(js "journey_id", VObj [
        (js "format", VStr "uuid");
        (js "title", VStr "Journey Id");
        (js "type", VStr "string")])];
  responses := [
    (js "204", None);
    (js "401", Some (ref_to "ErrorResponse"));
    (js "403", Some (ref_to "ErrorResponse"));
    (js "404", Some (ref_to "ErrorResponse"));
    (js "409", Some (ref_to "ErrorResponse"));
    (js "422", Some (ref_to "ErrorResponse"));
    (js "500", Some (ref_to "ErrorResponse"))] |}.

Definition get_journey_api_v1_journeys__journey_id__get : RuntimeOperation := {|
  bodySchema := None;
  canonicalErrorStatuses := js <$> ["401"; "403"; "404"; "409"; "422"; "500"]%string;
  commandType := None;
  csrf := false;
  method := "GET";
  path := "/api/v1/journeys/{journey_id}";
  pathSchemas := [(js "journey_id", VObj [
        (js "format", VStr "uuid");
        (js "title", VStr "Journey Id");
        (js "type", VStr "string")])];
  responses := [
    (js "200", Some (ref_to "JourneyResponse"));
    (js "401", Some (ref_to "ErrorResponse"));
    (js "403", Some (ref_to "ErrorResponse"));
    (js "404", Some (ref_to "ErrorResponse"));
    (js "409", Some (ref_to "ErrorResponse"));
    (js "422", Some (ref_to "ErrorResponse"));
    (js "500", Some (ref_to "ErrorResponse"))] |}.

Definition update_journey_api_v1_journeys__journey_id__put : RuntimeOperation := {|
  bodySchema := Some (ref_to "JourneyUpdate");
  canonicalErrorStatuses := js <$> ["401"; "403"; "404"; "409"; "422"; "500"]%string;
  commandType := None;
  csrf := true;
  method := "PUT";
  path := "/api/v1/journeys/{journey_id}";
  pathSchemas := [(js "journey_id", VObj [
        (js "format", VStr "uuid");
        (js "title", VStr "Journey Id");
        (js "type", VStr "string")])];
  responses := [
    (js "200", Some (ref_to "JourneyResponse"));
    (js "401", Some (ref_to "ErrorResponse"));
    (js "403", Some (ref_to "ErrorResponse"));
    (js "404", Some (ref_to "ErrorResponse"));
    (js "409", Some (ref_to "ErrorResponse"));
    (js "422", Some (ref_to "ErrorResponse"));
    (js "500", Some (ref_to "ErrorResponse"))] |}.

Definition list_packing_api_v1_journeys__journey_id__packing_get : RuntimeOperation := {|
  bodySchema := None;
  canonicalErrorStatuses := js <$> ["401"; "403"; "404"; "409"; "422"; "500"]%string;
  commandType := None;
  csrf := false;
  method := "GET";
  path := "/api/v1/journeys/{journey_id}/packing";
  pathSchemas := [(js "journey_id", VObj [
        (js "format", VStr "uuid");
        (js "title", VStr "Journey Id");
        (js "type", VStr "string")])];
  responses := [
    (js "200", Some (ref_to "PackingListResponse"));
    (js "401", Some (ref_to "ErrorResponse"));
    (js "403", Some (ref_to "ErrorResponse"));
    (js "404", Some (ref_to "ErrorResponse"));
    (js "409", Some (ref_to "ErrorResponse"));
    (js "422", Some (ref_to "ErrorResponse"));
    (js "500", Some (ref_to "ErrorResponse"))] |}.

Definition create_packing_api_v1_journeys__journey_id__packing_post : RuntimeOperation := {|
  bodySchema := Some (ref_to "PackingCreate");
  canonicalErrorStatuses := js <$> ["401"; "403"; "404"; "409"; "422"; "500"]%string;
  commandType := None;
  csrf := true;
  method := "POST";
  path := "/api/v1/journeys/{journey_id}/packing";
  pathSchemas := [(js "journey_id", VObj [
        (js "format", VStr "uuid");
        (js "title", VStr "Journey Id");
        (js "type", VStr "string")])];
  responses := [
    (js "201", Some (ref_to "PackingResponse"));
    (js "401", Some (ref_to "ErrorResponse"));
    (js "403", Some (ref_to "ErrorResponse"));
    (js "404", Some (ref_to "ErrorResponse"));
    (js "409", Some (ref_to "ErrorResponse"));
    (js "422", Some (ref_to "ErrorResponse"));
    (js "500", Some (ref_to "ErrorResponse"))] |}.

Definition delete_packing_api_v1_journeys__journey_id__packing__item_id__delete : RuntimeOperation := {|
  bodySchema := None;
  canonicalErrorStatuses := js <$> ["401"; "403"; "404"; "409"; "422"; "500"]%string;
  commandType := None;
  csrf := true;
  method := "DELETE";
  path := "/api/v1/journeys/{journey_id}/packing/{item_id}";
  pathSchemas := [(js "journey_id", VObj [
        (js "format", VStr "uuid");
        (js "title", VStr "Journey Id");
        (js "type", VStr "string")]); (js "item_id", VObj [
        (js "format", VStr "uuid");
        (js "title", VStr "Item Id");
        (js "type", VStr "string")])];
  responses := [
    (js "204", None);
    (js "401", Some (ref_to "ErrorResponse"));
    (js "403", Some (ref_to "ErrorResponse"));
    (js "404", Some (ref_to "ErrorResponse"));
    (js "409", Some (ref_to "ErrorResponse"));
    (js "422", Some (ref_to "ErrorResponse"));
    (js "500", Some (ref_to "ErrorResponse"))] |}.

Definition update_packing_api_v1_journeys__journey_id__packing__item_id__put : RuntimeOperation := {|
  bodySchema := Some (ref_to "PackingUpdate");
  canonicalErrorStatuses := js <$> ["401"; "403"; "404"; "409"; "422"; "500"]%string;
  commandType := None;
  csrf := true;
  method := "PUT";
  path := "/api/v1/journeys/{journey_id}/packing/{item_id}";
  pathSchemas := [(js "journey_id", VObj [
        (js "format", VStr "uuid");
        (js "title", VStr "Journey Id");
        (js "type", VStr "string")]); (js "item_id", VObj [
        (js "format", VStr "uuid");
        (js "title", VStr "Item Id");
        (js "type", VStr "string")])];
  responses := [
    (js "200", Some (ref_to "PackingResponse"));
    (js "401", Some (ref_to "ErrorResponse"));
    (js "403", Some (ref_to "ErrorResponse"));
    (js "404", Some (ref_to "ErrorResponse"));
    (js "409", Some (ref_to "ErrorResponse"));
    (js "422", Some (ref_to "ErrorResponse"));
    (js "500", Some (ref_to "ErrorResponse"))] |}.

Definition update_packing_progress_api_v1_journeys__journey_id__packing__item_id__progress_put : RuntimeOperation := {|
  bodySchema := Some (ref_to "PackingProgressUpdate");
  canonicalErrorStatuses := js <$> ["401"; "403"; "404"; "409"; "422"; "500"]%string;
  commandType := None;
  csrf := true;
  method := "PUT";
  path := "/api/v1/journeys/{journey_id}/packing/{item_id}/progress";
  pathSchemas := [(js "journey_id", VObj [
        (js "format", VStr "uuid");
        (js "title", VStr "Journey Id");
        (js "type", VStr "string")]); (js "item_id", VObj [
        (js "format", VStr "uuid");
        (js "title", VStr "Item Id");
        (js "type", VStr "string")])];
  responses := [
    (js "200", Some (ref_to "PackingResponse"));
    (js "401", Some (ref_to "ErrorResponse"));
    (js "403", Some (ref_to "ErrorResponse"));
    (js "404", Some (ref_to "ErrorResponse"));
    (js "409", Some (ref_to "ErrorResponse"));
    (js "422", Some (ref_to "ErrorResponse"));
    (js "500", Some (ref_to "ErrorResponse"))] |}.

Definition list_segments_api_v1_journeys__journey_id__segments_get : RuntimeOperation := {|
  bodySchema := None;
  canonicalErrorStatuses := js <$> ["401"; "403"; "404"; "409"; "422"; "500"]%string;
  commandType := None;
  csrf := false;
  method := "GET";
  path := "/api/v1/journeys/{journey_id}/segments";
  pathSchemas := [(js "journey_id", VObj [
        (js "format", VStr "uuid");
        (js "title", VStr "Journey Id");
        (js "type", VStr "string")])];
  responses := [
    (js "200", Some (ref_to "SegmentListResponse"));
    (js "401", Some (ref_to "ErrorResponse"));
    (js "403", Some (ref_to "ErrorResponse"));
    (js "404", Some (ref_to "ErrorResponse"));
    (js "409", Some (ref_to "ErrorResponse"));
    (js "422", Some (ref_to "ErrorResponse"));
    (js "500", Some (ref_to "ErrorResponse"))] |}.

Definition create_segment_api_v1_journeys__journey_id__segments_post : RuntimeOperation := {|
  bodySchema := Some (ref_to "SegmentCreate");
  canonicalErrorStatuses := js <$> ["401"; "403"; "404"; "409"; "422"; "500"]%string;
  commandType := None;
  csrf := true;
  method := "POST";
  path := "/api/v1/journeys/{journey_id}/segments";
  pathSchemas := [(js "journey_id", VObj [
        (js "format", VStr "uuid");
        (js "title", VStr "Journey Id");
        (js "type", VStr "string")])];
  responses := [
    (js "201", Some (ref_to "SegmentResponse"));
    (js "401", Some (ref_to "ErrorResponse"));
    (js "403", Some (ref_to "ErrorResponse"));
    (js "404", Some (ref_to "ErrorResponse"));
    (js "409", Some (ref_to "ErrorResponse"));
    (js "422", Some (ref_to "ErrorResponse"));
    (js "500", Some (ref_to "ErrorResponse"))] |}.

Definition delete_segment_api_v1_journeys__journey_id__segments__segment_id__delete : RuntimeOperation := {|
  bodySchema := None;
  canonicalErrorStatuses := js <$> ["401"; "403"; "404"; "409"; "422"; "500"]%string;
  commandType := None;
  csrf := true;
  method := "DELETE";
  path := "/api/v1/journeys/{journey_id}/segments/{segment_id}";
  pathSchemas := [(js "journey_id", VObj [
        (js "format", VStr "uuid");
        (js "title", VStr "Journey Id");
        (js "type", VStr "string")]); (js "segment_id", VObj [
        (js "format", VStr "uuid");
        (js "title", VStr "Segment Id");
        (js "type", VStr "string")])];
  responses := [
    (js "204", None);
    (js "401", Some (ref_to "ErrorResponse"));
    (js "403", Some (ref_to "ErrorResponse"));
    (js "404", Some (ref_to "ErrorResponse"));
    (js "409", Some (ref_to "ErrorResponse"));
    (js "422", Some (ref_to "ErrorResponse"));
    (js "500", Some (ref_to "ErrorResponse"))] |}.

Definition update_segment_api_v1_journeys__journey_id__segments__segment_id__put : RuntimeOperation := {|
  bodySchema := Some (ref_to "SegmentUpdate");
  canonicalErrorStatuses := js <$> ["401"; "403"; "404"; "409"; "422"; "500"]%string;
  commandType := None;
  csrf := true;
  method := "PUT";
  path := "/api/v1/journeys/{journey_id}/segments/{segment_id}";
  pathSchemas := [(js "journey_id", VObj [
        (js "format", VStr "uuid");
        (js "title", VStr "Journey Id");
        (js "type", VStr "string")]); (js "segment_id", VObj [
        (js "format", VStr "uuid");
        (js "title", VStr "Segment Id");
        (js "type", VStr "string")])];
  responses := [
    (js "200", Some (ref_to "SegmentResponse"));
    (js "401", Some (ref_to "ErrorResponse"));
    (js "403", Some (ref_to "ErrorResponse"));
    (js "404", Some (ref_to "ErrorResponse"));
    (js "409", Some (ref_to "ErrorResponse"));
    (js "422", Some (ref_to "ErrorResponse"));
    (js "500", Some (ref_to "ErrorResponse"))] |}.

Definition reorder_segment_api_v1_journeys__journey_id__segments__segment_id__reorder_post : RuntimeOperation := {|
  bodySchema := Some (ref_to "SegmentReorder");
  canonicalErrorStatuses := js <$> ["401"; "403"; "404"; "409"; "422"; "500"]%string;
  commandType := None;
  csrf := true;
  method := "POST";
  path := "/api/v1/journeys/{journey_id}/segments/{segment_id}/reorder";
  pathSchemas := [(js "journey_id", VObj [
        (js "format", VStr "uuid");
        (js "title", VStr "Journey Id");
        (js "type", VStr "string")]); (js "segment_id", VObj [
        (js "format", VStr "uuid");
        (js "title", VStr "Segment Id");
        (js "type", VStr "string")])];
  responses := [
    (js "200", Some (ref_to "SegmentResponse"));
    (js "401", Some (ref_to "ErrorResponse"));
    (js "403", Some (ref_to "ErrorResponse"));
    (js "404", Some (ref_to "ErrorResponse"));
    (js "409", Some (ref_to "ErrorResponse"));
    (js "422", Some (ref_to "ErrorResponse"));
    (js "500", Some (ref_to "ErrorResponse"))] |}.

Definition version_api_v1_version_get : RuntimeOperation := {|
  bodySchema := None;
  canonicalErrorStatuses := js <$> ["401"; "403"; "404"; "409"; "422"; "500"]%string;
  commandType := None;
  csrf := false;
  method := "GET";
  path := "/api/v1/version";
  pathSchemas := [];
  responses := [
    (js "200", Some (ref_to "VersionResponse"));
    (js "401", Some (ref_to "ErrorResponse"));
    (js "403", Some (ref_to "ErrorResponse"));
    (js "404", Some (ref_to "ErrorResponse"));
    (js "409", Some (ref_to "ErrorResponse"));
    (js "422", Some (ref_to "ErrorResponse"));
    (js "500", Some (ref_to "ErrorResponse"))] |}.

Definition live_health_live_get : RuntimeOperation := {|
  bodySchema := None;
  canonicalErrorStatuses := js <$> ["500"]%string;
  commandType := None;
  csrf := false;
  method := "GET";
  path := "/health/live";
  pathSchemas := [];
  responses := [
    (js "200", Some (ref_to "LiveResponse"));
    (js "500", Some (ref_to "ErrorResponse"))] |}.

Definition ready_health_ready_get : RuntimeOperation := {|
  bodySchema := None;
  canonicalErrorStatuses := js <$> ["500"]%string;
  commandType := None;
  csrf := false;
  method := "GET";
  path := "/health/ready";
  pathSchemas := [];
  responses := [
    (js "200", Some (ref_to "ReadyResponse"));
    (js "500", Some (ref_to "ErrorResponse"));
    (js "503", Some (ref_to "ReadyResponse"))] |}.

Definition operationMetadata : list (jstr * RuntimeOperation) := [
  (js "contract_discovery_api_contract_get", contract_discovery_api_contract_get);
  (js "login_route_api_v1_auth_login_post", login_route_api_v1_auth_login_post);
  (js "logout_route_api_v1_auth_logout_post", logout_route_api_v1_auth_logout_post);
  (js "register_route_api_v1_auth_register_post", register_route_api_v1_auth_register_post);
  (js "session_route_api_v1_auth_session_get", session_route_api_v1_auth_session_get);
  (js "capabilities_api_v1_capabilities_get", capabilities_api_v1_capabilities_get);
  (js "canonical_update_journey_api_v1_commands_journey_update_post", canonical_update_journey_api_v1_commands_journey_update_post);
  (js "list_journeys_api_v1_journeys_get", list_journeys_api_v1_journeys_get);
  (js "create_journey_api_v1_journeys_post", create_journey_api_v1_journeys_post);
  (js "delete_journey_api_v1_journeys__journey_id__delete", delete_journey_api_v1_journeys__journey_id__delete);
  (js "get_journey_api_v1_journeys__journey_id__get", get_journey_api_v1_journeys__journey_id__get);
  (js "update_journey_api_v1_journeys__journey_id__put", update_journey_api_v1_journeys__journey_id__put);
  (js "list_packing_api_v1_journeys__journey_id__packing_get", list_packing_api_v1_journeys__journey_id__packing_get);
  (js "create_packing_api_v1_journeys__journey_id__packing_post", create_packing_api_v1_journeys__journey_id__packing_post);
  (js "delete_packing_api_v1_journeys__journey_id__packing__item_id__delete", delete_packing_api_v1_journeys__journey_id__packing__item_id__delete);
  (js "update_packing_api_v1_journeys__journey_id__packing__item_id__put", update_packing_api_v1_journeys__journey_id__packing__item_id__put);
  (js "update_packing_progress_api_v1_journeys__journey_id__packing__item_id__progress_put", update_packing_progress_api_v1_journeys__journey_id__packing__item_id__progress_put);
  (js "list_segments_api_v1_journeys__journey_id__segments_get", list_segments_api_v1_journeys__journey_id__segments_get);
  (js "create_segment_api_v1_journeys__journey_id__segments_post", create_segment_api_v1_journeys__journey_id__segments_post);
  (js "delete_segment_api_v1_journeys__journey_id__segments__segment_id__delete", delete_segment_api_v1_journeys__journey_id__segments__segment_id__delete);
  (js "update_segment_api_v1_journeys__journey_id__segments__segment_id__put", update_segment_api_v1_journeys__journey_id__segments__segment_id__put);
  (js "reorder_segment_api_v1_journeys__journey_id__segments__segment_id__reorder_post", reorder_segment_api_v1_journeys__journey_id__segments__segment_id__reorder_post);
  (js "version_api_v1_version_get", version_api_v1_version_get);
  (js "live_health_live_get", live_health_live_get);
  (js "ready_health_ready_get", ready_health_ready_get)].

(** ** [clientSupport] *)

Record InclusiveVersionRange := {
  minimum_supported : jsnum;
  maximum_supported : jsnum;
}.

Record ClientSupport := {
  support_api : InclusiveVersionRange;
  support_commands : list (jstr * InclusiveVersionRange);
}.

Definition clientSupport : ClientSupport := {|
  support_api := {| minimum_supported := NInt 1; maximum_supported := NInt 1 |};
  support_commands := [(js "journey.update", {| minimum_supported := NInt 1; maximum_supported := NInt 1 |})] |}.
