(* ===== verification/Negotiation.v ===== *)
(** Version negotiation: [packages/api-client/src/negotiation.ts]. *)
From S2P Require Export GeneratedClient.

Inductive NegotiationFailureCode :=
| invalid_contract_metadata
| client_too_old
| client_too_new
| unsupported_command
| command_version_no_overlap.

#[export] Instance NegotiationFailureCode_eq_dec : EqDecision NegotiationFailureCode.
Proof. solve_decision. Defined.

Abbreviation negotiated := (outcome NegotiationFailureCode).

(** A range the server advertises, with the version it runs. *)
Record VersionSupport := {
  support_range :> InclusiveVersionRange;
  current : jsnum;
}.
Record CommandVersionSupport := {
  command_type : jstr;
  command_support :> VersionSupport;
}.
Record ContractDiscovery := {
  schema_version : jstr;
  discovery_api : VersionSupport;
  discovery_commands : list CommandVersionSupport;
}.

Record NegotiatedContract := {
  apiVersion : jsnum;
  commandVersions : gmap jstr jsnum;
}.

Definition messageFor (code : NegotiationFailureCode) : jstr :=
  match code with
  | invalid_contract_metadata => "The server returned invalid contract metadata."
  | client_too_old => "This client is older than the server's supported API range."
  | client_too_new => "This client is newer than the server's supported API range."
  | unsupported_command => "The server does not advertise a required command."
  | command_version_no_overlap => "The client and server command versions do not overlap."
  end.

Definition positiveSafeInteger (value : jsnum) : bool :=
  isSafeInteger value && num_gtb value (NInt 0).

Definition validateRange (range : InclusiveVersionRange) : negotiated () :=
  throw_if (negb (positiveSafeInteger (minimum_supported range))
            || negb (positiveSafeInteger (maximum_supported range))
            || num_gtb (minimum_supported range) (maximum_supported range))
    invalid_contract_metadata.

Definition validateServerRange (range : VersionSupport) : negotiated () :=
  _ ← validateRange range;
  _ ← throw_if (negb (positiveSafeInteger (current range))) invalid_contract_metadata;
  throw_if (num_ltb (current range) (minimum_supported range)
            || num_gtb (current range) (maximum_supported range)) invalid_contract_metadata.

Definition negotiateRange (client server : InclusiveVersionRange) : negotiated jsnum :=
  _ ← validateRange client;
  _ ← validateRange server;
  _ ← throw_if (num_ltb (maximum_supported client) (minimum_supported server)) client_too_old;
  _ ← throw_if (num_gtb (minimum_supported client) (maximum_supported server)) client_too_new;
  mret (num_min (maximum_supported client) (maximum_supported server)).

(** The loop that rejects repeated command types and bad ranges. *)
Fixpoint check_commands (commandTypes : gset jstr) (l : list CommandVersionSupport) : negotiated () :=
  match l with
  | [] => Ok ()
  | command :: l =>
      _ ← throw_if (bool_decide (command_type command ∈ commandTypes)) invalid_contract_metadata;
      _ ← validateServerRange command;
      check_commands ({[command_type command]} ∪ commandTypes) l
  end.

(** [new Map(commands.map(c => [c.command_type, c]))] *)
Definition server_commands (l : list CommandVersionSupport) : gmap jstr CommandVersionSupport :=
  fold_left (fun m c => <[command_type c := c]> m) l ∅.

Definition overlap_error (code : NegotiationFailureCode) : NegotiationFailureCode :=
  if decide (code = client_too_old \/ code = client_too_new) then command_version_no_overlap else code.

(** The loop over the commands this client sends. *)
Fixpoint negotiate_commands (serverCommands : gmap jstr CommandVersionSupport)
    (versions : gmap jstr jsnum) (l : list (jstr * InclusiveVersionRange)) : negotiated (gmap jstr jsnum) :=
  match l with
  | [] => Ok versions
  | (commandType, clientRange) :: l =>
      match (serverCommands !! commandType : option CommandVersionSupport) with
      | None => Throw unsupported_command
      | Some serverRange =>
          version ← try_catch (negotiateRange clientRange serverRange) (fun code => Throw (overlap_error code));
          negotiate_commands serverCommands (<[commandType := version]> versions) l
      end
  end.

(** [support] is the generated [clientSupport]. *)
Definition negotiateContract (support : ClientSupport) (metadata : ContractDiscovery)
    : negotiated NegotiatedContract :=
  _ ← throw_if (negb (str_eqb (schema_version metadata) "1")) invalid_contract_metadata;
  _ ← validateServerRange (discovery_api metadata);
  _ ← check_commands ∅ (discovery_commands metadata);
  version ← negotiateRange (support_api support) (discovery_api metadata);
  versions ← negotiate_commands (server_commands (discovery_commands metadata)) ∅ (support_commands support);
  mret {| apiVersion := version; commandVersions := versions |}.

(** ** Ranges as sets of versions *)

(** The versions of a range. *)
Definition supports (r : InclusiveVersionRange) (v : Z) : Prop :=
  exists lo hi, num_int (minimum_supported r) = Some lo /\ num_int (maximum_supported r) = Some hi /\
    lo <= v <= hi.
Definition range_ok (r : InclusiveVersionRange) : Prop :=
  exists lo hi, minimum_supported r = NInt lo /\ maximum_supported r = NInt hi /\
    0 < lo <= hi /\ hi <= max_safe.

Lemma positiveSafeInteger_iff n :
  positiveSafeInteger n = true <-> exists z, n = NInt z /\ 0 < z <= max_safe.
Proof.
  unfold positiveSafeInteger, num_gtb, num_ltb.
  destruct n as [z|q| | |b]; cbn; try (split; [try done|by intros (? & [=] & _)]).
  - destruct (Z.compare_spec 0 z); cbn; rewrite ?andb_true_r, ?andb_false_r;
      (split; [intros; exists z; split; [done|]; unfold max_safe in *; lia
              |intros (? & [= <-] & ?); unfold max_safe in *; lia]).
Qed.

Lemma validateRange_ok r : validateRange r = Ok () <-> range_ok r.
Proof.
  unfold validateRange, range_ok. rewrite throw_if_Ok, !orb_false_iff, !negb_false_iff,
    !positiveSafeInteger_iff. unfold num_gtb, num_ltb.
  destruct r as [lo hi]. cbn. split.
  - intros [[(x & -> & ?) (y & -> & ?)] Hlt]. cbn in Hlt. destruct (Z.compare_spec y x); try done;
      exists x, y; split_and!; (done || lia).
  - intros (x & y & -> & -> & ? & ?). split_and!; [exists x; split; [done|lia]|exists y; split; [done|lia]|].
    cbn. destruct (Z.compare_spec y x); (done || lia).
Qed.

Lemma negotiateRange_cases client server :
  match negotiateRange client server with
  | Ok n => range_ok client /\ range_ok server /\ exists v, n = NInt v /\
      supports client v /\ supports server v /\
      forall w, supports client w -> supports server w -> w <= v
  | Throw invalid_contract_metadata => ~ (range_ok client /\ range_ok server)
  | Throw client_too_old => range_ok client /\ range_ok server /\
      forall v w, supports client v -> supports server w -> v < w
  | Throw client_too_new => range_ok client /\ range_ok server /\
      forall v w, supports client v -> supports server w -> w < v
  | Throw _ => False
  end.
Proof.
  unfold negotiateRange.
  destruct (validateRange client) as [[]|e] eqn:Ec; cbn.
  2: { assert (~ range_ok client) by (rewrite <- validateRange_ok, Ec; done).
       unfold validateRange in Ec. apply throw_if_Throw in Ec as [_ <-]. tauto. }
  destruct (validateRange server) as [[]|e] eqn:Es; cbn.
  2: { assert (~ range_ok server) by (rewrite <- validateRange_ok, Es; done).
       unfold validateRange in Es. apply throw_if_Throw in Es as [_ <-]. tauto. }
  apply validateRange_ok in Ec, Es.
  assert (Hc := Ec). assert (Hs := Es).
  destruct Ec as (a & b & Ea & Eb & ? & ?), Es as (c & d & Ec & Ed & ? & ?).
  unfold supports. rewrite Ea, Eb, Ec, Ed. unfold num_gtb, num_ltb, num_min. cbn.
  destruct (Z.compare_spec b c); cbn; [| |destruct (Z.compare_spec d a); cbn].
  2: { split_and!; try done. intros v w (? & ? & [= <-] & [= <-] & ?) (? & ? & [= <-] & [= <-] & ?). lia. }
  3: { split_and!; try done. intros v w (? & ? & [= <-] & [= <-] & ?) (? & ? & [= <-] & [= <-] & ?). lia. }
  all: destruct (Z.compare_spec d a); cbn; try lia; destruct (Z.compare_spec b d); cbn; try lia;
    split_and!; try done; eexists; (split_and!; [reflexivity
      |by eexists _, _; split; [reflexivity|]; split; [reflexivity|lia]
      |by eexists _, _; split; [reflexivity|]; split; [reflexivity|lia]|]);
    intros w (? & ? & [= <-] & [= <-] & ?) (? & ? & [= <-] & [= <-] & ?); lia.
Qed.

(** [v] is the highest version both ranges contain. *)
Definition highest_common (client server : InclusiveVersionRange) (v : Z) : Prop :=
  supports client v /\ supports server v /\
  forall w, supports client w -> supports server w -> w <= v.

(** ** The whole contract *)

Lemma check_commands_ok seen l :
  check_commands seen l = Ok () ->
  NoDup (command_type <$> l) /\ (forall c, c ∈ l -> command_type c ∉ seen /\ range_ok c).
Proof.
  revert seen. induction l as [|c l IH]; intros seen; cbn [check_commands].
  { intros _. split; [constructor|by intros ? ?%elem_of_nil]. }
  intros H. inv_ok. apply bool_decide_eq_false in Ha. destruct a, a0.
  unfold validateServerRange in Ha0. inv_ok. destruct a, a0. apply validateRange_ok in Ha1.
  apply IH in H as [Hnd Hl]. split.
  - cbn. apply NoDup_cons. split; [|done]. intros (d & Heq & Hd)%list_elem_of_fmap.
    destruct (Hl d Hd) as [Hn _]. set_solver.
  - intros d [->|Hd]%elem_of_cons; [done|]. destruct (Hl d Hd). set_solver.
Qed.

#[local] Abbreviation insert_command :=
  (fun (m : gmap jstr CommandVersionSupport) c => <[command_type c := c]> m).

Lemma server_commands_lookup_aux l m k :
  NoDup (command_type <$> l) ->
  (forall c, c ∈ l -> command_type c = k ->
     fold_left insert_command l m !! k = Some c) /\
  (k ∉ command_type <$> l -> fold_left insert_command l m !! k = m !! k).
Proof.
  revert m. induction l as [|d l IH]; intros m Hnd; cbn.
  - split; [by intros c ?%elem_of_nil|done].
  - cbn in Hnd. apply NoDup_cons in Hnd as [Hn Hnd].
    destruct (IH (<[command_type d := d]> m) Hnd) as [IH1 IH2]. split.
    + intros c [->|Hc]%elem_of_cons <-; [|by apply IH1].
      rewrite IH2 by done. apply lookup_insert_eq.
    + intros [Hne Hk]%not_elem_of_cons. rewrite IH2 by done. by apply lookup_insert_ne.
Qed.

Lemma server_commands_lookup l k c :
  NoDup (command_type <$> l) -> server_commands l !! k = Some c -> c ∈ l /\ command_type c = k.
Proof.
  intros Hnd Hc. destruct (server_commands_lookup_aux l ∅ k Hnd) as [H1 H2].
  destruct (decide (k ∈ command_type <$> l)) as [Hin|Hn].
  - apply list_elem_of_fmap in Hin as (d & -> & Hd).
    assert (server_commands l !! command_type d = Some d) as E by by apply H1.
    rewrite E in Hc. by injection Hc as ->.
  - unfold server_commands in Hc. rewrite H2 in Hc by done. by rewrite lookup_empty in Hc.
Qed.

Lemma negotiate_commands_ok sc versions l r :
  negotiate_commands sc versions l = Ok r -> NoDup l.*1 ->
  (forall t range, (t, range) ∈ l ->
     exists (s : CommandVersionSupport) v, sc !! t = Some s /\ r !! t = Some (NInt v) /\ highest_common range s v) /\
  (forall t, t ∉ l.*1 -> r !! t = versions !! t).
Proof.
  revert versions. induction l as [|[t range] l IH]; intros versions; cbn [negotiate_commands].
  { intros [= <-] _. split; [by intros ? ? ?%elem_of_nil|done]. }
  destruct (sc !! t : option CommandVersionSupport) as [s|] eqn:Es; [|done].
  pose proof (negotiateRange_cases range s) as Hcase.
  destruct (negotiateRange range s) as [n|e]; cbn; [|done]. intros Hr [Hn Hnd]%NoDup_cons.
  destruct Hcase as (_ & _ & v & -> & Hv).
  apply IH in Hr as [H1 H2]; [|done]. split.
  - intros t' range' [[= -> ->]|Hin]%elem_of_cons; [|eauto].
    exists s, v. split_and!; [done| |done]. rewrite H2 by done. apply lookup_insert_eq.
  - intros t' [Hne Ht]%not_elem_of_cons. rewrite H2 by done. by apply lookup_insert_ne.
Qed.

(** negotiating a range yields the highest version both sides support;
    otherwise the error says which side is behind, or that a range is not a
    range of positive safe integers. *)
Theorem negotiateRange_highest client server :
  match negotiateRange client server with
  | Ok n => exists v, n = NInt v /\ highest_common client server v
  | Throw client_too_old => forall v w, supports client v -> supports server w -> v < w
  | Throw client_too_new => forall v w, supports client v -> supports server w -> w < v
  | Throw invalid_contract_metadata => ~ (range_ok client /\ range_ok server)
  | Throw _ => False
  end.
Proof.
  pose proof (negotiateRange_cases client server) as H.
  destruct (negotiateRange client server) as [n|[]]; naive_solver.
Qed.

(** a negotiated contract holds, for the API and for every command the
    client sends, the highest version the client and the server share. *)
Theorem negotiateContract_highest support metadata c :
  NoDup (support_commands support).*1 -> negotiateContract support metadata = Ok c ->
  (exists v, apiVersion c = NInt v /\ highest_common (support_api support) (discovery_api metadata) v) /\
  forall t range, (t, range) ∈ support_commands support ->
    exists (s : CommandVersionSupport) v, s ∈ discovery_commands metadata /\ command_type s = t /\
      commandVersions c !! t = Some (NInt v) /\ highest_common range s v.
Proof.
  intros Hnd. unfold negotiateContract. intros H. inv_ok.
  destruct a1. apply check_commands_ok in Ha1 as [Hsnd _].
  pose proof (negotiateRange_cases (support_api support) (discovery_api metadata)) as Hcase.
  rewrite Ha2 in Hcase. destruct Hcase as (_ & _ & v & -> & Hv).
  split; [by exists v|]. intros t range Hin.
  apply negotiate_commands_ok in Ha3 as [Hl _]; [|done].
  destruct (Hl t range Hin) as (s & w & Hs & Hw & Hhc).
  apply server_commands_lookup in Hs as [? ?]; [|done]. by exists s, w.
Qed.

(** The discovery document of the server this client was generated for. *)
Definition sample_range (lo hi cur : Z) : VersionSupport :=
  {| support_range := {| minimum_supported := NInt lo; maximum_supported := NInt hi |};
     current := NInt cur |}.
Definition sample_discovery : ContractDiscovery :=
  {| schema_version := "1"; discovery_api := sample_range 1 2 2;
     discovery_commands := [{| command_type := "journey.update"; command_support := sample_range 1 3 2 |}] |}.

Lemma negotiateContract_highest_witness :
  exists c, negotiateContract clientSupport sample_discovery = Ok c /\
    apiVersion c = NInt 1 /\ commandVersions c !! js "journey.update" = Some (NInt 1).
Proof.
  destruct (negotiateContract clientSupport sample_discovery) as [c|e] eqn:E; [|discriminate E].
  exists c. split; [reflexivity|].
  destruct (negotiateContract_highest clientSupport sample_discovery c) as [(v & Hv & Hh) Hc].
  - apply NoDup_singleton.
  - exact E.
  - destruct (Hc "journey.update" {| minimum_supported := NInt 1; maximum_supported := NInt 1 |})
      as (s & w & _ & _ & Hw & (Hw1 & _)); [apply list_elem_of_here|].
    destruct Hh as ((? & ? & [= <-] & [= <-] & ?) & _). destruct Hw1 as (? & ? & [= <-] & [= <-] & ?).
    split; [rewrite Hv; f_equal; lia|]. rewrite Hw. do 2 f_equal. lia.
Defined.
