(* ===== verification/ApiClient.v ===== *)
(** The typed API client: [packages/api-client/src/client.ts].  The network
    ([fetch]), the cookies and the URL parser belong to the browser and are
    arguments; the client threads its cached negotiation and the world. *)
From S2P Require Export Negotiation ValidatorSpec JsUri.

(** ** Errors *)

Inductive ErrorKind := kind_api | kind_contract | kind_network | kind_negotiation.

#[export] Instance ErrorKind_eq_dec : EqDecision ErrorKind.
Proof. solve_decision. Defined.

Record ApiClientError := mkApiClientError {
  error_kind : ErrorKind;
  error_code : jstr;
  error_message : jstr;
  error_operationId : option jstr;
  error_status : option Z;
  error_requestId : option jstr;
}.

(** What a call can throw: an [ApiClientError], the [URIError] of
    [encodeURIComponent], the [TypeError] of [Headers.set], or the validator
    running out of fuel, which is shown not to happen. *)
Inductive ClientError :=
| ApiError (e : ApiClientError)
| UriError
| HeaderError
| FuelError.

(** ** The browser *)

Record HttpRequest := {
  request_url : jstr;
  request_method : jstr;
  request_headers : list (jstr * jstr);
  request_body : option jstr;
}.

(** What the client reads of a [Response]; [response_json] is [None] when
    the body is not JSON. *)
Record Response := {
  response_status : Z;
  response_contentType : option jstr;
  response_text : jstr;
  response_json : option jsval;
}.
Definition response_ok (r : Response) : bool :=
  (200 <=? response_status r) && (response_status r <=? 299).

(** [fetch]: [None] when the request fails. *)
Class Network (W : Type) := fetch : HttpRequest -> W -> option Response * W.

(** Header values may not hold NUL, LF or CR (once trimmed of HTTP
    whitespace) or a unit above 255. *)
Definition http_space (c : N) : bool := existsb (N.eqb c) [9; 10; 13; 32]%N.
Fixpoint drop_http_space (s : jstr) : jstr :=
  match s with c :: s' => if http_space c then drop_http_space s' else s | [] => [] end.
Definition header_value (s : jstr) : option jstr :=
  let v := reverse (drop_http_space (reverse (drop_http_space s))) in
  if existsb (fun c => existsb (N.eqb c) [0; 10; 13] || (255 <? c))%N v then None else Some v.

(** ** Pure parts *)

Definition CONTRACT_OPERATION : jstr := "contract_discovery_api_contract_get".

Definition invalidRequest (operationId : jstr) : ClientError :=
  ApiError (mkApiClientError kind_contract "invalid_request"
    "The API request does not match the canonical contract." (Some operationId) None None).

Definition invalidResponse (operationId : jstr) (status : Z) (success : bool) : ClientError :=
  ApiError (mkApiClientError kind_contract
    (if success then "invalid_response" else "invalid_error_response")
    (if success then "The Trax OS API returned an invalid response."
     else "The Trax OS API returned an invalid error response.")
    (Some operationId) (Some status) None).

Definition isJsonContentType (value : option jstr) : bool :=
  match value with
  | None => false
  | Some v => str_eqb (toLowerCase (trim (default [] (head (str_split v ";"))))) "application/json"
  end.

Definition browserCsrfToken (cookie : option jstr) : jstr :=
  match cookie with
  | None => ""
  | Some c =>
      let value := drop (length (js "trax_csrf=")) <$>
                   List.find (fun p => startsWith p "trax_csrf=") (str_split c "; ") in
      match value with
      | None | Some [] => ""
      | Some v => default [] (decodeURIComponent v)
      end
  end.

(** [url] is [new URL(_, "https://trax.invalid/")], as (same origin, has user
    name, has password). *)
Definition validBaseUrl (url : jstr -> option (bool * bool * bool)) (value : jstr) : outcome () jstr :=
  _ ← throw_if (str_includes value 63 || str_includes value 35 || str_includes value 92
                || existsb (fun c => (c <=? 32) || (c =? 127))%N value
                || negb (str_eqb value []) && negb (startsWith value "/")) ();
  '(same_origin, username, password) ←
    match url (if str_truthy value then value else "/") with Some u => Ok u | None => Throw () end;
  _ ← throw_if (negb same_origin || username || password) ();
  mret (if endsWith value "/" then slice_end value 1 else value).

(** ** Requests *)

Section Client.
Context `{DateParser} `{NumPrinter}.

(** Enough for every schema of the generated tables. *)
Definition SCHEMA_FUEL : nat := 16.

Definition validateRequest (schema value : jsval) (operationId : jstr) : outcome ClientError () :=
  try_catch (assertValid componentSchemas SCHEMA_FUEL schema value request_mode)
    (fun e => Throw (match e with
                     | SchemaValidationError _ => invalidRequest operationId
                     | OutOfFuel => FuelError end)).

(** The loop over [Object.entries(operation.pathSchemas)]. *)
Fixpoint fill_path (operationId : jstr) (supplied : list (jstr * jsval)) (path : jstr)
    (schemas : list (jstr * jsval)) : outcome ClientError jstr :=
  match schemas with
  | [] => Ok path
  | (name, schema) :: schemas =>
      let value := get supplied name in
      _ ← validateRequest schema value operationId;
      match encodeURIComponent (to_string value) with
      | None => Throw UriError
      | Some e =>
          fill_path operationId supplied
            (replace_first path (123%N :: name ++ [125%N]) e) schemas
      end
  end.

(** Lines 131-158: the input is a record of the declared parts, the path
    parameters and the body match their schemas. *)
Definition checkInput (operationId : jstr) (operation : RuntimeOperation) (input : jsval)
    : outcome ClientError jstr :=
  let invalid := invalidRequest operationId in
  candidateInput ← match as_record input with Some fs => Ok fs | None => Throw invalid end;
  let has_path := 0 <? Z.of_nat (length (pathSchemas operation)) in
  let has_body := bool_decide (is_Some (bodySchema operation)) in
  _ ← throw_if (existsb (fun key => negb (has_path && str_eqb key "path" || has_body && str_eqb key "body"))
                  (object_keys candidateInput)) invalid;
  path ← (if has_path then
      supplied ← match as_record (get candidateInput "path") with
                 | Some fs => Ok fs | None => Throw invalid end;
      _ ← throw_if (negb (Nat.eqb (length (object_keys supplied)) (length (pathSchemas operation)))
                    || existsb (fun key => negb (has_property (pathSchemas operation) key))
                         (object_keys supplied)) invalid;
      fill_path operationId supplied (path operation) (pathSchemas operation)
    else Ok (path operation));
  _ ← match bodySchema operation with
      | Some schema =>
          _ ← throw_if (negb (has_property candidateInput "body")) invalid;
          validateRequest schema (get candidateInput "body") operationId
      | None => Ok ()
      end;
  mret path.

(** Lines 159-176: a command carries its type and the negotiated version. *)
Definition checkCommand (operationId : jstr) (operation : RuntimeOperation) (input : jsval)
    (negotiated : option NegotiatedContract) : outcome ClientError () :=
  match commandType operation with
  | Some ((_ :: _) as ct) =>
      match negotiated, as_record (prop input "body") with
      | Some contract, Some body =>
          let failure code := ApiError (mkApiClientError kind_negotiation code
            "The command does not use the negotiated version." (Some operationId) None None) in
          match commandVersions contract !! (ct : jstr) with
          | None => Throw (failure "unsupported_command")
          | Some selected =>
              throw_if (negb (strict_eq (get body "command_type") (VStr ct))
                        || negb (strict_eq (get body "command_version") (VNum selected)))
                (failure "command_version_mismatch")
          end
      | _, _ => Throw (invalidRequest operationId)
      end
  | _ => Ok ()
  end.

(** Lines 178-190: the request that goes out. *)
Definition buildRequest (baseUrl csrfToken : jstr) (operation : RuntimeOperation) (path : jstr)
    (input : jsval) : outcome ClientError HttpRequest :=
  let has_body := bool_decide (is_Some (bodySchema operation)) in
  token ← (if csrf operation then
             match header_value csrfToken with
             | Some v => Ok [(js "X-CSRF-Token", v)] | None => Throw HeaderError end
           else Ok []);
  mret {| request_url := baseUrl ++ path;
          request_method := method operation;
          request_headers := [(js "Accept", js "application/json")]
            ++ (if has_body then [(js "Content-Type", js "application/json")] else []) ++ token;
          request_body := if has_body then stringify (prop input "body") else None |}.

(** Lines 200-256: what a response means. *)
Definition readResponse (operationId : jstr) (operation : RuntimeOperation) (response : Response)
    : outcome ClientError jsval :=
  let status := response_status response in
  let failure kind code message := ApiError (mkApiClientError kind code message
                                     (Some operationId) (Some status) None) in
  match snd <$> List.find (fun kv => str_eqb kv.1 (print_int status)) (responses operation) with
  | None => Throw (failure kind_contract "unexpected_status"
              "The Trax OS API returned an undeclared status.")
  | Some None =>
      _ ← throw_if (negb (str_length (response_text response) =? 0))
            (invalidResponse operationId status (response_ok response));
      mret VNull
  | Some (Some responseSchema) =>
      _ ← throw_if (negb (isJsonContentType (response_contentType response)))
            (failure kind_contract "unexpected_content_type"
               "The Trax OS API returned an undeclared content type.");
      payload ← match response_json response with
                | Some v => Ok v
                | None => Throw (invalidResponse operationId status (response_ok response))
                end;
      _ ← try_catch (assertValid componentSchemas SCHEMA_FUEL responseSchema payload response_mode)
            (fun e => Throw (match e with
              | SchemaValidationError _ => invalidResponse operationId status (response_ok response)
              | OutOfFuel => FuelError end));
      if negb (response_ok response) then
        if existsb (str_eqb (print_int status)) (canonicalErrorStatuses operation) then
          let error := prop payload "error" in
          Throw (ApiError (mkApiClientError kind_api (default [] (as_string (prop error "code")))
            (default [] (as_string (prop error "message")))
            (Some operationId) (Some status) (as_string (prop error "request_id"))))
        else Throw (failure kind_api "http_error"
               "The Trax OS API returned a declared non-success response.")
      else mret payload
  end.

(** ** The client *)

Context {W : Type} `{Network W}.
Context (baseUrl : jstr) (csrfTokenProvider : W -> jstr).

Record ClientState := mkClientState {
  negotiation : option NegotiatedContract;
  world : W;
}.

Definition Api (A : Type) : Type := ClientState -> outcome ClientError A * ClientState.

#[export] Instance api_ret : MRet Api := fun A a st => (Ok a, st).
#[export] Instance api_bind : MBind Api := fun A B f m st =>
  match m st with (Ok a, st) => f a st | (Throw e, st) => (Throw e, st) end.
Definition api_lift {A} (r : outcome ClientError A) : Api A := fun st => (r, st).
Definition api_catch {A} (m : Api A) (h : ClientError -> Api A) : Api A := fun st =>
  match m st with (Ok a, st) => (Ok a, st) | (Throw e, st) => h e st end.

Definition send (operationId : jstr) (request : HttpRequest) : Api Response := fun st =>
  match fetch request (world st) with
  | (Some response, w) => (Ok response, mkClientState (negotiation st) w)
  | (None, w) =>
      (Throw (ApiError (mkApiClientError kind_network "network_error"
                "The Trax OS API could not be reached." (Some operationId) None None)),
       mkClientState (negotiation st) w)
  end.

(** Everything before the request goes out. *)
Definition prepare (operationId : jstr) (input : jsval) (negotiated : option NegotiatedContract)
    (w : W) : outcome ClientError (RuntimeOperation * HttpRequest) :=
  operation ← match snd <$> List.find (fun kv => str_eqb kv.1 operationId) operationMetadata with
              | Some o => Ok o
              | None => Throw (ApiError (mkApiClientError kind_contract "unknown_operation"
                          "Unknown API operation." None None None))
              end;
  path ← checkInput operationId operation input;
  _ ← checkCommand operationId operation input negotiated;
  request ← buildRequest baseUrl (csrfTokenProvider w) operation path input;
  mret (operation, request).

Definition execute (operationId : jstr) (input : jsval) (negotiated : option NegotiatedContract)
    : Api jsval := fun st =>
  (or ← api_lift (prepare operationId input negotiated (world st));
   response ← send operationId (snd or);
   api_lift (readResponse operationId (fst or) response)) st.

(** [payload as ContractDiscovery] *)
Definition number_of (v : jsval) : jsnum := match v with VNum n => n | _ => NNaN end.
Definition read_range (v : jsval) : VersionSupport :=
  {| support_range := {| minimum_supported := number_of (prop v "minimum_supported");
                         maximum_supported := number_of (prop v "maximum_supported") |};
     current := number_of (prop v "current") |}.
Definition read_discovery (v : jsval) : ContractDiscovery :=
  {| schema_version := default [] (as_string (prop v "schema_version"));
     discovery_api := read_range (prop v "api");
     discovery_commands :=
       (fun c => {| command_type := default [] (as_string (prop c "command_type"));
                    command_support := read_range c |})
       <$> (match prop v "commands" with VArr l => l | _ => [] end) |}.

Definition negotiation_code (code : NegotiationFailureCode) : jstr :=
  match code with
  | invalid_contract_metadata => "invalid_contract_metadata"
  | client_too_old => "client_too_old"
  | client_too_new => "client_too_new"
  | unsupported_command => "unsupported_command"
  | command_version_no_overlap => "command_version_no_overlap"
  end.

Definition negotiation_error (code : NegotiationFailureCode) : ClientError :=
  ApiError (mkApiClientError kind_negotiation (negotiation_code code) (messageFor code) None None None).

Definition bootstrap : Api NegotiatedContract :=
  metadata ← api_catch (execute CONTRACT_OPERATION (VObj []) None) (fun e =>
    api_lift (Throw (match e with
      | ApiError a => if decide (error_kind a = kind_contract)
                      then negotiation_error invalid_contract_metadata else e
      | _ => e end)));
  api_lift (try_catch (negotiateContract clientSupport (read_discovery metadata))
              (fun code => Throw (negotiation_error code))).

(** A settled negotiation is kept; a failed one is forgotten. *)
Definition ensureNegotiated : Api NegotiatedContract := fun st =>
  match negotiation st with
  | Some c => (Ok c, st)
  | None =>
      match bootstrap st with
      | (Ok c, st) => (Ok c, mkClientState (Some c) (world st))
      | (Throw e, st) => (Throw e, mkClientState None (world st))
      end
  end.

Definition request (operationId : jstr) (input : jsval) : Api jsval :=
  negotiated ← (if str_eqb operationId CONTRACT_OPERATION then mret None
                else c ← ensureNegotiated; mret (Some c));
  execute operationId input negotiated.

Definition commandVersion (commandType : jstr) : Api jsnum :=
  c ← ensureNegotiated;
  api_lift (match commandVersions c !! commandType with
            | Some v => Ok v
            | None => Throw (ApiError (mkApiClientError kind_negotiation "unsupported_command"
                        "The command is not supported by this client and server." None None None))
            end).

Definition negotiatedApiVersion : Api jsnum := c ← ensureNegotiated; mret (apiVersion c).
End Client.
