(* ===== verification/ApiClientSpec.v ===== *)
(** What the API client guarantees: nothing outside the contract goes out,
    nothing outside the contract comes back, path parameters stay in their
    segment, and the cached negotiation is one the server's discovery gave. *)
From S2P Require Export ApiClient.

(** ** The generated tables *)

Definition fuel_ok (v : jsval) : bool :=
  match v with VObj s => depth_ok componentSchemas SCHEMA_FUEL s | _ => true end.

Definition operation_schemas (o : RuntimeOperation) : list jsval :=
  option_list (bodySchema o) ++ (snd <$> pathSchemas o) ++ omap snd (responses o).

(** No chain of references and subschemas in the tables is longer than the
    fuel. *)
Lemma tables_fuelled :
  forallb (fun kv => forallb fuel_ok (operation_schemas kv.2)) operationMetadata = true.
Proof. vm_compute. reflexivity. Qed.

#[local] Opaque SCHEMA_FUEL componentSchemas.

Definition declared (operationId : jstr) (o : RuntimeOperation) : Prop :=
  snd <$> List.find (fun kv => str_eqb kv.1 operationId) operationMetadata = Some o.

Lemma declared_fuel op o v : declared op o -> v ∈ operation_schemas o -> fuel_ok v = true.
Proof.
  unfold declared. destruct (List.find _ _) as [[k o']|] eqn:E; [|done]. intros [= <-] Hv.
  apply find_Some_elem in E as [E _]. pose proof tables_fuelled as Ht.
  rewrite forallb_forall in Ht. specialize (Ht _ (proj1 (list_elem_of_In _ _) E)).
  rewrite forallb_forall in Ht. apply Ht. by apply list_elem_of_In.
Qed.

Lemma elem_body o s : bodySchema o = Some s -> s ∈ operation_schemas o.
Proof. unfold operation_schemas. intros ->. apply list_elem_of_here. Qed.
Lemma elem_path o k s : (k, s) ∈ pathSchemas o -> s ∈ operation_schemas o.
Proof.
  intros Hin. apply elem_of_app. right. apply elem_of_app. left. apply list_elem_of_fmap. by exists (k, s).
Qed.
Lemma elem_response o k s : (k, Some s) ∈ responses o -> s ∈ operation_schemas o.
Proof.
  intros Hin. apply elem_of_app. right. apply elem_of_app. right.
  apply list_elem_of_omap. by exists (k, Some s).
Qed.

Section Spec.
Context `{DateParser} `{NumPrinter}.

(** A value a schema of the contract admits. *)
Definition admits (mode : ValidationMode) (schema value : jsval) : Prop :=
  exists s, schema = VObj s /\ conforms componentSchemas mode s value.

Lemma assertValid_ok schema value mode :
  assertValid componentSchemas SCHEMA_FUEL schema value mode = Ok () -> admits mode schema value.
Proof.
  unfold assertValid. intros (s & Hs%asSchema_ok & Hv)%bind_Ok. exists s. split; [done|].
  by eapply validate_sound.
Qed.

Lemma assertValid_fuelled schema value mode :
  fuel_ok schema = true -> fuelled (assertValid componentSchemas SCHEMA_FUEL schema value mode).
Proof.
  intros Hf. unfold assertValid. apply fuelled_asSchema. intros s ->.
  exact (validate_fuelled componentSchemas mode SCHEMA_FUEL s value _ Hf).
Qed.

Lemma assertValid_iff schema value mode :
  fuel_ok schema = true ->
  assertValid componentSchemas SCHEMA_FUEL schema value mode = Ok () <-> admits mode schema value.
Proof.
  intros Hf. split; [apply assertValid_ok|]. intros (s & -> & Hc).
  exact (validate_complete componentSchemas mode s value Hc SCHEMA_FUEL "$" Hf).
Qed.

(** ** Requests *)

Definition not_fuel {A} (r : outcome ClientError A) : Prop := r <> Throw FuelError.

Lemma not_fuel_bind {A B} (m : outcome ClientError A) (f : A -> outcome ClientError B) :
  not_fuel m -> (forall a, m = Ok a -> not_fuel (f a)) -> not_fuel (m ≫= f).
Proof. unfold not_fuel. destruct m; cbn; [auto|congruence]. Qed.

Lemma validateRequest_fuel schema v op : fuel_ok schema = true -> not_fuel (validateRequest schema v op).
Proof.
  intros Hf. pose proof (assertValid_fuelled schema v request_mode Hf) as Hv.
  unfold validateRequest, not_fuel. destruct (assertValid _ _ _ _ _) as [|[]]; done.
Qed.

Lemma validateRequest_ok schema v op : validateRequest schema v op = Ok () -> admits request_mode schema v.
Proof.
  unfold validateRequest. destruct (assertValid _ _ _ _ _) as [[]|[]] eqn:E; try done.
  intros _. by apply assertValid_ok.
Qed.

Lemma fill_path_fuel op supplied p schemas :
  (forall k s, (k, s) ∈ schemas -> fuel_ok s = true) -> not_fuel (fill_path op supplied p schemas).
Proof.
  revert p. induction schemas as [|[k s] l IH]; intros p Hs; cbn [fill_path]; [done|].
  apply not_fuel_bind; [apply validateRequest_fuel; eapply Hs, list_elem_of_here|].
  intros _ _. destruct (encodeURIComponent _); [|done]. apply IH. intros k' s' Hin.
  eapply Hs. by apply list_elem_of_further.
Qed.

Lemma fill_path_ok op supplied p schemas r :
  fill_path op supplied p schemas = Ok r ->
  forall k s, (k, s) ∈ schemas -> admits request_mode s (get supplied k).
Proof.
  revert p. induction schemas as [|[k s] l IH]; intros p; cbn [fill_path].
  { intros _ k s Hin. by apply elem_of_nil in Hin. }
  intros ([] & Hv & Hr)%bind_Ok k' s' [[= -> ->]|Hin]%elem_of_cons; [by eapply validateRequest_ok|].
  destruct (encodeURIComponent _); [|done]. by eapply IH.
Qed.

Lemma require_record {A} (o : option A) (e : ClientError) : not_fuel (Throw e : outcome ClientError A) ->
  not_fuel (match o with Some a => Ok a | None => Throw e end).
Proof. by destruct o. Qed.

Lemma checkInput_fuel op o input : declared op o -> not_fuel (checkInput op o input).
Proof.
  intros Hd. unfold checkInput. apply not_fuel_bind; [by apply require_record|]. intros fs _.
  apply not_fuel_bind; [unfold throw_if; by case_match|]. intros _ _.
  apply not_fuel_bind.
  - case_match; [|done]. apply not_fuel_bind; [by apply require_record|]. intros sup _.
    apply not_fuel_bind; [unfold throw_if; by case_match|]. intros _ _.
    apply fill_path_fuel. intros k s Hin. eapply declared_fuel; [done|by eapply elem_path].
  - intros p _. apply not_fuel_bind; [|done]. destruct (bodySchema o) as [s|] eqn:Eb; [|done].
    apply not_fuel_bind; [unfold throw_if; by case_match|]. intros _ _.
    apply validateRequest_fuel. eapply declared_fuel; [done|by apply elem_body].
Qed.

(** The declared parts of an input, each matching its schema. *)
Definition input_ok (o : RuntimeOperation) (input : jsval) : Prop :=
  exists fs, input = VObj fs /\
  (forall schema, bodySchema o = Some schema -> admits request_mode schema (prop input "body")) /\
  (forall k schema, (k, schema) ∈ pathSchemas o -> admits request_mode schema (prop (prop input "path") k)) /\
  (forall k : jstr, k ∈ object_keys fs -> k = "path" /\ pathSchemas o <> [] \/ k = "body" /\ is_Some (bodySchema o)).

Lemma checkInput_ok op o input p : checkInput op o input = Ok p -> input_ok o input.
Proof.
  unfold checkInput. intros (fs & Hfs & H1)%bind_Ok.
  destruct input as [| | | | | |fs'|]; try done. injection Hfs as ->.
  apply bind_Ok in H1 as ([] & Hkeys%throw_if_Ok & H1).
  apply bind_Ok in H1 as (r & Hp & H1). apply bind_Ok in H1 as ([] & Hb & _).
  exists fs. split; [done|]. split_and!.
  - intros schema Hs. rewrite Hs in Hb. apply bind_Ok in Hb as ([] & _ & Hv). by apply validateRequest_ok in Hv.
  - intros k schema Hin. destruct (pathSchemas o) as [|kv l] eqn:Eps; [by apply elem_of_nil in Hin|].
    assert ((0 <? Z.of_nat (length (kv :: l))) = true) as Hl by reflexivity. rewrite Hl in Hp.
    apply bind_Ok in Hp as (sup & Hsup & Hp). apply bind_Ok in Hp as ([] & _ & Hp).
    cbn [prop as_record]. destruct (get fs "path"); try done. injection Hsup as ->.
    eapply fill_path_ok; [exact Hp|done].
  - intros k Hk. rewrite existsb_false in Hkeys.
    pose proof (Hkeys k Hk) as E. apply negb_false_iff in E.
    apply orb_true_iff in E as [[E1 ->%str_eqb_eq]%andb_true_iff|[E1 ->%str_eqb_eq]%andb_true_iff].
    + left. split; [done|]. by destruct (pathSchemas o).
    + right. split; [done|]. by apply bool_decide_eq_true in E1.
Qed.

(** ** Path parameters *)

Definition count_unit (x : N) (s : jstr) : nat := length (List.filter (N.eqb x) s).

Lemma count_unit_app x a b : count_unit x (a ++ b) = (count_unit x a + count_unit x b)%nat.
Proof. unfold count_unit. by rewrite List.filter_app, length_app. Qed.

Lemma count_unit_0 x s : Forall (fun c => c <> x) s -> count_unit x s = 0%nat.
Proof.
  unfold count_unit. induction 1 as [|c s Hc _ IH]; cbn; [done|].
  by replace (x =? c)%N with false by lia.
Qed.

Lemma replace_first_count x s pattern e :
  count_unit x pattern = 0%nat -> count_unit x e = 0%nat ->
  count_unit x (replace_first s pattern e) = count_unit x s.
Proof.
  intros Hp He. assert (forall t, startsWith t pattern = true ->
    count_unit x (e ++ drop (length pattern) t) = count_unit x t) as Hhit.
  { intros t Ht. rewrite count_unit_app, He. rewrite (startsWith_drop _ _ Ht) at 2.
    by rewrite count_unit_app, Hp. }
  induction s as [|c s IH]; cbn [replace_first];
    (destruct (startsWith _ pattern) eqn:E; [by apply Hhit|]); [done|].
  change (c :: replace_first s pattern e) with ([c] ++ replace_first s pattern e).
  rewrite count_unit_app, IH, <- count_unit_app. done.
Qed.

(** Every path parameter of the contract is a UUID, and its name holds no
    separator. *)
Definition separators : list N := [47; 63; 35]%N.
Definition uuid_parameter (kv : jstr * jsval) : bool :=
  match kv.2 with
  | VObj s =>
      strict_eq (get s "type") (VStr "string") && strict_eq (get s "format") (VStr "uuid")
      && strict_eq (get s "$ref") VUndef && strict_eq (get s "anyOf") VUndef
      && forallb (fun x => Nat.eqb (count_unit x kv.1) 0) separators
  | _ => false
  end.

Lemma tables_uuid :
  forallb (fun kv => forallb uuid_parameter (pathSchemas kv.2)) operationMetadata = true.
Proof. vm_compute. reflexivity. Qed.

Lemma declared_uuid op o k schema :
  declared op o -> (k, schema) ∈ pathSchemas o -> uuid_parameter (k, schema) = true.
Proof.
  unfold declared. destruct (List.find _ _) as [[k' o']|] eqn:E; [|done]. intros [= <-] Hv.
  apply find_Some_elem in E as [E _]. pose proof tables_uuid as Ht.
  rewrite forallb_forall in Ht. specialize (Ht _ (proj1 (list_elem_of_In _ _) E)).
  rewrite forallb_forall in Ht. apply Ht. by apply list_elem_of_In.
Qed.

Lemma match_classes_Forall (P : N -> Prop) cs s :
  Forall (fun c => forall u, c u = true -> P u) cs -> match_classes cs s = true -> Forall P s.
Proof.
  intros Hcs. revert s. induction Hcs as [|c cs Hc _ IH]; intros [|u s]; cbn; try done.
  intros [Hu Hs]%andb_true_iff. constructor; auto.
Qed.

Lemma uuid_ascii s : match_classes UUID s = true -> Forall (fun c => (c < 128)%N) s.
Proof.
  apply match_classes_Forall. unfold UUID.
  assert (forall u, is_hex u = true -> (u < 128)%N) as Hh
    by (intros u; unfold is_hex, is_lower_hex, is_digit; lia).
  assert (forall u, (45 =? u)%N = true -> (u < 128)%N) as Hd by (intros u; lia).
  repeat (apply Forall_app; split); try (apply Forall_replicate; exact Hh); by constructor.
Qed.

Lemma admits_uuid k schema v :
  uuid_parameter (k, schema) = true -> admits request_mode schema v ->
  exists s, v = VStr s /\ Forall (fun c => (c < 128)%N) s.
Proof.
  intros Hu (fs & -> & Hc). unfold uuid_parameter in Hu. cbn [snd] in Hu.
  rewrite !andb_true_iff, !strict_eq_str in Hu. destruct Hu as [[[[Hty Hf] Hr] Ha] _].
  apply conforms_string in Hc as (s & -> & _ & _ & _ & Hs); [| |done].
  - exists s. split; [done|]. apply uuid_ascii. by apply (Hs _ Hf).
  - split; intros ? E; rewrite E in *; done.
Qed.

Lemma encode_separators s e x :
  Forall (fun c => (c < 128)%N) s -> encodeURIComponent s = Some e -> x ∈ separators ->
  count_unit x e = 0%nat.
Proof.
  intros Hs He Hx. apply count_unit_0. eapply Forall_impl.
  - apply (encode_chars s e); [|exact He]. eapply Forall_impl; [exact Hs|]. cbn. lia.
  - cbn. intros c Hc ->.
    repeat (apply elem_of_cons in Hx as [->|Hx]; [by destruct Hc as [Hc|Hc]; discriminate Hc|]).
    by apply elem_of_nil in Hx.
Qed.

Lemma fill_path_separators op supplied p schemas r x :
  (forall kv, kv ∈ schemas -> uuid_parameter kv = true) ->
  fill_path op supplied p schemas = Ok r -> x ∈ separators -> count_unit x r = count_unit x p.
Proof.
  intros Hu Hr Hx. revert p Hr. induction schemas as [|[k schema] l IH]; intros p; cbn [fill_path].
  { by intros [= ->]. }
  intros ([] & Hv%validateRequest_ok & Hr)%bind_Ok.
  pose proof (Hu _ (list_elem_of_here _ _)) as Hk.
  destruct (admits_uuid _ _ _ Hk Hv) as (s & Hs & Hascii). rewrite Hs in Hr. cbn [to_string] in Hr.
  destruct (encodeURIComponent s) as [e|] eqn:He; [|done].
  rewrite (IH (fun kv Hin => Hu kv (list_elem_of_further _ _ _ Hin)) _ Hr).
  apply replace_first_count; [|by eapply encode_separators].
  unfold uuid_parameter in Hk. cbn [snd fst] in Hk. destruct schema; try done.
  rewrite !andb_true_iff, forallb_forall in Hk. destruct Hk as [_ Hk].
  specialize (Hk x (proj1 (list_elem_of_In _ _) Hx)). apply Nat.eqb_eq in Hk.
  assert (x <> 123%N /\ x <> 125%N) as [H1 H2].
  { repeat (apply elem_of_cons in Hx as [->|Hx]; [done|]). by apply elem_of_nil in Hx. }
  change (123%N :: k ++ [125%N]) with ([123%N] ++ k ++ [125%N]).
  rewrite !count_unit_app, Hk. rewrite !count_unit_0; [done|by repeat constructor..].
Qed.

(** ** Responses *)

(** What a response must be for the call to return [v]. *)
Definition returns_declared (o : RuntimeOperation) (r : Response) (v : jsval) : Prop :=
  response_ok r = true /\
  ((print_int (response_status r), None) ∈ responses o /\ response_text r = [] /\ v = VNull \/
   exists schema, (print_int (response_status r), Some schema) ∈ responses o /\
     isJsonContentType (response_contentType r) = true /\
     response_json r = Some v /\ admits response_mode schema v).

(** Only a 204 has no body. *)
Lemma tables_null :
  forallb (fun kv => forallb (fun r => match r.2 with
             | None => str_eqb r.1 (print_int 204) | Some _ => true end) (responses kv.2))
    operationMetadata = true.
Proof. vm_compute. reflexivity. Qed.

Lemma declared_null op o status :
  declared op o -> (print_int status, None) ∈ responses o -> status = 204.
Proof.
  unfold declared. destruct (List.find _ _) as [[k' o']|] eqn:E; [|done]. intros [= <-] Hv.
  apply find_Some_elem in E as [E _]. pose proof tables_null as Ht.
  rewrite forallb_forall in Ht. specialize (Ht _ (proj1 (list_elem_of_In _ _) E)).
  rewrite forallb_forall in Ht. specialize (Ht _ (proj1 (list_elem_of_In _ _) Hv)).
  apply str_eqb_eq in Ht. by apply print_int_inj in Ht.
Qed.

Lemma response_found (o : RuntimeOperation) k r :
  snd <$> List.find (fun kv => str_eqb kv.1 k) (responses o) = Some r -> (k, r) ∈ responses o.
Proof.
  destruct (List.find _ _) as [[k' r']|] eqn:E; [|done]. intros [= ->].
  apply find_Some_elem in E as [E Hk%str_eqb_eq]. cbn in Hk. by subst.
Qed.

Lemma readResponse_ok op o r v :
  declared op o -> readResponse op o r = Ok v -> returns_declared o r v.
Proof.
  intros Hd. unfold readResponse. destruct (snd <$> _) as [[schema|]|] eqn:E; [| |done];
    apply response_found in E.
  - intros H1. apply bind_Ok in H1 as ([] & Hct%throw_if_Ok & H1).
    apply bind_Ok in H1 as (payload & Hp & H1). apply bind_Ok in H1 as ([] & Hv & H1).
    destruct (response_json r) as [w|] eqn:Ej; [|done]. injection Hp as ->.
    destruct (response_ok r) eqn:Eok; cbn [negb] in H1; [|by case_match].
    injection H1 as <-. split; [done|]. right. exists schema. split_and!; [done| |done|].
    + by destruct (isJsonContentType _).
    + unfold try_catch in Hv. destruct (assertValid _ _ _ _ _) as [[]|[]] eqn:Ev; try done.
      by apply assertValid_ok.
  - intros ([] & Ht%throw_if_Ok & [= <-])%bind_Ok.
    pose proof (declared_null _ _ _ Hd E) as Hs.
    split; [unfold response_ok; rewrite Hs; done|]. left. split_and!; [done| |done].
    apply negb_false_iff in Ht. unfold str_length in Ht. by destruct (response_text r).
Qed.

Lemma readResponse_fuel op o r : declared op o -> not_fuel (readResponse op o r).
Proof.
  intros Hd. unfold readResponse. destruct (snd <$> _) as [[schema|]|] eqn:E; [| |done].
  - apply response_found in E. apply not_fuel_bind; [unfold throw_if; by case_match|]. intros _ _.
    apply not_fuel_bind; [by destruct (response_json r)|]. intros payload _. apply not_fuel_bind.
    + pose proof (assertValid_fuelled schema payload response_mode) as Hf.
      unfold try_catch, not_fuel. destruct (assertValid _ _ _ _ _) as [|[]]; try done.
      destruct Hf; [|done]. eapply declared_fuel; [done|by eapply elem_response].
    + intros _ _. by repeat case_match.
  - apply not_fuel_bind; [unfold throw_if; by case_match|]. done.
Qed.

(** ** The client *)

Context {W : Type} {net : Network W}.
Context (baseUrl : jstr) (csrfTokenProvider : W -> jstr).

#[local] Abbreviation prepare := (prepare baseUrl csrfTokenProvider).
#[local] Abbreviation execute := (execute baseUrl csrfTokenProvider).
#[local] Abbreviation bootstrap := (bootstrap baseUrl csrfTokenProvider).
#[local] Abbreviation ensureNegotiated := (ensureNegotiated baseUrl csrfTokenProvider).
#[local] Abbreviation request := (request baseUrl csrfTokenProvider).
#[local] Abbreviation commandVersion := (commandVersion baseUrl csrfTokenProvider).

Lemma prepare_declared op input neg w o req : prepare op input neg w = Ok (o, req) -> declared op o.
Proof.
  unfold ApiClient.prepare. intros (o' & Ho & H1)%bind_Ok.
  apply bind_Ok in H1 as (p & _ & H1). apply bind_Ok in H1 as (u & _ & H1).
  apply bind_Ok in H1 as (r & _ & [= <- <-]). unfold declared.
  destruct (snd <$> _) as [o''|]; [|done]. by injection Ho as ->.
Qed.

Lemma prepare_fuel op input neg w : not_fuel (prepare op input neg w).
Proof.
  unfold ApiClient.prepare. destruct (snd <$> _) as [o|] eqn:E; [|done]. cbn.
  apply not_fuel_bind; [by apply checkInput_fuel|]. intros p _.
  apply not_fuel_bind.
  - unfold checkCommand, throw_if. by repeat case_match.
  - intros _ _. apply not_fuel_bind; [|done]. unfold buildRequest.
    apply not_fuel_bind; [by repeat case_match|done].
Qed.

(** A call either stops before the network, or sends the prepared request. *)
Lemma execute_cases op input neg st :
  match prepare op input neg (world st) with
  | Throw e => execute op input neg st = (Throw e, st)
  | Ok (o, req) =>
      exists w, snd (fetch req (world st)) = w /\
      snd (execute op input neg st) = mkClientState (negotiation st) w /\
      match fst (fetch req (world st)) with
      | None => exists e, fst (execute op input neg st) = Throw (ApiError e) /\ error_kind e = kind_network
      | Some r => fst (execute op input neg st) = readResponse op o r
      end
  end.
Proof.
  unfold ApiClient.execute, mbind, api_bind, api_lift, send.
  destruct (prepare op input neg (world st)) as [[o req]|e]; [|done]. cbn.
  destruct (fetch req (world st)) as [[r|] w]; cbn; eexists; split_and!; try done. by eexists.
Qed.

Lemma execute_fuel op input neg st : not_fuel (fst (execute op input neg st)).
Proof.
  pose proof (execute_cases op input neg st) as Hc. pose proof (prepare_fuel op input neg (world st)) as Hp.
  destruct (prepare op input neg (world st)) as [[o req]|e] eqn:E; [|rewrite Hc; unfold not_fuel in *; cbn; congruence].
  destruct Hc as (w & _ & _ & Hr). destruct (fst (fetch req (world st))) as [r|].
  - rewrite Hr. eapply readResponse_fuel, prepare_declared, E.
  - destruct Hr as (e & -> & _). done.
Qed.

(** The cached negotiation is one that some discovery document gave. *)
Definition negotiation_ok (st : @ClientState W) : Prop :=
  forall c, negotiation st = Some c -> exists metadata, negotiateContract clientSupport metadata = Ok c.

Lemma execute_negotiation op input neg st :
  negotiation (snd (execute op input neg st)) = negotiation st.
Proof.
  pose proof (execute_cases op input neg st) as Hc.
  destruct (prepare op input neg (world st)) as [[o req]|e]; [|by rewrite Hc].
  by destruct Hc as (w & _ & -> & _).
Qed.

Lemma bootstrap_cases st :
  negotiation (snd (bootstrap st)) = negotiation st /\ not_fuel (fst (bootstrap st)) /\
  forall c, fst (bootstrap st) = Ok c -> exists metadata, negotiateContract clientSupport metadata = Ok c.
Proof.
  unfold ApiClient.bootstrap, mbind, api_bind, api_catch, api_lift.
  pose proof (execute_negotiation CONTRACT_OPERATION (VObj []) None st) as Hn.
  pose proof (execute_fuel CONTRACT_OPERATION (VObj []) None st) as Hf.
  destruct (execute CONTRACT_OPERATION (VObj []) None st) as [[v|e] st1]; cbn in *.
  - split_and!; [done| |].
    + unfold try_catch, not_fuel, negotiation_error. by destruct (negotiateContract _ _).
    + intros c Hc. exists (read_discovery v). revert Hc. unfold try_catch.
      destruct (negotiateContract clientSupport (read_discovery v)); [by intros [= ->]|discriminate].
  - split_and!; [done| |done]. unfold not_fuel in *. destruct e; try done. by case_decide.
Qed.

Lemma ensureNegotiated_ok st :
  negotiation_ok st ->
  negotiation_ok (snd (ensureNegotiated st)) /\ not_fuel (fst (ensureNegotiated st)) /\
  forall c, fst (ensureNegotiated st) = Ok c ->
    negotiation (snd (ensureNegotiated st)) = Some c /\
    exists metadata, negotiateContract clientSupport metadata = Ok c.
Proof.
  intros Hok. unfold ApiClient.ensureNegotiated. destruct (negotiation st) as [c|] eqn:E.
  - split_and!; [done|done|]. intros c' [= <-]. split; [done|]. by apply Hok.
  - pose proof (bootstrap_cases st) as (_ & Hf & Hb).
    destruct (bootstrap st) as [[c|e] st1]; cbn in *.
    + split_and!; [intros ? [= <-]; by apply Hb|done|]. intros c' [= <-]. split; [done|by apply Hb].
    + split_and!; [by intros ? [=]|done|done].
Qed.

Lemma commandVersions_shared metadata c ct v :
  negotiateContract clientSupport metadata = Ok c -> commandVersions c !! ct = Some v ->
  exists range (s : CommandVersionSupport) n, v = NInt n /\ (ct, range) ∈ support_commands clientSupport /\
    s ∈ discovery_commands metadata /\ command_type s = ct /\ highest_common range s n.
Proof.
  unfold negotiateContract. intros Hc Hv. inv_ok. cbn in Hv. destruct a1.
  apply check_commands_ok in Ha1 as [Hsnd _].
  apply negotiate_commands_ok in Ha3 as [Hl Hout]; [|apply NoDup_singleton].
  destruct (decide (ct ∈ (support_commands clientSupport).*1)) as [Hin|Hn].
  - apply list_elem_of_fmap in Hin as ([ct' range] & -> & Hin).
    destruct (Hl _ _ Hin) as (s & n & Hs & Hn & Hh). cbn in Hv. rewrite Hv in Hn. injection Hn as ->.
    apply server_commands_lookup in Hs as [? ?]; [|done]. by exists range, s, n.
  - rewrite Hout in Hv by done. by rewrite lookup_empty in Hv.
Qed.

Lemma request_run op input st :
  request op input st =
  if str_eqb op CONTRACT_OPERATION then execute op input None st
  else match ensureNegotiated st with
       | (Ok c, st1) => execute op input (Some c) st1
       | (Throw e, st1) => (Throw e, st1)
       end.
Proof.
  unfold ApiClient.request, mbind, api_bind. destruct (str_eqb op CONTRACT_OPERATION); [done|].
  by destruct (ensureNegotiated st) as [[c|e] st1].
Qed.

Lemma request_ok op input st v st' :
  request op input st = (Ok v, st') ->
  exists o req w r, declared op o /\ fst (fetch req w) = Some r /\ returns_declared o r v.
Proof.
  assert (forall neg st, fst (execute op input neg st) = Ok v ->
    exists o req w r, declared op o /\ fst (fetch req w) = Some r /\ returns_declared o r v) as Hex.
  { intros neg st0 Hv. pose proof (execute_cases op input neg st0) as Hc.
    destruct (prepare op input neg (world st0)) as [[o req]|e] eqn:E; [|by rewrite Hc in Hv].
    destruct Hc as (w & _ & _ & Hr). apply prepare_declared in E.
    destruct (fst (fetch req (world st0))) as [r|] eqn:Ef.
    - exists o, req, (world st0), r. split_and!; try done. apply (readResponse_ok op); [done|congruence].
    - destruct Hr as (e & He & _). congruence. }
  rewrite request_run. destruct (str_eqb op CONTRACT_OPERATION).
  - intros E. eapply Hex. by rewrite E.
  - destruct (ensureNegotiated st) as [[c|e] st1]; [|done]. intros E. eapply Hex. by rewrite E.
Qed.

(** C21: A request only goes out for an operation of the contract, with the
    operation's method, an object as input whose parts all match their schemas
    and which has no other part, a URL whose path has the separators of the
    template and no other, and, for a command, the type of the operation and
    the negotiated version. *)
Theorem prepare_within_contract op input neg w o req :
  prepare op input neg w = Ok (o, req) ->
  declared op o /\ input_ok o input /\ request_method req = method o /\
  (exists p, request_url req = baseUrl ++ p /\
     forall x, x ∈ separators -> count_unit x p = count_unit x (path o)) /\
  (forall ct, commandType o = Some ct -> ct <> [] ->
     exists c v body, neg = Some c /\ commandVersions c !! ct = Some v /\
       prop input "body" = VObj body /\ get body "command_type" = VStr ct /\
       strict_eq (get body "command_version") (VNum v) = true).
Proof.
  intros Hp. pose proof (prepare_declared _ _ _ _ _ _ Hp) as Hd. revert Hp.
  unfold ApiClient.prepare. unfold declared in Hd. rewrite Hd. cbn [mbind outcome_bind].
  intros (p & Hin & Hr)%bind_Ok. apply bind_Ok in Hr as (u & Hc & Hr).
  apply bind_Ok in Hr as (req' & Hb & Heq). injection Heq as ->.
  unfold buildRequest in Hb. apply bind_Ok in Hb as (tok & _ & [= <-]). cbn [request_method request_url].
  split; [done|]. split; [by eapply checkInput_ok|]. split; [done|]. split.
  - exists p. split; [done|]. intros x Hx. unfold checkInput in Hin.
    apply bind_Ok in Hin as (fs & _ & Hin). apply bind_Ok in Hin as (u1 & _ & Hin).
    apply bind_Ok in Hin as (p' & Hpath & Hin). apply bind_Ok in Hin as (u2 & _ & [= <-]).
    destruct (0 <? _) in Hpath; [|by injection Hpath as ->].
    apply bind_Ok in Hpath as (sup & _ & Hpath). apply bind_Ok in Hpath as (u3 & _ & Hpath).
    eapply fill_path_separators; [|exact Hpath|done]. intros [k schema] Hkv. by eapply declared_uuid.
  - intros ct Hct Hne. unfold checkCommand in Hc. rewrite Hct in Hc. destruct ct as [|c0 ct]; [done|].
    destruct neg as [c|]; [|done]. destruct (prop input "body") as [| | | | | |body|]; try done.
    cbn [as_record] in Hc. cbv zeta in Hc.
    destruct (commandVersions c !! (c0 :: ct : jstr)) as [v|] eqn:Ev in Hc; [|done].
    destruct u. apply throw_if_Ok in Hc. apply orb_false_iff in Hc as [Hty%negb_false_iff%strict_eq_str Hver].
    exists c, v, body. split_and!; try done. by apply negb_false_iff in Hver.
Qed.

(** C23: what a request returns is what a response of the network held: a
    success status declared for the operation, and a JSON body the declared
    schema admits (or none, for 204). *)
Theorem request_returns_declared op input st v st' :
  request op input st = (Ok v, st') ->
  exists o req w r, declared op o /\ fst (fetch req w) = Some r /\ returns_declared o r v.
Proof. apply request_ok. Qed.

(** A request that is refused before it goes out leaves the network, and
    the client, as they were. *)
Theorem refused_request_is_local op input neg st e :
  prepare op input neg (world st) = Throw e -> execute op input neg st = (Throw e, st).
Proof. intros He. pose proof (execute_cases op input neg st) as Hc. by rewrite He in Hc. Qed.

(** C40: the validator's fuel is enough for the whole contract: no operation,
    input, response or world makes a request run out of it. *)
Theorem request_never_out_of_fuel op input st :
  negotiation_ok st -> fst (request op input st) <> Throw FuelError.
Proof.
  intros Hok. rewrite request_run. destruct (str_eqb op CONTRACT_OPERATION); [apply execute_fuel|].
  pose proof (ensureNegotiated_ok st Hok) as (_ & Hf & _).
  destruct (ensureNegotiated st) as [[c|e] st1]; [apply execute_fuel|unfold not_fuel in Hf; cbn in *; congruence].
Qed.

(** Requests keep the cached negotiation genuine: it is absent or the
    result of negotiating a discovery document, and then stays the same; the
    command versions it hands out are the highest that document shares with
    this client. *)
Theorem negotiation_stays_genuine op input st :
  negotiation_ok st ->
  negotiation_ok (snd (request op input st)) /\
  (forall c, negotiation st = Some c -> negotiation (snd (request op input st)) = Some c) /\
  forall ct v, fst (commandVersion ct st) = Ok v ->
    exists metadata range (s : CommandVersionSupport) n,
      v = NInt n /\ (ct, range) ∈ support_commands clientSupport /\
      s ∈ discovery_commands metadata /\ command_type s = ct /\ highest_common range s n.
Proof.
  intros Hok. pose proof (ensureNegotiated_ok st Hok) as (Hok1 & _ & Hc1). rewrite request_run. split_and!.
  - destruct (str_eqb op CONTRACT_OPERATION).
    + unfold negotiation_ok. by rewrite execute_negotiation.
    + destruct (ensureNegotiated st) as [[c|e] st1]; [|done].
      unfold negotiation_ok. by rewrite execute_negotiation.
  - intros c Hc. destruct (str_eqb op CONTRACT_OPERATION); [by rewrite execute_negotiation|].
    unfold ApiClient.ensureNegotiated. rewrite Hc. cbn. by rewrite execute_negotiation.
  - intros ct v. unfold ApiClient.commandVersion, mbind, api_bind, api_lift.
    destruct (ensureNegotiated st) as [[c|e] st1]; [|done]. cbn in *.
    destruct (commandVersions c !! ct) as [v'|] eqn:Ev; [|done]. intros [= ->].
    destruct (Hc1 c eq_refl) as (_ & metadata & Hm).
    destruct (commandVersions_shared _ _ _ _ Hm Ev) as (range & s & n & ? & ? & ? & ? & ?).
    by exists metadata, range, s, n.
Qed.
End Spec.

(** ** Witnesses *)

Module ApiWitnesses.
Definition no_dates : DateParser := fun _ => None.
Definition no_numbers : NumPrinter := fun _ => [].
#[local] Existing Instance no_dates.
#[local] Existing Instance no_numbers.

Definition json_response (status : Z) (v : jsval) : Response :=
  {| response_status := status; response_contentType := Some (js "application/json; charset=utf-8");
     response_text := []; response_json := Some v |}.
Definition discovery_value : jsval :=
  let range := [(js "minimum_supported", VNum (NInt 1)); (js "maximum_supported", VNum (NInt 1));
                (js "current", VNum (NInt 1))] in
  VObj [(js "schema_version", VStr "1"); (js "api", VObj range);
        (js "commands", VArr [VObj ((js "command_type", VStr "journey.update") :: range)])].
Definition live_value : jsval := VObj [(js "status", VStr "ok")].

(** A server that answers the discovery, deletes and the health check, and
    counts the requests. *)
Definition server : Network nat := fun req n =>
  (Some (if str_eqb (request_url req) "/api/contract" then json_response 200 discovery_value
         else if str_eqb (request_method req) "DELETE" then
           {| response_status := 204; response_contentType := None; response_text := []; response_json := None |}
         else json_response 200 live_value), S n).
#[local] Existing Instance server.

Definition start : ClientState := mkClientState None 0%nat.
Definition token (n : nat) : jstr := "t".
Definition journey_uuid : jstr := "0b7c1f5e-6a53-4c0e-9d6c-0123456789ab".
Definition delete_op : jstr := "delete_journey_api_v1_journeys__journey_id__delete".
Definition delete_input : jsval := VObj [(js "path", VObj [(js "journey_id", VStr journey_uuid)])].

Lemma start_ok : negotiation_ok start.
Proof. intros c [=]. Qed.

Lemma prepare_within_contract_witness :
  exists o req, prepare [] token delete_op delete_input None 0%nat = Ok (o, req) /\
    request_url req = js "/api/v1/journeys/" ++ journey_uuid /\ request_method req = "DELETE" /\
    count_unit 47 (request_url req) = 4%nat.
Proof.
  destruct (prepare [] token delete_op delete_input None 0%nat) as [[o req]|e] eqn:E.
  2: { vm_compute in E. discriminate E. }
  exists o, req. split; [reflexivity|].
  destruct (prepare_within_contract [] token delete_op delete_input None 0%nat o req E)
    as (Hd & _ & Hm & (p & Hp & Hs) & _).
  vm_compute in E. injection E as <- <-. split; [reflexivity|]. split; [exact Hm|].
  rewrite Hp. cbn [app]. rewrite (Hs 47%N) by apply list_elem_of_here. reflexivity.
Defined.

Lemma request_returns_declared_witness :
  exists o req w r, declared delete_op o /\ fst (fetch req w) = Some r /\ returns_declared o r VNull.
Proof.
  eapply (request_returns_declared [] token delete_op delete_input start VNull).
  vm_compute. reflexivity.
Defined.

Lemma refused_request_is_local_witness :
  execute [] token delete_op (VObj []) None start =
  (Throw (invalidRequest delete_op), start).
Proof. apply refused_request_is_local. vm_compute. reflexivity. Defined.

Lemma request_never_out_of_fuel_witness :
  fst (request [] token delete_op delete_input start) = Ok VNull /\
  fst (request [] token "none" (VObj []) start) <> Throw FuelError.
Proof.
  split; [vm_compute; reflexivity|]. apply request_never_out_of_fuel. apply start_ok.
Defined.

Lemma negotiation_stays_genuine_witness :
  fst (commandVersion [] token "journey.update" start) = Ok (NInt 1) /\
  negotiation_ok (snd (request [] token delete_op delete_input start)) /\
  world (snd (request [] token delete_op delete_input start)) = 2%nat.
Proof.
  split; [vm_compute; reflexivity|].
  split; [|vm_compute; reflexivity].
  apply (negotiation_stays_genuine [] token delete_op delete_input start start_ok).
Defined.
End ApiWitnesses.
