(* ===== verification/SupportCompatibility.v ===== *)
(** The support check: [scripts/support-compatibility.mjs], which compares the
    versions a server advertises with those of the trusted base, and what it
    promises to the clients that negotiate ([Negotiation]). *)
From S2P Require Export Scripts ApiClient.

(** The errors are the thrown messages, without their common prefix. *)
Abbreviation supported := (outcome jstr).

Definition positive (value : jsval) (label : jstr) : supported jsnum :=
  match value with
  | VNum n =>
      if negb (isSafeInteger n) || num_ltb n (NInt 1)
      then Throw (label ++ js " must be a positive safe integer") else Ok n
  | _ => Throw (label ++ js " must be a positive safe integer")
  end.

(** What [range] returns: the [command_type] of the value and its versions. *)
Record SupportRange := {
  range_command_type : jsval;
  range_support :> VersionSupport;
}.

Definition range (value : jsval) (label : jstr) (command : bool) : supported SupportRange :=
  match as_record value with
  | None => Throw (label ++ js " must be an object")
  | Some fs =>
      minimum ← positive (get fs "minimum_supported") (dotted label "minimum_supported");
      current ← positive (get fs "current") (dotted label "current");
      maximum ← positive (get fs "maximum_supported") (dotted label "maximum_supported");
      _ ← throw_if (negb (num_leb minimum current && num_leb current maximum))
            (label ++ js " has an invalid range");
      _ ← throw_if (command && negb (match get fs "command_type" with VStr s => str_truthy s | _ => false end))
            (label ++ js ".command_type is invalid");
      mret {| range_command_type := get fs "command_type";
              range_support :=
                {| support_range := {| minimum_supported := minimum; maximum_supported := maximum |};
                   current := current |} |}
  end.

(** [api] and the [Map] of commands, in insertion order. *)
Record Support := {
  loaded_api : SupportRange;
  loaded_commands : list (jstr * SupportRange);
}.

Definition map_get {A} (m : list (jstr * A)) (k : jstr) : option A :=
  snd <$> List.find (fun kv => str_eqb (kv.1) k) m.

(** [`contract.commands[${index}]`] *)
Definition command_label (index : Z) : jstr := js "contract.commands[" ++ print_int index ++ [93%N].

Fixpoint load_commands (commands : list (jstr * SupportRange)) (l : list (Z * jsval))
    : supported (list (jstr * SupportRange)) :=
  match l with
  | [] => Ok commands
  | (index, item) :: l =>
      parsed ← range item (command_label index) true;
      let name := default [] (as_string (range_command_type parsed)) in
      _ ← throw_if (bool_decide (is_Some (map_get commands name))) (js "duplicate command " ++ name);
      load_commands (commands ++ [(name, parsed)]) l
  end.

(** [read] is what reading and parsing the file at [path] gives, or the error
    message; [None] is [undefined]. *)
Definition loadSupport (path : jstr) (read : outcome jstr jsval) (allowMissing : bool) : supported (option Support) :=
  document ← try_catch read (fun message => Throw (js "cannot read " ++ path ++ js ": " ++ message));
  match as_record document with
  | None => Throw (path ++ js " must contain a JSON object")
  | Some fs =>
      if bool_decide (own fs "contract" = None) then
        if allowMissing then Ok None else Throw (path ++ js " is missing contract metadata")
      else
        match as_record (get fs "contract") with
        | Some contract =>
            match get contract "commands" with
            | VArr items =>
                _ ← throw_if (negb (strict_eq (get contract "schema_version") (VStr "1")))
                      (path ++ js " has invalid contract metadata");
                api ← range (get contract "api") "contract.api" false;
                commands ← load_commands [] (indexed items);
                mret (Some {| loaded_api := api; loaded_commands := commands |})
            | _ => Throw (path ++ js " has invalid contract metadata")
            end
        | None => Throw (path ++ js " has invalid contract metadata")
        end
  end.

(** [next] no longer covers [old]. *)
Definition contracted (old next : InclusiveVersionRange) : bool :=
  num_gtb (minimum_supported next) (minimum_supported old)
  || num_ltb (maximum_supported next) (maximum_supported old).

Definition command_change (candidate : list (jstr * SupportRange)) (name : jstr) (oldRange : SupportRange)
    : list jstr :=
  match map_get candidate name with
  | None => [js "command removed: " ++ name]
  | Some next => if contracted oldRange next then [js "command supported range contracted: " ++ name] else []
  end.

Definition supportBreakingChanges (base : option Support) (candidate : Support) : list jstr :=
  match base with
  | None => []
  | Some base =>
      (if contracted (loaded_api base) (loaded_api candidate) then [js "API supported range contracted"] else [])
      ++ (loaded_commands base ≫= fun '(name, oldRange) => command_change (loaded_commands candidate) name oldRange)
  end.

(** [main]: what it fails with, or nothing. *)
Definition support_main (base current : jstr) (read : jstr -> outcome jstr jsval) : supported () :=
  old ← loadSupport base (read base) true;
  new ← loadSupport current (read current) false;
  let changes := match new with Some new => supportBreakingChanges old new | None => [] end in
  match changes with
  | [] => Ok ()
  | c :: l => Throw (foldl (fun acc x => acc ++ js "; " ++ x) c l)
  end.

(** ** A loaded document and the discovery document a client reads *)

Definition covers (outer inner : InclusiveVersionRange) : Prop := forall v, supports inner v -> supports outer v.

(** [s] is what the check makes of the advertised range [v]. *)
Definition same_range (s : SupportRange) (v : VersionSupport) : Prop :=
  range_support s = v /\ range_ok v /\ validateServerRange v = Ok ().

Lemma positive_ok v label n : positive v label = Ok n -> v = VNum n /\ exists z, n = NInt z /\ 0 < z <= max_safe.
Proof.
  unfold positive. destruct v as [| | |m| | | |]; try done. case_match eqn:E; [done|].
  intros [= <-]. split; [done|]. rewrite orb_false_iff, negb_false_iff in E. destruct E as [E1 E2].
  destruct m as [z| | | |]; try done; cbn in *.
  exists z. split; [done|]. unfold num_ltb, num_cmp in E2.
  destruct (Z.compare_spec z 1); try done; unfold max_safe in *; lia.
Qed.

Lemma range_read v label command s :
  range v label command = Ok s -> same_range s (read_range v) /\
  (command = true -> exists t, prop v "command_type" = VStr t /\ range_command_type s = VStr t).
Proof.
  unfold range. destruct (as_record v) as [fs|] eqn:Ev; [|done]. intros H. inv_ok.
  destruct a2, a3. rewrite negb_false_iff, andb_true_iff in Ha2.
  apply positive_ok in Ha as [Ea (x & -> & ?)], Ha0 as [Ea0 (y & -> & ?)], Ha1 as [Ea1 (z & -> & ?)].
  destruct v; try done. injection Ev as ->. cbn [range_support range_command_type].
  assert (read_range (VObj fs) = {| support_range :=
    {| minimum_supported := NInt x; maximum_supported := NInt z |}; current := NInt y |}) as Er.
  { unfold read_range. cbn [prop as_record]. by rewrite Ea, Ea0, Ea1. }
  destruct Ha2 as [Hxy Hyz]. unfold num_leb, num_cmp in Hxy, Hyz.
  assert (x <= y <= z) by (destruct (Z.compare_spec x y), (Z.compare_spec y z); done || lia).
  assert (range_ok (read_range (VObj fs))) as Hok.
  { rewrite Er. exists x, z. cbn. split_and!; (done || lia). }
  split; [split_and!|].
  - by rewrite Er.
  - exact Hok.
  - unfold validateServerRange. rewrite (proj2 (validateRange_ok _) Hok). cbn [mbind outcome_bind].
    rewrite Er. cbn [current support_range minimum_supported maximum_supported].
    rewrite (proj2 (positiveSafeInteger_iff (NInt y))); [|by exists y; split; [done|lia]]. cbn.
    unfold num_gtb, num_ltb, num_cmp.
    destruct (Z.compare_spec y x), (Z.compare_spec z y); (done || lia).
  - intros ->. cbn in Ha3. apply negb_false_iff in Ha3. cbn [prop as_record].
    destruct (get fs "command_type") as [| | | |t| | |]; try done. by exists t.
Qed.

(** The command an advertised entry stands for. *)
Definition entry_name (item : jsval) : jstr := default [] (as_string (prop item "command_type")).
Abbreviation advertised := (fun kv : Z * jsval => (entry_name kv.2, read_range kv.2)).
Abbreviation loaded_as := (fun kv : jstr * SupportRange => (kv.1, range_support kv.2)).

Lemma map_get_None {A} (m : list (jstr * A)) k : map_get m k = None <-> k ∉ m.*1.
Proof.
  unfold map_get. induction m as [|[k' x] m IH]; cbn; [split; [intros _ ?%elem_of_nil|]; done|].
  destruct (str_eqb k' k) eqn:E.
  - apply str_eqb_eq in E as ->. split; [done|]. intros []. apply list_elem_of_here.
  - apply str_eqb_neq in E. rewrite IH, not_elem_of_cons. naive_solver.
Qed.

Lemma map_get_elem {A} (m : list (jstr * A)) k x : map_get m k = Some x -> (k, x) ∈ m.
Proof.
  unfold map_get. intros ([k' y] & Hf & ->)%fmap_Some.
  apply find_Some_elem in Hf as [? E]. cbn in E. by apply str_eqb_eq in E as ->.
Qed.

Lemma map_get_NoDup {A} (m : list (jstr * A)) k x : NoDup m.*1 -> (k, x) ∈ m -> map_get m k = Some x.
Proof.
  intros Hnd Hin. destruct (map_get m k) as [y|] eqn:E.
  - apply map_get_elem in E. f_equal.
    assert ((k, y) = (k, x)) as [= <-]; [|done]. by eapply (NoDup_fmap_inj fst).
  - apply map_get_None in E. destruct E. by apply (list_elem_of_fmap_2 fst _ (k, x)).
Qed.

Lemma load_commands_ok acc l r :
  load_commands acc l = Ok r -> NoDup acc.*1 ->
  NoDup r.*1 /\ exists new, r = acc ++ new /\ loaded_as <$> new = advertised <$> l /\
    Forall (fun kv => same_range kv.2 (range_support kv.2)) new.
Proof.
  revert acc. induction l as [|[i item] l IH]; intros acc; cbn [load_commands].
  { intros [= <-] Hnd. split; [done|]. exists []. rewrite app_nil_r. split_and!; [done..|constructor]. }
  intros H Hnd. inv_ok. apply bool_decide_eq_false in Ha0.
  apply range_read in Ha as [(Es & Hr & Hv) Ht]. destruct (Ht eq_refl) as (t & Et & Ert).
  rewrite Ert in H, Ha0. cbn [as_string default] in H, Ha0.
  assert (t ∉ acc.*1) as Hn by (apply map_get_None; by apply eq_None_not_Some).
  apply IH in H as (Hnd' & new & -> & Hnew & Hall).
  2: { rewrite fmap_app, NoDup_app. cbn. split_and!; [done| |apply NoDup_singleton].
       intros x Hx ->%list_elem_of_singleton. done. }
  split; [done|]. exists ((t, a) :: new). split_and!.
  - by rewrite <- app_assoc.
  - cbn. rewrite Hnew. unfold entry_name. by rewrite Et, Es.
  - constructor; [|done]. unfold same_range. cbn. rewrite Es. done.
Qed.

Lemma check_commands_intro seen l :
  NoDup (command_type <$> l) -> (forall c, c ∈ l -> command_type c ∉ seen /\ validateServerRange c = Ok ()) ->
  check_commands seen l = Ok ().
Proof.
  revert seen. induction l as [|c l IH]; intros seen; cbn [check_commands]; [done|].
  rewrite fmap_cons, NoDup_cons. intros [Hn Hnd] Hl.
  destruct (Hl c) as [Hc Hv]; [apply list_elem_of_here|].
  rewrite bool_decide_eq_false_2 by done. cbn [throw_if mbind outcome_bind]. rewrite Hv.
  cbn [mbind outcome_bind]. apply IH; [done|]. intros d Hd.
  destruct (Hl d) as [? ?]; [by apply list_elem_of_further|]. split; [|done].
  intros [Heq%elem_of_singleton|?]%elem_of_union; [|done]. apply Hn. rewrite <- Heq.
  by apply list_elem_of_fmap_2.
Qed.

(** A document the check loads is one every client accepts as metadata. *)
Definition acceptable (d : ContractDiscovery) : Prop :=
  schema_version d = "1" /\ validateServerRange (discovery_api d) = Ok () /\
  check_commands ∅ (discovery_commands d) = Ok ().

(** The discovery document in what the file holds. *)
Definition discovery_of (document : jsval) : ContractDiscovery := read_discovery (prop document "contract").

Lemma loadSupport_discovery path read allow s :
  loadSupport path read allow = Ok (Some s) ->
  exists document, read = Ok document /\ acceptable (discovery_of document) /\
    range_support (loaded_api s) = discovery_api (discovery_of document) /\ NoDup (loaded_commands s).*1 /\
    loaded_as <$> loaded_commands s =
      (fun c => (command_type c, command_support c)) <$> discovery_commands (discovery_of document).
Proof.
  unfold loadSupport. destruct read as [document|e]; cbn [try_catch mbind outcome_bind]; [|done].
  destruct (as_record document) as [fs|] eqn:Ed; [|done]. destruct document; try done. injection Ed as ->.
  case_bool_decide as Hown; [by destruct allow|].
  destruct (as_record (get fs "contract")) as [contract|] eqn:Ec; [|done].
  destruct (get fs "contract") as [| | | | | |c'|] eqn:Eg; try done. injection Ec as ->.
  destruct (get contract "commands") as [| | | | |items| |] eqn:Ei; try done.
  intros H. inv_ok. destruct a. apply negb_false_iff in Ha.
  apply range_read in Ha0 as [(Es & Hr & Hv) _].
  apply load_commands_ok in Ha1 as (Hnd & new & -> & Hnew & Hall); [|constructor].
  cbn [loaded_api loaded_commands app] in *. exists (VObj fs). split; [done|].
  unfold discovery_of. cbn [prop as_record]. rewrite Eg.
  assert (discovery_commands (read_discovery (VObj contract)) =
    (fun c => {| command_type := entry_name c; command_support := read_range c |}) <$> items) as Edc.
  { unfold read_discovery. cbn [prop as_record discovery_commands]. by rewrite Ei. }
  assert (loaded_as <$> new = (fun c => (command_type c, command_support c)) <$>
    discovery_commands (read_discovery (VObj contract))) as Hcs.
  { rewrite Hnew, Edc. transitivity ((fun c => (entry_name c, read_range c)) <$> (indexed items).*2).
    - by rewrite <- list_fmap_compose.
    - by rewrite indexed_snd, <- list_fmap_compose. }
  split_and!; [unfold acceptable; split_and!| |done|done].
  - destruct (get contract "schema_version") eqn:Esv; try done. cbn in Ha. apply str_eqb_eq in Ha as ->.
    unfold read_discovery. cbn [prop as_record schema_version]. by rewrite Esv.
  - unfold read_discovery. cbn [prop as_record discovery_api]. done.
  - apply check_commands_intro.
    + assert (command_type <$> discovery_commands (read_discovery (VObj contract)) = new.*1) as ->; [|done].
      apply (f_equal (fmap fst)) in Hcs. rewrite <- !list_fmap_compose in Hcs. by symmetry.
    + intros c Hc. split; [apply not_elem_of_empty|].
      assert ((command_type c, command_support c) ∈ loaded_as <$> new) as Hin
        by (rewrite Hcs; by apply (list_elem_of_fmap_2 (fun c => (command_type c, command_support c)))).
      apply list_elem_of_fmap in Hin as ([t r] & [= _ Er] & Hin).
      rewrite Forall_forall in Hall. destruct (Hall _ Hin) as (_ & _ & Hc').
      cbn in Hc', Er. by rewrite <- Er in Hc'.
  - unfold read_discovery. cbn [prop as_record discovery_api]. done.
Qed.

(** ** Which clients negotiate *)

Definition overlap (client server : InclusiveVersionRange) : Prop :=
  exists v, supports client v /\ supports server v.

Lemma negotiateRange_overlap client server :
  range_ok client -> range_ok server ->
  ((exists n, negotiateRange client server = Ok n) <-> overlap client server).
Proof.
  intros Hc Hs. pose proof (negotiateRange_cases client server) as H.
  destruct (negotiateRange client server) as [n|[]].
  - destruct H as (_ & _ & v & -> & ? & ? & _). split; [|eauto]. intros _. by exists v.
  - tauto.
  - destruct H as (_ & _ & H). split; [by intros [? ?]|]. intros (v & H1 & H2). specialize (H v v H1 H2). lia.
  - destruct H as (_ & _ & H). split; [by intros [? ?]|]. intros (v & H1 & H2). specialize (H v v H1 H2). lia.
  - done.
  - done.
Qed.

(** What a client sends is well formed: the generator only writes such. *)
Definition proper_client (support : ClientSupport) : Prop :=
  range_ok (support_api support) /\ Forall (fun kv => range_ok kv.2) (support_commands support).

Definition negotiates (support : ClientSupport) (d : ContractDiscovery) : Prop :=
  exists c, negotiateContract support d = Ok c.

Lemma negotiate_commands_total sc versions l :
  Forall (fun kv => range_ok kv.2) l -> (forall t (s : CommandVersionSupport), sc !! t = Some s -> range_ok s) ->
  ((exists r, negotiate_commands sc versions l = Ok r) <->
   forall t client, (t, client) ∈ l -> exists s : CommandVersionSupport, sc !! t = Some s /\ overlap client s).
Proof.
  revert versions. induction l as [|[t client] l IH]; intros versions Hl Hsc; cbn [negotiate_commands].
  { split; [by intros _ ? ? ?%elem_of_nil|eauto]. }
  apply Forall_cons in Hl as [Hc Hl]. cbn in Hc. setoid_rewrite elem_of_cons.
  destruct (sc !! t : option CommandVersionSupport) as [s|] eqn:Es.
  2: { split; [by intros [? ?]|]. intros H. by destruct (H t client (or_introl eq_refl)) as (s & ? & _); congruence. }
  pose proof (negotiateRange_overlap client s Hc (Hsc t s Es)) as Ho.
  destruct (negotiateRange client s) as [n|e] eqn:En; cbn.
  - rewrite IH by done. assert (overlap client s) by (apply Ho; eauto). split; [|eauto].
    intros Hall t' client' [[= -> ->]|Hin]; [by exists s|eauto].
  - split; [by intros [? ?]|]. intros H. destruct (H t client (or_introl eq_refl)) as (s' & Es' & Hs').
    assert (s' = s) as -> by congruence. apply Ho in Hs' as [? ?]. done.
Qed.

Lemma validateServerRange_ok v : validateServerRange v = Ok () -> range_ok v.
Proof. unfold validateServerRange. intros H. inv_ok. destruct a. by apply validateRange_ok. Qed.

Lemma negotiates_iff support d :
  proper_client support -> acceptable d ->
  (negotiates support d <->
   overlap (support_api support) (discovery_api d) /\
   forall t client, (t, client) ∈ support_commands support ->
     exists c : CommandVersionSupport, c ∈ discovery_commands d /\ command_type c = t /\ overlap client c).
Proof.
  intros [Hapi Hcmds] (Hv & Hr & Hc). unfold negotiates, negotiateContract. rewrite Hv, Hr, Hc. cbn.
  pose proof (check_commands_ok _ _ Hc) as [Hnd Hok].
  pose proof (negotiateRange_overlap _ _ Hapi (validateServerRange_ok _ Hr)) as Ho.
  pose proof (negotiate_commands_total (server_commands (discovery_commands d)) ∅ _ Hcmds) as Ht.
  assert (forall t (s : CommandVersionSupport), server_commands (discovery_commands d) !! t = Some s -> range_ok s)
    as Hsc.
  { intros t s Hs. apply server_commands_lookup in Hs as [Hin _]; [|done]. by apply Hok. }
  specialize (Ht Hsc).
  assert (forall t client, (exists s : CommandVersionSupport,
      server_commands (discovery_commands d) !! t = Some s /\ overlap client s) <->
    exists c : CommandVersionSupport, c ∈ discovery_commands d /\ command_type c = t /\ overlap client c) as He.
  { intros t client. split; intros (c & H).
    - destruct H as [Hs Hov]. apply server_commands_lookup in Hs as [? ?]; [|done]. by exists c.
    - destruct H as (Hin & <- & Hov). exists c. split; [|done].
      by apply (proj1 (server_commands_lookup_aux _ ∅ (command_type c) Hnd)). }
  setoid_rewrite He in Ht. rewrite <- Ho, <- Ht.
  destruct (negotiateRange _ (discovery_api d)) as [n|e]; cbn; [|by split; [intros [? ?]|intros [[? ?] _]]].
  destruct (negotiate_commands _ _ _) as [r|e]; cbn; [by split; eauto|].
  by split; [intros [? ?]|intros [_ [? ?]]].
Qed.

(** ** The check *)

Lemma contracted_covers old next :
  range_ok old -> range_ok next -> (contracted old next = false <-> covers next old).
Proof.
  intros (a & b & Ea & Eb & Hab & Hb) (c & d & Ec & Ed & Hcd & Hd).
  unfold contracted, covers, supports, num_gtb, num_ltb, num_cmp. rewrite Ea, Eb, Ec, Ed. cbn [num_int].
  assert ((match a ?= c with Lt => true | _ => false end || match d ?= b with Lt => true | _ => false end = false)
    <-> c <= a /\ b <= d) as ->.
  { destruct (Z.compare_spec a c), (Z.compare_spec d b); cbn; (split; [done || lia|lia || done]). }
  split.
  - intros [Hlo Hhi] v (? & ? & [= <-] & [= <-] & ?). exists c, d. split_and!; (done || lia).
  - intros H'. destruct (H' a) as (? & ? & [= <-] & [= <-] & ?);
      [exists a, b; split_and!; (done || lia)|].
    destruct (H' b) as (? & ? & [= <-] & [= <-] & ?); [exists a, b; split_and!; (done || lia)|]. lia.
Qed.

Lemma overlap_covers client old next : overlap client old -> covers next old -> overlap client next.
Proof. intros (v & ? & ?) Hcov. exists v. auto. Qed.

(** The client that knows one version only. *)
Definition only (v : Z) : InclusiveVersionRange :=
  {| minimum_supported := NInt v; maximum_supported := NInt v |}.

Lemma supports_only v w : supports (only v) w <-> w = v.
Proof.
  split; [intros (? & ? & [= <-] & [= <-] & ?); lia|]. intros ->. exists v, v. split_and!; (done || lia).
Qed.

Lemma range_ok_only r v : range_ok r -> supports r v -> range_ok (only v).
Proof.
  intros (a & b & Ea & Eb & ? & ?) (x & y & Ex & Ey & ?). rewrite Ea in Ex. rewrite Eb in Ey.
  injection Ex as ->. injection Ey as ->. exists v, v. split_and!; (done || lia).
Qed.

Lemma overlap_only v r : overlap (only v) r <-> supports r v.
Proof.
  unfold overlap. setoid_rewrite supports_only.
  split; [by intros (? & -> & ?)|by exists v].
Qed.

Lemma no_changes base candidate :
  supportBreakingChanges (Some base) candidate = [] <->
  contracted (loaded_api base) (loaded_api candidate) = false /\
  forall t (old : SupportRange), (t, old) ∈ loaded_commands base ->
    exists next, map_get (loaded_commands candidate) t = Some next /\ contracted old next = false.
Proof.
  unfold supportBreakingChanges. rewrite app_nil.
  assert (forall m : list (jstr * SupportRange),
    (m ≫= fun '(name, oldRange) => command_change (loaded_commands candidate) name oldRange) = [] <->
    forall t (old : SupportRange), (t, old) ∈ m -> command_change (loaded_commands candidate) t old = []) as ->.
  { induction m as [|[t old] m IH]; cbn; [split; [by intros _ ? ? ?%elem_of_nil|done]|].
    rewrite app_nil, IH. setoid_rewrite elem_of_cons. naive_solver. }
  assert (forall t (old : SupportRange), command_change (loaded_commands candidate) t old = [] <->
    exists next, map_get (loaded_commands candidate) t = Some next /\ contracted old next = false) as Hcc.
  { intros t old. unfold command_change. destruct (map_get _ t) as [next|]; [|naive_solver].
    destruct (contracted old next) eqn:E; split; try done; [|by exists next].
    intros (next' & [= <-] & ?). congruence. }
  setoid_rewrite Hcc. apply and_iff_compat_r.
  by destruct (contracted (loaded_api base) (loaded_api candidate)).
Qed.

Section Loaded.
Context (s : Support) (d : ContractDiscovery).
Context (Hapi : range_support (loaded_api s) = discovery_api d) (Hnd : NoDup (loaded_commands s).*1).
Context (Hcs : loaded_as <$> loaded_commands s =
  (fun c => (command_type c, command_support c)) <$> discovery_commands d).

(** A command of the document is one of the map, and the other way round. *)
Lemma command_loaded c : c ∈ discovery_commands d ->
  exists r, (command_type c, r) ∈ loaded_commands s /\ range_support r = command_support c.
Proof.
  intros Hc.
  assert ((command_type c, command_support c) ∈ loaded_as <$> loaded_commands s) as Hin
    by (rewrite Hcs; by apply (list_elem_of_fmap_2 (fun c => (command_type c, command_support c)))).
  apply list_elem_of_fmap in Hin as ([t r] & [= -> ->] & Hin). eauto.
Qed.

Lemma loaded_command t r : (t, r) ∈ loaded_commands s ->
  exists c, c ∈ discovery_commands d /\ command_type c = t /\ command_support c = range_support r.
Proof.
  intros Hc. assert ((t, range_support r) ∈ loaded_as <$> loaded_commands s) as Hin
    by (by apply (list_elem_of_fmap_2 loaded_as _ (t, r))).
  rewrite Hcs in Hin. apply list_elem_of_fmap in Hin as (c & [= -> ->] & Hin). eauto.
Qed.
End Loaded.

(** No breaking change, on the documents: the ranges cover the old ones. *)
Lemma no_changes_covers path read allow path' read' allow' base candidate document document' :
  loadSupport path read allow = Ok (Some base) -> read = Ok document ->
  loadSupport path' read' allow' = Ok (Some candidate) -> read' = Ok document' ->
  (supportBreakingChanges (Some base) candidate = [] <->
   covers (discovery_api (discovery_of document')) (discovery_api (discovery_of document)) /\
   forall c, c ∈ discovery_commands (discovery_of document) ->
     exists c', c' ∈ discovery_commands (discovery_of document') /\ command_type c' = command_type c /\ covers c' c).
Proof.
  intros (doc & -> & Hacc & Hapi & Hnd & Hcs)%loadSupport_discovery [= ->].
  intros (doc' & -> & Hacc' & Hapi' & Hnd' & Hcs')%loadSupport_discovery [= ->].
  destruct Hacc as (_ & Hr%validateServerRange_ok & [_ Hok]%check_commands_ok).
  destruct Hacc' as (_ & Hr'%validateServerRange_ok & [_ Hok']%check_commands_ok).
  rewrite no_changes, Hapi, Hapi', contracted_covers by done.
  apply and_iff_compat_l. split.
  - intros H c Hc. destruct (command_loaded _ _ Hcs c Hc) as (old & Hold & Eold).
    destruct (H _ _ Hold) as (next & Hnext%map_get_elem & Hcon).
    destruct (loaded_command _ _ Hcs' _ _ Hnext) as (c' & Hc' & Et & Er). exists c'. split_and!; [done..|].
    rewrite Er, <- Eold. apply contracted_covers; [rewrite Eold; by apply Hok|rewrite <- Er; by apply Hok'|done].
  - intros H t old Hold. destruct (loaded_command _ _ Hcs _ _ Hold) as (c & Hc & Et & Er).
    destruct (H c Hc) as (c' & Hc' & Et' & Hcov).
    destruct (command_loaded _ _ Hcs' c' Hc') as (next & Hnext & Enext).
    exists next. split; [rewrite <- Et, <- Et'; by apply map_get_NoDup|].
    rewrite Enext, <- Er. apply contracted_covers; [by apply Hok|by apply Hok'|done].
Qed.

(** Single-version clients see every version that is gone. *)
Lemma clients_cover d d' :
  acceptable d -> acceptable d' ->
  (forall support, proper_client support -> negotiates support d -> negotiates support d') ->
  covers (discovery_api d') (discovery_api d) /\
  forall c, c ∈ discovery_commands d ->
    exists c', c' ∈ discovery_commands d' /\ command_type c' = command_type c /\ covers c' c.
Proof.
  intros Hd Hd' H.
  assert (range_ok (discovery_api d)) as Hr by apply validateServerRange_ok, Hd.
  assert (forall c : CommandVersionSupport, c ∈ discovery_commands d -> range_ok c) as Hrc
    by (intros c Hc; by apply (proj2 (check_commands_ok ∅ _ (proj2 (proj2 Hd))))).
  assert (forall v cmds, supports (discovery_api d) v -> Forall (fun kv => range_ok kv.2) cmds ->
    negotiates {| support_api := only v; support_commands := cmds |} d ->
    negotiates {| support_api := only v; support_commands := cmds |} d') as H1.
  { intros v cmds Hv Hcmds. apply H. split; [by eapply range_ok_only|done]. }
  split.
  - intros v Hv. specialize (H1 v [] Hv (Forall_nil_2 _)). rewrite !negotiates_iff in H1.
    2-5: done || (split; [by eapply range_ok_only|constructor]).
    cbn in H1. rewrite !overlap_only in H1. apply H1. split; [done|]. by intros ? ? ?%elem_of_nil.
  - intros c Hc. destruct Hr as (a & b & Ea & Eb & Hab & Hb).
    assert (supports (discovery_api d) a) as Ha by (exists a, b; rewrite Ea, Eb; split_and!; (done || lia)).
    assert (forall w, supports c w -> exists c', c' ∈ discovery_commands d' /\ command_type c' = command_type c /\
      supports c' w) as Hw.
    { intros w Hw. specialize (H1 a [(command_type c, only w)] Ha).
      assert (Forall (fun kv => range_ok kv.2) [(command_type c, only w)]) as Hf.
      { repeat constructor. cbn. eapply range_ok_only; [by apply Hrc|done]. }
      specialize (H1 Hf). rewrite !negotiates_iff in H1.
      2-5: done || (split; [exists a, a; cbn; split_and!; (done || lia)|done]).
      cbn in H1. rewrite !overlap_only in H1. setoid_rewrite list_elem_of_singleton in H1.
      destruct H1 as [_ H1]; [|destruct (H1 _ _ eq_refl) as (c' & ? & ? & Hov%overlap_only); eauto].
      split; [done|]. intros t client [= -> ->]. exists c. by rewrite overlap_only. }
    destruct (Hrc c Hc) as (x & y & Ex & Ey & Hxy & Hy).
    destruct (Hw x) as (c' & Hc' & Et & Hx); [exists x, y; rewrite Ex, Ey; split_and!; (done || lia)|].
    exists c'. split_and!; [done..|]. intros w Hcw. destruct (Hw w Hcw) as (c'' & Hc'' & Et' & Hcw').
    assert (c'' = c') as ->; [|done].
    eapply (NoDup_fmap_inj command_type); [|done..|by rewrite Et].
    apply (check_commands_ok ∅ _ (proj2 (proj2 Hd'))).
Qed.

(** C20: the check lets a change through exactly when no client is left
    behind: it reports nothing just when every client that negotiates with the
    trusted base also negotiates with the candidate. *)
Theorem support_check_exact basePath currentPath read base candidate document document' :
  loadSupport basePath (read basePath) true = Ok (Some base) -> read basePath = Ok document ->
  loadSupport currentPath (read currentPath) false = Ok (Some candidate) -> read currentPath = Ok document' ->
  (support_main basePath currentPath read = Ok () <->
   forall support, proper_client support ->
     negotiates support (discovery_of document) -> negotiates support (discovery_of document')).
Proof.
  intros Hb Eb Hc Ec.
  assert (support_main basePath currentPath read = Ok () <-> supportBreakingChanges (Some base) candidate = []) as ->.
  { unfold support_main. rewrite Hb, Hc. cbn. by destruct (_ ++ _). }
  rewrite (no_changes_covers _ _ _ _ _ _ _ _ _ _ Hb Eb Hc Ec).
  apply loadSupport_discovery in Hb as (? & Eb' & Hacc & _), Hc as (? & Ec' & Hacc' & _).
  rewrite Eb in Eb'. rewrite Ec in Ec'. injection Eb' as <-. injection Ec' as <-. split.
  - intros [Hapi Hcmd] support Hp. rewrite !negotiates_iff by done. intros [Ho Hall]. split.
    + by eapply overlap_covers.
    + intros t client Hin. destruct (Hall t client Hin) as (c & Hc & <- & Hov).
      destruct (Hcmd c Hc) as (c' & ? & ? & Hcov). exists c'. split_and!; [done..|]. by eapply overlap_covers.
  - by apply clients_cover.
Qed.

Section Sample.
Let versions (lo cur hi : Z) : list (jstr * jsval) :=
  [(js "minimum_supported", VNum (NInt lo)); (js "current", VNum (NInt cur)); (js "maximum_supported", VNum (NInt hi))].

(** A fixture file whose server supports API [1..hi] and one command. *)
Definition sample_document (hi : Z) : jsval :=
  VObj [(js "contract", VObj [
    (js "schema_version", VStr "1");
    (js "api", VObj (versions 1 1 hi));
    (js "commands", VArr [VObj ((js "command_type", VStr "journey.update") :: versions 1 1 hi)])])].
End Sample.

Definition sample_read (path : jstr) : outcome jstr jsval :=
  Ok (sample_document (if str_eqb path "base" then 1 else 2)).

Lemma support_check_exact_witness :
  support_main "base" "current" sample_read = Ok () /\ negotiates clientSupport (discovery_of (sample_document 2)).
Proof.
  split; [reflexivity|].
  destruct (loadSupport "base" (sample_read "base") true) as [[base|]|] eqn:Eb; try discriminate Eb.
  destruct (loadSupport "current" (sample_read "current") false) as [[candidate|]|] eqn:Ec; try discriminate Ec.
  apply (support_check_exact "base" "current" sample_read base candidate (sample_document 1) (sample_document 2)
    Eb eq_refl Ec eq_refl); [reflexivity| |].
  - split; [exists 1, 1; split_and!; (reflexivity || (unfold max_safe; lia))|].
    constructor; [exists 1, 1; split_and!; (reflexivity || (unfold max_safe; lia))|constructor].
  - eexists. reflexivity.
Defined.

(** Taking a version away is caught, and the other way round is let through. *)
Example contraction_caught :
  support_main "current" "base" sample_read =
  Throw (js "API supported range contracted; command supported range contracted: journey.update").
Proof. reflexivity. Qed.
