(* ===== verification/AccessPolicy.v ===== *)
(** The access policy of ADR-016: the reference evaluation in
    [scripts/architecture-decisions.mjs], as its functions are written. *)
From S2P Require Export JsValue.

(** ** The input of a decision

    [evaluate] is called on an input that has been validated; the fields that
    validation leaves as free strings are strings here. *)

Record Owner := {
  owner_type : jstr;
  journey_id : option jstr;
  party_id : option jstr;
  traveler_id : option jstr;
}.

Record Scope := {
  workspace_match : bool;
  journey_match : bool;
  resource_active : bool;
  owner_workspace_match : bool;
  owner_journey_match : bool;
  party_journey_match : bool;
  traveler_journey_match : bool;
}.

(** [resource_policy], [role], and what every other permission has. *)
Record Permissions := {
  operations : list jstr;
  fields : list jstr;
}.

(** [access_basis.kind] with the fields that kind has; validation converts the
    kind to a property key, so a value that is none of the three strings can
    pass it. *)
Inductive BasisKind :=
| user_membership (represented_user_match : bool)
| support_session (strong_auth reason_present : bool) (allowlist : Permissions)
| system_execution (allowlist : Permissions)
| unknown_kind.

Record AccessBasis := {
  kind : BasisKind;
  basis_state : jstr;
  active : bool;
  authenticated : bool;
  selected_scope : bool;
}.

Record Grant := {
  grant_state : jstr;
  grantee_match : bool;
  resource_match : bool;
  scope_match : bool;
  grant_permissions : Permissions;
  purpose_required : bool;
  purpose_present : bool;
  purpose_match : bool;
  delegation_valid : bool;
}.

Record OAuth := {
  applicable : bool;
  oauth_permissions : Permissions;
}.

Record PolicyRequest := {
  operation : jstr;
  request_fields : list jstr;
}.

Record PolicyEffects := {
  confirmation_required : bool;
  sensitive_read : bool;
}.

Record PolicyInput := {
  owner : Owner;
  scope : Scope;
  audience : jstr;
  relationship : jstr;
  access_basis : AccessBasis;
  explicit_deny : bool;
  resource_policy : Permissions;
  role : Permissions;
  grant : Grant;
  oauth : OAuth;
  origin : Permissions;
  policy_request : PolicyRequest;
  effects : PolicyEffects;
}.

(** ** The reference evaluation *)

Definition is_one_of (names : list string) (s : jstr) : bool := existsb (fun n => str_eqb (js n) s) names.
Definition is_null {A} (o : option A) : bool := match o with None => true | Some _ => false end.

Definition permits (values : list jstr) (value : jstr) : bool :=
  existsb (str_eqb "*") values || existsb (str_eqb value) values.

(** [fieldSets.every(...)] over the sets that come last. *)
Definition allowedFields (requested : list jstr) (fieldSets : list (list jstr)) : list jstr :=
  List.filter (fun field => forallb (fun fields => permits fields field) fieldSets) requested.

(** [[...new Set(l)]] *)
Fixpoint unique_from (seen l : list jstr) : list jstr :=
  match l with
  | [] => []
  | x :: l => if existsb (str_eqb x) seen then unique_from seen l else x :: unique_from (x :: seen) l
  end.
Definition unionFields (fieldSets : list (list jstr)) : list jstr :=
  if existsb (fun fields => existsb (str_eqb "*") fields) fieldSets then [js "*"]
  else unique_from [] (concat fieldSets).

Definition validOwnerAudience (input : PolicyInput) : bool :=
  let owner := owner input in
  let noParty := is_null (party_id owner) in
  let noTraveler := is_null (traveler_id owner) in
  let audience_is := str_eqb (audience input) in
  if audience_is "agency_internal" then
    let permittedOwner := is_one_of ["agency"; "workspace"; "journey"] (owner_type owner) in
    let journeyOwnerIsScoped := negb (str_eqb (owner_type owner) "journey") || negb (is_null (journey_id owner)) in
    permittedOwner && journeyOwnerIsScoped && noParty && noTraveler
  else if audience_is "journey_shared" then
    str_eqb (owner_type owner) "journey" && negb (is_null (journey_id owner)) && noParty && noTraveler
  else if audience_is "party_shared" then
    str_eqb (owner_type owner) "party" && negb (is_null (journey_id owner))
    && negb (is_null (party_id owner)) && noTraveler
  else if audience_is "traveler_private" then
    str_eqb (owner_type owner) "traveler" && negb (is_null (journey_id owner))
    && noParty && negb (is_null (traveler_id owner))
  else false.

Definition validAccessBasis (input : PolicyInput) : bool :=
  let basis := access_basis input in
  if negb (str_eqb (basis_state basis) "active") || negb (active basis)
     || negb (authenticated basis) || negb (selected_scope basis) then false
  else
    match kind basis with
    | user_membership represented_user_match => represented_user_match
    | support_session strong_auth reason_present _ => strong_auth && reason_present
    | system_execution _ => true
    | unknown_kind => false
    end.

(** [relationships[input.audience].includes(...)]; the audience is one of the
    four by [validOwnerAudience]. *)
Definition audienceAllows (input : PolicyInput) : bool :=
  let audience_is := str_eqb (audience input) in
  is_one_of
    (if audience_is "agency_internal" then ["agency_staff"]
     else if audience_is "journey_shared" then ["journey_member"]
     else if audience_is "party_shared" then ["exact_party_member"]
     else if audience_is "traveler_private" then ["self_traveler"; "guardian"] else [])
    (relationship input).

Definition is_user_membership (input : PolicyInput) : bool :=
  match kind (access_basis input) with user_membership _ => true | _ => false end.

Definition validGrant (input : PolicyInput) : bool :=
  let grant := grant input in
  is_user_membership input
  && str_eqb (grant_state grant) "active"
  && grantee_match grant
  && resource_match grant
  && scope_match grant
  && permits (operations (grant_permissions grant)) (operation (policy_request input))
  && (negb (purpose_required grant) || (purpose_present grant && purpose_match grant))
  && delegation_valid grant.

Inductive Reason :=
| invariant_failed
| access_basis_inactive
| denied_explicitly
| no_authorization_path
| oauth_scope_reduced
| origin_not_allowed
| field_forbidden
| reason_allowed.

#[export] Instance Reason_eq_dec : EqDecision Reason.
Proof. solve_decision. Defined.

Record PolicyDecision := {
  allowed : bool;
  allowed_fields : list jstr;
  reason : Reason;
  needs_confirmation : bool;
  sensitive_read_audit : bool;
}.

Definition decision (ok : bool) (allowedFieldsResult : list jstr) (why : Reason) (input : PolicyInput)
    : PolicyDecision :=
  {| allowed := ok;
     allowed_fields := allowedFieldsResult;
     reason := why;
     needs_confirmation := ok && confirmation_required (effects input);
     sensitive_read_audit :=
       ok && str_eqb (operation (policy_request input)) "read" && sensitive_read (effects input) |}.

(** The three authorisation paths. *)
Definition resourceAllowsOperation (input : PolicyInput) : bool :=
  permits (operations (resource_policy input)) (operation (policy_request input)).
Definition basePath (input : PolicyInput) : bool :=
  is_user_membership input && resourceAllowsOperation input
  && permits (operations (role input)) (operation (policy_request input)) && audienceAllows input.
Definition grantPath (input : PolicyInput) : bool := resourceAllowsOperation input && validGrant input.
(** [access_basis.operation_allowlist] and [access_basis.fields] *)
Definition privileged_allowlist (input : PolicyInput) : option Permissions :=
  match kind (access_basis input) with
  | user_membership _ | unknown_kind => None
  | support_session _ _ allowlist | system_execution allowlist => Some allowlist
  end.
Definition privilegedPath (input : PolicyInput) : bool :=
  resourceAllowsOperation input &&
  match privileged_allowlist input with
  | Some allowlist => permits (operations allowlist) (operation (policy_request input))
  | None => false
  end.

Definition scope_holds (s : Scope) : bool :=
  workspace_match s && journey_match s && resource_active s && owner_workspace_match s
  && owner_journey_match s && party_journey_match s && traveler_journey_match s.

Definition pathFields (input : PolicyInput) : list jstr :=
  unionFields
    ((if basePath input then [fields (role input)] else [])
     ++ (if grantPath input then [fields (grant_permissions (grant input))] else [])
     ++ (if privilegedPath input then [default [] (fields <$> privileged_allowlist input)] else [])).

Definition projected (input : PolicyInput) : list jstr :=
  let oauthFields :=
    if applicable (oauth input) then fields (oauth_permissions (oauth input)) else [js "*"] in
  allowedFields (request_fields (policy_request input))
    [pathFields input; fields (resource_policy input); oauthFields; fields (origin input)].

Definition evaluate (input : PolicyInput) : PolicyDecision :=
  let deny why := decision false [] why input in
  let operation := operation (policy_request input) in
  let requested := request_fields (policy_request input) in
  if negb (scope_holds (scope input)) || negb (validOwnerAudience input) then deny invariant_failed
  else if negb (validAccessBasis input) then deny access_basis_inactive
  else if explicit_deny input then deny denied_explicitly
  else if negb (basePath input) && negb (grantPath input) && negb (privilegedPath input)
  then deny no_authorization_path
  else if applicable (oauth input) && negb (permits (operations (oauth_permissions (oauth input))) operation)
  then deny oauth_scope_reduced
  else if negb (permits (operations (origin input)) operation) then deny origin_not_allowed
  else if negb (str_eqb operation "read") && negb (length (projected input) =? length requested)%nat
  then deny field_forbidden
  else if (0 <? length requested)%nat && (length (projected input) =? 0)%nat then deny field_forbidden
  else decision true (projected input) reason_allowed input.
