(* ===== verification/AccessPolicySpec.v ===== *)
(** What ADR-016 promises of the access policy, stated independently of the
    code, and that [AccessPolicy.evaluate] decides it. *)
From S2P Require Export AccessPolicy.

(** ** The terms of the decision record *)

(** A list of operations or fields covers one when it names it or holds the star. *)
Definition may (values : list jstr) (value : jstr) : Prop := js "*" ∈ values \/ value ∈ values.

(** The owners an audience admits, with their discriminators. *)
Inductive proper_owner : jstr -> Owner -> Prop :=
| owned_by_agency t j : t = js "agency" \/ t = js "workspace" ->
    proper_owner "agency_internal" {| owner_type := t; journey_id := j; party_id := None; traveler_id := None |}
| owned_by_internal_journey j :
    proper_owner "agency_internal"
      {| owner_type := "journey"; journey_id := Some j; party_id := None; traveler_id := None |}
| owned_by_journey j :
    proper_owner "journey_shared"
      {| owner_type := "journey"; journey_id := Some j; party_id := None; traveler_id := None |}
| owned_by_party j p :
    proper_owner "party_shared"
      {| owner_type := "party"; journey_id := Some j; party_id := Some p; traveler_id := None |}
| owned_by_traveler j t :
    proper_owner "traveler_private"
      {| owner_type := "traveler"; journey_id := Some j; party_id := None; traveler_id := Some t |}.

(** The relationship that satisfies an audience by default. *)
Inductive default_relationship : jstr -> jstr -> Prop :=
| staff_of_agency : default_relationship "agency_internal" "agency_staff"
| member_of_journey : default_relationship "journey_shared" "journey_member"
| member_of_party : default_relationship "party_shared" "exact_party_member"
| the_traveler : default_relationship "traveler_private" "self_traveler"
| guardian_of_traveler : default_relationship "traveler_private" "guardian".

(** The explicit access bases. *)
Inductive explicit_basis : BasisKind -> Prop :=
| by_membership : explicit_basis (user_membership true)
| by_support p : explicit_basis (support_session true true p)
| by_system p : explicit_basis (system_execution p).

Record active_basis (b : AccessBasis) : Prop := {
  state_active : basis_state b = "active";
  is_active : active b = true;
  is_authenticated : authenticated b = true;
  scope_selected : selected_scope b = true;
  basis_explicit : explicit_basis (kind b);
}.

Record grant_in_force (g : Grant) (op : jstr) : Prop := {
  grant_active : grant_state g = "active";
  to_grantee : grantee_match g = true;
  on_resource : resource_match g = true;
  in_scope : scope_match g = true;
  for_operation : may (operations (grant_permissions g)) op;
  for_purpose : purpose_required g = true -> purpose_present g = true /\ purpose_match g = true;
  delegable : delegation_valid g = true;
}.

Section Terms.
Context (i : PolicyInput).
Let op := operation (policy_request i).

(** The independent authorisation paths, each with the fields it opens. *)
Inductive path : list jstr -> Prop :=
| ordinary_path b : kind (access_basis i) = user_membership b ->
    may (operations (resource_policy i)) op -> may (operations (role i)) op ->
    default_relationship (audience i) (relationship i) -> path (fields (role i))
| granted_path b : kind (access_basis i) = user_membership b ->
    may (operations (resource_policy i)) op -> grant_in_force (grant i) op -> path (fields (grant_permissions (grant i)))
| allowlisted_path p : privileged_allowlist i = Some p ->
    may (operations (resource_policy i)) op -> may (operations p) op -> path (fields p).

(** The allow expression of the record, before fields are considered. *)
Record authorised : Prop := {
  server_scope : scope_holds (scope i) = true;
  owner_fits : proper_owner (audience i) (owner i);
  basis_valid : active_basis (access_basis i);
  not_denied : explicit_deny i = false;
  some_path : exists fs, path fs;
  oauth_allows : applicable (oauth i) = true -> may (operations (oauth_permissions (oauth i))) op;
  origin_allows : may (operations (origin i)) op;
}.

(** A field every layer lets through. *)
Definition field_open (f : jstr) : Prop :=
  (exists fs, path fs /\ may fs f) /\ may (fields (resource_policy i)) f /\
  (applicable (oauth i) = true -> may (fields (oauth_permissions (oauth i))) f) /\ may (fields (origin i)) f.

(** Reads are projected; anything else needs every field it names. *)
Definition fields_suffice : Prop :=
  let requested := request_fields (policy_request i) in
  if decide (op = js "read") then requested = [] \/ exists f, f ∈ requested /\ field_open f
  else forall f, f ∈ requested -> field_open f.
End Terms.

(** ** The code's predicates decide the terms *)

Lemma permits_may vs v : permits vs v = true <-> may vs v.
Proof.
  unfold permits, may. rewrite orb_true_iff, !existsb_elem. setoid_rewrite str_eqb_eq. naive_solver.
Qed.

Lemma is_one_of_elem names s : is_one_of names s = true <-> s ∈ js <$> names.
Proof.
  unfold is_one_of. rewrite existsb_elem, list_elem_of_fmap. setoid_rewrite str_eqb_eq. naive_solver.
Qed.

Lemma unique_from_elem seen l x : x ∈ unique_from seen l <-> x ∈ l /\ x ∉ seen.
Proof.
  revert seen. induction l as [|y l IH]; intros seen; cbn; [split; [by intros ?%elem_of_nil|by intros [?%elem_of_nil _]]|].
  destruct (existsb (str_eqb y) seen) eqn:E.
  - apply existsb_elem in E as (z & Hz & ->%str_eqb_eq). rewrite IH, elem_of_cons. naive_solver.
  - assert (y ∉ seen) as Hy.
    { intros Hy. rewrite existsb_false in E. specialize (E y Hy). by rewrite str_eqb_refl in E. }
    rewrite !elem_of_cons, IH, not_elem_of_cons. destruct (decide (x = y)) as [->|]; naive_solver.
Qed.

Lemma may_union sets f : may (unionFields sets) f <-> exists s, s ∈ sets /\ may s f.
Proof.
  unfold unionFields, may. destruct (existsb _ sets) eqn:E.
  - split; [|by left; apply list_elem_of_here]. intros _.
    apply existsb_elem in E as (s & ? & (x & ? & <-%str_eqb_eq)%existsb_elem). eauto.
  - rewrite existsb_false in E.
    assert (forall s, s ∈ sets -> js "*" ∉ s) as Hs.
    { intros s Hin Hstar. specialize (E s Hin). rewrite existsb_false in E.
      specialize (E _ Hstar). by rewrite str_eqb_refl in E. }
    setoid_rewrite unique_from_elem. setoid_rewrite list_elem_of_In. setoid_rewrite in_concat.
    setoid_rewrite <- list_elem_of_In. setoid_rewrite elem_of_nil. naive_solver.
Qed.

Lemma validOwnerAudience_iff i : validOwnerAudience i = true <-> proper_owner (audience i) (owner i).
Proof.
  unfold validOwnerAudience. destruct i as [[t j p tr] sc a]. cbn [audience owner owner_type journey_id party_id traveler_id].
  split.
  - repeat case_match; rewrite ?andb_true_iff, ?orb_true_iff, ?negb_true_iff, ?str_eqb_eq, ?is_one_of_elem; try done.
    all: repeat match goal with H : str_eqb _ _ = true |- _ => apply str_eqb_eq in H as -> end.
    all: destruct j, p, tr; cbn; try (intuition congruence).
    all: intros Hall; decompose [and or] Hall; clear Hall; try discriminate; subst.
    all: repeat match goal with
         | H : str_eqb _ _ = false |- _ => apply str_eqb_neq in H
         | H : _ ∈ _ :: _ |- _ => apply elem_of_cons in H as [->|H]
         | H : _ ∈ [] |- _ => by apply elem_of_nil in H
         end; (by apply owned_by_internal_journey) || congruence || (constructor; auto).
  - inversion 1 as [? ? [-> | ->]| | | |]; subst; reflexivity.
Qed.

Lemma validAccessBasis_iff i : validAccessBasis i = true <-> active_basis (access_basis i).
Proof.
  unfold validAccessBasis. destruct (access_basis i) as [k st a au sel]. cbn. split.
  - case_match eqn:E; [done|]. rewrite !orb_false_iff, !negb_false_iff, str_eqb_eq in E.
    destruct E as [[[-> ->] ->] ->]. intros Hk. split; try done. cbn.
    destruct k as [[]|[] [] p|p|]; (done || constructor).
  - intros [Hs Ha Hau Hsel Hk]. cbn in *. subst. by inversion Hk.
Qed.

Lemma audienceAllows_iff i : audienceAllows i = true <-> default_relationship (audience i) (relationship i).
Proof.
  unfold audienceAllows. rewrite is_one_of_elem. split.
  - repeat case_match;
      repeat match goal with H : str_eqb _ _ = true |- _ => apply str_eqb_eq in H as -> end; cbn;
      rewrite ?elem_of_cons, ?elem_of_nil; intros Hall; decompose [or] Hall; try done; subst;
      match goal with H : relationship i = _ |- _ => rewrite H; constructor end.
  - inversion 1 as [Ha Hr|Ha Hr|Ha Hr|Ha Hr|Ha Hr]; rewrite ?Ha, ?Hr, <- ?Ha, <- ?Hr; cbn; set_solver.
Qed.

Lemma validGrant_iff i : validGrant i = true <->
  (exists b, kind (access_basis i) = user_membership b) /\ grant_in_force (grant i) (operation (policy_request i)).
Proof.
  unfold validGrant, is_user_membership.
  rewrite !andb_true_iff, orb_true_iff, negb_true_iff, andb_true_iff, str_eqb_eq, permits_may.
  destruct (purpose_required (grant i)) eqn:Ep, (kind (access_basis i)) as [b| | |] eqn:Ek;
    split; try (intros H; decompose [and] H; discriminate); try (intros [[? ?] ?]; congruence).
  - intros H; decompose [and] H. split; [by exists b|]. split; try done. intros _.
    match goal with H : _ \/ _ |- _ => destruct H as [?|?]; [congruence|done] end.
  - intros [_ []]. intuition.
  - intros H; decompose [and] H. split; [by exists b|]. split; try done. congruence.
  - intros [_ []]. intuition.
Qed.

(** ** Paths and fields *)

Lemma basePath_iff i : basePath i = true <->
  (exists b, kind (access_basis i) = user_membership b) /\
  may (operations (resource_policy i)) (operation (policy_request i)) /\
  may (operations (role i)) (operation (policy_request i)) /\ default_relationship (audience i) (relationship i).
Proof.
  unfold basePath, is_user_membership, resourceAllowsOperation.
  rewrite !andb_true_iff, !permits_may, audienceAllows_iff.
  destruct (kind (access_basis i)) eqn:E; naive_solver.
Qed.

Lemma grantPath_iff i : grantPath i = true <->
  may (operations (resource_policy i)) (operation (policy_request i)) /\
  (exists b, kind (access_basis i) = user_membership b) /\ grant_in_force (grant i) (operation (policy_request i)).
Proof. unfold grantPath, resourceAllowsOperation. by rewrite andb_true_iff, permits_may, validGrant_iff. Qed.

Lemma privilegedPath_iff i : privilegedPath i = true <->
  exists p, privileged_allowlist i = Some p /\
    may (operations (resource_policy i)) (operation (policy_request i)) /\
    may (operations p) (operation (policy_request i)).
Proof.
  unfold privilegedPath, resourceAllowsOperation. rewrite andb_true_iff, permits_may.
  destruct (privileged_allowlist i) as [p|]; [rewrite permits_may|]; naive_solver.
Qed.

Lemma some_path_iff i :
  negb (basePath i) && negb (grantPath i) && negb (privilegedPath i) = false <-> exists fs, path i fs.
Proof.
  rewrite !andb_false_iff, !negb_false_iff, basePath_iff, grantPath_iff, privilegedPath_iff. split.
  - intros [[([b ?] & ? & ? & ?)|(? & [b ?] & ?)]|(p & ? & ? & ?)]; eexists.
    + by eapply ordinary_path.
    + by eapply granted_path.
    + by eapply allowlisted_path.
  - intros (fs & [b ? ? ?|b ? ? ?|p ? ? ?]); naive_solver.
Qed.

Lemma pathFields_may i f : may (pathFields i) f <-> exists fs, path i fs /\ may fs f.
Proof.
  unfold pathFields. rewrite may_union. setoid_rewrite elem_of_app. setoid_rewrite elem_of_app. split.
  - intros (fs & [H|[H|H]] & Hf); exists fs; (split; [|done]).
    + destruct (basePath i) eqn:E; [|by apply elem_of_nil in H]. apply list_elem_of_singleton in H as ->.
      apply basePath_iff in E as ([b ?] & ? & ? & ?). by eapply ordinary_path.
    + destruct (grantPath i) eqn:E; [|by apply elem_of_nil in H]. apply list_elem_of_singleton in H as ->.
      apply grantPath_iff in E as (? & [b ?] & ?). by eapply granted_path.
    + destruct (privilegedPath i) eqn:E; [|by apply elem_of_nil in H]. apply list_elem_of_singleton in H as ->.
      apply privilegedPath_iff in E as (p & Hp & ? & ?). rewrite Hp. cbn. by eapply allowlisted_path.
  - intros (fs & Hp & Hf). exists fs. split; [|done]. destruct Hp as [b ? ? ?|b ? ? ?|p Hp ? ?].
    + left. rewrite (proj2 (basePath_iff i)) by eauto. by apply list_elem_of_singleton.
    + right; left. rewrite (proj2 (grantPath_iff i)) by eauto. by apply list_elem_of_singleton.
    + right; right. rewrite (proj2 (privilegedPath_iff i)) by eauto. rewrite Hp. by apply list_elem_of_singleton.
Qed.

Lemma projected_elem i f : f ∈ projected i <-> f ∈ request_fields (policy_request i) /\ field_open i f.
Proof.
  unfold projected, allowedFields, field_open. rewrite elem_of_lfilter. cbn [forallb].
  rewrite !andb_true_iff, !permits_may, pathFields_may.
  destruct (applicable (oauth i)); [naive_solver|].
  assert (may [js "*"] f) by (left; apply list_elem_of_here). naive_solver.
Qed.

Lemma lfilter_full {A} (p : A -> bool) l : length (List.filter p l) = length l <-> forall x, x ∈ l -> p x = true.
Proof.
  induction l as [|x l IH]; cbn; [split; [by intros _ ? ?%elem_of_nil|done]|]. setoid_rewrite elem_of_cons.
  pose proof (List.filter_length_le p l) as Hle. destruct (p x) eqn:E; cbn.
  - rewrite Nat.succ_inj_wd, IH. naive_solver.
  - split; [lia|]. intros H. rewrite H in E by auto. done.
Qed.

Lemma fields_suffice_iff i :
  fields_suffice i <->
  negb (str_eqb (operation (policy_request i)) "read")
    && negb (length (projected i) =? length (request_fields (policy_request i)))%nat = false /\
  (0 <? length (request_fields (policy_request i)))%nat && (length (projected i) =? 0)%nat = false.
Proof.
  set (l := request_fields (policy_request i)).
  assert (length (projected i) = length l <-> forall f, f ∈ l -> field_open i f) as Hfull.
  { unfold projected at 1, allowedFields. fold l. rewrite lfilter_full. split.
    - intros H f Hf. apply (projected_elem i f). unfold projected, allowedFields. apply elem_of_lfilter. auto.
    - intros H f Hf. assert (f ∈ projected i) as Hp by (apply projected_elem; auto).
      by apply elem_of_lfilter in Hp as [_ ?]. }
  assert (length (projected i) <> 0%nat <-> exists f, f ∈ l /\ field_open i f) as Hsome.
  { unfold l. setoid_rewrite <- projected_elem. destruct (projected i) as [|f fs]; cbn.
    - split; [lia|by intros (? & ?%elem_of_nil)].
    - split; [|done]. intros _. exists f. apply list_elem_of_here. }
  unfold fields_suffice. fold l. rewrite !andb_false_iff, !negb_false_iff, str_eqb_eq, !Nat.eqb_eq, Nat.eqb_neq, Nat.ltb_ge.
  destruct l as [|f l'] eqn:El; case_decide as Hr; rewrite Hfull, Hsome; cbn [length].
  - split; [|by left]. intros _. split; [by left|left; lia].
  - split; [|by intros _ ? ?%elem_of_nil]. intros ?. split; [by right|left; lia].
  - split; [intros [?|?]; [done|]; split; [by left|by right]|]. intros [_ [?|?]]; [lia|by right].
  - split; [|by intros [[?|?] _]]. intros H. split; [by right|]. right. exists f.
    split; [|apply H]; apply list_elem_of_here.
Qed.

(** ** The evaluation *)

(** The normative order: each step with the reason of a denial there. *)
Definition steps (i : PolicyInput) : list (Prop * Reason) :=
  let op := operation (policy_request i) in
  [(scope_holds (scope i) = true /\ proper_owner (audience i) (owner i), invariant_failed);
   (active_basis (access_basis i), access_basis_inactive);
   (explicit_deny i = false, denied_explicitly);
   (exists fs, path i fs, no_authorization_path);
   (applicable (oauth i) = true -> may (operations (oauth_permissions (oauth i))) op, oauth_scope_reduced);
   (may (operations (origin i)) op, origin_not_allowed);
   (fields_suffice i, field_forbidden)].

(** [r] is the reason of the first step that does not hold. *)
Fixpoint stops_at (l : list (Prop * Reason)) (r : Reason) : Prop :=
  match l with
  | [] => r = reason_allowed
  | (holds, why) :: l => (~ holds /\ r = why) \/ (holds /\ stops_at l r)
  end.

(** A step of the code: its test decides the step of the order. *)
Lemma stops_if (P : Prop) (b : bool) why l (d d' : PolicyDecision) :
  (b = false <-> P) -> reason d = why -> stops_at l (reason d') ->
  stops_at ((P, why) :: l) (reason (if b then d else d')).
Proof. intros Hb Hd Hd'. cbn. destruct b; [left; split; [rewrite <- Hb|]; done|right; split; [by apply Hb|done]]. Qed.

Lemma evaluate_stops i : stops_at (steps i) (reason (evaluate i)).
Proof.
  unfold evaluate, steps.
  apply stops_if; [by rewrite orb_false_iff, !negb_false_iff, validOwnerAudience_iff|done|].
  apply stops_if; [by rewrite negb_false_iff, validAccessBasis_iff|done|].
  apply stops_if; [done|done|].
  apply stops_if; [apply some_path_iff|done|].
  apply stops_if; [|done|].
  { rewrite andb_false_iff, negb_false_iff, permits_may. destruct (applicable (oauth i)); naive_solver. }
  apply stops_if; [by rewrite negb_false_iff, permits_may|done|].
  pose proof (fields_suffice_iff i) as Hf. destruct (_ && _) eqn:E1 in |- *.
  { left. split; [|done]. rewrite Hf. intros [? _]. congruence. }
  apply stops_if; [|done|done]. rewrite Hf. tauto.
Qed.

(** Every branch is one of two calls of [decision]. *)
Lemma evaluate_decision i :
  (reason (evaluate i) <> reason_allowed /\ evaluate i = decision false [] (reason (evaluate i)) i) \/
  evaluate i = decision true (projected i) reason_allowed i.
Proof. unfold evaluate. repeat case_match; (by right) || (left; done). Qed.

Lemma stops_allowed i : stops_at (steps i) reason_allowed <-> authorised i /\ fields_suffice i.
Proof.
  unfold steps. cbn [stops_at]. split.
  - intros H. decompose [and or] H; try discriminate. split; [constructor|]; done.
  - intros [[] ?]. repeat (right; split; [done|]). done.
Qed.

Lemma stops_at_unique l r r' : stops_at l r -> stops_at l r' -> r = r'.
Proof. induction l as [|[holds why] l IH]; cbn; [congruence|]. naive_solver. Qed.

Lemma evaluate_allowed i : allowed (evaluate i) = true <-> authorised i /\ fields_suffice i.
Proof.
  rewrite <- stops_allowed. pose proof (evaluate_stops i) as H.
  destruct (evaluate_decision i) as [[Hne E]|E].
  - rewrite E. cbn [decision allowed]. split; [done|]. intros Ha. destruct Hne. by eapply stops_at_unique.
  - rewrite E in H |- *. done.
Qed.

Lemma evaluate_fields i f :
  f ∈ allowed_fields (evaluate i) <->
  allowed (evaluate i) = true /\ f ∈ request_fields (policy_request i) /\ field_open i f.
Proof.
  destruct (evaluate_decision i) as [[_ ->] | ->]; cbn [decision allowed_fields allowed].
  - split; [by intros ?%elem_of_nil|by intros [? _]].
  - rewrite projected_elem. naive_solver.
Qed.

(** C10: the evaluation is the normative order of the decision record: a denial
    gives the reason of the first step that fails, an access is given when no
    step fails; then exactly the requested fields open on every layer are
    returned, in the order of the request; and only an access that is given
    asks for confirmation or an audit. *)
Theorem evaluate_normative i :
  let d := evaluate i in
  stops_at (steps i) (reason d) /\ (allowed d = true <-> reason d = reason_allowed) /\
  (forall f, f ∈ allowed_fields d <->
     allowed d = true /\ f ∈ request_fields (policy_request i) /\ field_open i f) /\
  sublist (allowed_fields d) (request_fields (policy_request i)) /\
  needs_confirmation d = allowed d && confirmation_required (effects i) /\
  sensitive_read_audit d = allowed d && str_eqb (operation (policy_request i)) "read" && sensitive_read (effects i).
Proof.
  intros d. split_and!; [apply evaluate_stops| |apply evaluate_fields| | |]; subst d;
    destruct (evaluate_decision i) as [[Hne ->] | ->]; try done.
  - apply sublist_nil_l.
  - cbn. unfold projected, allowedFields. apply sublist_lfilter.
Qed.

(** ** Narrowing *)

Definition narrower_list (l' l : list jstr) : Prop := forall x, may l' x -> may l x.

#[export] Instance narrower_list_preorder : PreOrder narrower_list.
Proof. split; [by intros l x|]. intros l1 l2 l3 H1 H2 x Hx. auto. Qed.

Record narrower_permissions (p' p : Permissions) : Prop := {
  fewer_operations : narrower_list (operations p') (operations p);
  fewer_fields : narrower_list (fields p') (fields p);
}.

#[export] Instance narrower_permissions_preorder : PreOrder narrower_permissions.
Proof. split; [by split|]. intros p1 p2 p3 [] []. split; by etrans. Qed.

Inductive narrower_basis : BasisKind -> BasisKind -> Prop :=
| same_membership b : narrower_basis (user_membership b) (user_membership b)
| narrower_support a r p' p : narrower_permissions p' p ->
    narrower_basis (support_session a r p') (support_session a r p)
| narrower_system p' p : narrower_permissions p' p ->
    narrower_basis (system_execution p') (system_execution p)
| same_unknown : narrower_basis unknown_kind unknown_kind.

(** [j] is [i] with authority taken away: from any list, by a deny, by an
    inactive basis, by ending the grant or by having OAuth apply. *)
Record narrower (j i : PolicyInput) : Prop := {
  same_request : policy_request j = policy_request i;
  same_owner : owner j = owner i;
  same_scope : scope j = scope i;
  same_audience : audience j = audience i;
  same_relationship : relationship j = relationship i;
  less_basis : active_basis (access_basis j) -> active_basis (access_basis i);
  less_allowlist : narrower_basis (kind (access_basis j)) (kind (access_basis i));
  more_denied : explicit_deny i = true -> explicit_deny j = true;
  less_policy : narrower_permissions (resource_policy j) (resource_policy i);
  less_role : narrower_permissions (role j) (role i);
  less_grant : forall op, grant_in_force (grant j) op -> grant_in_force (grant i) op;
  less_granted : narrower_list (fields (grant_permissions (grant j))) (fields (grant_permissions (grant i)));
  oauth_applies : applicable (oauth i) = true -> applicable (oauth j) = true;
  less_oauth : narrower_permissions (oauth_permissions (oauth j)) (oauth_permissions (oauth i));
  less_origin : narrower_permissions (origin j) (origin i);
}.

Lemma narrower_allowlist j i p' :
  narrower_basis (kind (access_basis j)) (kind (access_basis i)) -> privileged_allowlist j = Some p' ->
  exists p, privileged_allowlist i = Some p /\ narrower_permissions p' p.
Proof. unfold privileged_allowlist. destruct 1; try done; intros [= <-]; eauto. Qed.

Section Narrowing.
Context (j i : PolicyInput) (H : narrower j i).

Lemma narrower_path fs : path j fs -> exists fs', path i fs' /\ narrower_list fs fs'.
Proof.
  destruct H as [Hq _ _ Ha Hr _ Hk _ [Hpo _] [Hro Hrf] Hg Hgf _ _ _].
  intros [b Hb Hp Hrole Hrel|b Hb Hp Hgr|p Hal Hp Ho]; rewrite Hq in *.
  - rewrite Hb in Hk. inversion Hk. rewrite Ha, Hr in Hrel.
    eexists. split; [eapply ordinary_path; eauto|done].
  - rewrite Hb in Hk. inversion Hk. eexists. split; [eapply granted_path; eauto|done].
  - destruct (narrower_allowlist _ _ _ Hk Hal) as (p' & Hp' & [Hop Hfs]).
    exists (fields p'). split; [by eapply allowlisted_path; eauto|done].
Qed.

Lemma narrower_open f : field_open j f -> field_open i f.
Proof.
  intros ((fs & Hp & Hf) & Hpol & Ho & Hor). destruct (narrower_path fs Hp) as (fs' & Hp' & Hle).
  destruct H as [_ _ _ _ _ _ _ _ [_ Hpf] _ _ _ Hap [_ Hof] [_ Horf]].
  split_and!; [exists fs'; auto|by apply Hpf|intros Hi; apply Hof; auto|by apply Horf].
Qed.

Lemma narrower_authorised : authorised j -> authorised i.
Proof.
  intros [Hs Ho Hb Hd [fs Hp] Hoa Hor]. destruct (narrower_path fs Hp) as (fs' & Hp' & _).
  destruct H as [Hq Hown Hsc Ha _ Hba _ Hden _ _ _ _ Hap [Hoo _] [Horo _]].
  rewrite Hq, ?Hsc, ?Hown, ?Ha in *. split; [done..|by apply Hba| |by exists fs'| |by apply Horo].
  - destruct (explicit_deny i); [|done]. by rewrite Hden in Hd.
  - intros Hi. apply Hoo. auto.
Qed.

Lemma narrower_fields_suffice : fields_suffice j -> fields_suffice i.
Proof.
  unfold fields_suffice. rewrite (same_request _ _ H).
  case_decide; [|by intros Hall f Hf; apply narrower_open, Hall].
  intros [?|(f & ? & ?)]; [by left|]. right. exists f. split; [done|by apply narrower_open].
Qed.
End Narrowing.

#[export] Instance narrower_preorder : PreOrder narrower.
Proof.
  split.
  - intros i. split; try done. by destruct (kind (access_basis i)); constructor.
  - intros k j i [] []. split; try congruence; try (by etrans); auto.
    destruct less_allowlist0; inversion less_allowlist1; subst; constructor; by etrans.
Qed.

(** C14: taking authority away never widens access: whatever a narrower input
    is given the wider one is given too, with at least the same fields. *)
Theorem narrowing_never_widens j i :
  narrower j i -> allowed (evaluate j) = true ->
  allowed (evaluate i) = true /\ forall f, f ∈ allowed_fields (evaluate j) -> f ∈ allowed_fields (evaluate i).
Proof.
  intros H Ha. assert (allowed (evaluate i) = true) as Hi.
  { apply evaluate_allowed in Ha as [? ?]. apply evaluate_allowed.
    split; [by eapply narrower_authorised|by eapply narrower_fields_suffice]. }
  split; [done|]. intros f (_ & Hf & Ho)%evaluate_fields. apply evaluate_fields.
  rewrite (same_request _ _ H) in Hf. split_and!; [done..|by eapply narrower_open].
Qed.

(** ** Privileged bases *)

(** The same request with another role, grant and relationship of the user. *)
Definition with_user_authority (i : PolicyInput) (rel : jstr) (r : Permissions) (g : Grant) : PolicyInput :=
  {| owner := owner i; scope := scope i; audience := audience i; relationship := rel;
     access_basis := access_basis i; explicit_deny := explicit_deny i; resource_policy := resource_policy i;
     role := r; grant := g; oauth := oauth i; origin := origin i;
     policy_request := policy_request i; effects := effects i |}.

(** a support session or a system execution borrows nothing from a user:
    its decision is the same whatever the role, the grant and the relationship. *)
Theorem privileged_basis_isolated i rel r g :
  is_user_membership i = false -> evaluate (with_user_authority i rel r g) = evaluate i.
Proof.
  intros Hk.
  assert (forall j, is_user_membership j = false -> basePath j = false /\ grantPath j = false) as Hn.
  { intros j Hj. unfold basePath, grantPath, validGrant. rewrite Hj, andb_false_r. done. }
  destruct (Hn i Hk) as [Hb Hg], (Hn (with_user_authority i rel r g) Hk) as [Hb' Hg'].
  unfold evaluate, projected, pathFields. rewrite Hb, Hg, Hb', Hg'. reflexivity.
Qed.
