(* ===== verification/PolicyCases.v ===== *)
(** The shared policy cases: how [scripts/architecture-decisions.mjs] merges a
    case with the defaults, validates it, evaluates it and compares the result
    with what the case expects.  Errors are collected, not thrown; reading a
    property of [null] or [undefined] ends the script. *)
From S2P Require Export AccessPolicy Regex.

(** ** Collected errors *)

Inductive Crash := TypeError.

(** What a call returns and the messages it adds to [errors]. *)
Definition Report (A : Type) : Type := outcome Crash (A * list jstr).

#[export] Instance report_ret : MRet Report := fun A a => Ok (a, []).
#[export] Instance report_bind : MBind Report := fun A B f m =>
  match m with
  | Ok (a, errors) =>
      match f a with Ok (b, errors') => Ok (b, errors ++ errors') | Throw e => Throw e end
  | Throw e => Throw e
  end.

Definition fail (message : jstr) : Report () := Ok ((), [message]).
Definition report_if (b : bool) (message : jstr) : Report () := if b then fail message else mret ().
Definition crash {A} : Report A := Throw TypeError.

Fixpoint report_each {A} (f : A -> Report ()) (l : list A) : Report () :=
  match l with
  | [] => mret ()
  | x :: l => _ ← f x; report_each f l
  end.

(** [v.k] *)
Definition read (v : jsval) (k : jstr) : Report jsval :=
  match v with VUndef | VNull => crash | _ => mret (prop v k) end.
(** [k in v] *)
Definition key_in (k : jstr) (v : jsval) : Report bool :=
  match v with
  | VObj fs => mret (has_property fs k)
  | VArr _ | VFun => mret (bool_decide (is_Some (inherited k)))
  | _ => crash
  end.

(** [`${path}.${key}`] *)
Definition at_key (path key : jstr) : jstr := path ++ 46%N :: key.

(** ** Merging a case with the defaults *)

Definition spread (v : jsval) : list (jstr * jsval) :=
  match v with
  | VObj fs => fs
  | VArr l => imap (fun i x => (print_int (Z.of_nat i), x)) l
  | VStr s => imap (fun i c => (print_int (Z.of_nat i), VStr [c])) s
  | _ => []
  end.

Fixpoint deepMerge (base override : jsval) : jsval :=
  match override with
  | VObj fs =>
      VObj ((fix merge (result fs : list (jstr * jsval)) :=
        match fs with
        | [] => result
        | (key, value) :: fs => merge (set_field result key (deepMerge (get result key) value)) fs
        end) (spread base) fs)
  | _ => override
  end.

(** [testCase.access_basis?.kind] *)
Definition optional_kind (basis : jsval) : jsval :=
  match basis with VUndef | VNull => VUndef | _ => prop basis "kind" end.

Definition materializeCase (defaults testCase : jsval) : Report jsval :=
  let input := deepMerge defaults testCase in
  basis ← read testCase "access_basis";
  if truthy (optional_kind basis) then
    default_basis ← read defaults "access_basis";
    default_kind ← read default_basis "kind";
    mret (if strict_eq (optional_kind basis) default_kind then input
          else VObj (set_field (spread input) "access_basis" (VObj (spread basis))))
  else mret input.

(** ** Validation *)

Definition is_string (v : jsval) : bool := match v with VStr _ => true | _ => false end.
Definition is_bool (v : jsval) : bool := match v with VBool _ => true | _ => false end.
(** [["a", "b"].includes(v)] *)
Definition includes (names : list string) (v : jsval) : bool :=
  match v with VStr s => is_one_of names s | _ => false end.

Definition validateArray (value : jsval) (path : jstr) : Report () :=
  report_if (match value with VArr l => existsb (fun item => negb (is_string item)) l | _ => true end)
    (path ++ js " must be an array of strings").

Definition unknown_keys (fs : list (jstr * jsval)) (permitted : list string) : list jstr :=
  List.filter (fun key => negb (is_one_of permitted key)) (object_keys fs).

Definition validateKeys (value : jsval) (permitted : list string) (path : jstr) : Report () :=
  match as_record value with
  | None => fail (path ++ js " must be an object")
  | Some fs =>
      let unknown := unknown_keys fs permitted in
      report_if (0 <? length unknown)%nat (path ++ js " has unknown field(s): " ++ join ", " unknown)
  end.

Definition validateNullableString (value : jsval) (path : jstr) : Report () :=
  report_if (match value with VNull => false | VStr s => negb (str_truthy s) | _ => true end)
    (path ++ js " must be null or a non-empty string").

(** [/^[a-z0-9]+(?:-[a-z0-9]+)*$/] *)
Definition KEBAB_CASE : regex :=
  let c := RClass (fun u => is_digit u || (97 <=? u) && (u <=? 122))%N in
  let plus r := RSeq r (RStar r) in
  RSeq (plus c) (RStar (RSeq (RClass (N.eqb 45)) (plus c))).

Definition expectedAudiences : list string :=
  ["agency_internal"; "journey_shared"; "party_shared"; "traveler_private"].

(** [for (const [value, path] of ...)] with [value] read from [v] at [keys]. *)
Definition check_booleans (v : jsval) (keys : list string) (path : jstr) : Report () :=
  report_each (fun key : string =>
    value ← read v key;
    report_if (negb (is_bool value)) (at_key path key ++ js " must be boolean")) keys.
Definition check_arrays (v : jsval) (keys : list string) (path : jstr) : Report () :=
  report_each (fun key : string => value ← read v key; validateArray value (at_key path key)) keys.

Definition basis_fields (kind : string) : option (list string) :=
  if String.eqb kind "user_membership" then
    Some ["kind"; "state"; "active"; "authenticated"; "represented_user_match"; "selected_scope"]
  else if String.eqb kind "support_session" then
    Some ["kind"; "state"; "active"; "authenticated"; "selected_scope"; "strong_auth"; "reason_present";
          "operation_allowlist"; "fields"]
  else if String.eqb kind "system_execution" then
    Some ["kind"; "state"; "active"; "authenticated"; "selected_scope"; "operation_allowlist"; "fields"]
  else None.

Section Cases.
Context `{NumPrinter}.

(** The checks of [validateFixtureInput] in its order, for a case called [id]. *)
Definition check_case (testCase id_value : jsval) (id : jstr) : Report () :=
  _ ← validateKeys testCase
        ["id"; "description"; "participant_exists"; "owner"; "scope"; "audience"; "relationship"; "access_basis";
         "explicit_deny"; "resource_policy"; "role"; "grant"; "oauth"; "origin"; "request"; "effects"; "expected"] id;
  _ ← report_if (match id_value with VStr s => negb (regex_test KEBAB_CASE s) | _ => true end)
        "Fixture case ID must be a non-empty kebab-case string";
  description ← read testCase "description";
  _ ← report_if (match description with VStr s => negb (str_truthy s) | _ => true end)
        (id ++ js ".description must be a non-empty string");
  has ← key_in "participant_exists" testCase;
  exists_ ← read testCase "participant_exists";
  report_if (has && negb (is_bool exists_)) (id ++ js ".participant_exists must be boolean").

Definition check_owner (owner : jsval) (id : jstr) : Report () :=
  _ ← validateKeys owner ["type"; "journey_id"; "party_id"; "traveler_id"] (at_key id "owner");
  type ← read owner "type";
  _ ← report_if (negb (includes ["agency"; "workspace"; "journey"; "party"; "traveler"] type))
        (id ++ js ".owner.type is invalid");
  report_each (fun key : string =>
    value ← read owner key; validateNullableString value (at_key (at_key id "owner") key))
    ["journey_id"; "party_id"; "traveler_id"].

Definition check_keys (input expected : jsval) (id : jstr) : Report () :=
  _ ← report_each (fun '(key, permitted) =>
        value ← read input (js key); validateKeys value permitted (at_key id (js key)))
      [("scope", ["workspace_match"; "journey_match"; "resource_active"; "owner_workspace_match";
                  "owner_journey_match"; "party_journey_match"; "traveler_journey_match"]);
       ("resource_policy", ["operations"; "fields"]);
       ("role", ["operations"; "fields"]);
       ("grant", ["state"; "grantee_match"; "resource_match"; "scope_match"; "operations"; "fields";
                  "purpose_required"; "purpose_present"; "purpose_match"; "delegation_valid"]);
       ("oauth", ["applicable"; "operations"; "fields"]);
       ("origin", ["name"; "operations"; "fields"]);
       ("request", ["operation"; "fields"]);
       ("effects", ["confirmation_required"; "sensitive_read"])]%string;
  validateKeys expected ["allowed"; "allowed_fields"; "reason"; "confirmation_required"; "sensitive_read_audit"]
    (at_key id "expected").

(** The loop over [booleanPaths]. *)
Definition check_boolean_paths (input expected : jsval) (id : jstr) : Report () :=
  scope ← read input "scope"; basis ← read input "access_basis"; grant ← read input "grant";
  oauth ← read input "oauth"; effects ← read input "effects";
  _ ← check_booleans scope ["workspace_match"; "journey_match"; "resource_active"; "owner_workspace_match";
        "owner_journey_match"; "party_journey_match"; "traveler_journey_match"] (at_key id "scope");
  _ ← check_booleans basis ["active"; "authenticated"; "selected_scope"] (at_key id "access_basis");
  _ ← check_booleans input ["explicit_deny"] id;
  _ ← check_booleans grant ["grantee_match"; "resource_match"; "scope_match"; "purpose_required"; "purpose_present";
        "purpose_match"; "delegation_valid"] (at_key id "grant");
  _ ← check_booleans oauth ["applicable"] (at_key id "oauth");
  _ ← check_booleans effects ["confirmation_required"; "sensitive_read"] (at_key id "effects");
  check_booleans expected ["allowed"; "confirmation_required"; "sensitive_read_audit"] (at_key id "expected").

(** [v.k1.k2] *)
Definition read2 (v : jsval) (k1 k2 : jstr) : Report jsval := w ← read v k1; read w k2.

Definition nonempty_string (v : jsval) : bool := match v with VStr s => str_truthy s | _ => false end.

Definition check_values (input expected : jsval) (id : jstr) : Report () :=
  audience ← read input "audience";
  _ ← report_if (negb (includes expectedAudiences audience)) (id ++ js ".audience is not accepted");
  relationship ← read input "relationship";
  _ ← report_if (negb (includes ["agency_staff"; "journey_member"; "exact_party_member"; "self_traveler"; "guardian";
         "none"; "shared_traveler_only"; "revoked_exact_party_member"] relationship))
        (id ++ js ".relationship is invalid");
  name ← read2 input "origin" "name";
  _ ← report_if (negb (nonempty_string name)) (id ++ js ".origin.name must be a non-empty string");
  basis_state ← read2 input "access_basis" "state";
  _ ← report_if (negb (includes ["active"; "revoked"] basis_state)) (id ++ js ".access_basis.state is invalid");
  grant_state ← read2 input "grant" "state";
  _ ← report_if (negb (includes ["none"; "active"; "expired"; "revoked"] grant_state))
        (id ++ js ".grant.state is invalid");
  operation ← read2 input "request" "operation";
  _ ← report_if (negb (nonempty_string operation)) (id ++ js ".request.operation must be a non-empty string");
  why ← read expected "reason";
  _ ← report_if (negb (is_string why)) (id ++ js ".expected.reason must be a string");
  fields ← read expected "allowed_fields";
  validateArray fields (id ++ js ".expected.allowed_fields").

(** The fields of the basis.  [kind in basisFields] converts the kind to a
    property key and also finds inherited names, whose values are no lists. *)
Definition basis_keys (kind : jsval) : Report (option (list string)) :=
  let key := to_string kind in
  if str_eqb key "user_membership" then mret (basis_fields "user_membership")
  else if str_eqb key "support_session" then mret (basis_fields "support_session")
  else if str_eqb key "system_execution" then mret (basis_fields "system_execution")
  else if bool_decide (is_Some (inherited key)) then crash else mret None.

Definition check_basis (basis : jsval) (id : jstr) : Report () :=
  let path := at_key id "access_basis" in
  kind ← read basis "kind";
  permitted ← basis_keys kind;
  _ ← (match permitted with
       | None => fail (path ++ js ".kind is invalid")
       | Some permitted => validateKeys basis permitted path end);
  _ ← (if strict_eq kind (VStr "user_membership") then
         represented ← read basis "represented_user_match";
         report_if (negb (is_bool represented)) (path ++ js ".represented_user_match must be boolean")
       else
         _ ← check_arrays basis ["operation_allowlist"] path;
         check_arrays basis ["fields"] path);
  if strict_eq kind (VStr "support_session") then
    strong ← read basis "strong_auth";
    reason ← read basis "reason_present";
    report_if (negb (is_bool strong) || negb (is_bool reason))
      (id ++ js " support session requires strong_auth and reason_present")
  else mret ().

(** The loop at the end, over the lists of operations and fields. *)
Definition check_lists (input : jsval) (id : jstr) : Report () :=
  _ ← report_each (fun key : string =>
        value ← read input key; check_arrays value ["operations"; "fields"] (at_key id key))
      ["resource_policy"; "role"; "grant"; "oauth"; "origin"];
  request ← read input "request";
  check_arrays request ["fields"] (at_key id "request").

Definition validateFixtureInput (input testCase : jsval) : Report () :=
  id_value ← read testCase "id";
  let id := to_string id_value in
  expected ← read testCase "expected";
  _ ← check_case testCase id_value id;
  owner ← read input "owner";
  _ ← check_owner owner id;
  _ ← check_keys input expected id;
  _ ← check_boolean_paths input expected id;
  _ ← check_values input expected id;
  basis ← read input "access_basis";
  _ ← check_basis basis id;
  check_lists input id.
End Cases.

(** ** The input as a record

    [evaluate] reads the fields of the validated object; [policy_input] gives
    them as a record, when each has the type it is read at. *)

Definition bool_of (v : jsval) : option bool := match v with VBool b => Some b | _ => None end.
Definition strings_of (v : jsval) : option (list jstr) :=
  match v with VArr l => mapM as_string l | _ => None end.
Definition nullable_of (v : jsval) : option (option jstr) :=
  match v with VNull => Some None | VStr s => Some (Some s) | _ => None end.

Definition owner_of (v : jsval) : option Owner :=
  t ← as_string (prop v "type"); j ← nullable_of (prop v "journey_id");
  p ← nullable_of (prop v "party_id"); tr ← nullable_of (prop v "traveler_id");
  Some {| owner_type := t; journey_id := j; party_id := p; traveler_id := tr |}.

Definition scope_of (v : jsval) : option Scope :=
  a ← bool_of (prop v "workspace_match"); b ← bool_of (prop v "journey_match");
  c ← bool_of (prop v "resource_active"); d ← bool_of (prop v "owner_workspace_match");
  e ← bool_of (prop v "owner_journey_match"); f ← bool_of (prop v "party_journey_match");
  g ← bool_of (prop v "traveler_journey_match");
  Some {| workspace_match := a; journey_match := b; resource_active := c; owner_workspace_match := d;
          owner_journey_match := e; party_journey_match := f; traveler_journey_match := g |}.

Definition permissions_of (v : jsval) (operations_key : jstr) : option Permissions :=
  o ← strings_of (prop v operations_key); f ← strings_of (prop v "fields");
  Some {| operations := o; fields := f |}.

Definition kind_of (v : jsval) : option BasisKind :=
  let kind := prop v "kind" in
  if strict_eq kind (VStr "user_membership") then
    m ← bool_of (prop v "represented_user_match"); Some (user_membership m)
  else
    p ← permissions_of v "operation_allowlist";
    if strict_eq kind (VStr "support_session") then
      s ← bool_of (prop v "strong_auth"); r ← bool_of (prop v "reason_present"); Some (support_session s r p)
    else if strict_eq kind (VStr "system_execution") then Some (system_execution p) else Some unknown_kind.

Definition basis_of (v : jsval) : option AccessBasis :=
  k ← kind_of v; s ← as_string (prop v "state"); a ← bool_of (prop v "active");
  au ← bool_of (prop v "authenticated"); sel ← bool_of (prop v "selected_scope");
  Some {| kind := k; basis_state := s; active := a; authenticated := au; selected_scope := sel |}.

Definition grant_of (v : jsval) : option Grant :=
  s ← as_string (prop v "state"); a ← bool_of (prop v "grantee_match"); b ← bool_of (prop v "resource_match");
  c ← bool_of (prop v "scope_match"); p ← permissions_of v "operations"; d ← bool_of (prop v "purpose_required");
  e ← bool_of (prop v "purpose_present"); f ← bool_of (prop v "purpose_match"); g ← bool_of (prop v "delegation_valid");
  Some {| grant_state := s; grantee_match := a; resource_match := b; scope_match := c; grant_permissions := p;
          purpose_required := d; purpose_present := e; purpose_match := f; delegation_valid := g |}.

Definition oauth_of (v : jsval) : option OAuth :=
  a ← bool_of (prop v "applicable"); p ← permissions_of v "operations";
  Some {| applicable := a; oauth_permissions := p |}.

Definition policy_request_of (v : jsval) : option PolicyRequest :=
  o ← as_string (prop v "operation"); f ← strings_of (prop v "fields");
  Some {| operation := o; request_fields := f |}.

Definition effects_of (v : jsval) : option PolicyEffects :=
  a ← bool_of (prop v "confirmation_required"); b ← bool_of (prop v "sensitive_read");
  Some {| confirmation_required := a; sensitive_read := b |}.

Definition policy_input (v : jsval) : option PolicyInput :=
  ow ← owner_of (prop v "owner"); sc ← scope_of (prop v "scope"); au ← as_string (prop v "audience");
  rel ← as_string (prop v "relationship"); ba ← basis_of (prop v "access_basis");
  de ← bool_of (prop v "explicit_deny"); pol ← permissions_of (prop v "resource_policy") "operations";
  ro ← permissions_of (prop v "role") "operations"; gr ← grant_of (prop v "grant"); oa ← oauth_of (prop v "oauth");
  orig ← permissions_of (prop v "origin") "operations"; req ← policy_request_of (prop v "request");
  eff ← effects_of (prop v "effects");
  Some {| owner := ow; scope := sc; audience := au; relationship := rel; access_basis := ba; explicit_deny := de;
          resource_policy := pol; role := ro; grant := gr; oauth := oa; origin := orig; policy_request := req;
          effects := eff |}.

(** ** Evaluating the cases *)

Definition reason_text (r : Reason) : jstr :=
  match r with
  | invariant_failed => "invariant_failed"
  | access_basis_inactive => "access_basis_inactive"
  | denied_explicitly => "explicit_deny"
  | no_authorization_path => "no_authorization_path"
  | oauth_scope_reduced => "oauth_scope_reduced"
  | origin_not_allowed => "origin_not_allowed"
  | field_forbidden => "field_forbidden"
  | reason_allowed => "allowed"
  end.

(** The object [decision] builds. *)
Definition decision_value (d : PolicyDecision) : jsval :=
  VObj [(js "allowed", VBool (allowed d));
        (js "allowed_fields", VArr (VStr <$> allowed_fields d));
        (js "reason", VStr (reason_text (reason d)));
        (js "confirmation_required", VBool (needs_confirmation d));
        (js "sensitive_read_audit", VBool (sensitive_read_audit d))].

(** [deepStrictEqual]: objects have the same properties in any order. *)
Fixpoint deep_equal (a b : jsval) : bool :=
  match a, b with
  | VArr l, VArr m =>
      (fix all (l m : list jsval) := match l, m with
         | [], [] => true
         | x :: l, y :: m => deep_equal x y && all l m
         | _, _ => false end) l m
  | VObj fs, VObj gs =>
      (length fs =? length gs)%nat
      && (fix all (fs : list (jstr * jsval)) := match fs with
            | [] => true
            | (k, x) :: fs => match own gs k with Some y => deep_equal x y | None => false end && all fs
            end) fs
  | VArr _, _ | VObj _, _ => false
  | _, _ => object_is a b
  end.

Definition requiredCaseIds : list string :=
  ["organizer-not-traveling-can-read-journey"; "agency-staff-can-read-internal-resource";
   "placeholder-traveler-has-no-access"; "revoked-membership-has-no-access"; "exact-party-relationship-allows";
   "revoked-party-relationship-does-not-authorize"; "shared-traveler-does-not-bridge-parties";
   "guardian-private-read-is-explicit-and-audited"; "bounded-grant-bridges-missing-party-relationship";
   "explicit-deny-overrides-active-grant"; "expired-grant-does-not-authorize";
   "revoked-grant-as-only-path-does-not-authorize"; "grant-without-required-purpose-does-not-authorize";
   "grant-with-mismatched-purpose-does-not-authorize"; "grant-with-invalid-delegation-does-not-authorize";
   "grant-with-wrong-grantee-does-not-authorize"; "grant-with-wrong-resource-does-not-authorize";
   "grant-with-wrong-scope-does-not-authorize"; "resource-policy-can-reject-granted-operation";
   "resource-policy-fields-narrow-granted-write"; "oauth-can-reduce-operation";
   "origin-tool-allowlist-can-reduce-operation"; "read-projects-authorized-field-intersection";
   "origin-fields-narrow-read-projection"; "write-rejects-unauthorized-field";
   "high-risk-write-requires-confirmation"; "validated-support-session-is-explicit-basis";
   "support-session-without-reason-is-invalid"; "allowlisted-system-execution-is-explicit-basis";
   "unauthenticated-system-execution-is-invalid"; "support-session-cannot-borrow-user-role-fields";
   "system-execution-cannot-borrow-user-role-operation"; "revoked-grant-preserves-independent-base-path";
   "invalid-owner-audience-combination-fails"; "wrong-workspace-fails-before-grant";
   "wrong-owner-workspace-fails-before-grant"; "wrong-owner-journey-fails-before-grant";
   "wrong-party-journey-fails-before-role"; "wrong-traveler-journey-fails-before-role"].

Section Fixture.
Context `{NumPrinter}.

(** A case that adds a validation error is not evaluated. *)
Definition run_case (defaults testCase : jsval) : Report () :=
  input ← materializeCase defaults testCase;
  match validateFixtureInput input testCase with
  | Throw e => Throw e
  | Ok (_, []) =>
      match policy_input input with
      | None => crash
      | Some i =>
          let actual := decision_value (evaluate i) in
          let expected := prop testCase "expected" in
          report_if (negb (deep_equal actual expected))
            (to_string (prop testCase "id") ++ js " expected " ++ json_text expected
             ++ js " but evaluated " ++ json_text actual)
      end
  | Ok (_, errors) => Ok ((), errors)
  end.

(** [new Set(ids).size !== ids.length] for ids that are no objects. *)
Fixpoint repeated (ids : list jsval) : bool :=
  match ids with [] => false | x :: ids => existsb (strict_eq x) ids || repeated ids end.

Fixpoint case_ids (cases : list jsval) : Report (list jsval) :=
  match cases with
  | [] => mret []
  | c :: cases => id ← read c "id"; ids ← case_ids cases; mret (id :: ids)
  end.

(** The block over a fixture that was read. *)
Definition check_fixture (fixture : jsval) : Report () :=
  version ← read fixture "fixture_version"; decision ← read fixture "decision";
  _ ← report_if (negb (strict_eq version (VNum (NInt 1))) || negb (strict_eq decision (VStr "ADR-016")))
        "Policy fixture metadata must identify ADR-016 fixture version 1";
  _ ← report_if (negb (deep_equal (prop fixture "audiences") (VArr ((fun a => VStr (js a)) <$> expectedAudiences))))
        "Policy fixture must define exactly the four accepted audiences";
  _ ← report_if (negb (strict_eq (prop fixture "grant_only_mode") (VBool false)))
        "ADR-016 fixture must keep grant-only mode disabled";
  match prop fixture "cases" with
  | VArr cases =>
      ids ← case_ids cases;
      _ ← report_if (repeated ids) "Policy fixture case IDs must be unique";
      _ ← report_each (fun id : string =>
            report_if (negb (existsb (strict_eq (VStr id)) ids)) (js "Policy fixture is missing required case " ++ js id))
          requiredCaseIds;
      report_each (run_case (prop fixture "defaults")) cases
  | _ => crash
  end.
End Fixture.
