(* ===== verification/PolicyFixture.v ===== *)
(** The shared policy cases of the repository, value for value:
    [docs/architecture/decisions/fixtures/adr-016-policy-cases.json]. *)
From S2P Require Export PolicyCases AccessPolicySpec.

Definition policy_defaults : jsval := VObj [
    (js "owner", VObj [
      (js "type", VStr "journey");
      (js "journey_id", VStr "journey-a");
      (js "party_id", VNull);
      (js "traveler_id", VNull)]);
    (js "scope", VObj [
      (js "workspace_match", VBool true);
      (js "journey_match", VBool true);
      (js "resource_active", VBool true);
      (js "owner_workspace_match", VBool true);
      (js "owner_journey_match", VBool true);
      (js "party_journey_match", VBool true);
      (js "traveler_journey_match", VBool true)]);
    (js "audience", VStr "journey_shared");
    (js "relationship", VStr "journey_member");
    (js "access_basis", VObj [
      (js "kind", VStr "user_membership");
      (js "state", VStr "active");
      (js "active", VBool true);
      (js "authenticated", VBool true);
      (js "represented_user_match", VBool true);
      (js "selected_scope", VBool true)]);
    (js "explicit_deny", VBool false);
    (js "resource_policy", VObj [(js "operations", VArr [VStr "read"; VStr "write"]); (js "fields", VArr [VStr "*"])]);
    (js "role", VObj [
      (js "operations", VArr [VStr "read"]);
      (js "fields", VArr [VStr "title"; VStr "meeting_point"])]);
    (js "grant", VObj [
      (js "state", VStr "none");
      (js "grantee_match", VBool true);
      (js "resource_match", VBool true);
      (js "scope_match", VBool true);
      (js "operations", VArr []);
      (js "fields", VArr []);
      (js "purpose_required", VBool false);
      (js "purpose_present", VBool true);
      (js "purpose_match", VBool true);
      (js "delegation_valid", VBool true)]);
    (js "oauth", VObj [
      (js "applicable", VBool false);
      (js "operations", VArr [VStr "*"]);
      (js "fields", VArr [VStr "*"])]);
    (js "origin", VObj [
      (js "name", VStr "web");
      (js "operations", VArr [VStr "read"; VStr "write"]);
      (js "fields", VArr [VStr "*"])]);
    (js "request", VObj [(js "operation", VStr "read"); (js "fields", VArr [VStr "title"])]);
    (js "effects", VObj [(js "confirmation_required", VBool false); (js "sensitive_read", VBool false)])].

Definition case_organizer_not_traveling_can_read_journey : jsval := VObj [
    (js "id", VStr "organizer-not-traveling-can-read-journey");
    (js "description", VStr "An active Journey member with a scoped role can manage/read without being a participant.");
    (js "participant_exists", VBool false);
    (js "expected", VObj [
      (js "allowed", VBool true);
      (js "allowed_fields", VArr [VStr "title"]);
      (js "reason", VStr "allowed");
      (js "confirmation_required", VBool false);
      (js "sensitive_read_audit", VBool false)])].

Definition case_placeholder_traveler_has_no_access : jsval := VObj [
    (js "id", VStr "placeholder-traveler-has-no-access");
    (js "description", VStr "Participation without an account or active access membership grants no application access.");
    (js "participant_exists", VBool true);
    (js "access_basis", VObj [(js "active", VBool false)]);
    (js "expected", VObj [
      (js "allowed", VBool false);
      (js "allowed_fields", VArr []);
      (js "reason", VStr "access_basis_inactive");
      (js "confirmation_required", VBool false);
      (js "sensitive_read_audit", VBool false)])].

Definition case_exact_party_relationship_allows : jsval := VObj [
    (js "id", VStr "exact-party-relationship-allows");
    (js "description", VStr "Only the exact party relationship satisfies party_shared by default.");
    (js "owner", VObj [
      (js "type", VStr "party");
      (js "journey_id", VStr "journey-a");
      (js "party_id", VStr "party-a");
      (js "traveler_id", VNull)]);
    (js "audience", VStr "party_shared");
    (js "relationship", VStr "exact_party_member");
    (js "expected", VObj [
      (js "allowed", VBool true);
      (js "allowed_fields", VArr [VStr "title"]);
      (js "reason", VStr "allowed");
      (js "confirmation_required", VBool false);
      (js "sensitive_read_audit", VBool false)])].

Definition case_shared_traveler_does_not_bridge_parties : jsval := VObj [
    (js "id", VStr "shared-traveler-does-not-bridge-parties");
    (js "description", VStr "A traveller shared with party-a does not authorise a caller from party-b.");
    (js "owner", VObj [
      (js "type", VStr "party");
      (js "journey_id", VStr "journey-a");
      (js "party_id", VStr "party-a");
      (js "traveler_id", VNull)]);
    (js "audience", VStr "party_shared");
    (js "relationship", VStr "shared_traveler_only");
    (js "expected", VObj [
      (js "allowed", VBool false);
      (js "allowed_fields", VArr []);
      (js "reason", VStr "no_authorization_path");
      (js "confirmation_required", VBool false);
      (js "sensitive_read_audit", VBool false)])].

Definition case_guardian_private_read_is_explicit_and_audited : jsval := VObj [
    (js "id", VStr "guardian-private-read-is-explicit-and-audited");
    (js "description", VStr "An explicit guardian relationship plus permission can read the represented traveller's allowed private field.");
    (js "owner", VObj [
      (js "type", VStr "traveler");
      (js "journey_id", VStr "journey-a");
      (js "party_id", VNull);
      (js "traveler_id", VStr "traveler-a")]);
    (js "audience", VStr "traveler_private");
    (js "relationship", VStr "guardian");
    (js "role", VObj [(js "operations", VArr [VStr "read"]); (js "fields", VArr [VStr "assistance_summary"])]);
    (js "request", VObj [(js "operation", VStr "read"); (js "fields", VArr [VStr "assistance_summary"])]);
    (js "effects", VObj [(js "confirmation_required", VBool false); (js "sensitive_read", VBool true)]);
    (js "expected", VObj [
      (js "allowed", VBool true);
      (js "allowed_fields", VArr [VStr "assistance_summary"]);
      (js "reason", VStr "allowed");
      (js "confirmation_required", VBool false);
      (js "sensitive_read_audit", VBool true)])].

Definition case_bounded_grant_bridges_missing_party_relationship : jsval := VObj [
    (js "id", VStr "bounded-grant-bridges-missing-party-relationship");
    (js "description", VStr "Approved staff can receive one bounded operation without becoming a party member.");
    (js "owner", VObj [
      (js "type", VStr "party");
      (js "journey_id", VStr "journey-a");
      (js "party_id", VStr "party-a");
      (js "traveler_id", VNull)]);
    (js "audience", VStr "party_shared");
    (js "relationship", VStr "journey_member");
    (js "role", VObj [(js "operations", VArr [VStr "read"]); (js "fields", VArr [VStr "title"])]);
    (js "grant", VObj [
      (js "state", VStr "active");
      (js "operations", VArr [VStr "read"]);
      (js "fields", VArr [VStr "meeting_point"]);
      (js "purpose_required", VBool true);
      (js "purpose_present", VBool true)]);
    (js "request", VObj [(js "operation", VStr "read"); (js "fields", VArr [VStr "meeting_point"])]);
    (js "expected", VObj [
      (js "allowed", VBool true);
      (js "allowed_fields", VArr [VStr "meeting_point"]);
      (js "reason", VStr "allowed");
      (js "confirmation_required", VBool false);
      (js "sensitive_read_audit", VBool false)])].

Definition case_explicit_deny_overrides_active_grant : jsval := VObj [
    (js "id", VStr "explicit-deny-overrides-active-grant");
    (js "description", VStr "A grant cannot bypass an explicit deny.");
    (js "owner", VObj [
      (js "type", VStr "party");
      (js "journey_id", VStr "journey-a");
      (js "party_id", VStr "party-a");
      (js "traveler_id", VNull)]);
    (js "audience", VStr "party_shared");
    (js "relationship", VStr "journey_member");
    (js "explicit_deny", VBool true);
    (js "grant", VObj [
      (js "state", VStr "active");
      (js "operations", VArr [VStr "read"]);
      (js "fields", VArr [VStr "title"])]);
    (js "expected", VObj [
      (js "allowed", VBool false);
      (js "allowed_fields", VArr []);
      (js "reason", VStr "explicit_deny");
      (js "confirmation_required", VBool false);
      (js "sensitive_read_audit", VBool false)])].

Definition case_expired_grant_does_not_authorize : jsval := VObj [
    (js "id", VStr "expired-grant-does-not-authorize");
    (js "description", VStr "An expired grant is not an authorisation path.");
    (js "owner", VObj [
      (js "type", VStr "party");
      (js "journey_id", VStr "journey-a");
      (js "party_id", VStr "party-a");
      (js "traveler_id", VNull)]);
    (js "audience", VStr "party_shared");
    (js "relationship", VStr "journey_member");
    (js "role", VObj [(js "operations", VArr []); (js "fields", VArr [])]);
    (js "grant", VObj [
      (js "state", VStr "expired");
      (js "operations", VArr [VStr "read"]);
      (js "fields", VArr [VStr "title"])]);
    (js "expected", VObj [
      (js "allowed", VBool false);
      (js "allowed_fields", VArr []);
      (js "reason", VStr "no_authorization_path");
      (js "confirmation_required", VBool false);
      (js "sensitive_read_audit", VBool false)])].

Definition case_grant_without_required_purpose_does_not_authorize : jsval := VObj [
    (js "id", VStr "grant-without-required-purpose-does-not-authorize");
    (js "description", VStr "A grant requiring purpose is invalid when no approved purpose is present.");
    (js "owner", VObj [
      (js "type", VStr "traveler");
      (js "journey_id", VStr "journey-a");
      (js "party_id", VNull);
      (js "traveler_id", VStr "traveler-a")]);
    (js "audience", VStr "traveler_private");
    (js "relationship", VStr "journey_member");
    (js "role", VObj [(js "operations", VArr []); (js "fields", VArr [])]);
    (js "grant", VObj [
      (js "state", VStr "active");
      (js "operations", VArr [VStr "read"]);
      (js "fields", VArr [VStr "assistance_summary"]);
      (js "purpose_required", VBool true);
      (js "purpose_present", VBool false)]);
    (js "request", VObj [(js "operation", VStr "read"); (js "fields", VArr [VStr "assistance_summary"])]);
    (js "expected", VObj [
      (js "allowed", VBool false);
      (js "allowed_fields", VArr []);
      (js "reason", VStr "no_authorization_path");
      (js "confirmation_required", VBool false);
      (js "sensitive_read_audit", VBool false)])].

Definition case_oauth_can_reduce_operation : jsval := VObj [
    (js "id", VStr "oauth-can-reduce-operation");
    (js "description", VStr "An OAuth client cannot use an operation absent from its represented-user grant.");
    (js "oauth", VObj [
      (js "applicable", VBool true);
      (js "operations", VArr []);
      (js "fields", VArr [VStr "*"])]);
    (js "origin", VObj [
      (js "name", VStr "external_mcp");
      (js "operations", VArr [VStr "read"]);
      (js "fields", VArr [VStr "*"])]);
    (js "expected", VObj [
      (js "allowed", VBool false);
      (js "allowed_fields", VArr []);
      (js "reason", VStr "oauth_scope_reduced");
      (js "confirmation_required", VBool false);
      (js "sensitive_read_audit", VBool false)])].

Definition case_origin_tool_allowlist_can_reduce_operation : jsval := VObj [
    (js "id", VStr "origin-tool-allowlist-can-reduce-operation");
    (js "description", VStr "A domain permission is insufficient when the selected origin/tool does not expose the operation.");
    (js "origin", VObj [(js "name", VStr "atlas"); (js "operations", VArr []); (js "fields", VArr [VStr "*"])]);
    (js "expected", VObj [
      (js "allowed", VBool false);
      (js "allowed_fields", VArr []);
      (js "reason", VStr "origin_not_allowed");
      (js "confirmation_required", VBool false);
      (js "sensitive_read_audit", VBool false)])].

Definition case_read_projects_authorized_field_intersection : jsval := VObj [
    (js "id", VStr "read-projects-authorized-field-intersection");
    (js "description", VStr "Reads return only fields in the role, OAuth and origin intersection.");
    (js "role", VObj [
      (js "operations", VArr [VStr "read"]);
      (js "fields", VArr [VStr "title"; VStr "meeting_point"])]);
    (js "oauth", VObj [
      (js "applicable", VBool true);
      (js "operations", VArr [VStr "read"]);
      (js "fields", VArr [VStr "title"])]);
    (js "request", VObj [(js "operation", VStr "read"); (js "fields", VArr [VStr "title"; VStr "meeting_point"])]);
    (js "expected", VObj [
      (js "allowed", VBool true);
      (js "allowed_fields", VArr [VStr "title"]);
      (js "reason", VStr "allowed");
      (js "confirmation_required", VBool false);
      (js "sensitive_read_audit", VBool false)])].

Definition case_write_rejects_unauthorized_field : jsval := VObj [
    (js "id", VStr "write-rejects-unauthorized-field");
    (js "description", VStr "A mutation with one unauthorised field fails atomically instead of partially writing.");
    (js "role", VObj [(js "operations", VArr [VStr "write"]); (js "fields", VArr [VStr "title"])]);
    (js "request", VObj [
      (js "operation", VStr "write");
      (js "fields", VArr [VStr "title"; VStr "supplier_margin"])]);
    (js "expected", VObj [
      (js "allowed", VBool false);
      (js "allowed_fields", VArr []);
      (js "reason", VStr "field_forbidden");
      (js "confirmation_required", VBool false);
      (js "sensitive_read_audit", VBool false)])].

Definition case_validated_support_session_is_explicit_basis : jsval := VObj [
    (js "id", VStr "validated-support-session-is-explicit-basis");
    (js "description", VStr "A valid support session uses its own least-privilege allowlist, not an implicit customer membership.");
    (js "owner", VObj [
      (js "type", VStr "agency");
      (js "journey_id", VNull);
      (js "party_id", VNull);
      (js "traveler_id", VNull)]);
    (js "scope", VObj [(js "journey_match", VBool true)]);
    (js "audience", VStr "agency_internal");
    (js "relationship", VStr "none");
    (js "access_basis", VObj [
      (js "kind", VStr "support_session");
      (js "state", VStr "active");
      (js "active", VBool true);
      (js "authenticated", VBool true);
      (js "selected_scope", VBool true);
      (js "strong_auth", VBool true);
      (js "reason_present", VBool true);
      (js "operation_allowlist", VArr [VStr "read"]);
      (js "fields", VArr [VStr "support_status"])]);
    (js "role", VObj [(js "operations", VArr []); (js "fields", VArr [])]);
    (js "request", VObj [(js "operation", VStr "read"); (js "fields", VArr [VStr "support_status"])]);
    (js "effects", VObj [(js "confirmation_required", VBool false); (js "sensitive_read", VBool true)]);
    (js "expected", VObj [
      (js "allowed", VBool true);
      (js "allowed_fields", VArr [VStr "support_status"]);
      (js "reason", VStr "allowed");
      (js "confirmation_required", VBool false);
      (js "sensitive_read_audit", VBool true)])].

Definition case_support_session_without_reason_is_invalid : jsval := VObj [
    (js "id", VStr "support-session-without-reason-is-invalid");
    (js "description", VStr "Break-glass access without a recorded reason is not a valid access basis.");
    (js "owner", VObj [
      (js "type", VStr "agency");
      (js "journey_id", VNull);
      (js "party_id", VNull);
      (js "traveler_id", VNull)]);
    (js "audience", VStr "agency_internal");
    (js "relationship", VStr "none");
    (js "access_basis", VObj [
      (js "kind", VStr "support_session");
      (js "state", VStr "active");
      (js "active", VBool true);
      (js "authenticated", VBool true);
      (js "selected_scope", VBool true);
      (js "strong_auth", VBool true);
      (js "reason_present", VBool false);
      (js "operation_allowlist", VArr [VStr "read"]);
      (js "fields", VArr [VStr "support_status"])]);
    (js "role", VObj [(js "operations", VArr []); (js "fields", VArr [])]);
    (js "request", VObj [(js "operation", VStr "read"); (js "fields", VArr [VStr "support_status"])]);
    (js "expected", VObj [
      (js "allowed", VBool false);
      (js "allowed_fields", VArr []);
      (js "reason", VStr "access_basis_inactive");
      (js "confirmation_required", VBool false);
      (js "sensitive_read_audit", VBool false)])].

Definition case_allowlisted_system_execution_is_explicit_basis : jsval := VObj [
    (js "id", VStr "allowlisted-system-execution-is-explicit-basis");
    (js "description", VStr "A worker can use only its authenticated, scoped command and field allowlist.");
    (js "owner", VObj [
      (js "type", VStr "agency");
      (js "journey_id", VNull);
      (js "party_id", VNull);
      (js "traveler_id", VNull)]);
    (js "audience", VStr "agency_internal");
    (js "relationship", VStr "none");
    (js "access_basis", VObj [
      (js "kind", VStr "system_execution");
      (js "state", VStr "active");
      (js "active", VBool true);
      (js "authenticated", VBool true);
      (js "selected_scope", VBool true);
      (js "operation_allowlist", VArr [VStr "read"]);
      (js "fields", VArr [VStr "delivery_state"])]);
    (js "role", VObj [(js "operations", VArr []); (js "fields", VArr [])]);
    (js "origin", VObj [
      (js "name", VStr "worker");
      (js "operations", VArr [VStr "read"]);
      (js "fields", VArr [VStr "delivery_state"])]);
    (js "request", VObj [(js "operation", VStr "read"); (js "fields", VArr [VStr "delivery_state"])]);
    (js "expected", VObj [
      (js "allowed", VBool true);
      (js "allowed_fields", VArr [VStr "delivery_state"]);
      (js "reason", VStr "allowed");
      (js "confirmation_required", VBool false);
      (js "sensitive_read_audit", VBool false)])].

Definition case_revoked_grant_preserves_independent_base_path : jsval := VObj [
    (js "id", VStr "revoked-grant-preserves-independent-base-path");
    (js "description", VStr "Revoking one grant does not remove data still authorised by role plus exact audience relationship.");
    (js "grant", VObj [
      (js "state", VStr "revoked");
      (js "operations", VArr [VStr "read"]);
      (js "fields", VArr [VStr "title"])]);
    (js "expected", VObj [
      (js "allowed", VBool true);
      (js "allowed_fields", VArr [VStr "title"]);
      (js "reason", VStr "allowed");
      (js "confirmation_required", VBool false);
      (js "sensitive_read_audit", VBool false)])].

Definition case_agency_staff_can_read_internal_resource : jsval := VObj [
    (js "id", VStr "agency-staff-can-read-internal-resource");
    (js "description", VStr "Active approved staff with a scoped role can use the ordinary agency-internal path.");
    (js "owner", VObj [
      (js "type", VStr "agency");
      (js "journey_id", VNull);
      (js "party_id", VNull);
      (js "traveler_id", VNull)]);
    (js "audience", VStr "agency_internal");
    (js "relationship", VStr "agency_staff");
    (js "expected", VObj [
      (js "allowed", VBool true);
      (js "allowed_fields", VArr [VStr "title"]);
      (js "reason", VStr "allowed");
      (js "confirmation_required", VBool false);
      (js "sensitive_read_audit", VBool false)])].

Definition case_revoked_membership_has_no_access : jsval := VObj [
    (js "id", VStr "revoked-membership-has-no-access");
    (js "description", VStr "A revoked Journey membership is not an active access basis even when role and relationship data remain.");
    (js "access_basis", VObj [(js "state", VStr "revoked")]);
    (js "expected", VObj [
      (js "allowed", VBool false);
      (js "allowed_fields", VArr []);
      (js "reason", VStr "access_basis_inactive");
      (js "confirmation_required", VBool false);
      (js "sensitive_read_audit", VBool false)])].

Definition case_revoked_party_relationship_does_not_authorize : jsval := VObj [
    (js "id", VStr "revoked-party-relationship-does-not-authorize");
    (js "description", VStr "A revoked exact-party relationship does not satisfy the party audience.");
    (js "owner", VObj [
      (js "type", VStr "party");
      (js "journey_id", VStr "journey-a");
      (js "party_id", VStr "party-a");
      (js "traveler_id", VNull)]);
    (js "audience", VStr "party_shared");
    (js "relationship", VStr "revoked_exact_party_member");
    (js "expected", VObj [
      (js "allowed", VBool false);
      (js "allowed_fields", VArr []);
      (js "reason", VStr "no_authorization_path");
      (js "confirmation_required", VBool false);
      (js "sensitive_read_audit", VBool false)])].

Definition case_revoked_grant_as_only_path_does_not_authorize : jsval := VObj [
    (js "id", VStr "revoked-grant-as-only-path-does-not-authorize");
    (js "description", VStr "A revoked grant cannot remain as the only authorisation path.");
    (js "owner", VObj [
      (js "type", VStr "party");
      (js "journey_id", VStr "journey-a");
      (js "party_id", VStr "party-a");
      (js "traveler_id", VNull)]);
    (js "audience", VStr "party_shared");
    (js "relationship", VStr "journey_member");
    (js "role", VObj [(js "operations", VArr []); (js "fields", VArr [])]);
    (js "grant", VObj [
      (js "state", VStr "revoked");
      (js "operations", VArr [VStr "read"]);
      (js "fields", VArr [VStr "title"])]);
    (js "expected", VObj [
      (js "allowed", VBool false);
      (js "allowed_fields", VArr []);
      (js "reason", VStr "no_authorization_path");
      (js "confirmation_required", VBool false);
      (js "sensitive_read_audit", VBool false)])].

Definition case_grant_with_mismatched_purpose_does_not_authorize : jsval := VObj [
    (js "id", VStr "grant-with-mismatched-purpose-does-not-authorize");
    (js "description", VStr "A present purpose must match the bounded purpose approved by the grant.");
    (js "owner", VObj [
      (js "type", VStr "traveler");
      (js "journey_id", VStr "journey-a");
      (js "party_id", VNull);
      (js "traveler_id", VStr "traveler-a")]);
    (js "audience", VStr "traveler_private");
    (js "relationship", VStr "journey_member");
    (js "role", VObj [(js "operations", VArr []); (js "fields", VArr [])]);
    (js "grant", VObj [
      (js "state", VStr "active");
      (js "operations", VArr [VStr "read"]);
      (js "fields", VArr [VStr "assistance_summary"]);
      (js "purpose_required", VBool true);
      (js "purpose_present", VBool true);
      (js "purpose_match", VBool false)]);
    (js "request", VObj [(js "operation", VStr "read"); (js "fields", VArr [VStr "assistance_summary"])]);
    (js "expected", VObj [
      (js "allowed", VBool false);
      (js "allowed_fields", VArr []);
      (js "reason", VStr "no_authorization_path");
      (js "confirmation_required", VBool false);
      (js "sensitive_read_audit", VBool false)])].

Definition case_grant_with_invalid_delegation_does_not_authorize : jsval := VObj [
    (js "id", VStr "grant-with-invalid-delegation-does-not-authorize");
    (js "description", VStr "A grant loses authority when its required delegation provenance is invalid.");
    (js "owner", VObj [
      (js "type", VStr "party");
      (js "journey_id", VStr "journey-a");
      (js "party_id", VStr "party-a");
      (js "traveler_id", VNull)]);
    (js "audience", VStr "party_shared");
    (js "relationship", VStr "journey_member");
    (js "role", VObj [(js "operations", VArr []); (js "fields", VArr [])]);
    (js "grant", VObj [
      (js "state", VStr "active");
      (js "operations", VArr [VStr "read"]);
      (js "fields", VArr [VStr "title"]);
      (js "delegation_valid", VBool false)]);
    (js "expected", VObj [
      (js "allowed", VBool false);
      (js "allowed_fields", VArr []);
      (js "reason", VStr "no_authorization_path");
      (js "confirmation_required", VBool false);
      (js "sensitive_read_audit", VBool false)])].

Definition case_grant_with_wrong_grantee_does_not_authorize : jsval := VObj [
    (js "id", VStr "grant-with-wrong-grantee-does-not-authorize");
    (js "description", VStr "A grant for another represented user cannot authorise the caller.");
    (js "owner", VObj [
      (js "type", VStr "party");
      (js "journey_id", VStr "journey-a");
      (js "party_id", VStr "party-a");
      (js "traveler_id", VNull)]);
    (js "audience", VStr "party_shared");
    (js "relationship", VStr "journey_member");
    (js "role", VObj [(js "operations", VArr []); (js "fields", VArr [])]);
    (js "grant", VObj [
      (js "state", VStr "active");
      (js "grantee_match", VBool false);
      (js "operations", VArr [VStr "read"]);
      (js "fields", VArr [VStr "title"])]);
    (js "expected", VObj [
      (js "allowed", VBool false);
      (js "allowed_fields", VArr []);
      (js "reason", VStr "no_authorization_path");
      (js "confirmation_required", VBool false);
      (js "sensitive_read_audit", VBool false)])].

Definition case_grant_with_wrong_resource_does_not_authorize : jsval := VObj [
    (js "id", VStr "grant-with-wrong-resource-does-not-authorize");
    (js "description", VStr "A grant for another resource cannot authorise the selected resource.");
    (js "owner", VObj [
      (js "type", VStr "party");
      (js "journey_id", VStr "journey-a");
      (js "party_id", VStr "party-a");
      (js "traveler_id", VNull)]);
    (js "audience", VStr "party_shared");
    (js "relationship", VStr "journey_member");
    (js "role", VObj [(js "operations", VArr []); (js "fields", VArr [])]);
    (js "grant", VObj [
      (js "state", VStr "active");
      (js "resource_match", VBool false);
      (js "operations", VArr [VStr "read"]);
      (js "fields", VArr [VStr "title"])]);
    (js "expected", VObj [
      (js "allowed", VBool false);
      (js "allowed_fields", VArr []);
      (js "reason", VStr "no_authorization_path");
      (js "confirmation_required", VBool false);
      (js "sensitive_read_audit", VBool false)])].

Definition case_grant_with_wrong_scope_does_not_authorize : jsval := VObj [
    (js "id", VStr "grant-with-wrong-scope-does-not-authorize");
    (js "description", VStr "A grant cannot cross its server-resolved workspace or Journey scope.");
    (js "owner", VObj [
      (js "type", VStr "party");
      (js "journey_id", VStr "journey-a");
      (js "party_id", VStr "party-a");
      (js "traveler_id", VNull)]);
    (js "audience", VStr "party_shared");
    (js "relationship", VStr "journey_member");
    (js "role", VObj [(js "operations", VArr []); (js "fields", VArr [])]);
    (js "grant", VObj [
      (js "state", VStr "active");
      (js "scope_match", VBool false);
      (js "operations", VArr [VStr "read"]);
      (js "fields", VArr [VStr "title"])]);
    (js "expected", VObj [
      (js "allowed", VBool false);
      (js "allowed_fields", VArr []);
      (js "reason", VStr "no_authorization_path");
      (js "confirmation_required", VBool false);
      (js "sensitive_read_audit", VBool false)])].

Definition case_resource_policy_can_reject_granted_operation : jsval := VObj [
    (js "id", VStr "resource-policy-can-reject-granted-operation");
    (js "description", VStr "A resource-type policy can forbid an operation even when a grant names it.");
    (js "owner", VObj [
      (js "type", VStr "party");
      (js "journey_id", VStr "journey-a");
      (js "party_id", VStr "party-a");
      (js "traveler_id", VNull)]);
    (js "audience", VStr "party_shared");
    (js "relationship", VStr "journey_member");
    (js "resource_policy", VObj [(js "operations", VArr []); (js "fields", VArr [VStr "*"])]);
    (js "role", VObj [(js "operations", VArr []); (js "fields", VArr [])]);
    (js "grant", VObj [
      (js "state", VStr "active");
      (js "operations", VArr [VStr "read"]);
      (js "fields", VArr [VStr "title"])]);
    (js "expected", VObj [
      (js "allowed", VBool false);
      (js "allowed_fields", VArr []);
      (js "reason", VStr "no_authorization_path");
      (js "confirmation_required", VBool false);
      (js "sensitive_read_audit", VBool false)])].

Definition case_resource_policy_fields_narrow_granted_write : jsval := VObj [
    (js "id", VStr "resource-policy-fields-narrow-granted-write");
    (js "description", VStr "A resource-type field ceiling rejects a granted mutation field atomically.");
    (js "owner", VObj [
      (js "type", VStr "party");
      (js "journey_id", VStr "journey-a");
      (js "party_id", VStr "party-a");
      (js "traveler_id", VNull)]);
    (js "audience", VStr "party_shared");
    (js "relationship", VStr "journey_member");
    (js "resource_policy", VObj [(js "operations", VArr [VStr "write"]); (js "fields", VArr [VStr "title"])]);
    (js "role", VObj [(js "operations", VArr []); (js "fields", VArr [])]);
    (js "grant", VObj [
      (js "state", VStr "active");
      (js "operations", VArr [VStr "write"]);
      (js "fields", VArr [VStr "supplier_margin"])]);
    (js "request", VObj [(js "operation", VStr "write"); (js "fields", VArr [VStr "supplier_margin"])]);
    (js "expected", VObj [
      (js "allowed", VBool false);
      (js "allowed_fields", VArr []);
      (js "reason", VStr "field_forbidden");
      (js "confirmation_required", VBool false);
      (js "sensitive_read_audit", VBool false)])].

Definition case_origin_fields_narrow_read_projection : jsval := VObj [
    (js "id", VStr "origin-fields-narrow-read-projection");
    (js "description", VStr "The selected origin can remove a field allowed by role and audience.");
    (js "role", VObj [
      (js "operations", VArr [VStr "read"]);
      (js "fields", VArr [VStr "title"; VStr "meeting_point"])]);
    (js "origin", VObj [
      (js "name", VStr "atlas");
      (js "operations", VArr [VStr "read"]);
      (js "fields", VArr [VStr "title"])]);
    (js "request", VObj [(js "operation", VStr "read"); (js "fields", VArr [VStr "title"; VStr "meeting_point"])]);
    (js "expected", VObj [
      (js "allowed", VBool true);
      (js "allowed_fields", VArr [VStr "title"]);
      (js "reason", VStr "allowed");
      (js "confirmation_required", VBool false);
      (js "sensitive_read_audit", VBool false)])].

Definition case_high_risk_write_requires_confirmation : jsval := VObj [
    (js "id", VStr "high-risk-write-requires-confirmation");
    (js "description", VStr "An otherwise authorised high-risk mutation remains marked for confirmation.");
    (js "role", VObj [(js "operations", VArr [VStr "write"]); (js "fields", VArr [VStr "title"])]);
    (js "request", VObj [(js "operation", VStr "write"); (js "fields", VArr [VStr "title"])]);
    (js "effects", VObj [(js "confirmation_required", VBool true); (js "sensitive_read", VBool false)]);
    (js "expected", VObj [
      (js "allowed", VBool true);
      (js "allowed_fields", VArr [VStr "title"]);
      (js "reason", VStr "allowed");
      (js "confirmation_required", VBool true);
      (js "sensitive_read_audit", VBool false)])].

Definition case_unauthenticated_system_execution_is_invalid : jsval := VObj [
    (js "id", VStr "unauthenticated-system-execution-is-invalid");
    (js "description", VStr "An unauthenticated worker cannot use a system allowlist.");
    (js "owner", VObj [
      (js "type", VStr "agency");
      (js "journey_id", VNull);
      (js "party_id", VNull);
      (js "traveler_id", VNull)]);
    (js "audience", VStr "agency_internal");
    (js "relationship", VStr "none");
    (js "access_basis", VObj [
      (js "kind", VStr "system_execution");
      (js "state", VStr "active");
      (js "active", VBool true);
      (js "authenticated", VBool false);
      (js "selected_scope", VBool true);
      (js "operation_allowlist", VArr [VStr "read"]);
      (js "fields", VArr [VStr "delivery_state"])]);
    (js "role", VObj [(js "operations", VArr []); (js "fields", VArr [])]);
    (js "origin", VObj [
      (js "name", VStr "worker");
      (js "operations", VArr [VStr "read"]);
      (js "fields", VArr [VStr "delivery_state"])]);
    (js "request", VObj [(js "operation", VStr "read"); (js "fields", VArr [VStr "delivery_state"])]);
    (js "expected", VObj [
      (js "allowed", VBool false);
      (js "allowed_fields", VArr []);
      (js "reason", VStr "access_basis_inactive");
      (js "confirmation_required", VBool false);
      (js "sensitive_read_audit", VBool false)])].

Definition case_invalid_owner_audience_combination_fails : jsval := VObj [
    (js "id", VStr "invalid-owner-audience-combination-fails");
    (js "description", VStr "A traveller-owned record cannot be classified as party-shared.");
    (js "owner", VObj [
      (js "type", VStr "traveler");
      (js "journey_id", VStr "journey-a");
      (js "party_id", VNull);
      (js "traveler_id", VStr "traveler-a")]);
    (js "audience", VStr "party_shared");
    (js "relationship", VStr "exact_party_member");
    (js "expected", VObj [
      (js "allowed", VBool false);
      (js "allowed_fields", VArr []);
      (js "reason", VStr "invariant_failed");
      (js "confirmation_required", VBool false);
      (js "sensitive_read_audit", VBool false)])].

Definition case_wrong_owner_journey_fails_before_grant : jsval := VObj [
    (js "id", VStr "wrong-owner-journey-fails-before-grant");
    (js "description", VStr "A party or traveller discriminator from another Journey fails before role or grant evaluation.");
    (js "scope", VObj [(js "owner_journey_match", VBool false)]);
    (js "grant", VObj [
      (js "state", VStr "active");
      (js "operations", VArr [VStr "read"]);
      (js "fields", VArr [VStr "title"])]);
    (js "expected", VObj [
      (js "allowed", VBool false);
      (js "allowed_fields", VArr []);
      (js "reason", VStr "invariant_failed");
      (js "confirmation_required", VBool false);
      (js "sensitive_read_audit", VBool false)])].

Definition case_support_session_cannot_borrow_user_role_fields : jsval := VObj [
    (js "id", VStr "support-session-cannot-borrow-user-role-fields");
    (js "description", VStr "A support session cannot borrow ordinary staff-role fields outside its support allowlist.");
    (js "owner", VObj [
      (js "type", VStr "agency");
      (js "journey_id", VNull);
      (js "party_id", VNull);
      (js "traveler_id", VNull)]);
    (js "audience", VStr "agency_internal");
    (js "relationship", VStr "agency_staff");
    (js "access_basis", VObj [
      (js "kind", VStr "support_session");
      (js "state", VStr "active");
      (js "active", VBool true);
      (js "authenticated", VBool true);
      (js "selected_scope", VBool true);
      (js "strong_auth", VBool true);
      (js "reason_present", VBool true);
      (js "operation_allowlist", VArr [VStr "read"]);
      (js "fields", VArr [VStr "support_status"])]);
    (js "role", VObj [(js "operations", VArr [VStr "read"]); (js "fields", VArr [VStr "title"])]);
    (js "request", VObj [(js "operation", VStr "read"); (js "fields", VArr [VStr "title"])]);
    (js "expected", VObj [
      (js "allowed", VBool false);
      (js "allowed_fields", VArr []);
      (js "reason", VStr "field_forbidden");
      (js "confirmation_required", VBool false);
      (js "sensitive_read_audit", VBool false)])].

Definition case_system_execution_cannot_borrow_user_role_operation : jsval := VObj [
    (js "id", VStr "system-execution-cannot-borrow-user-role-operation");
    (js "description", VStr "A system execution cannot borrow an ordinary user-role operation absent from its command allowlist.");
    (js "owner", VObj [
      (js "type", VStr "agency");
      (js "journey_id", VNull);
      (js "party_id", VNull);
      (js "traveler_id", VNull)]);
    (js "audience", VStr "agency_internal");
    (js "relationship", VStr "agency_staff");
    (js "access_basis", VObj [
      (js "kind", VStr "system_execution");
      (js "state", VStr "active");
      (js "active", VBool true);
      (js "authenticated", VBool true);
      (js "selected_scope", VBool true);
      (js "operation_allowlist", VArr []);
      (js "fields", VArr [VStr "title"])]);
    (js "role", VObj [(js "operations", VArr [VStr "read"]); (js "fields", VArr [VStr "title"])]);
    (js "origin", VObj [
      (js "name", VStr "worker");
      (js "operations", VArr [VStr "read"]);
      (js "fields", VArr [VStr "title"])]);
    (js "expected", VObj [
      (js "allowed", VBool false);
      (js "allowed_fields", VArr []);
      (js "reason", VStr "no_authorization_path");
      (js "confirmation_required", VBool false);
      (js "sensitive_read_audit", VBool false)])].

Definition case_wrong_party_journey_fails_before_role : jsval := VObj [
    (js "id", VStr "wrong-party-journey-fails-before-role");
    (js "description", VStr "A party discriminator from another Journey fails before role evaluation.");
    (js "owner", VObj [
      (js "type", VStr "party");
      (js "journey_id", VStr "journey-a");
      (js "party_id", VStr "party-a");
      (js "traveler_id", VNull)]);
    (js "scope", VObj [(js "party_journey_match", VBool false)]);
    (js "audience", VStr "party_shared");
    (js "relationship", VStr "exact_party_member");
    (js "expected", VObj [
      (js "allowed", VBool false);
      (js "allowed_fields", VArr []);
      (js "reason", VStr "invariant_failed");
      (js "confirmation_required", VBool false);
      (js "sensitive_read_audit", VBool false)])].

Definition case_wrong_traveler_journey_fails_before_role : jsval := VObj [
    (js "id", VStr "wrong-traveler-journey-fails-before-role");
    (js "description", VStr "A traveller discriminator from another Journey fails before guardian or self evaluation.");
    (js "owner", VObj [
      (js "type", VStr "traveler");
      (js "journey_id", VStr "journey-a");
      (js "party_id", VNull);
      (js "traveler_id", VStr "traveler-a")]);
    (js "scope", VObj [(js "traveler_journey_match", VBool false)]);
    (js "audience", VStr "traveler_private");
    (js "relationship", VStr "guardian");
    (js "expected", VObj [
      (js "allowed", VBool false);
      (js "allowed_fields", VArr []);
      (js "reason", VStr "invariant_failed");
      (js "confirmation_required", VBool false);
      (js "sensitive_read_audit", VBool false)])].

Definition case_wrong_owner_workspace_fails_before_grant : jsval := VObj [
    (js "id", VStr "wrong-owner-workspace-fails-before-grant");
    (js "description", VStr "A resource owner from another workspace fails before role or grant evaluation.");
    (js "scope", VObj [(js "owner_workspace_match", VBool false)]);
    (js "grant", VObj [
      (js "state", VStr "active");
      (js "operations", VArr [VStr "read"]);
      (js "fields", VArr [VStr "title"])]);
    (js "expected", VObj [
      (js "allowed", VBool false);
      (js "allowed_fields", VArr []);
      (js "reason", VStr "invariant_failed");
      (js "confirmation_required", VBool false);
      (js "sensitive_read_audit", VBool false)])].

Definition case_wrong_workspace_fails_before_grant : jsval := VObj [
    (js "id", VStr "wrong-workspace-fails-before-grant");
    (js "description", VStr "No role or grant can cross the server-resolved workspace boundary.");
    (js "scope", VObj [(js "workspace_match", VBool false)]);
    (js "grant", VObj [
      (js "state", VStr "active");
      (js "operations", VArr [VStr "read"]);
      (js "fields", VArr [VStr "title"])]);
    (js "expected", VObj [
      (js "allowed", VBool false);
      (js "allowed_fields", VArr []);
      (js "reason", VStr "invariant_failed");
      (js "confirmation_required", VBool false);
      (js "sensitive_read_audit", VBool false)])].

Definition policy_cases : list jsval := [
  case_organizer_not_traveling_can_read_journey;
  case_placeholder_traveler_has_no_access;
  case_exact_party_relationship_allows;
  case_shared_traveler_does_not_bridge_parties;
  case_guardian_private_read_is_explicit_and_audited;
  case_bounded_grant_bridges_missing_party_relationship;
  case_explicit_deny_overrides_active_grant;
  case_expired_grant_does_not_authorize;
  case_grant_without_required_purpose_does_not_authorize;
  case_oauth_can_reduce_operation;
  case_origin_tool_allowlist_can_reduce_operation;
  case_read_projects_authorized_field_intersection;
  case_write_rejects_unauthorized_field;
  case_validated_support_session_is_explicit_basis;
  case_support_session_without_reason_is_invalid;
  case_allowlisted_system_execution_is_explicit_basis;
  case_revoked_grant_preserves_independent_base_path;
  case_agency_staff_can_read_internal_resource;
  case_revoked_membership_has_no_access;
  case_revoked_party_relationship_does_not_authorize;
  case_revoked_grant_as_only_path_does_not_authorize;
  case_grant_with_mismatched_purpose_does_not_authorize;
  case_grant_with_invalid_delegation_does_not_authorize;
  case_grant_with_wrong_grantee_does_not_authorize;
  case_grant_with_wrong_resource_does_not_authorize;
  case_grant_with_wrong_scope_does_not_authorize;
  case_resource_policy_can_reject_granted_operation;
  case_resource_policy_fields_narrow_granted_write;
  case_origin_fields_narrow_read_projection;
  case_high_risk_write_requires_confirmation;
  case_unauthenticated_system_execution_is_invalid;
  case_invalid_owner_audience_combination_fails;
  case_wrong_owner_journey_fails_before_grant;
  case_support_session_cannot_borrow_user_role_fields;
  case_system_execution_cannot_borrow_user_role_operation;
  case_wrong_party_journey_fails_before_role;
  case_wrong_traveler_journey_fails_before_role;
  case_wrong_owner_workspace_fails_before_grant;
  case_wrong_workspace_fails_before_grant].

Definition policy_fixture : jsval := VObj [
  (js "fixture_version", VNum (NInt 1));
  (js "decision", VStr "ADR-016");
  (js "description", VStr "Synthetic, privacy-neutral design conformance cases. Runtime policy and adapters must prove equivalent outcomes independently.");
  (js "audiences", VArr [VStr "agency_internal"; VStr "journey_shared"; VStr "party_shared"; VStr "traveler_private"]);
  (js "grant_only_mode", VBool false);
  (js "defaults", policy_defaults);
  (js "cases", VArr policy_cases)].
