(* ===== verification/PolicyCasesSpec.v ===== *)
(** What the check of the shared policy cases shows when it reports nothing:
    every validated input has the types [evaluate] reads, and every case
    evaluates to what it expects. *)
From S2P Require Export PolicyFixture.

(** ** A call that reports nothing *)

Definition clean {A} (m : Report A) (a : A) : Prop := m = Ok (a, []).

Lemma clean_bind {A B} (m : Report A) (f : A -> Report B) b :
  clean (m ≫= f) b <-> exists a, clean m a /\ clean (f a) b.
Proof.
  unfold clean, mbind, report_bind. split.
  - destruct m as [[a e]|]; [|done]. destruct (f a) as [[b' e']|] eqn:E; [|done].
    intros [= -> [-> ->]%app_nil]. by exists a.
  - by intros (a & -> & ->).
Qed.

Lemma clean_ret {A} (a b : A) : clean (mret a) b <-> a = b.
Proof. unfold clean, mret, report_ret. split; [by intros [= ->]|by intros ->]. Qed.

Lemma clean_report_if b message u : clean (report_if b message) u <-> b = false.
Proof. destruct u. unfold clean, report_if, fail. by destruct b. Qed.

Lemma clean_read v k x : clean (read v k) x -> x = prop v k.
Proof. unfold clean, read. destruct v; (done || by intros [= <-]). Qed.

Lemma clean_each {A} (f : A -> Report ()) l u :
  clean (report_each f l) u <-> forall x, x ∈ l -> clean (f x) ().
Proof.
  destruct u. induction l as [|y l IH]; cbn [report_each].
  - rewrite clean_ret. split; [by intros _ ? ?%elem_of_nil|done].
  - rewrite clean_bind. setoid_rewrite elem_of_cons. split.
    + intros ([] & Hy & Hl). pose proof (proj1 IH Hl). naive_solver.
    + intros Hall. exists (). split; [apply Hall; by left|apply (proj2 IH); auto].
Qed.

(** Take a clean call apart, replacing what it read. *)
Ltac inv_clean :=
  repeat match goal with
  | H : clean (mbind _ _) _ |- _ =>
      let a := fresh "r" in let Ha := fresh "Hr" in
      apply clean_bind in H; destruct H as (a & Ha & H)
  | H : clean (mret _) _ |- _ => apply clean_ret in H; try subst
  | H : clean (report_if _ _) _ |- _ => apply clean_report_if in H
  | H : clean (read _ _) _ |- _ => apply clean_read in H; try subst
  | H : clean (read2 _ _ _) _ |- _ => unfold read2 in H
  end.

(** Membership of a literal in a literal list. *)
Ltac in_list := solve [repeat first [apply list_elem_of_here | apply list_elem_of_further]].

Lemma clean_booleans v keys path u :
  clean (check_booleans v keys path) u -> forall key, key ∈ keys -> exists b, prop v (js key) = VBool b.
Proof.
  intros H key Hk. unfold check_booleans in H. rewrite clean_each in H. specialize (H key Hk). cbn in H.
  inv_clean. destruct (prop v (js key)) as [| |b| | | | |]; try done. by exists b.
Qed.

Definition all_strings (v : jsval) : Prop := exists l, strings_of v = Some l.

Lemma clean_array v path u : clean (validateArray v path) u -> all_strings v.
Proof.
  unfold validateArray, all_strings, strings_of. intros H%clean_report_if. destruct v as [| | | | |l| |]; try done.
  rewrite existsb_false in H. induction l as [|x l IH]; [by exists []|].
  destruct IH as [l' Hl]; [intros y Hy; apply H; by apply list_elem_of_further|].
  specialize (H x (list_elem_of_here _ _)). destruct x as [| | | |s| | |]; try done.
  exists (s :: l'). cbn. cbn in Hl. by rewrite Hl.
Qed.

Lemma clean_arrays v keys path u :
  clean (check_arrays v keys path) u -> forall key, key ∈ keys -> all_strings (prop v (js key)).
Proof.
  intros H key Hk. unfold check_arrays in H. rewrite clean_each in H. specialize (H key Hk). cbn in H.
  inv_clean. by eapply clean_array.
Qed.

Lemma includes_string names v : includes names v = true -> exists s, v = VStr s.
Proof. destruct v; try done. eauto. Qed.

Lemma permissions_typed v key :
  all_strings (prop v key) -> all_strings (prop v "fields") -> exists p, permissions_of v key = Some p.
Proof. intros [l Hl] [m Hm]. unfold permissions_of. rewrite Hl, Hm. eauto. Qed.

(** ** Validated inputs *)

Section Typed.
Context `{NumPrinter}.

Lemma owner_typed v id u : clean (check_owner v id) u -> exists o, owner_of v = Some o.
Proof.
  intros H0. unfold check_owner in H0. inv_clean. rewrite negb_false_iff in Hr1.
  apply includes_string in Hr1 as [t Ht]. rewrite clean_each in H0.
  assert (forall key : string, key ∈ ["journey_id"; "party_id"; "traveler_id"]%string ->
    exists o, nullable_of (prop v (js key)) = Some o) as Hn.
  { intros key Hk. specialize (H0 key Hk). cbn in H0. inv_clean. unfold validateNullableString in H0.
    inv_clean. destruct (prop v (js key)); try done; cbn; eauto. }
  destruct (Hn "journey_id"%string) as [j Hj]; [in_list|]. destruct (Hn "party_id"%string) as [p Hp]; [in_list|].
  destruct (Hn "traveler_id"%string) as [tr Htr]; [in_list|].
  unfold owner_of. rewrite Ht. cbn. rewrite Hj. cbn. rewrite Hp. cbn. rewrite Htr. eauto.
Qed.

(** Read the boolean at [k], which [Hb] says is one. *)
Ltac take_bool Hb k :=
  let b := fresh "b" in let E := fresh "E" in
  destruct (Hb k%string) as [b E]; [in_list|]; rewrite E; clear E; cbn [bool_of mbind option_bind].
Ltac take_typed Hp :=
  let x := fresh "x" in let E := fresh "E" in
  destruct Hp as [x E]; rewrite E; clear E; cbn [as_string mbind option_bind].

Abbreviation booleans v keys := (forall key : string, key ∈ (keys : list string) -> exists b, prop v (js key) = VBool b).
Abbreviation permissions_at v key := (exists p, permissions_of v key = Some p).

Lemma scope_typed v :
  booleans v ["workspace_match"; "journey_match"; "resource_active"; "owner_workspace_match";
        "owner_journey_match"; "party_journey_match"; "traveler_journey_match"]%string ->
  exists s, scope_of v = Some s.
Proof.
  intros Hb. unfold scope_of. take_bool Hb "workspace_match". take_bool Hb "journey_match".
  take_bool Hb "resource_active". take_bool Hb "owner_workspace_match". take_bool Hb "owner_journey_match".
  take_bool Hb "party_journey_match". take_bool Hb "traveler_journey_match". eauto.
Qed.

Lemma grant_typed v :
  booleans v ["grantee_match"; "resource_match"; "scope_match"; "purpose_required"; "purpose_present";
        "purpose_match"; "delegation_valid"]%string ->
  (exists s, prop v "state" = VStr s) -> permissions_at v "operations" -> exists g, grant_of v = Some g.
Proof.
  intros Hb Hs Hp. unfold grant_of. take_typed Hs. take_bool Hb "grantee_match". take_bool Hb "resource_match".
  take_bool Hb "scope_match". take_typed Hp. take_bool Hb "purpose_required". take_bool Hb "purpose_present".
  take_bool Hb "purpose_match". take_bool Hb "delegation_valid". eauto.
Qed.

Lemma oauth_typed v :
  booleans v ["applicable"]%string -> permissions_at v "operations" -> exists o, oauth_of v = Some o.
Proof. intros Hb Hp. unfold oauth_of. take_bool Hb "applicable". take_typed Hp. eauto. Qed.

Lemma effects_typed v :
  booleans v ["confirmation_required"; "sensitive_read"]%string -> exists e, effects_of v = Some e.
Proof.
  intros Hb. unfold effects_of. take_bool Hb "confirmation_required". take_bool Hb "sensitive_read". eauto.
Qed.

Lemma request_typed v :
  (exists s, prop v "operation" = VStr s) -> all_strings (prop v "fields") -> exists r, policy_request_of v = Some r.
Proof. intros Hs Hf. unfold policy_request_of. take_typed Hs. take_typed Hf. eauto. Qed.

Lemma kind_typed v id u : clean (check_basis v id) u -> exists k, kind_of v = Some k.
Proof.
  unfold check_basis, kind_of. intros H0. apply clean_bind in H0 as (kind & ->%clean_read & H0).
  apply clean_bind in H0 as (permitted & _ & H0). apply clean_bind in H0 as ([] & _ & H0).
  apply clean_bind in H0 as ([] & Hu & H0).
  destruct (strict_eq (prop v "kind") (VStr "user_membership")) eqn:Eu.
  - inv_clean. destruct (prop v "represented_user_match"); try done. cbn. eauto.
  - inv_clean. destruct (permissions_typed v "operation_allowlist") as [p Hp].
    { eapply (clean_arrays v ["operation_allowlist"%string]); [done|in_list]. }
    { eapply (clean_arrays v ["fields"%string]); [done|in_list]. }
    rewrite Hp. cbn [mbind option_bind].
    destruct (strict_eq (prop v "kind") (VStr "support_session")) eqn:Es.
    + inv_clean. rewrite orb_false_iff, !negb_false_iff in H0. destruct H0 as [H1 H2].
      destruct (prop v "strong_auth"), (prop v "reason_present"); try done. cbn. eauto.
    + destruct (strict_eq (prop v "kind") (VStr "system_execution")); eauto.
Qed.

Lemma basis_typed v id u :
  clean (check_basis v id) u -> booleans v ["active"; "authenticated"; "selected_scope"]%string ->
  (exists s, prop v "state" = VStr s) -> exists b, basis_of v = Some b.
Proof.
  intros Hk%kind_typed Hb Hs. unfold basis_of. take_typed Hk. take_typed Hs. take_bool Hb "active".
  take_bool Hb "authenticated". take_bool Hb "selected_scope". eauto.
Qed.

Lemma lists_typed input id u :
  clean (check_lists input id) u ->
  (forall key : string, key ∈ ["resource_policy"; "role"; "grant"; "oauth"; "origin"]%string ->
     permissions_at (prop input (js key)) "operations") /\
  all_strings (prop (prop input "request") "fields").
Proof.
  unfold check_lists. intros H0. apply clean_bind in H0 as ([] & Hl & H0). inv_clean. split.
  - intros key Hk. rewrite clean_each in Hl. specialize (Hl key Hk).
    apply clean_bind in Hl as (value & ->%clean_read & Hl).
    pose proof (clean_arrays _ _ _ _ Hl) as Ha.
    apply permissions_typed; [apply (Ha "operations"%string)|apply (Ha "fields"%string)]; in_list.
  - apply (clean_arrays _ _ _ _ H0 "fields"%string). in_list.
Qed.

(** The strings [check_values] leaves, and the request's operation. *)
Lemma values_typed input expected id u :
  clean (check_values input expected id) u ->
  (exists s, prop input "audience" = VStr s) /\ (exists s, prop input "relationship" = VStr s) /\
  (exists s, prop (prop input "access_basis") "state" = VStr s) /\
  (exists s, prop (prop input "grant") "state" = VStr s) /\
  (exists s, prop (prop input "request") "operation" = VStr s).
Proof.
  unfold check_values. intros H0. inv_clean.
  repeat match goal with
  | E : negb _ = false |- _ => rewrite negb_false_iff in E
  | E : includes _ _ = true |- _ => apply includes_string in E as [? E]
  end.
  split_and!; try (by eexists).
  destruct (prop (prop input "request") "operation"); try done. eauto.
Qed.

Lemma validated_typed input testCase :
  clean (validateFixtureInput input testCase) () -> exists i, policy_input input = Some i.
Proof.
  unfold validateFixtureInput. intros H0. inv_clean.
  rename H0 into Hlists. apply lists_typed in Hlists as [Hperm Hreq].
  repeat match goal with
  | E : clean (check_values _ _ _) _ |- _ => apply values_typed in E as (Hau & Hrel & Hst & Hgst & Hop)
  | E : clean (check_owner _ _) _ |- _ => apply owner_typed in E
  | E : clean (check_boolean_paths _ _ _) _ |- _ => unfold check_boolean_paths in E; inv_clean
  | E : clean (check_booleans _ _ _) _ |- _ => pose proof (clean_booleans _ _ _ _ E); clear E
  end.
  assert (exists b, basis_of (prop input "access_basis") = Some b) as Hbasis by (by eapply basis_typed).
  assert (exists s, scope_of (prop input "scope") = Some s) as Hscope by (by apply scope_typed).
  assert (exists g, grant_of (prop input "grant") = Some g) as Hgrant.
  { apply grant_typed; [done..|apply (Hperm "grant"%string); in_list]. }
  assert (exists o, oauth_of (prop input "oauth") = Some o) as Hoauth.
  { apply oauth_typed; [done|apply (Hperm "oauth"%string); in_list]. }
  assert (exists e, effects_of (prop input "effects") = Some e) as Heff by (by apply effects_typed).
  assert (exists r, policy_request_of (prop input "request") = Some r) as Hrequest by (by apply request_typed).
  assert (booleans input ["explicit_deny"%string]) as Hdeny by done.
  pose proof (Hperm "resource_policy"%string ltac:(in_list)) as Hpol.
  pose proof (Hperm "role"%string ltac:(in_list)) as Hrole.
  pose proof (Hperm "origin"%string ltac:(in_list)) as Horigin.
  unfold policy_input. destruct Hr3 as [o Ho]. rewrite Ho. cbn [mbind option_bind].
  take_typed Hscope. take_typed Hau. take_typed Hrel. take_typed Hbasis. take_bool Hdeny "explicit_deny".
  take_typed Hpol. take_typed Hrole. take_typed Hgrant. take_typed Hoauth. take_typed Horigin.
  take_typed Hrequest. take_typed Heff. eauto.
Qed.

(** an input that validation lets pass has the shape the evaluation reads:
    no policy decision is taken on a value of another type. *)
Theorem validated_input_typed input testCase :
  validateFixtureInput input testCase = Ok ((), []) -> exists i, policy_input input = Some i.
Proof. apply validated_typed. Qed.

(** ** The cases of the repository *)

(** The case is merged without error and evaluates to what it expects. *)
Definition case_conforms (defaults c : jsval) : Prop :=
  exists input i, materializeCase defaults c = Ok (input, []) /\ policy_input input = Some i /\
    deep_equal (decision_value (evaluate i)) (prop c "expected") = true.

Lemma run_case_conforms defaults c u : clean (run_case defaults c) u -> case_conforms defaults c.
Proof.
  unfold run_case, case_conforms. intros H0. apply clean_bind in H0 as (input & Hm & H0).
  destruct (validateFixtureInput input c) as [[[] [|e l]]|] eqn:Ev; try done.
  destruct (policy_input input) as [i|] eqn:Ei; [|done]. apply clean_report_if, negb_false_iff in H0. eauto.
Qed.

Lemma check_fixture_conforms fixture u :
  clean (check_fixture fixture) u ->
  exists cases, prop fixture "cases" = VArr cases /\ Forall (case_conforms (prop fixture "defaults")) cases.
Proof.
  unfold check_fixture. intros H0. do 5 apply clean_bind in H0 as (? & _ & H0).
  destruct (prop fixture "cases") as [| | | | |cases| |]; try done. exists cases. split; [done|].
  do 3 apply clean_bind in H0 as (? & _ & H0). rewrite clean_each in H0. apply Forall_forall.
  intros c Hc. by eapply run_case_conforms, H0.
Qed.

(** the check of the shared policy cases passes on the cases of the
    repository: each of them is well formed, evaluates, and gives the decision
    written down with it. *)
Theorem policy_cases_conform :
  check_fixture policy_fixture = Ok ((), []) /\ Forall (case_conforms policy_defaults) policy_cases.
Proof.
  assert (check_fixture policy_fixture = Ok ((), [])) as H0 by (vm_compute; reflexivity).
  split; [done|]. apply check_fixture_conforms in H0 as (cases & Hc & Hall).
  assert (cases = policy_cases) as -> by (by injection Hc). exact Hall.
Qed.
End Typed.

Module PolicyWitnesses.
#[local] Instance no_numbers : NumPrinter := fun _ => [].

Definition everything : Permissions := {| operations := [js "*"]; fields := [js "*"] |}.
Definition reading (l : list jstr) : Permissions := {| operations := [js "read"]; fields := l |}.
Definition no_grant : Grant :=
  {| grant_state := "none"; grantee_match := true; resource_match := true; scope_match := true;
     grant_permissions := {| operations := []; fields := [] |}; purpose_required := false;
     purpose_present := true; purpose_match := true; delegation_valid := true |}.

(** A request for two fields of a Journey, over an origin that opens [open]. *)
Definition reader (k : BasisKind) (open : Permissions) : PolicyInput :=
  {| owner := {| owner_type := "journey"; journey_id := Some (js "journey-a"); party_id := None; traveler_id := None |};
     scope := {| workspace_match := true; journey_match := true; resource_active := true;
                 owner_workspace_match := true; owner_journey_match := true; party_journey_match := true;
                 traveler_journey_match := true |};
     audience := "journey_shared"; relationship := "journey_member";
     access_basis := {| kind := k; basis_state := "active"; active := true; authenticated := true;
                        selected_scope := true |};
     explicit_deny := false; resource_policy := everything; role := reading [js "title"; js "meeting_point"];
     grant := no_grant; oauth := {| applicable := false; oauth_permissions := everything |}; origin := open;
     policy_request := {| operation := "read"; request_fields := [js "title"; js "meeting_point"] |};
     effects := {| confirmation_required := false; sensitive_read := true |} |}.

Lemma origin_narrower k open : narrower_permissions open everything -> narrower (reader k open) (reader k everything).
Proof. intros H. by split; try done; destruct k; constructor. Qed.

Lemma narrowing_never_widens_witness :
  allowed_fields (evaluate (reader (user_membership true) (reading [js "title"]))) = [js "title"] /\
  js "title" ∈ allowed_fields (evaluate (reader (user_membership true) everything)).
Proof.
  split; [reflexivity|].
  apply (narrowing_never_widens (reader (user_membership true) (reading [js "title"]))
           (reader (user_membership true) everything)).
  - apply origin_narrower. split; intros x _; left; apply list_elem_of_here.
  - reflexivity.
  - apply list_elem_of_here.
Defined.

Lemma privileged_basis_isolated_witness :
  let session := reader (support_session true true (reading [js "support_status"])) everything in
  evaluate (with_user_authority session "agency_staff" everything no_grant) = evaluate session /\
  reason (evaluate session) = field_forbidden.
Proof. split; [apply privileged_basis_isolated; reflexivity|reflexivity]. Defined.

Lemma validated_input_typed_witness :
  exists i, policy_input (deepMerge policy_defaults case_shared_traveler_does_not_bridge_parties) = Some i.
Proof.
  apply (validated_input_typed _ case_shared_traveler_does_not_bridge_parties). vm_compute. reflexivity.
Defined.
End PolicyWitnesses.
