(* ===== verification/ClientGenerator.v ===== *)
(** The generator of the API client: [scripts/generate-api-client.mjs].  It
    reads the OpenAPI document and the runtime fixtures and writes the tables
    of [GeneratedClient]; anything it does not understand ends the run. *)
From S2P Require Export SupportCompatibility.

Definition HTTP_METHODS : list string := ["delete"; "get"; "patch"; "post"; "put"].
Definition PATH_ITEM_ANNOTATIONS : list string := ["description"; "parameters"; "summary"].
Definition OPERATION_KEYS : list string :=
  ["deprecated"; "description"; "operationId"; "parameters"; "requestBody"; "responses"; "security"; "summary";
   "tags"; "x-trax-command-type"].
Definition SCHEMA_TYPES : list string := ["array"; "boolean"; "integer"; "null"; "number"; "object"; "string"].
Definition SCHEMA_FORMATS : list string := ["date"; "date-time"; "email"; "uuid"].
Definition SCHEMA_KEYS : list string :=
  ["$ref"; "additionalProperties"; "anyOf"; "const"; "default"; "description"; "enum"; "format"; "items"; "maxLength";
   "maximum"; "minLength"; "minimum"; "pattern"; "properties"; "required"; "title"; "type"].

(** [object(value, label)] *)
Definition object (value : jsval) (label : jstr) : script Schema :=
  match as_record value with
  | Some fs => Ok fs
  | None => script_fail (label ++ js " must be an object")
  end.

(** The text of a pattern is a regular expression: left to the engine. *)
Class RegExpSyntax := valid_regexp : jstr -> bool.

Fixpoint distinct_strings (l : list jsval) : bool :=
  match l with
  | [] => true
  | VStr s :: l => negb (existsb (strict_eq (VStr s)) l) && distinct_strings l
  | _ => false
  end.

(** The depth of a value: how far [validateSchema] can recurse into it. *)
Fixpoint value_depth (v : jsval) : nat :=
  match v with
  | VArr l => S (foldr (fun x n => Nat.max (value_depth x) n) 0%nat l)
  | VObj fs => S (foldr (fun kv n => Nat.max (value_depth kv.2) n) 0%nat fs)
  | _ => 1
  end.

Section Schemas.
Context `{RegExpSyntax} (componentNames : list jstr).

(** The keyword checks before the recursion, in their order. *)
Definition check_reference (schema : Schema) (label : jstr) : script () :=
  let ref := get schema "$ref" in
  if defined ref then
    let text := default [] (as_string ref) in
    _ ← fail_when (negb (string_value ref && startsWith text REF_PREFIX))
          (label ++ js " has an external or unsupported $ref");
    _ ← fail_when (negb (existsb (str_eqb (drop (length REF_PREFIX) text)) componentNames))
          (label ++ js " has a dangling local $ref");
    fail_when (existsb (fun key => negb (named_in ["$ref"; "description"; "title"] key)) (object_keys schema))
      (label ++ js " has unsupported validation siblings beside $ref")
  else Ok ().

Definition check_text (schema : Schema) (label : jstr) : script () :=
  let type := get schema "type" in
  _ ← fail_when (defined type && negb (match type with VStr s => named_in SCHEMA_TYPES s | _ => false end))
        (label ++ js ".type is unsupported");
  _ ← for_each (fun key : string =>
        fail_when (defined (get schema key) && negb (string_value (get schema key)))
          (dotted label key ++ js " must be a string"))
      ["description"; "format"; "pattern"; "title"]%string;
  let format := get schema "format" in
  _ ← fail_when (defined format && negb (match format with VStr s => named_in SCHEMA_FORMATS s | _ => false end))
        (label ++ js ".format is unsupported");
  match get schema "pattern" with
  | VStr pattern => fail_when (negb (valid_regexp pattern)) (label ++ js ".pattern is invalid")
  | _ => Ok ()
  end.

(** [a > b] on two numbers that are there. *)
Definition inverted (low high : jsval) : bool :=
  match low, high with VNum a, VNum b => num_gtb a b | _, _ => false end.

Definition check_bounds (schema : Schema) (label : jstr) : script () :=
  _ ← for_each (fun key : string =>
        fail_when (defined (get schema key) &&
            negb (match get schema key with VNum n => isSafeInteger n && negb (num_ltb n (NInt 0)) | _ => false end))
          (dotted label key ++ js " must be a non-negative safe integer"))
      ["minLength"; "maxLength"]%string;
  _ ← fail_when (inverted (get schema "minLength") (get schema "maxLength")) (label ++ js " has inverted length bounds");
  _ ← for_each (fun key : string =>
        fail_when (defined (get schema key) && negb (match get schema key with VNum n => isFinite n | _ => false end))
          (dotted label key ++ js " must be finite"))
      ["minimum"; "maximum"]%string;
  _ ← fail_when (inverted (get schema "minimum") (get schema "maximum")) (label ++ js " has inverted numeric bounds");
  let required := get schema "required" in
  _ ← fail_when (defined required && negb (match required with VArr l => distinct_strings l | _ => false end))
        (label ++ js ".required must contain unique strings");
  let enum := get schema "enum" in
  fail_when (defined enum && negb (match enum with VArr (_ :: _) => true | _ => false end))
    (label ++ js ".enum must be a non-empty array").

Definition check_keywords (schema : Schema) (label : jstr) : script () :=
  _ ← for_each (fun key => fail_when (negb (named_in SCHEMA_KEYS key))
        (label ++ js " uses unsupported schema keyword " ++ key)) (object_keys schema);
  _ ← check_reference schema label;
  _ ← check_text schema label;
  check_bounds schema label.

(** [`${label}.anyOf[${index}]`] *)
Definition any_label (label : jstr) (index : Z) : jstr := label ++ js ".anyOf[" ++ print_int index ++ [93%N].

Fixpoint validateSchema (fuel : nat) (schema : jsval) (label : jstr) : script () :=
  match fuel with
  | O => Throw Unfinished
  | S fuel =>
      fields ← object schema label;
      _ ← check_keywords fields label;
      _ ← (if defined (get fields "properties") then
             properties ← object (get fields "properties") (dotted label "properties");
             for_each (fun '(name, property) =>
               validateSchema fuel property (dotted (dotted label "properties") name)) properties
           else Ok ());
      _ ← (if defined (get fields "items") then validateSchema fuel (get fields "items") (dotted label "items")
           else Ok ());
      _ ← (if defined (get fields "anyOf") then
             match get fields "anyOf" with
             | VArr (c :: cs) =>
                 for_each (fun '(index, candidate) => validateSchema fuel candidate (any_label label index))
                   (indexed (c :: cs))
             | _ => script_fail (label ++ js ".anyOf must be a non-empty array")
             end
           else Ok ());
      match get fields "additionalProperties" with
      | VUndef | VBool _ => Ok ()
      | additional => validateSchema fuel additional (dotted label "additionalProperties")
      end
  end.

(** A schema on its own: its depth is fuel enough. *)
Definition validate_schema (schema : jsval) (label : jstr) : script () :=
  validateSchema (value_depth schema) schema label.

Definition schemaType (schema : jsval) (label : jstr) : script jstr :=
  _ ← validate_schema schema label;
  match prop schema "$ref" with
  | VStr ((_ :: _) as ref) =>
      Ok (js "components[" ++ quote "schemas" ++ js "][" ++ quote (drop (length REF_PREFIX) ref) ++ [93%N])
  | _ =>
      let type_is (t : string) := strict_eq (prop schema "type") (VStr (js t)) in
      if type_is "string" then Ok (js "string")
      else if type_is "integer" || type_is "number" then Ok (js "number")
      else if type_is "boolean" then Ok (js "boolean")
      else if type_is "null" then Ok (js "null")
      else script_fail (label ++ js " cannot be projected to a TypeScript operation type")
  end.

Definition jsonSchemaContent (container : jsval) (label : jstr) (required : bool) : script (option jsval) :=
  if defined (prop container "content") then
    content ← object (prop container "content") (dotted label "content");
    _ ← fail_when (negb (match object_keys content with [k] => str_eqb k "application/json" | _ => false end))
          (label ++ js " must declare exactly application/json content");
    media ← object (get content "application/json") (label ++ js ".content.application/json");
    _ ← fail_when (negb (truthy (get media "schema"))) (label ++ js " is missing its schema");
    _ ← validate_schema (get media "schema") (dotted label "schema");
    Ok (Some (get media "schema"))
  else if required then script_fail (label ++ js " must declare application/json content")
  else Ok None.

Definition REQUEST_PREFIX : jstr := "#/components/requestBodies/".

Definition resolveRequestBody (value : jsval) (openapi : Schema) (label : jstr) : script (option Schema) :=
  if negb (truthy value) then Ok None
  else if truthy (prop value "$ref") then
    match prop value "$ref" with
    | VStr ref =>
        if startsWith ref REQUEST_PREFIX then
          Some <$> object (prop (prop (get openapi "components") "requestBodies") (drop (length REQUEST_PREFIX) ref))
            (label ++ js " reference")
        else script_fail (label ++ js " has an unsupported request-body reference")
    | _ => script_fail (label ++ js " has an unsupported request-body reference")
    end
  else Some <$> object value label.
End Schemas.

(** ** Operations *)

Definition upper_unit (c : N) : N := if ((97 <=? c) && (c <=? 122))%N then (c - 32)%N else c.
(** [method.toUpperCase()] of an HTTP method *)
Definition toUpperCase (s : jstr) : jstr := upper_unit <$> s.

(** [...(v ?? [])] *)
Definition spread_list (v : jsval) : script (list jsval) :=
  match v with
  | VUndef | VNull => Ok []
  | VArr l => Ok l
  | VStr s => Ok ((fun c => VStr [c]) <$> s)
  | _ => Throw Crashed
  end.

(** [path.matchAll(/\{([^}]+)\}/g)]: after an opening brace, the units up to the
    next closing one, of which there is at least one. *)
Fixpoint until_brace (s name : jstr) : option (jstr * jstr) :=
  match s with
  | [] => None
  | 125%N :: s => Some (reverse name, s)
  | c :: s => until_brace s (c :: name)
  end.
Fixpoint placeholders (fuel : nat) (s : jstr) : list jstr :=
  match fuel with
  | O => []
  | S fuel =>
      match s with
      | [] => []
      | 123%N :: s =>
          match until_brace s [] with
          | Some ((_ :: _) as name, rest) => name :: placeholders fuel rest
          | _ => placeholders fuel s
          end
      | _ :: s => placeholders fuel s
      end
  end.
Definition path_placeholders (path : jstr) : list jstr := placeholders (length path) path.

Section Operations.
Context `{RegExpSyntax} `{NumPrinter} (openapi : Schema) (schemas : Schema).
Let componentNames : list jstr := object_keys schemas.

(** The metadata of [security], when it is there. *)
Definition check_security (security : jsval) (label : jstr) : script () :=
  fail_when (defined security &&
      negb (match security with
            | VArr [VObj [(key, VArr [])]] => str_eqb key "SessionCookie"
            | _ => false end))
    (label ++ js " uses unsupported security metadata").

(** The loop over the parameters: the schemas of the path and the CSRF mark. *)
Fixpoint gen_parameters (operationId : jstr) (pathSchemas : Schema) (csrf : bool) (l : list jsval)
    : script (Schema * bool) :=
  match l with
  | [] => Ok (pathSchemas, csrf)
  | value :: l =>
      parameter ← object value (operationId ++ js ".parameter");
      _ ← fail_when (truthy (get parameter "$ref")) (operationId ++ js " uses unsupported parameter $ref");
      let required := strict_eq (get parameter "required") (VBool true) in
      if strict_eq (get parameter "in") (VStr "path") then
        match get parameter "name" with
        | VStr name =>
            _ ← fail_when (negb required) (operationId ++ js " has an invalid path parameter");
            _ ← validate_schema componentNames (get parameter "schema") (operationId ++ js ".path." ++ name);
            gen_parameters operationId (set_field pathSchemas name (get parameter "schema")) csrf l
        | _ => script_fail (operationId ++ js " has an invalid path parameter")
        end
      else if strict_eq (get parameter "in") (VStr "header") && strict_eq (get parameter "name") (VStr "X-CSRF-Token")
      then
        _ ← fail_when (negb required) (operationId ++ js " has optional CSRF metadata");
        gen_parameters operationId pathSchemas true l
      else
        script_fail (operationId ++ js " uses unsupported " ++ to_string (get parameter "in") ++ js " parameter "
          ++ to_string (get parameter "name"))
  end.

Record GeneratedResponses := {
  responseSchemas : list (jstr * option jsval);
  errorStatuses : list jstr;
  successTypes : list jstr;
}.

Definition ERROR_RESPONSE : jsval := VStr "#/components/schemas/ErrorResponse".
Definition success_status (status : jstr) : bool := startsWith status "2".

(** The loop over the responses. *)
Fixpoint gen_responses (operationId : jstr) (l : list (jstr * jsval)) : script GeneratedResponses :=
  match l with
  | [] => Ok {| responseSchemas := []; errorStatuses := []; successTypes := [] |}
  | (status, value) :: l =>
      let label := operationId ++ js ".responses." ++ status in
      _ ← fail_when (negb (match_classes [is_digit; is_digit; is_digit] status))
            (operationId ++ js " uses unsupported response key " ++ status);
      response ← object value label;
      _ ← fail_when (truthy (get response "$ref")) (operationId ++ js " uses unsupported response $ref");
      schema ← jsonSchemaContent componentNames value label (success_status status && negb (str_eqb status "204"));
      types ← (if success_status status then
                 match schema with
                 | Some schema => t ← schemaType componentNames schema (dotted operationId status); Ok [t]
                 | None => Ok [js "null"]
                 end
               else Ok []);
      rest ← gen_responses operationId l;
      Ok {| responseSchemas := (status, schema) :: responseSchemas rest;
            errorStatuses := (if match schema with Some s => strict_eq (prop s "$ref") ERROR_RESPONSE | None => false end
                              then [status] else []) ++ errorStatuses rest;
            successTypes := types ++ successTypes rest |}
  end.

(** The literal a command's request schema declares. *)
Definition declared_command (bodySchema : jsval) : jsval :=
  let envelope :=
    match prop bodySchema "$ref" with
    | VStr ((_ :: _) as ref) => get schemas (drop (length REF_PREFIX) ref)
    | _ => bodySchema
    end in
  prop (prop (prop envelope "properties") "command_type") "const".

Definition command_of (operation : Schema) (bodySchema : option jsval) (operationId : jstr) : script (option jstr) :=
  match get operation "x-trax-command-type" with
  | VUndef | VNull => Ok None
  | VStr commandType =>
      match bodySchema with
      | None => script_fail (operationId ++ js " has invalid x-trax-command-type metadata")
      | Some body =>
          _ ← fail_when (negb (strict_eq (declared_command body) (VStr commandType)))
                (operationId ++ js " command marker does not match request schema literal");
          Ok (Some commandType)
      end
  | _ => script_fail (operationId ++ js " has invalid x-trax-command-type metadata")
  end.

(** The TypeScript type of an operation's input. *)
Definition path_input (operationId : jstr) (pathSchemas : Schema) : script jstr :=
  types ← (fix go l := match l with
    | [] => Ok []
    | (name, schema) :: l =>
        t ← schemaType componentNames schema (operationId ++ js ".path." ++ name);
        rest ← go l;
        Ok ((quote name ++ js ": " ++ t) :: rest)
    end) pathSchemas;
  Ok (match types with
      | [] => js "path?: never"
      | _ => js "path: { " ++ join "; " types ++ js " }"
      end).

Definition input_line (operationId : jstr) (pathSchemas : Schema) (bodySchema : option jsval) : script jstr :=
  path ← path_input operationId pathSchemas;
  body ← (match bodySchema with
          | Some schema => t ← schemaType componentNames schema (operationId ++ js ".body"); Ok (js "body: " ++ t)
          | None => Ok (js "body?: never")
          end);
  Ok (js "  " ++ quote operationId ++ js ": { " ++ path ++ js "; " ++ body ++ js " };").

(** [[...new Set(types)]] *)
Fixpoint distinct (l : list jstr) : list jstr :=
  match l with
  | [] => []
  | x :: l => x :: List.filter (fun y => negb (str_eqb x y)) (distinct l)
  end.

Definition success_line (operationId : jstr) (types : list jstr) : jstr :=
  js "  " ++ quote operationId ++ js ": " ++ join " | " (distinct types) ++ js ";".

(** What one operation of the document becomes. *)
Record GeneratedOperation := {
  generated_id : jstr;
  generated_operation : RuntimeOperation;
  generated_input : jstr;
  generated_success : jstr;
}.

Definition gen_operation (path : jstr) (pathItem : Schema) (seenIds : list jstr) (method : jstr) (value : jsval)
    : script GeneratedOperation :=
  let label := toUpperCase method ++ 32%N :: path in
  operation ← object value label;
  _ ← for_each (fun key => fail_when (negb (named_in OPERATION_KEYS key))
        (label ++ js " uses unsupported operation field " ++ key)) (object_keys operation);
  _ ← check_security (get operation "security") label;
  operationId ← (match get operation "operationId" with
                 | VStr ((_ :: _) as operationId) => Ok operationId
                 | _ => script_fail (label ++ js " has no operationId") end);
  _ ← fail_when (existsb (str_eqb operationId) seenIds) (js "duplicate operationId " ++ operationId);
  shared ← spread_list (get pathItem "parameters");
  own_ ← spread_list (get operation "parameters");
  '(pathSchemas, csrf) ← gen_parameters operationId [] false (shared ++ own_);
  _ ← for_each (fun name => fail_when (negb (truthy (get pathSchemas name)))
        (operationId ++ js " lacks path schema for " ++ name)) (path_placeholders path);
  requestBody ← resolveRequestBody (get operation "requestBody") openapi (operationId ++ js ".requestBody");
  bodySchema ← (match requestBody with
                | Some body => jsonSchemaContent componentNames (VObj body) (operationId ++ js ".requestBody") true
                | None => Ok None end);
  _ ← fail_when (match requestBody with
                 | Some body => negb (strict_eq (get body "required") (VBool true)) | None => false end)
        (operationId ++ js " uses an optional JSON request body");
  declared ← object (get operation "responses") (operationId ++ js ".responses");
  responses ← gen_responses operationId declared;
  _ ← fail_when (bool_decide (successTypes responses = [])) (operationId ++ js " has no success response");
  input ← input_line operationId pathSchemas bodySchema;
  commandType ← command_of operation bodySchema operationId;
  Ok {| generated_id := operationId;
        generated_operation :=
          {| bodySchema := bodySchema; canonicalErrorStatuses := errorStatuses responses; commandType := commandType;
             csrf := csrf; GeneratedClient.method := toUpperCase method; GeneratedClient.path := path;
             pathSchemas := pathSchemas; GeneratedClient.responses := responseSchemas responses |};
        generated_input := input;
        generated_success := success_line operationId (successTypes responses) |}.

(** The loops over the methods of a path and over the paths. *)
Fixpoint gen_methods (path : jstr) (pathItem : Schema) (seenIds : list jstr) (l : list (jstr * jsval))
    : script (list GeneratedOperation) :=
  match l with
  | [] => Ok []
  | (method, value) :: l =>
      if named_in HTTP_METHODS method then
        operation ← gen_operation path pathItem seenIds method value;
        rest ← gen_methods path pathItem (generated_id operation :: seenIds) l;
        Ok (operation :: rest)
      else gen_methods path pathItem seenIds l
  end.

Fixpoint gen_paths (seenIds : list jstr) (l : list (jstr * jsval)) : script (list GeneratedOperation) :=
  match l with
  | [] => Ok []
  | (path, value) :: l =>
      pathItem ← object value (js "paths." ++ path);
      _ ← for_each (fun key => fail_when (negb (named_in HTTP_METHODS key) && negb (named_in PATH_ITEM_ANNOTATIONS key))
            (path ++ js " uses unsupported path-item field " ++ key)) (object_keys pathItem);
      operations ← gen_methods path pathItem seenIds pathItem;
      rest ← gen_paths (reverse (generated_id <$> operations) ++ seenIds) l;
      Ok (operations ++ rest)
  end.
End Operations.

(** ** The supported versions *)

Definition num_value (v : jsval) : option jsnum := match v with VNum n => Some n | _ => None end.

(** [current >= 1], integers, and [minimum <= current <= maximum]. *)
Definition invalid_support (fs : Schema) : bool :=
  match num_value (get fs "current"), num_value (get fs "minimum_supported"), num_value (get fs "maximum_supported") with
  | Some current, Some minimum, Some maximum =>
      negb (isSafeInteger current) || num_ltb current (NInt 1) || negb (isSafeInteger minimum)
      || negb (isSafeInteger maximum) || num_gtb minimum current || num_gtb current maximum
  | _, _, _ => true
  end.

Fixpoint gen_commands (discovered : list (jstr * Schema)) (l : list (Z * jsval)) : script (list (jstr * Schema)) :=
  match l with
  | [] => Ok discovered
  | (index, value) :: l =>
      let label := command_label index in
      command ← object value label;
      match get command "command_type" with
      | VStr type =>
          _ ← fail_when (bool_decide (is_Some (map_get discovered type)) || invalid_support command)
                (label ++ js " has invalid or duplicate support metadata");
          gen_commands (discovered ++ [(type, command)]) l
      | _ => script_fail (label ++ js " has invalid or duplicate support metadata")
      end
  end.

(** The range of one version: the current one. *)
Definition current_only (fs : Schema) : InclusiveVersionRange :=
  let current := default NNaN (num_value (get fs "current")) in
  {| minimum_supported := current; maximum_supported := current |}.

Definition marked_commands (operations : list GeneratedOperation) : list jstr :=
  sort_strings (distinct (omap (fun o => commandType (generated_operation o)) operations)).

Definition gen_support (fixtures : jsval) (operations : list GeneratedOperation) : script ClientSupport :=
  contract ← (match fixtures with
              | VUndef | VNull => Throw Crashed
              | _ => object (prop fixtures "contract") "runtime fixture contract" end);
  api ← object (get contract "api") "runtime fixture contract.api";
  _ ← fail_when (invalid_support api) "contract.api has an invalid supported range";
  commands ← (match get contract "commands" with
              | VArr l => Ok l | _ => script_fail "contract.commands must be an array" end);
  discovered ← gen_commands [] (indexed commands);
  let marked := marked_commands operations in
  _ ← for_each (fun type => fail_when (negb (bool_decide (is_Some (map_get discovered type))))
        (js "marked command " ++ type ++ js " is absent from contract discovery")) marked;
  Ok {| support_api := current_only api;
        support_commands := omap (fun type => (fun command => (type, current_only command)) <$> map_get discovered type) marked |}.

(** ** The whole run

    What is written: the lines of the two type maps and the three tables. *)
Record GeneratedTables := {
  generated_inputs : list jstr;
  generated_successes : list jstr;
  generated_schemas : Schema;
  generated_operations : list (jstr * RuntimeOperation);
  generated_support : ClientSupport;
}.

Definition generate `{RegExpSyntax} `{NumPrinter} (openapi fixtures : jsval) : script GeneratedTables :=
  document ← (match openapi with
              | VUndef | VNull => Throw Crashed
              | _ => Ok (default [] (as_record openapi)) end);
  _ ← fail_when (negb (strict_eq (get document "openapi") (VStr "3.1.0")))
        (js "expected OpenAPI 3.1.0, received " ++ to_string (get document "openapi"));
  schemas ← object (prop (get document "components") "schemas") "components.schemas";
  _ ← for_each (fun '(name, schema) =>
        validate_schema (object_keys schemas) schema (js "components.schemas." ++ name)) schemas;
  paths ← object (get document "paths") "paths";
  operations ← gen_paths document schemas [] paths;
  support ← gen_support fixtures operations;
  Ok {| generated_inputs := generated_input <$> operations;
        generated_successes := generated_success <$> operations;
        generated_schemas := schemas;
        generated_operations := (fun o => (generated_id o, generated_operation o)) <$> operations;
        generated_support := support |}.
