(* ===== verification/ClientGeneratorSpec.v ===== *)
(** What the generator promises when it writes a client: it never runs out of
    fuel, every schema it lets through can be followed by the validator, the
    operations are complete, and the client negotiates with its server. *)
From S2P Require Export ClientGenerator ValidatorSpec.

(** ** Fuel *)

Lemma ends_object v label : ends (object v label).
Proof. unfold ends, object. by destruct (as_record v). Qed.
#[export] Hint Resolve ends_object : ends.

Lemma foldr_max_le {A} (f : A -> nat) l x : x ∈ l -> (f x <= foldr (fun x n => Nat.max (f x) n) 0 l)%nat.
Proof.
  induction l as [|y l IH]; [by intros ?%elem_of_nil|]. intros [->|H]%elem_of_cons; cbn; [lia|].
  specialize (IH H). lia.
Qed.

Lemma depth_item l x : x ∈ l -> (value_depth x < value_depth (VArr l))%nat.
Proof. intros H%(foldr_max_le value_depth). cbn. lia. Qed.

Lemma depth_field fs k v : (k, v) ∈ fs -> (value_depth v < value_depth (VObj fs))%nat.
Proof. intros H%(foldr_max_le (fun kv : jstr * jsval => value_depth kv.2)). cbn in *. lia. Qed.

Lemma own_elem fs k v : own fs k = Some v -> (k, v) ∈ fs.
Proof.
  unfold own. intros ([k' v'] & Hf & ->)%fmap_Some. apply find_Some_elem in Hf as [? E].
  cbn in E. by apply str_eqb_eq in E as ->.
Qed.

(** A keyword that is there is the schema's own. *)
Lemma get_own fs (k : jstr) : inherited k = None -> defined (get fs k) = true -> own fs k = Some (get fs k).
Proof. unfold get. intros ->. by destruct (own fs k). Qed.

Section Schemas.
Context `{RegExpSyntax} (names : list jstr).

Lemma check_keywords_ends fs label : ends (check_keywords names fs label).
Proof.
  unfold check_keywords, check_reference, check_text, check_bounds.
  repeat (apply ends_bind; [|intros ? _]); eauto with ends.
Qed.

Lemma validateSchema_ends n schema label : (value_depth schema <= n)%nat -> ends (validateSchema names n schema label).
Proof.
  revert schema label. induction n as [|n IH]; intros schema label Hn; [destruct schema; cbn in Hn; lia|].
  cbn [validateSchema]. apply ends_bind; [apply ends_object|]. intros fs Hfs.
  unfold object in Hfs. destruct schema as [| | | | | |fs'|]; try done. injection Hfs as ->.
  assert (forall k : jstr, inherited k = None -> defined (get fs k) = true -> (value_depth (get fs k) <= n)%nat) as Hsub.
  { intros k Hi Hd. apply (get_own fs k Hi), own_elem, depth_field in Hd. lia. }
  apply ends_bind; [apply check_keywords_ends|intros _ _].
  apply ends_bind; [|intros _ _].
  { destruct (defined (get fs "properties")) eqn:E; [|done]. apply Hsub in E; [|done].
    apply ends_bind; [apply ends_object|]. intros ps Hps. unfold object in Hps.
    destruct (get fs "properties"); try done. injection Hps as ->. apply ends_each. intros [k v] Hk.
    apply IH. apply depth_field in Hk. lia. }
  apply ends_bind; [|intros _ _].
  { destruct (defined (get fs "items")) eqn:E; [|done]. by apply IH, Hsub. }
  apply ends_bind; [|intros _ _].
  { destruct (defined (get fs "anyOf")) eqn:E; [|done]. apply Hsub in E; [|done].
    destruct (get fs "anyOf") as [| | | | |[|c cs]| |]; try done.
    apply ends_each. intros [i v] Hv%indexed_elem. apply IH. apply depth_item in Hv. lia. }
  destruct (get fs "additionalProperties") eqn:E; try done; rewrite <- E; apply IH, Hsub; try done; by rewrite E.
Qed.

Lemma validate_schema_ends schema label : ends (validate_schema names schema label).
Proof. by apply validateSchema_ends. Qed.
End Schemas.
#[export] Hint Resolve validate_schema_ends : ends.


Section Operations.
Context `{RegExpSyntax} `{NumPrinter} (openapi schemas : Schema).

Lemma schemaType_ends names schema label : ends (schemaType names schema label).
Proof. unfold schemaType. ends_all. Qed.
Lemma jsonSchemaContent_ends names container label required : ends (jsonSchemaContent names container label required).
Proof. unfold jsonSchemaContent. ends_all. Qed.
Lemma resolveRequestBody_ends value label : ends (resolveRequestBody value openapi label).
Proof. unfold resolveRequestBody. ends_all. Qed.
Lemma spread_list_ends v : ends (spread_list v).
Proof. by destruct v. Qed.
#[local] Hint Resolve schemaType_ends jsonSchemaContent_ends resolveRequestBody_ends spread_list_ends : ends.

Lemma gen_parameters_ends id ps csrf l : ends (gen_parameters schemas id ps csrf l).
Proof. revert ps csrf. induction l as [|v l IH]; intros ps csrf; cbn [gen_parameters]; ends_all. Qed.
Lemma gen_responses_ends id l : ends (gen_responses schemas id l).
Proof. induction l as [|[status v] l IH]; cbn [gen_responses]; ends_all. Qed.
Lemma command_of_ends operation body id : ends (command_of schemas operation body id).
Proof. unfold command_of. ends_all. Qed.
Lemma path_input_ends id ps : ends (path_input schemas id ps).
Proof.
  unfold path_input. apply ends_bind; [|done]. induction ps as [|[name v] ps IH]; [done|]. ends_all.
Qed.
Lemma input_line_ends id ps body : ends (input_line schemas id ps body).
Proof. unfold input_line. apply ends_bind; [apply path_input_ends|intros ? _]. ends_all. Qed.
#[local] Hint Resolve gen_parameters_ends gen_responses_ends command_of_ends input_line_ends : ends.

Lemma gen_operation_ends path item seen method v : ends (gen_operation openapi schemas path item seen method v).
Proof. unfold gen_operation, check_security. ends_all. Qed.
#[local] Hint Resolve gen_operation_ends : ends.

Lemma gen_methods_ends path item seen l : ends (gen_methods openapi schemas path item seen l).
Proof. revert seen. induction l as [|[method v] l IH]; intros seen; cbn [gen_methods]; ends_all. Qed.
#[local] Hint Resolve gen_methods_ends : ends.

Lemma gen_paths_ends seen l : ends (gen_paths openapi schemas seen l).
Proof. revert seen. induction l as [|[path v] l IH]; intros seen; cbn [gen_paths]; ends_all. Qed.
End Operations.

Lemma gen_commands_ends discovered l : ends (gen_commands discovered l).
Proof. revert discovered. induction l as [|[i v] l IH]; intros discovered; cbn [gen_commands]; ends_all. Qed.

Lemma gen_support_ends fixtures operations : ends (gen_support fixtures operations).
Proof. unfold gen_support. pose proof gen_commands_ends. ends_all. Qed.

(** the generator always ends, with the tables or with an error: the depth
    of a schema is fuel enough to check it. *)
Theorem generate_ends `{RegExpSyntax} `{NumPrinter} openapi fixtures :
  generate openapi fixtures <> Throw Unfinished.
Proof.
  change (ends (generate openapi fixtures)). unfold generate.
  pose proof (gen_support_ends fixtures). pose proof gen_paths_ends. ends_all.
Qed.

(** ** Schemas the validator can follow *)

(** From a schema to one the validator may go on with. *)
Inductive schema_step (table : Schema) : jsval -> jsval -> Prop :=
| step_property fs ps name v :
    get fs "properties" = VObj ps -> (name, v) ∈ ps -> schema_step table (VObj fs) v
| step_items fs : defined (get fs "items") = true -> schema_step table (VObj fs) (get fs "items")
| step_any fs cs c : get fs "anyOf" = VArr cs -> c ∈ cs -> schema_step table (VObj fs) c
| step_additional fs afs :
    get fs "additionalProperties" = VObj afs -> schema_step table (VObj fs) (VObj afs)
| step_reference fs ref :
    get fs "$ref" = VStr ref -> schema_step table (VObj fs) (get table (drop (length REF_PREFIX) ref)).

Definition present (P : jsval -> Prop) (v : jsval) : Prop := v = VUndef \/ P v.

(** The schema is an object whose keywords have the types the validator looks
    for (it ignores any other), and whose reference is one of the table. *)
Record readable (table : Schema) (s : jsval) : Prop := {
  readable_object : exists fs, s = VObj fs;
  readable_reference : forall ref, prop s "$ref" = VStr ref ->
    startsWith ref REF_PREFIX = true /\ exists t, get table (drop (length REF_PREFIX) ref) = VObj t;
  readable_type : present (fun v => exists t, v = VStr t /\ named_in SCHEMA_TYPES t = true) (prop s "type");
  readable_format : present (fun v => exists f, v = VStr f /\ named_in SCHEMA_FORMATS f = true) (prop s "format");
  readable_numbers : forall key : string, key ∈ ["minLength"; "maxLength"; "minimum"; "maximum"]%string ->
    present (fun v => exists n, v = VNum n) (prop s (js key));
  readable_pattern : present (fun v => exists p, v = VStr p) (prop s "pattern");
  readable_required : present (fun v => exists l, v = VArr l /\ distinct_strings l = true) (prop s "required");
  readable_enum : present (fun v => exists x l, v = VArr (x :: l)) (prop s "enum");
  readable_any : present (fun v => exists x l, v = VArr (x :: l)) (prop s "anyOf");
  readable_properties : present (fun v => exists ps, v = VObj ps) (prop s "properties");
}.

Lemma object_ok v label fs : object v label = Ok fs -> v = VObj fs.
Proof. unfold object. destruct v; try done. cbn. congruence. Qed.

(** Use that a list of guards let everything through. *)
Ltac inv_generated :=
  repeat first
    [ progress inv_script
    | match goal with E : object _ _ = Ok _ |- _ => apply object_ok in E end ].

Lemma negb_present v (P : jsval -> Prop) (b : bool) :
  defined v && negb b = false -> (b = true -> P v) -> present P v.
Proof.
  rewrite andb_false_iff, negb_false_iff. intros [Hd|Hb] HP; [|right; auto]. left. by destruct v.
Qed.

Section Accepted.
Context `{RegExpSyntax}.

Definition accepted (names : list jstr) (s : jsval) : Prop := exists n label, validateSchema names n s label = Ok ().

Lemma validate_schema_accepted names s label u : validate_schema names s label = Ok u -> accepted names s.
Proof. destruct u. unfold validate_schema, accepted. eauto. Qed.

Lemma get_key fs k : k ∈ object_keys fs -> exists v, own fs k = Some v /\ get fs k = v /\ (k, v) ∈ fs.
Proof.
  unfold object_keys. intros Hk. destruct (own fs k) as [v|] eqn:E.
  - exists v. unfold get. rewrite E. split_and!; [done..|by apply own_elem].
  - exfalso. unfold own in E. apply fmap_None in E. apply list_elem_of_fmap in Hk as (kv & -> & Hin).
    pose proof (find_None_elem _ _ _ E Hin) as Hf. cbn in Hf. by rewrite str_eqb_refl in Hf.
Qed.

Section Table.
Context (table : Schema) (Htable : Forall (fun kv => accepted (object_keys table) kv.2) table).

Lemma reference_accepted fs label ref :
  check_reference (object_keys table) fs label = Ok () -> get fs "$ref" = VStr ref ->
  startsWith ref REF_PREFIX = true /\ accepted (object_keys table) (get table (drop (length REF_PREFIX) ref)).
Proof.
  unfold check_reference. intros Hc Hr. rewrite Hr in Hc. cbn [defined string_value as_string default from_option id] in Hc.
  inv_generated. rewrite negb_false_iff in Ha, Ha0. split; [done|].
  apply existsb_str_elem, get_key in Ha0 as (v & _ & -> & Hin).
  rewrite Forall_forall in Htable. by apply (Htable _ Hin).
Qed.

Lemma accepted_step s s' : accepted (object_keys table) s -> schema_step table s s' -> accepted (object_keys table) s'.
Proof.
  intros (n & label & Hs) Hstep. destruct n as [|n]; [done|]. cbn [validateSchema] in Hs. inv_generated.
  destruct a0, a1, a2, a3. rename a into fs.
  inversion Hstep as [fs' ps name v Hp Hin Heq|fs' Hd Heq|fs' cs c Hc Hin Heq|fs' afs Ha' Heq|fs' ref Hr Heq];
    subst; injection Heq as ->.
  - rewrite Hp in Ha1. cbn [defined] in Ha1. inv_generated.
    injection Ha as ->. exists n. eexists. apply (for_each_elem _ _ _ _ Ha1 Hin).
  - rewrite Hd in Ha2. by exists n, (dotted label "items").
  - rewrite Hc in Ha3. cbn [defined] in Ha3. destruct cs as [|c0 cs]; [done|].
    apply elem_indexed in Hin as [i Hin]. exists n. eexists. apply (for_each_elem _ _ _ _ Ha3 Hin).
  - rewrite Ha' in Hs. by eexists n, _.
  - unfold check_keywords in Ha0. apply bind_Ok in Ha0 as (_ & _ & Ha0).
    apply bind_Ok in Ha0 as ([] & Href & _). by apply (reference_accepted fs label ref).
Qed.

Lemma accepted_object names s : accepted names s -> exists fs, s = VObj fs.
Proof. intros (n & label & Hs). destruct n as [|n]; [done|]. cbn [validateSchema] in Hs. inv_generated. eauto. Qed.

Lemma check_text_types fs label :
  check_text fs label = Ok () ->
  present (fun v => exists t, v = VStr t /\ named_in SCHEMA_TYPES t = true) (get fs "type") /\
  present (fun v => exists f, v = VStr f /\ named_in SCHEMA_FORMATS f = true) (get fs "format") /\
  present (fun v => exists p, v = VStr p) (get fs "pattern").
Proof.
  unfold check_text. intros Hc. inv_generated. destruct a0. split_and!.
  - eapply negb_present; [exact Ha|]. destruct (get fs "type"); try done. eauto.
  - eapply negb_present; [exact Ha1|]. destruct (get fs "format"); try done. eauto.
  - apply (for_each_elem _ _ _ "pattern"%string) in Ha0; [|in_list]. apply fail_when_ok in Ha0.
    eapply negb_present; [exact Ha0|]. destruct (get fs "pattern"); try done. eauto.
Qed.

Lemma check_bounds_types fs label :
  check_bounds fs label = Ok () ->
  (forall key : string, key ∈ ["minLength"; "maxLength"; "minimum"; "maximum"]%string ->
     present (fun v => exists n, v = VNum n) (get fs (js key))) /\
  present (fun v => exists l, v = VArr l /\ distinct_strings l = true) (get fs "required") /\
  present (fun v => exists x l, v = VArr (x :: l)) (get fs "enum").
Proof.
  unfold check_bounds. intros Hc. inv_generated. destruct a, a1. split_and!.
  - intros key Hk. assert (key ∈ ["minLength"; "maxLength"]%string \/ key ∈ ["minimum"; "maximum"]%string) as [Hk'|Hk'].
    { apply (elem_of_app ["minLength"; "maxLength"]%string ["minimum"; "maximum"]%string), Hk. }
    + apply (for_each_elem _ _ _ _ Ha) in Hk'. apply fail_when_ok in Hk'.
      eapply negb_present; [exact Hk'|]. destruct (get fs (js key)); try done. eauto.
    + apply (for_each_elem _ _ _ _ Ha1) in Hk'. apply fail_when_ok in Hk'.
      eapply negb_present; [exact Hk'|]. destruct (get fs (js key)); try done. eauto.
  - eapply negb_present; [exact Ha3|]. destruct (get fs "required"); try done. eauto.
  - eapply negb_present; [exact Hc|]. destruct (get fs "enum") as [| | | | |[|x l]| |]; try done. eauto.
Qed.

Lemma accepted_readable s : accepted (object_keys table) s -> readable table s.
Proof.
  intros (n & label & Hs). destruct n as [|n]; [done|]. cbn [validateSchema] in Hs. inv_generated.
  destruct a0, a1, a2, a3. rename a into fs. unfold check_keywords in Ha0.
  apply bind_Ok in Ha0 as (_ & _ & Ha0). apply bind_Ok in Ha0 as ([] & Href & Ha0).
  apply bind_Ok in Ha0 as ([] & (? & ? & ?)%check_text_types & (? & ? & ?)%check_bounds_types).
  subst s. split; cbn [prop as_record]; try done; [by eexists|..].
  - intros ref Hr. destruct (reference_accepted fs label ref) as [Hp Hacc]; [done..|].
    split; [done|]. by apply (accepted_object (object_keys table)).
  - destruct (get fs "anyOf") as [| | | | |[|x l]| |] eqn:E; try done; [by left|right; eauto].
  - destruct (get fs "properties") eqn:E; try done; [by left|right; eauto].
Qed.

Lemma accepted_reachable s s' :
  accepted (object_keys table) s -> rtc (schema_step table) s s' -> accepted (object_keys table) s'.
Proof. intros Hs Hr. induction Hr; [done|]. eauto using accepted_step. Qed.
End Table.
End Accepted.

(** ** Operations *)

Lemma set_field_elem fs k v k' v' : (k', v') ∈ set_field fs k v -> (k', v') ∈ fs \/ v' = v.
Proof.
  induction fs as [|[k1 v1] fs IH]; cbn [set_field].
  - intros [= -> ->]%list_elem_of_singleton. by right.
  - case_match; rewrite !elem_of_cons; [intros [[= -> ->]|?]|intros [?|?]]; naive_solver.
Qed.

Section Complete.
Context `{RegExpSyntax} `{NumPrinter} (openapi schemas : Schema).
Let names : list jstr := object_keys schemas.

(** Everything the client asks of an operation is there. *)
Record operation_complete (op : RuntimeOperation) : Prop := {
  body_accepted : forall s, bodySchema op = Some s -> accepted names s;
  path_accepted : forall name s, (name, s) ∈ pathSchemas op -> accepted names s;
  responses_accepted : forall status s, (status, Some s) ∈ responses op -> accepted names s;
  path_covered : Forall (fun name => truthy (get (pathSchemas op) name) = true) (path_placeholders (path op));
  statuses_numeric : Forall (fun r => match_classes [is_digit; is_digit; is_digit] r.1 = true) (responses op);
  errors_canonical : forall status, status ∈ canonicalErrorStatuses op <->
    exists s, (status, Some s) ∈ responses op /\ strict_eq (prop s "$ref") ERROR_RESPONSE = true;
  succeeds : Exists (fun r => success_status r.1 = true) (responses op);
  success_typed : Forall (fun r => success_status r.1 = true -> r.1 = js "204" \/ is_Some r.2) (responses op);
  command_declared : forall t, commandType op = Some t ->
    exists body, bodySchema op = Some body /\ strict_eq (declared_command schemas body) (VStr t) = true;
}.

Lemma gen_parameters_accepted id ps csrf l ps' csrf' :
  gen_parameters schemas id ps csrf l = Ok (ps', csrf') ->
  (forall k v, (k, v) ∈ ps -> accepted names v) -> forall k v, (k, v) ∈ ps' -> accepted names v.
Proof.
  revert ps csrf. induction l as [|v l IH]; intros ps csrf; cbn [gen_parameters]; [by intros [= -> ->]|].
  intros Hg Hps. inv_generated. destruct (strict_eq _ (VStr "path")).
  - destruct (get a "name"); try done. inv_generated. eapply IH; [exact Hg|].
    intros k x [?| ->]%set_field_elem; [by eapply Hps|]. by eapply validate_schema_accepted.
  - destruct (_ && _); [|done]. inv_generated. by eapply IH.
Qed.

Lemma jsonSchemaContent_accepted container label required s :
  jsonSchemaContent names container label required = Ok (Some s) -> accepted names s.
Proof.
  unfold jsonSchemaContent. case_match; [|by case_match]. intros Hg. inv_generated.
  by eapply validate_schema_accepted.
Qed.

Lemma jsonSchemaContent_required container label :
  jsonSchemaContent names container label true <> Ok None.
Proof. unfold jsonSchemaContent. case_match; [|done]. intros Hg. by inv_generated. Qed.

(** What the responses of an operation are made of. *)
Definition responses_complete (r : GeneratedResponses) : Prop :=
  (forall status s, (status, Some s) ∈ responseSchemas r -> accepted names s) /\
  Forall (fun r => match_classes [is_digit; is_digit; is_digit] r.1 = true) (responseSchemas r) /\
  (forall status, status ∈ errorStatuses r <->
     exists s, (status, Some s) ∈ responseSchemas r /\ strict_eq (prop s "$ref") ERROR_RESPONSE = true) /\
  (successTypes r <> [] -> Exists (fun r => success_status r.1 = true) (responseSchemas r)) /\
  Forall (fun r => success_status r.1 = true -> r.1 = js "204" \/ is_Some r.2) (responseSchemas r).

Lemma gen_responses_complete id l r : gen_responses schemas id l = Ok r -> responses_complete r.
Proof.
  revert r. induction l as [|[status v] l IH]; intros r; cbn [gen_responses].
  { intros [= <-]. unfold responses_complete. cbn. split_and!; try done.
    - by intros ? ? ?%elem_of_nil.
    - intros st. split; [by intros ?%elem_of_nil|by intros (? & ?%elem_of_nil & _)]. }
  intros Hg. inv_generated. apply IH in Ha4 as (I1 & I2 & I3 & I4 & I5). rename a2 into schema.
  unfold responses_complete. cbn. split_and!.
  - intros st s [[= -> <-]|?]%elem_of_cons; [by eapply jsonSchemaContent_accepted|eauto].
  - constructor; [|done]. cbn. by apply negb_false_iff.
  - intros st. rewrite elem_of_app, I3. setoid_rewrite elem_of_cons.
    destruct schema as [s|]; [destruct (strict_eq (prop s "$ref") ERROR_RESPONSE) eqn:Es|].
    + rewrite list_elem_of_singleton. naive_solver.
    + rewrite elem_of_nil. naive_solver congruence.
    + rewrite elem_of_nil. naive_solver.
  - intros Ht. destruct (success_status status) eqn:Es; [by apply Exists_cons_hd|].
    injection Ha3 as <-. apply Exists_cons_tl, I4, Ht.
  - constructor; [|done]. cbn. intros Es. unfold success_status in Ha2. rewrite Es in Ha2. cbn [andb] in Ha2.
    destruct (str_eqb status "204") eqn:E4; [left; by apply str_eqb_eq|right].
    destruct schema as [s|]; [by eexists|]. by apply jsonSchemaContent_required in Ha2.
Qed.

Lemma command_of_declared operation body id t :
  command_of schemas operation body id = Ok (Some t) ->
  exists b, body = Some b /\ strict_eq (declared_command schemas b) (VStr t) = true.
Proof.
  unfold command_of. destruct (get operation _); try done. destruct body as [b|]; [|done]. intros Hg.
  inv_generated. exists b. split; [done|]. by apply negb_false_iff.
Qed.

Lemma gen_operation_complete path item seen method v o :
  gen_operation openapi schemas path item seen method v = Ok o ->
  generated_id o ∉ seen /\ operation_complete (generated_operation o).
Proof.
  unfold gen_operation. intros Hg. inv_generated.
  match goal with x : (Schema * bool)%type |- _ => destruct x as [ps mark] end. inv_generated.
  cbn [generated_id generated_operation].
  match goal with E : gen_responses _ _ _ = Ok _ |- _ => apply gen_responses_complete in E as (I1 & I2 & I3 & I4 & I5) end.
  match goal with E : bool_decide _ = false |- _ => apply bool_decide_eq_false in E end.
  match goal with E : command_of _ _ _ _ = Ok _ |- _ => rename E into Hcommand end.
  match goal with E : gen_parameters _ _ _ _ _ = Ok _ |- _ => rename E into Hparams end.
  match goal with E : for_each _ (path_placeholders _) = Ok _ |- _ => rename E into Hcover end.
  match goal with E : existsb _ seen = false |- _ => rename E into Hseen end.
  split.
  { intros Hin. rewrite existsb_false in Hseen. specialize (Hseen _ Hin). by rewrite str_eqb_refl in Hseen. }
  split; cbn; try done; [| | |auto|].
  - intros s ->. repeat match goal with x : option Schema |- _ => destruct x end; [|done].
    by eapply jsonSchemaContent_accepted.
  - apply (gen_parameters_accepted _ _ _ _ _ _ Hparams). by intros ? ? ?%elem_of_nil.
  - apply Forall_forall. intros name Hn. apply (for_each_elem _ _ _ _ Hcover) in Hn.
    apply fail_when_ok in Hn. by apply negb_false_iff.
  - intros t ->. by eapply command_of_declared.
Qed.

Lemma gen_methods_complete path item seen l os :
  gen_methods openapi schemas path item seen l = Ok os ->
  NoDup (generated_id <$> os) /\ (forall id, id ∈ generated_id <$> os -> id ∉ seen) /\
  Forall (fun o => operation_complete (generated_operation o)) os.
Proof.
  revert seen os. induction l as [|[method v] l IH]; intros seen os; cbn [gen_methods].
  { intros [= <-]. split_and!; [constructor|by intros ? ?%elem_of_nil|constructor]. }
  destruct (named_in HTTP_METHODS method); [|apply IH]. intros Hg. inv_generated.
  apply gen_operation_complete in Ha as [Hn Ho]. apply IH in Ha0 as (Hnd & Hseen & Hall). cbn. split_and!.
  - constructor; [|done]. intros Hin. apply (Hseen _ Hin). apply list_elem_of_here.
  - intros id [->|Hin]%elem_of_cons; [done|]. intros Hs. apply (Hseen _ Hin). by apply list_elem_of_further.
  - by constructor.
Qed.

Lemma gen_paths_complete seen l os :
  gen_paths openapi schemas seen l = Ok os ->
  NoDup (generated_id <$> os) /\ (forall id, id ∈ generated_id <$> os -> id ∉ seen) /\
  Forall (fun o => operation_complete (generated_operation o)) os.
Proof.
  revert seen os. induction l as [|[path v] l IH]; intros seen os; cbn [gen_paths].
  { intros [= <-]. split_and!; [constructor|by intros ? ?%elem_of_nil|constructor]. }
  intros Hg. inv_generated. rename a1 into os1, a2 into os2.
  repeat match goal with E : gen_methods _ _ _ _ _ _ = Ok _ |- _ => apply gen_methods_complete in E as (D1 & S1 & A1) end.
  repeat match goal with E : gen_paths _ _ _ _ = Ok _ |- _ => apply IH in E as (D2 & S2 & A2) end.
  rewrite fmap_app. split_and!.
  - apply NoDup_app. split_and!; [done| |done]. intros id H1 H2. apply (S2 id H2).
    rewrite elem_of_app, elem_of_reverse. by left.
  - intros id [Hin|Hin]%elem_of_app; [by apply S1|]. intros Hs. apply (S2 id Hin). rewrite elem_of_app. by right.
  - by apply Forall_app.
Qed.
End Complete.

(** ** Supported versions *)

Lemma distinct_elem l x : x ∈ distinct l <-> x ∈ l.
Proof.
  induction l as [|y l IH]; cbn [distinct]; [done|]. rewrite !elem_of_cons, elem_of_lfilter, IH, negb_true_iff, str_eqb_neq.
  destruct (decide (x = y)); naive_solver.
Qed.
Lemma distinct_NoDup l : NoDup (distinct l).
Proof.
  induction l as [|y l IH]; cbn [distinct]; [constructor|]. constructor.
  - rewrite elem_of_lfilter, negb_true_iff, str_eqb_refl. by intros [_ ?].
  - pose proof (NoDup_fmap_lfilter (fun z => negb (str_eqb y z)) id (distinct l)) as Hf.
    rewrite !list_fmap_id in Hf. auto.
Qed.

Lemma marked_commands_elem operations t :
  t ∈ marked_commands operations <->
  exists o, o ∈ operations /\ commandType (generated_operation o) = Some t.
Proof. unfold marked_commands. by rewrite sort_strings_perm, distinct_elem, list_elem_of_omap. Qed.

(** The version a range of one version holds is the current one. *)
Lemma invalid_support_ok fs :
  invalid_support fs = false ->
  exists v lo hi, get fs "current" = VNum (NInt v) /\ num_value (get fs "minimum_supported") = Some lo /\
    num_value (get fs "maximum_supported") = Some hi /\ 0 < v <= max_safe /\
    num_leb lo (NInt v) = true /\ num_leb (NInt v) hi = true /\ current_only fs = only v.
Proof.
  unfold invalid_support, current_only, num_value.
  destruct (get fs "current") as [| | |c| | | |], (get fs "minimum_supported") as [| | |lo| | | |],
    (get fs "maximum_supported") as [| | |hi| | | |]; try done.
  rewrite !orb_false_iff, !negb_false_iff. intros [[[[[Hc H1] Hlo] Hhi] H2] H3].
  destruct c as [v| | | |]; try done. exists v, lo, hi. split_and!; try done.
  - unfold num_ltb, num_cmp in H1. destruct (Z.compare_spec v 1); (done || lia).
  - unfold isSafeInteger, max_safe in *. lia.
  - destruct lo as [lo| | | |]; try done; unfold num_gtb, num_ltb, num_leb, num_cmp in *;
      [destruct (Z.compare_spec v lo), (Z.compare_spec lo v)|destruct (Z.compare_spec v 0), (Z.compare_spec 0 v)];
      (done || lia).
  - destruct hi as [hi| | | |]; try done; unfold num_gtb, num_ltb, num_leb, num_cmp in *;
      [destruct (Z.compare_spec v hi), (Z.compare_spec hi v)|destruct (Z.compare_spec v 0), (Z.compare_spec 0 v)];
      (done || lia).
Qed.

Lemma only_ok v : 0 < v <= max_safe -> range_ok (only v).
Proof. intros. exists v, v. split_and!; (done || lia). Qed.

Lemma gen_commands_ok discovered l r :
  gen_commands discovered l = Ok r ->
  NoDup discovered.*1 -> NoDup r.*1 /\ exists new, r = discovered ++ new /\
    Forall (fun c => VObj c.2 ∈ l.*2 /\ get c.2 "command_type" = VStr c.1 /\ invalid_support c.2 = false) new.
Proof.
  revert discovered. induction l as [|[i v] l IH]; intros discovered; cbn [gen_commands].
  { intros [= <-] Hnd. split; [done|]. exists []. by rewrite app_nil_r. }
  intros Hg Hnd. apply bind_Ok in Hg as (fs & ->%object_ok & Hg).
  destruct (get fs "command_type") as [| | | |t| | |] eqn:Et; try done.
  apply bind_Ok in Hg as ([] & Hw%fail_when_ok & Hg). apply orb_false_iff in Hw as [Hw Hi].
  apply bool_decide_eq_false in Hw.
  assert (t ∉ discovered.*1) as Hn by (apply map_get_None; by apply eq_None_not_Some).
  apply IH in Hg as (Hnd' & new & -> & Hall).
  2: { rewrite fmap_app, NoDup_app. cbn. split_and!; [done| |apply NoDup_singleton].
       intros x Hx ->%list_elem_of_singleton. done. }
  split; [done|]. exists ((t, fs) :: new). rewrite <- app_assoc. split; [done|]. constructor.
  - split_and!; [apply list_elem_of_here|done..].
  - eapply Forall_impl; [exact Hall|]. intros c (? & ? & ?). split_and!; [by apply list_elem_of_further|done..].
Qed.

(** What the generated support is made of. *)
Lemma gen_support_ok fixtures operations support :
  gen_support fixtures operations = Ok support ->
  exists contract api items discovered, prop fixtures "contract" = VObj contract /\ get contract "api" = VObj api /\
    invalid_support api = false /\ get contract "commands" = VArr items /\ NoDup discovered.*1 /\
    Forall (fun c => VObj c.2 ∈ items /\ get c.2 "command_type" = VStr c.1 /\ invalid_support c.2 = false) discovered /\
    support_api support = current_only api /\
    (forall t, t ∈ marked_commands operations -> exists fs, (t, fs) ∈ discovered /\ (t, current_only fs) ∈ support_commands support) /\
    (forall t r, (t, r) ∈ support_commands support -> t ∈ marked_commands operations /\ exists fs, (t, fs) ∈ discovered /\ r = current_only fs).
Proof.
  unfold gen_support. intros Hg. apply bind_Ok in Hg as (contract & Hc & Hg).
  assert (prop fixtures "contract" = VObj contract) as Hcontract.
  { destruct fixtures; try done; by apply object_ok in Hc. }
  apply bind_Ok in Hg as (api & Hapi%object_ok & Hg). apply bind_Ok in Hg as ([] & Hi%fail_when_ok & Hg).
  apply bind_Ok in Hg as (items & Hitems & Hg). destruct (get contract "commands") as [| | | | |items'| |] eqn:Eitems; try done.
  injection Hitems as ->. apply bind_Ok in Hg as (discovered & Hd & Hg). apply bind_Ok in Hg as ([] & Hm & Hg).
  injection Hg as <-. apply gen_commands_ok in Hd as (Hnd & new & -> & Hall); [|constructor].
  rewrite indexed_snd in Hall. cbn [app] in *. exists contract, api, items, new. split_and!; try done.
  - intros t Ht. apply (for_each_elem _ _ _ _ Hm) in Ht as Hf. apply fail_when_ok, negb_false_iff, bool_decide_eq_true in Hf.
    destruct Hf as [fs Hf]. exists fs. split; [by apply map_get_elem|]. cbn. apply list_elem_of_omap. exists t. by rewrite Hf.
  - cbn. intros t r (t' & Ht' & Hf)%list_elem_of_omap. apply fmap_Some in Hf as (fs & Hfs & [= -> ->]).
    split; [done|]. exists fs. split; [by apply map_get_elem|done].
Qed.

(** ** What a run that succeeds has written *)

Lemma generate_inv `{RegExpSyntax} `{NumPrinter} openapi fixtures g :
  generate openapi fixtures = Ok g ->
  exists document paths operations, Forall (fun kv => accepted (object_keys (generated_schemas g)) kv.2) (generated_schemas g) /\
    gen_paths document (generated_schemas g) [] paths = Ok operations /\
    gen_support fixtures operations = Ok (generated_support g) /\
    generated_operations g = (fun o => (generated_id o, generated_operation o)) <$> operations.
Proof.
  unfold generate. intros Hg. apply bind_Ok in Hg as (document & _ & Hg). apply bind_Ok in Hg as (_ & _ & Hg).
  apply bind_Ok in Hg as (schemas & _ & Hg). apply bind_Ok in Hg as ([] & Hs & Hg).
  apply bind_Ok in Hg as (paths & _ & Hg). apply bind_Ok in Hg as (operations & Ho & Hg).
  apply bind_Ok in Hg as (support & Hsup & Hg). injection Hg as <-. cbn.
  exists document, paths, operations. split_and!; try done.
  apply Forall_forall. intros [name s] Hin. apply (for_each_elem _ _ _ _ Hs) in Hin.
  exact (validate_schema_accepted _ _ _ _ Hin).
Qed.

(** A schema the client checks values against. *)
Inductive client_schema (g : GeneratedTables) : jsval -> Prop :=
| of_component name s : (name, s) ∈ generated_schemas g -> client_schema g s
| of_body id op s : (id, op) ∈ generated_operations g -> bodySchema op = Some s -> client_schema g s
| of_path id op name s : (id, op) ∈ generated_operations g -> (name, s) ∈ pathSchemas op -> client_schema g s
| of_response id op status s :
    (id, op) ∈ generated_operations g -> (status, Some s) ∈ responses op -> client_schema g s.

(** C13: the tables of a run that succeeds are complete: operations have
    distinct ids and each has what the client asks of it; whatever schema the
    validator can come to from one of them is readable: no keyword is of a type
    it would ignore and every reference leads to a schema of the table. *)
Theorem generated_tables_sound `{RegExpSyntax} `{NumPrinter} openapi fixtures g :
  generate openapi fixtures = Ok g ->
  NoDup (generated_operations g).*1 /\
  Forall (fun o => operation_complete (generated_schemas g) o.2) (generated_operations g) /\
  (forall s s', client_schema g s -> rtc (schema_step (generated_schemas g)) s s' -> readable (generated_schemas g) s').
Proof.
  intros (document & paths & operations & Hs & (Hnd & _ & Hall)%gen_paths_complete & _ & Eo)%generate_inv.
  assert (Forall (fun o => operation_complete (generated_schemas g) o.2) (generated_operations g)) as Hops.
  { rewrite Eo, Forall_fmap. exact Hall. }
  split_and!; [rewrite Eo, <- list_fmap_compose; exact Hnd|exact Hops|].
  intros s s' Hc Hr. apply accepted_readable; [done|]. eapply accepted_reachable; [done| |done].
  pose proof (proj1 (Forall_forall _ _) Hs) as Hs'. pose proof (proj1 (Forall_forall _ _) Hops) as Hops'.
  destruct Hc as [name s Hin|id op s Hin Hb|id op name s Hin Hp|id op status s Hin Hr'].
  - apply (Hs' _ Hin).
  - by apply (body_accepted _ _ (Hops' _ Hin)).
  - by eapply (path_accepted _ _ (Hops' _ Hin)).
  - by eapply (responses_accepted _ _ (Hops' _ Hin)).
Qed.

Lemma generated_support_proper fixtures operations support :
  gen_support fixtures operations = Ok support -> proper_client support.
Proof.
  intros (contract & api & items & discovered & _ & _ & Hapi & _ & _ & Hall & Es & _ & Hcs)%gen_support_ok. split.
  - rewrite Es. apply invalid_support_ok in Hapi as (v & lo & hi & _ & _ & _ & ? & _ & _ & ->). by apply only_ok.
  - apply Forall_forall. intros [t r] Hin. apply Hcs in Hin as (_ & fs & Hfs & ->). rewrite Forall_forall in Hall.
    destruct (Hall _ Hfs) as (_ & _ & Hi). cbn in Hi |- *.
    apply invalid_support_ok in Hi as (v & lo & hi & _ & _ & _ & ? & _ & _ & ->). by apply only_ok.
Qed.

(** The version of a range the server advertises is one the server supports. *)
Lemma current_supported fs :
  invalid_support fs = false -> range_ok (read_range (VObj fs)) -> overlap (current_only fs) (read_range (VObj fs)).
Proof.
  intros (v & lo & hi & Hv & Hlo & Hhi & Hpos & Hl & Hh & ->)%invalid_support_ok (a & b & Ea & Eb & Hab & Hb).
  apply overlap_only. unfold read_range in Ea, Eb |- *. cbn [prop as_record support_range minimum_supported maximum_supported] in *.
  unfold num_value in Hlo, Hhi. destruct (get fs "minimum_supported"), (get fs "maximum_supported"); try done.
  injection Hlo as ->. injection Hhi as ->. cbn in Ea, Eb. subst. unfold num_leb, num_cmp in Hl, Hh.
  exists a, b. cbn. split_and!; try done; [destruct (Z.compare_spec a v)|destruct (Z.compare_spec v b)]; (done || lia).
Qed.

(** a generated client negotiates with the server it was generated for:
    when the support check can load the same fixtures, the client finds a
    version of the API and of every command it sends. *)
Theorem generated_client_negotiates `{RegExpSyntax} `{NumPrinter} openapi fixtures g path allow s :
  generate openapi fixtures = Ok g -> loadSupport path (Ok fixtures) allow = Ok (Some s) ->
  negotiates (generated_support g) (discovery_of fixtures).
Proof.
  intros (document & paths & operations & _ & _ & Hsup & _)%generate_inv.
  intros (d & [= <-] & Hacc & _)%loadSupport_discovery.
  assert (proper_client (generated_support g)) as Hp by by eapply generated_support_proper.
  apply (negotiates_iff _ _ Hp Hacc).
  apply gen_support_ok in Hsup as (contract & api & items & discovered & Ec & Ea & Hapi & Ei & _ & Hall & Es & Hm & Hcs).
  destruct Hacc as (_ & Hr%validateServerRange_ok & [_ Hok]%check_commands_ok).
  unfold discovery_of, read_discovery in Hr, Hok |- *. rewrite Ec in Hr, Hok |- *.
  cbn [prop as_record discovery_api discovery_commands] in *. rewrite Ea in Hr |- *. rewrite Ei in Hok |- *. split.
  - rewrite Es. by apply current_supported.
  - intros t client Hin. apply Hcs in Hin as (_ & fs & Hfs & ->). rewrite Forall_forall in Hall.
    destruct (Hall _ Hfs) as (Hitem & Ht & Hi). cbn in Hitem, Ht, Hi.
    set (f := fun c : jsval => {| command_type := default [] (as_string (prop c "command_type"));
                                   command_support := read_range c |}) in *.
    assert (f (VObj fs) ∈ f <$> items) as Hel by (by apply list_elem_of_fmap_2).
    exists (f (VObj fs)). split; [exact Hel|]. split.
    + unfold f. cbn [command_type prop as_record]. by rewrite Ht.
    + apply current_supported; [done|]. exact (proj2 (Hok _ Hel)).
Qed.
