(* ===== verification/OpenApiDocument.v ===== *)
(** The contract the client is generated from, value for value:
    [packages/api-contract/generated/openapi.json] and [runtime-fixtures.json].
    A response with the usual header and a path parameter that is a UUID are
    written once; everything else is as in the file. *)
From S2P Require Export ClientGenerator.

Definition openapi_response (description schema : string) : jsval := VObj [
  (js "content", VObj [(js "application/json", VObj [
    (js "schema", VObj [(js "$ref", VStr (js "#/components/schemas/" ++ js schema))])])]);
  (js "description", VStr (js description));
  (js "headers", VObj [(js "X-Request-ID", VObj [
    (js "description", VStr "Request correlation identifier."); (js "schema", VObj [(js "type", VStr "string")])])])].

Definition openapi_uuid_parameter (name title : string) : jsval := VObj [
  (js "in", VStr "path"); (js "name", VStr (js name)); (js "required", VBool true);
  (js "schema", VObj [(js "format", VStr "uuid"); (js "title", VStr (js title)); (js "type", VStr "string")])].

(** ** Schemas *)

Definition openapi_schema_CapabilitiesResponse : jsval := VObj [
    (js "additionalProperties", VBool false);
    (js "properties", VObj [
      (js "capabilities", VObj [
        (js "items", VObj [(js "$ref", VStr "#/components/schemas/Capability")]);
        (js "title", VStr "Capabilities");
        (js "type", VStr "array")]);
      (js "schema_version", VObj [(js "const", VStr "1"); (js "title", VStr "Schema Version"); (js "type", VStr "string")])]);
    (js "required", VArr [VStr "schema_version"; VStr "capabilities"]);
    (js "title", VStr "CapabilitiesResponse");
    (js "type", VStr "object")].

Definition openapi_schema_Capability : jsval := VObj [
    (js "additionalProperties", VBool false);
    (js "properties", VObj [
      (js "key", VObj [(js "title", VStr "Key"); (js "type", VStr "string")]);
      (js "status", VObj [
        (js "enum", VArr [VStr "available"; VStr "unavailable"]);
        (js "title", VStr "Status");
        (js "type", VStr "string")])]);
    (js "required", VArr [VStr "key"; VStr "status"]);
    (js "title", VStr "Capability");
    (js "type", VStr "object")].

Definition openapi_schema_CommandEntityVersion : jsval := VObj [
    (js "additionalProperties", VBool false);
    (js "properties", VObj [
      (js "entity_id", VObj [(js "format", VStr "uuid"); (js "title", VStr "Entity Id"); (js "type", VStr "string")]);
      (js "entity_type", VObj [(js "const", VStr "journey"); (js "title", VStr "Entity Type"); (js "type", VStr "string")]);
      (js "record_version", VObj [(js "minimum", VNum (NInt 1)); (js "title", VStr "Record Version"); (js "type", VStr "integer")])]);
    (js "required", VArr [VStr "entity_type"; VStr "entity_id"; VStr "record_version"]);
    (js "title", VStr "CommandEntityVersion");
    (js "type", VStr "object")].

Definition openapi_schema_CommandVersionSupport : jsval := VObj [
    (js "additionalProperties", VBool false);
    (js "properties", VObj [
      (js "command_type", VObj [
        (js "maxLength", VNum (NInt 120));
        (js "minLength", VNum (NInt 1));
        (js "pattern", VStr "^[a-z][a-z0-9_.-]*$");
        (js "title", VStr "Command Type");
        (js "type", VStr "string")]);
      (js "current", VObj [(js "minimum", VNum (NInt 1)); (js "title", VStr "Current"); (js "type", VStr "integer")]);
      (js "maximum_supported", VObj [
        (js "minimum", VNum (NInt 1));
        (js "title", VStr "Maximum Supported");
        (js "type", VStr "integer")]);
      (js "minimum_supported", VObj [
        (js "minimum", VNum (NInt 1));
        (js "title", VStr "Minimum Supported");
        (js "type", VStr "integer")])]);
    (js "required", VArr [VStr "current"; VStr "minimum_supported"; VStr "maximum_supported"; VStr "command_type"]);
    (js "title", VStr "CommandVersionSupport");
    (js "type", VStr "object")].

Definition openapi_schema_ContractDiscoveryResponse : jsval := VObj [
    (js "additionalProperties", VBool false);
    (js "properties", VObj [
      (js "api", VObj [(js "$ref", VStr "#/components/schemas/SupportedVersionRange")]);
      (js "commands", VObj [
        (js "items", VObj [(js "$ref", VStr "#/components/schemas/CommandVersionSupport")]);
        (js "title", VStr "Commands");
        (js "type", VStr "array")]);
      (js "schema_version", VObj [(js "const", VStr "1"); (js "title", VStr "Schema Version"); (js "type", VStr "string")])]);
    (js "required", VArr [VStr "schema_version"; VStr "api"; VStr "commands"]);
    (js "title", VStr "ContractDiscoveryResponse");
    (js "type", VStr "object")].

Definition openapi_schema_ErrorBody : jsval := VObj [
    (js "additionalProperties", VBool false);
    (js "properties", VObj [
      (js "code", VObj [(js "title", VStr "Code"); (js "type", VStr "string")]);
      (js "details", VObj [
        (js "additionalProperties", VBool true);
        (js "title", VStr "Details");
        (js "type", VStr "object")]);
      (js "message", VObj [(js "title", VStr "Message"); (js "type", VStr "string")]);
      (js "request_id", VObj [(js "title", VStr "Request Id"); (js "type", VStr "string")])]);
    (js "required", VArr [VStr "code"; VStr "message"; VStr "details"; VStr "request_id"]);
    (js "title", VStr "ErrorBody");
    (js "type", VStr "object")].

Definition openapi_schema_ErrorResponse : jsval := VObj [
    (js "additionalProperties", VBool false);
    (js "properties", VObj [(js "error", VObj [(js "$ref", VStr "#/components/schemas/ErrorBody")])]);
    (js "required", VArr [VStr "error"]);
    (js "title", VStr "ErrorResponse");
    (js "type", VStr "object")].

Definition openapi_schema_JourneyCreate : jsval := VObj [
    (js "additionalProperties", VBool false);
    (js "properties", VObj [
      (js "end_date", VObj [
        (js "anyOf", VArr [VObj [(js "format", VStr "date"); (js "type", VStr "string")]; VObj [(js "type", VStr "null")]]);
        (js "title", VStr "End Date")]);
      (js "id", VObj [
        (js "anyOf", VArr [VObj [(js "format", VStr "uuid"); (js "type", VStr "string")]; VObj [(js "type", VStr "null")]]);
        (js "title", VStr "Id")]);
      (js "name", VObj [
        (js "maxLength", VNum (NInt 200));
        (js "minLength", VNum (NInt 1));
        (js "title", VStr "Name");
        (js "type", VStr "string")]);
      (js "start_date", VObj [
        (js "anyOf", VArr [VObj [(js "format", VStr "date"); (js "type", VStr "string")]; VObj [(js "type", VStr "null")]]);
        (js "title", VStr "Start Date")])]);
    (js "required", VArr [VStr "name"]);
    (js "title", VStr "JourneyCreate");
    (js "type", VStr "object")].

Definition openapi_schema_JourneyListResponse : jsval := VObj [
    (js "additionalProperties", VBool false);
    (js "properties", VObj [
      (js "items", VObj [
        (js "items", VObj [(js "$ref", VStr "#/components/schemas/JourneyResponse")]);
        (js "title", VStr "Items");
        (js "type", VStr "array")])]);
    (js "required", VArr [VStr "items"]);
    (js "title", VStr "JourneyListResponse");
    (js "type", VStr "object")].

Definition openapi_schema_JourneyResponse : jsval := VObj [
    (js "additionalProperties", VBool false);
    (js "properties", VObj [
      (js "created_at", VObj [(js "format", VStr "date-time"); (js "title", VStr "Created At"); (js "type", VStr "string")]);
      (js "end_date", VObj [
        (js "anyOf", VArr [VObj [(js "format", VStr "date"); (js "type", VStr "string")]; VObj [(js "type", VStr "null")]]);
        (js "title", VStr "End Date")]);
      (js "id", VObj [(js "format", VStr "uuid"); (js "title", VStr "Id"); (js "type", VStr "string")]);
      (js "name", VObj [(js "title", VStr "Name"); (js "type", VStr "string")]);
      (js "record_version", VObj [(js "title", VStr "Record Version"); (js "type", VStr "integer")]);
      (js "start_date", VObj [
        (js "anyOf", VArr [VObj [(js "format", VStr "date"); (js "type", VStr "string")]; VObj [(js "type", VStr "null")]]);
        (js "title", VStr "Start Date")]);
      (js "status", VObj [
        (js "enum", VArr [VStr "planning"; VStr "active"; VStr "completed"; VStr "archived"]);
        (js "title", VStr "Status");
        (js "type", VStr "string")]);
      (js "updated_at", VObj [(js "format", VStr "date-time"); (js "title", VStr "Updated At"); (js "type", VStr "string")])]);
    (js "required", VArr [
      VStr "id";
      VStr "name";
      VStr "start_date";
      VStr "end_date";
      VStr "status";
      VStr "record_version";
      VStr "created_at";
      VStr "updated_at"]);
    (js "title", VStr "JourneyResponse");
    (js "type", VStr "object")].

Definition openapi_schema_JourneyUpdate : jsval := VObj [
    (js "additionalProperties", VBool false);
    (js "properties", VObj [
      (js "end_date", VObj [
        (js "anyOf", VArr [VObj [(js "format", VStr "date"); (js "type", VStr "string")]; VObj [(js "type", VStr "null")]]);
        (js "title", VStr "End Date")]);
      (js "expected_record_version", VObj [
        (js "minimum", VNum (NInt 1));
        (js "title", VStr "Expected Record Version");
        (js "type", VStr "integer")]);
      (js "name", VObj [
        (js "maxLength", VNum (NInt 200));
        (js "minLength", VNum (NInt 1));
        (js "title", VStr "Name");
        (js "type", VStr "string")]);
      (js "start_date", VObj [
        (js "anyOf", VArr [VObj [(js "format", VStr "date"); (js "type", VStr "string")]; VObj [(js "type", VStr "null")]]);
        (js "title", VStr "Start Date")]);
      (js "status", VObj [
        (js "enum", VArr [VStr "planning"; VStr "active"; VStr "completed"; VStr "archived"]);
        (js "title", VStr "Status");
        (js "type", VStr "string")])]);
    (js "required", VArr [VStr "name"; VStr "expected_record_version"; VStr "status"]);
    (js "title", VStr "JourneyUpdate");
    (js "type", VStr "object")].

Definition openapi_schema_JourneyUpdateCommand : jsval := VObj [
    (js "additionalProperties", VBool false);
    (js "properties", VObj [
      (js "command_id", VObj [(js "format", VStr "uuid"); (js "title", VStr "Command Id"); (js "type", VStr "string")]);
      (js "command_type", VObj [
        (js "const", VStr "journey.update");
        (js "title", VStr "Command Type");
        (js "type", VStr "string")]);
      (js "command_version", VObj [(js "minimum", VNum (NInt 1)); (js "title", VStr "Command Version"); (js "type", VStr "integer")]);
      (js "payload", VObj [(js "$ref", VStr "#/components/schemas/JourneyUpdateCommandPayload")])]);
    (js "required", VArr [VStr "command_id"; VStr "command_type"; VStr "command_version"; VStr "payload"]);
    (js "title", VStr "JourneyUpdateCommand");
    (js "type", VStr "object")].

Definition openapi_schema_JourneyUpdateCommandPayload : jsval := VObj [
    (js "additionalProperties", VBool false);
    (js "properties", VObj [
      (js "end_date", VObj [
        (js "anyOf", VArr [VObj [(js "format", VStr "date"); (js "type", VStr "string")]; VObj [(js "type", VStr "null")]]);
        (js "title", VStr "End Date")]);
      (js "expected_record_version", VObj [
        (js "minimum", VNum (NInt 1));
        (js "title", VStr "Expected Record Version");
        (js "type", VStr "integer")]);
      (js "journey_id", VObj [(js "format", VStr "uuid"); (js "title", VStr "Journey Id"); (js "type", VStr "string")]);
      (js "name", VObj [
        (js "maxLength", VNum (NInt 200));
        (js "minLength", VNum (NInt 1));
        (js "title", VStr "Name");
        (js "type", VStr "string")]);
      (js "start_date", VObj [
        (js "anyOf", VArr [VObj [(js "format", VStr "date"); (js "type", VStr "string")]; VObj [(js "type", VStr "null")]]);
        (js "title", VStr "Start Date")]);
      (js "status", VObj [
        (js "enum", VArr [VStr "planning"; VStr "active"; VStr "completed"; VStr "archived"]);
        (js "title", VStr "Status");
        (js "type", VStr "string")])]);
    (js "required", VArr [VStr "name"; VStr "expected_record_version"; VStr "status"; VStr "journey_id"]);
    (js "title", VStr "JourneyUpdateCommandPayload");
    (js "type", VStr "object")].

Definition openapi_schema_JourneyUpdateCommandResponse : jsval := VObj [
    (js "additionalProperties", VBool false);
    (js "properties", VObj [
      (js "change_set_id", VObj [(js "format", VStr "uuid"); (js "title", VStr "Change Set Id"); (js "type", VStr "string")]);
      (js "command_id", VObj [(js "format", VStr "uuid"); (js "title", VStr "Command Id"); (js "type", VStr "string")]);
      (js "command_type", VObj [
        (js "const", VStr "journey.update");
        (js "title", VStr "Command Type");
        (js "type", VStr "string")]);
      (js "command_version", VObj [(js "title", VStr "Command Version"); (js "type", VStr "integer")]);
      (js "outcome", VObj [(js "const", VStr "applied"); (js "title", VStr "Outcome"); (js "type", VStr "string")]);
      (js "replayed", VObj [(js "title", VStr "Replayed"); (js "type", VStr "boolean")]);
      (js "result", VObj [(js "$ref", VStr "#/components/schemas/CommandEntityVersion")])]);
    (js "required", VArr [
      VStr "command_id";
      VStr "command_type";
      VStr "command_version";
      VStr "outcome";
      VStr "replayed";
      VStr "change_set_id";
      VStr "result"]);
    (js "title", VStr "JourneyUpdateCommandResponse");
    (js "type", VStr "object")].

Definition openapi_schema_LiveResponse : jsval := VObj [
    (js "additionalProperties", VBool false);
    (js "properties", VObj [
      (js "status", VObj [(js "const", VStr "live"); (js "title", VStr "Status"); (js "type", VStr "string")])]);
    (js "required", VArr [VStr "status"]);
    (js "title", VStr "LiveResponse");
    (js "type", VStr "object")].

Definition openapi_schema_LoginRequest : jsval := VObj [
    (js "additionalProperties", VBool false);
    (js "properties", VObj [
      (js "email", VObj [(js "format", VStr "email"); (js "title", VStr "Email"); (js "type", VStr "string")]);
      (js "password", VObj [
        (js "maxLength", VNum (NInt 256));
        (js "minLength", VNum (NInt 1));
        (js "title", VStr "Password");
        (js "type", VStr "string")])]);
    (js "required", VArr [VStr "email"; VStr "password"]);
    (js "title", VStr "LoginRequest");
    (js "type", VStr "object")].

Definition openapi_schema_LogoutResponse : jsval := VObj [
    (js "additionalProperties", VBool false);
    (js "properties", VObj [
      (js "authenticated", VObj [(js "const", VBool false); (js "title", VStr "Authenticated"); (js "type", VStr "boolean")])]);
    (js "required", VArr [VStr "authenticated"]);
    (js "title", VStr "LogoutResponse");
    (js "type", VStr "object")].

Definition openapi_schema_PackingCreate : jsval := VObj [
    (js "additionalProperties", VBool false);
    (js "properties", VObj [
      (js "category", VObj [
        (js "enum", VArr [VStr "documents"; VStr "clothing"; VStr "toiletries"; VStr "electronics"; VStr "other"]);
        (js "title", VStr "Category");
        (js "type", VStr "string")]);
      (js "essential", VObj [(js "default", VBool false); (js "title", VStr "Essential"); (js "type", VStr "boolean")]);
      (js "id", VObj [
        (js "anyOf", VArr [VObj [(js "format", VStr "uuid"); (js "type", VStr "string")]; VObj [(js "type", VStr "null")]]);
        (js "title", VStr "Id")]);
      (js "label", VObj [
        (js "maxLength", VNum (NInt 200));
        (js "minLength", VNum (NInt 1));
        (js "title", VStr "Label");
        (js "type", VStr "string")]);
      (js "quantity", VObj [
        (js "maximum", VNum (NInt 99));
        (js "minimum", VNum (NInt 1));
        (js "title", VStr "Quantity");
        (js "type", VStr "integer")])]);
    (js "required", VArr [VStr "label"; VStr "category"; VStr "quantity"]);
    (js "title", VStr "PackingCreate");
    (js "type", VStr "object")].

Definition openapi_schema_PackingListResponse : jsval := VObj [
    (js "additionalProperties", VBool false);
    (js "properties", VObj [
      (js "items", VObj [
        (js "items", VObj [(js "$ref", VStr "#/components/schemas/PackingResponse")]);
        (js "title", VStr "Items");
        (js "type", VStr "array")])]);
    (js "required", VArr [VStr "items"]);
    (js "title", VStr "PackingListResponse");
    (js "type", VStr "object")].

Definition openapi_schema_PackingProgressUpdate : jsval := VObj [
    (js "additionalProperties", VBool false);
    (js "properties", VObj [
      (js "expected_record_version", VObj [
        (js "minimum", VNum (NInt 1));
        (js "title", VStr "Expected Record Version");
        (js "type", VStr "integer")]);
      (js "packed_quantity", VObj [
        (js "maximum", VNum (NInt 99));
        (js "minimum", VNum (NInt 0));
        (js "title", VStr "Packed Quantity");
        (js "type", VStr "integer")])]);
    (js "required", VArr [VStr "expected_record_version"; VStr "packed_quantity"]);
    (js "title", VStr "PackingProgressUpdate");
    (js "type", VStr "object")].

Definition openapi_schema_PackingResponse : jsval := VObj [
    (js "additionalProperties", VBool false);
    (js "properties", VObj [
      (js "category", VObj [
        (js "enum", VArr [VStr "documents"; VStr "clothing"; VStr "toiletries"; VStr "electronics"; VStr "other"]);
        (js "title", VStr "Category");
        (js "type", VStr "string")]);
      (js "created_at", VObj [(js "format", VStr "date-time"); (js "title", VStr "Created At"); (js "type", VStr "string")]);
      (js "essential", VObj [(js "default", VBool false); (js "title", VStr "Essential"); (js "type", VStr "boolean")]);
      (js "id", VObj [(js "format", VStr "uuid"); (js "title", VStr "Id"); (js "type", VStr "string")]);
      (js "journey_id", VObj [(js "format", VStr "uuid"); (js "title", VStr "Journey Id"); (js "type", VStr "string")]);
      (js "label", VObj [
        (js "maxLength", VNum (NInt 200));
        (js "minLength", VNum (NInt 1));
        (js "title", VStr "Label");
        (js "type", VStr "string")]);
      (js "packed_quantity", VObj [(js "title", VStr "Packed Quantity"); (js "type", VStr "integer")]);
      (js "quantity", VObj [
        (js "maximum", VNum (NInt 99));
        (js "minimum", VNum (NInt 1));
        (js "title", VStr "Quantity");
        (js "type", VStr "integer")]);
      (js "record_version", VObj [(js "title", VStr "Record Version"); (js "type", VStr "integer")]);
      (js "updated_at", VObj [(js "format", VStr "date-time"); (js "title", VStr "Updated At"); (js "type", VStr "string")])]);
    (js "required", VArr [
      VStr "label";
      VStr "category";
      VStr "quantity";
      VStr "id";
      VStr "journey_id";
      VStr "packed_quantity";
      VStr "record_version";
      VStr "created_at";
      VStr "updated_at"]);
    (js "title", VStr "PackingResponse");
    (js "type", VStr "object")].

Definition openapi_schema_PackingUpdate : jsval := VObj [
    (js "additionalProperties", VBool false);
    (js "properties", VObj [
      (js "category", VObj [
        (js "enum", VArr [VStr "documents"; VStr "clothing"; VStr "toiletries"; VStr "electronics"; VStr "other"]);
        (js "title", VStr "Category");
        (js "type", VStr "string")]);
      (js "essential", VObj [(js "default", VBool false); (js "title", VStr "Essential"); (js "type", VStr "boolean")]);
      (js "expected_record_version", VObj [
        (js "minimum", VNum (NInt 1));
        (js "title", VStr "Expected Record Version");
        (js "type", VStr "integer")]);
      (js "label", VObj [
        (js "maxLength", VNum (NInt 200));
        (js "minLength", VNum (NInt 1));
        (js "title", VStr "Label");
        (js "type", VStr "string")]);
      (js "quantity", VObj [
        (js "maximum", VNum (NInt 99));
        (js "minimum", VNum (NInt 1));
        (js "title", VStr "Quantity");
        (js "type", VStr "integer")])]);
    (js "required", VArr [VStr "label"; VStr "category"; VStr "quantity"; VStr "expected_record_version"]);
    (js "title", VStr "PackingUpdate");
    (js "type", VStr "object")].

Definition openapi_schema_ReadinessChecks : jsval := VObj [
    (js "additionalProperties", VBool false);
    (js "properties", VObj [
      (js "api", VObj [(js "const", VStr "ready"); (js "title", VStr "Api"); (js "type", VStr "string")]);
      (js "database", VObj [
        (js "enum", VArr [VStr "ready"; VStr "unavailable"]);
        (js "title", VStr "Database");
        (js "type", VStr "string")])]);
    (js "required", VArr [VStr "api"; VStr "database"]);
    (js "title", VStr "ReadinessChecks");
    (js "type", VStr "object")].

Definition openapi_schema_ReadyResponse : jsval := VObj [
    (js "additionalProperties", VBool false);
    (js "properties", VObj [
      (js "checks", VObj [(js "$ref", VStr "#/components/schemas/ReadinessChecks")]);
      (js "status", VObj [
        (js "enum", VArr [VStr "ready"; VStr "not_ready"]);
        (js "title", VStr "Status");
        (js "type", VStr "string")])]);
    (js "required", VArr [VStr "status"; VStr "checks"]);
    (js "title", VStr "ReadyResponse");
    (js "type", VStr "object")].

Definition openapi_schema_RegisterRequest : jsval := VObj [
    (js "additionalProperties", VBool false);
    (js "properties", VObj [
      (js "display_name", VObj [
        (js "maxLength", VNum (NInt 120));
        (js "minLength", VNum (NInt 1));
        (js "title", VStr "Display Name");
        (js "type", VStr "string")]);
      (js "email", VObj [(js "format", VStr "email"); (js "title", VStr "Email"); (js "type", VStr "string")]);
      (js "password", VObj [
        (js "maxLength", VNum (NInt 256));
        (js "minLength", VNum (NInt 12));
        (js "title", VStr "Password");
        (js "type", VStr "string")])]);
    (js "required", VArr [VStr "email"; VStr "password"; VStr "display_name"]);
    (js "title", VStr "RegisterRequest");
    (js "type", VStr "object")].

Definition openapi_schema_SegmentCreate : jsval := VObj [
    (js "additionalProperties", VBool false);
    (js "properties", VObj [
      (js "destination_name", VObj [
        (js "anyOf", VArr [
          VObj [(js "maxLength", VNum (NInt 200)); (js "type", VStr "string")];
          VObj [(js "type", VStr "null")]]);
        (js "title", VStr "Destination Name")]);
      (js "end_date", VObj [
        (js "anyOf", VArr [VObj [(js "format", VStr "date"); (js "type", VStr "string")]; VObj [(js "type", VStr "null")]]);
        (js "title", VStr "End Date")]);
      (js "id", VObj [
        (js "anyOf", VArr [VObj [(js "format", VStr "uuid"); (js "type", VStr "string")]; VObj [(js "type", VStr "null")]]);
        (js "title", VStr "Id")]);
      (js "kind", VObj [
        (js "enum", VArr [VStr "stay"; VStr "move"]);
        (js "title", VStr "Kind");
        (js "type", VStr "string")]);
      (js "notes", VObj [
        (js "default", VStr "");
        (js "maxLength", VNum (NInt 5000));
        (js "title", VStr "Notes");
        (js "type", VStr "string")]);
      (js "origin_name", VObj [
        (js "anyOf", VArr [
          VObj [(js "maxLength", VNum (NInt 200)); (js "type", VStr "string")];
          VObj [(js "type", VStr "null")]]);
        (js "title", VStr "Origin Name")]);
      (js "place_name", VObj [
        (js "anyOf", VArr [
          VObj [(js "maxLength", VNum (NInt 200)); (js "type", VStr "string")];
          VObj [(js "type", VStr "null")]]);
        (js "title", VStr "Place Name")]);
      (js "start_date", VObj [
        (js "anyOf", VArr [VObj [(js "format", VStr "date"); (js "type", VStr "string")]; VObj [(js "type", VStr "null")]]);
        (js "title", VStr "Start Date")]);
      (js "transport_mode", VObj [
        (js "default", VStr "");
        (js "maxLength", VNum (NInt 100));
        (js "title", VStr "Transport Mode");
        (js "type", VStr "string")])]);
    (js "required", VArr [VStr "kind"]);
    (js "title", VStr "SegmentCreate");
    (js "type", VStr "object")].

Definition openapi_schema_SegmentListResponse : jsval := VObj [
    (js "additionalProperties", VBool false);
    (js "properties", VObj [
      (js "items", VObj [
        (js "items", VObj [(js "$ref", VStr "#/components/schemas/SegmentResponse")]);
        (js "title", VStr "Items");
        (js "type", VStr "array")])]);
    (js "required", VArr [VStr "items"]);
    (js "title", VStr "SegmentListResponse");
    (js "type", VStr "object")].

Definition openapi_schema_SegmentReorder : jsval := VObj [
    (js "additionalProperties", VBool false);
    (js "properties", VObj [
      (js "expected_record_version", VObj [
        (js "minimum", VNum (NInt 1));
        (js "title", VStr "Expected Record Version");
        (js "type", VStr "integer")]);
      (js "new_position", VObj [(js "minimum", VNum (NInt 0)); (js "title", VStr "New Position"); (js "type", VStr "integer")])]);
    (js "required", VArr [VStr "expected_record_version"; VStr "new_position"]);
    (js "title", VStr "SegmentReorder");
    (js "type", VStr "object")].

Definition openapi_schema_SegmentResponse : jsval := VObj [
    (js "additionalProperties", VBool false);
    (js "properties", VObj [
      (js "created_at", VObj [(js "format", VStr "date-time"); (js "title", VStr "Created At"); (js "type", VStr "string")]);
      (js "destination_name", VObj [
        (js "anyOf", VArr [
          VObj [(js "maxLength", VNum (NInt 200)); (js "type", VStr "string")];
          VObj [(js "type", VStr "null")]]);
        (js "title", VStr "Destination Name")]);
      (js "end_date", VObj [
        (js "anyOf", VArr [VObj [(js "format", VStr "date"); (js "type", VStr "string")]; VObj [(js "type", VStr "null")]]);
        (js "title", VStr "End Date")]);
      (js "id", VObj [(js "format", VStr "uuid"); (js "title", VStr "Id"); (js "type", VStr "string")]);
      (js "journey_id", VObj [(js "format", VStr "uuid"); (js "title", VStr "Journey Id"); (js "type", VStr "string")]);
      (js "kind", VObj [
        (js "enum", VArr [VStr "stay"; VStr "move"]);
        (js "title", VStr "Kind");
        (js "type", VStr "string")]);
      (js "notes", VObj [
        (js "default", VStr "");
        (js "maxLength", VNum (NInt 5000));
        (js "title", VStr "Notes");
        (js "type", VStr "string")]);
      (js "origin_name", VObj [
        (js "anyOf", VArr [
          VObj [(js "maxLength", VNum (NInt 200)); (js "type", VStr "string")];
          VObj [(js "type", VStr "null")]]);
        (js "title", VStr "Origin Name")]);
      (js "place_name", VObj [
        (js "anyOf", VArr [
          VObj [(js "maxLength", VNum (NInt 200)); (js "type", VStr "string")];
          VObj [(js "type", VStr "null")]]);
        (js "title", VStr "Place Name")]);
      (js "position", VObj [(js "title", VStr "Position"); (js "type", VStr "integer")]);
      (js "record_version", VObj [(js "title", VStr "Record Version"); (js "type", VStr "integer")]);
      (js "start_date", VObj [
        (js "anyOf", VArr [VObj [(js "format", VStr "date"); (js "type", VStr "string")]; VObj [(js "type", VStr "null")]]);
        (js "title", VStr "Start Date")]);
      (js "transport_mode", VObj [
        (js "default", VStr "");
        (js "maxLength", VNum (NInt 100));
        (js "title", VStr "Transport Mode");
        (js "type", VStr "string")]);
      (js "updated_at", VObj [(js "format", VStr "date-time"); (js "title", VStr "Updated At"); (js "type", VStr "string")])]);
    (js "required", VArr [
      VStr "kind";
      VStr "id";
      VStr "journey_id";
      VStr "position";
      VStr "record_version";
      VStr "created_at";
      VStr "updated_at"]);
    (js "title", VStr "SegmentResponse");
    (js "type", VStr "object")].

Definition openapi_schema_SegmentUpdate : jsval := VObj [
    (js "additionalProperties", VBool false);
    (js "properties", VObj [
      (js "destination_name", VObj [
        (js "anyOf", VArr [
          VObj [(js "maxLength", VNum (NInt 200)); (js "type", VStr "string")];
          VObj [(js "type", VStr "null")]]);
        (js "title", VStr "Destination Name")]);
      (js "end_date", VObj [
        (js "anyOf", VArr [VObj [(js "format", VStr "date"); (js "type", VStr "string")]; VObj [(js "type", VStr "null")]]);
        (js "title", VStr "End Date")]);
      (js "expected_record_version", VObj [
        (js "minimum", VNum (NInt 1));
        (js "title", VStr "Expected Record Version");
        (js "type", VStr "integer")]);
      (js "kind", VObj [
        (js "enum", VArr [VStr "stay"; VStr "move"]);
        (js "title", VStr "Kind");
        (js "type", VStr "string")]);
      (js "notes", VObj [
        (js "default", VStr "");
        (js "maxLength", VNum (NInt 5000));
        (js "title", VStr "Notes");
        (js "type", VStr "string")]);
      (js "origin_name", VObj [
        (js "anyOf", VArr [
          VObj [(js "maxLength", VNum (NInt 200)); (js "type", VStr "string")];
          VObj [(js "type", VStr "null")]]);
        (js "title", VStr "Origin Name")]);
      (js "place_name", VObj [
        (js "anyOf", VArr [
          VObj [(js "maxLength", VNum (NInt 200)); (js "type", VStr "string")];
          VObj [(js "type", VStr "null")]]);
        (js "title", VStr "Place Name")]);
      (js "start_date", VObj [
        (js "anyOf", VArr [VObj [(js "format", VStr "date"); (js "type", VStr "string")]; VObj [(js "type", VStr "null")]]);
        (js "title", VStr "Start Date")]);
      (js "transport_mode", VObj [
        (js "default", VStr "");
        (js "maxLength", VNum (NInt 100));
        (js "title", VStr "Transport Mode");
        (js "type", VStr "string")])]);
    (js "required", VArr [VStr "kind"; VStr "expected_record_version"]);
    (js "title", VStr "SegmentUpdate");
    (js "type", VStr "object")].

Definition openapi_schema_SessionResponse : jsval := VObj [
    (js "additionalProperties", VBool false);
    (js "properties", VObj [
      (js "authenticated", VObj [(js "const", VBool true); (js "title", VStr "Authenticated"); (js "type", VStr "boolean")]);
      (js "user", VObj [(js "$ref", VStr "#/components/schemas/UserResponse")])]);
    (js "required", VArr [VStr "authenticated"; VStr "user"]);
    (js "title", VStr "SessionResponse");
    (js "type", VStr "object")].

Definition openapi_schema_SupportedVersionRange : jsval := VObj [
    (js "additionalProperties", VBool false);
    (js "properties", VObj [
      (js "current", VObj [(js "minimum", VNum (NInt 1)); (js "title", VStr "Current"); (js "type", VStr "integer")]);
      (js "maximum_supported", VObj [
        (js "minimum", VNum (NInt 1));
        (js "title", VStr "Maximum Supported");
        (js "type", VStr "integer")]);
      (js "minimum_supported", VObj [
        (js "minimum", VNum (NInt 1));
        (js "title", VStr "Minimum Supported");
        (js "type", VStr "integer")])]);
    (js "required", VArr [VStr "current"; VStr "minimum_supported"; VStr "maximum_supported"]);
    (js "title", VStr "SupportedVersionRange");
    (js "type", VStr "object")].

Definition openapi_schema_UserResponse : jsval := VObj [
    (js "additionalProperties", VBool false);
    (js "properties", VObj [
      (js "display_name", VObj [(js "title", VStr "Display Name"); (js "type", VStr "string")]);
      (js "email", VObj [(js "format", VStr "email"); (js "title", VStr "Email"); (js "type", VStr "string")]);
      (js "id", VObj [(js "format", VStr "uuid"); (js "title", VStr "Id"); (js "type", VStr "string")]);
      (js "workspace_id", VObj [(js "format", VStr "uuid"); (js "title", VStr "Workspace Id"); (js "type", VStr "string")])]);
    (js "required", VArr [VStr "id"; VStr "email"; VStr "display_name"; VStr "workspace_id"]);
    (js "title", VStr "UserResponse");
    (js "type", VStr "object")].

Definition openapi_schema_VersionResponse : jsval := VObj [
    (js "additionalProperties", VBool false);
    (js "properties", VObj [
      (js "api_version", VObj [(js "const", VStr "1"); (js "title", VStr "Api Version"); (js "type", VStr "string")]);
      (js "application", VObj [(js "const", VStr "Trax OS"); (js "title", VStr "Application"); (js "type", VStr "string")]);
      (js "version", VObj [(js "pattern", VStr "^\d+\.\d+\.\d+$"); (js "title", VStr "Version"); (js "type", VStr "string")])]);
    (js "required", VArr [VStr "application"; VStr "version"; VStr "api_version"]);
    (js "title", VStr "VersionResponse");
    (js "type", VStr "object")].

Definition openapi_schemas : Schema := [
  (js "CapabilitiesResponse", openapi_schema_CapabilitiesResponse);
  (js "Capability", openapi_schema_Capability);
  (js "CommandEntityVersion", openapi_schema_CommandEntityVersion);
  (js "CommandVersionSupport", openapi_schema_CommandVersionSupport);
  (js "ContractDiscoveryResponse", openapi_schema_ContractDiscoveryResponse);
  (js "ErrorBody", openapi_schema_ErrorBody);
  (js "ErrorResponse", openapi_schema_ErrorResponse);
  (js "JourneyCreate", openapi_schema_JourneyCreate);
  (js "JourneyListResponse", openapi_schema_JourneyListResponse);
  (js "JourneyResponse", openapi_schema_JourneyResponse);
  (js "JourneyUpdate", openapi_schema_JourneyUpdate);
  (js "JourneyUpdateCommand", openapi_schema_JourneyUpdateCommand);
  (js "JourneyUpdateCommandPayload", openapi_schema_JourneyUpdateCommandPayload);
  (js "JourneyUpdateCommandResponse", openapi_schema_JourneyUpdateCommandResponse);
  (js "LiveResponse", openapi_schema_LiveResponse);
  (js "LoginRequest", openapi_schema_LoginRequest);
  (js "LogoutResponse", openapi_schema_LogoutResponse);
  (js "PackingCreate", openapi_schema_PackingCreate);
  (js "PackingListResponse", openapi_schema_PackingListResponse);
  (js "PackingProgressUpdate", openapi_schema_PackingProgressUpdate);
  (js "PackingResponse", openapi_schema_PackingResponse);
  (js "PackingUpdate", openapi_schema_PackingUpdate);
  (js "ReadinessChecks", openapi_schema_ReadinessChecks);
  (js "ReadyResponse", openapi_schema_ReadyResponse);
  (js "RegisterRequest", openapi_schema_RegisterRequest);
  (js "SegmentCreate", openapi_schema_SegmentCreate);
  (js "SegmentListResponse", openapi_schema_SegmentListResponse);
  (js "SegmentReorder", openapi_schema_SegmentReorder);
  (js "SegmentResponse", openapi_schema_SegmentResponse);
  (js "SegmentUpdate", openapi_schema_SegmentUpdate);
  (js "SessionResponse", openapi_schema_SessionResponse);
  (js "SupportedVersionRange", openapi_schema_SupportedVersionRange);
  (js "UserResponse", openapi_schema_UserResponse);
  (js "VersionResponse", openapi_schema_VersionResponse)].

(** ** Paths *)

Definition openapi_path_api_contract : jsval := VObj [
    (js "get", VObj [
      (js "description", VStr "Advertise inclusive API and canonical command support ranges.");
      (js "operationId", VStr "contract_discovery_api_contract_get");
      (js "responses", VObj [
        (js "200", openapi_response "Successful Response" "ContractDiscoveryResponse");
        (js "401", openapi_response "Authentication required or credentials invalid" "ErrorResponse");
        (js "403", openapi_response "Authenticated request is not permitted or CSRF check failed" "ErrorResponse");
        (js "404", openapi_response "Resource not found" "ErrorResponse");
        (js "409", openapi_response "Version or uniqueness conflict" "ErrorResponse");
        (js "422", openapi_response "Request validation failed" "ErrorResponse");
        (js "500", openapi_response "Unexpected server error" "ErrorResponse")]);
      (js "summary", VStr "Contract Discovery");
      (js "tags", VArr [VStr "instance"])])].

Definition openapi_path_auth_login : jsval := VObj [
    (js "post", VObj [
      (js "operationId", VStr "login_route_api_v1_auth_login_post");
      (js "requestBody", VObj [
        (js "content", VObj [
          (js "application/json", VObj [(js "schema", VObj [(js "$ref", VStr "#/components/schemas/LoginRequest")])])]);
        (js "required", VBool true)]);
      (js "responses", VObj [
        (js "200", openapi_response "Successful Response" "SessionResponse");
        (js "401", openapi_response "Authentication required or credentials invalid" "ErrorResponse");
        (js "403", openapi_response "Authenticated request is not permitted or CSRF check failed" "ErrorResponse");
        (js "404", openapi_response "Resource not found" "ErrorResponse");
        (js "409", openapi_response "Version or uniqueness conflict" "ErrorResponse");
        (js "422", openapi_response "Request validation failed" "ErrorResponse");
        (js "500", openapi_response "Unexpected server error" "ErrorResponse")]);
      (js "summary", VStr "Login Route")])].

Definition openapi_path_auth_logout : jsval := VObj [
    (js "post", VObj [
      (js "operationId", VStr "logout_route_api_v1_auth_logout_post");
      (js "parameters", VArr [
        VObj [
          (js "description", VStr "Double-submit token matching the trax_csrf cookie.");
          (js "in", VStr "header");
          (js "name", VStr "X-CSRF-Token");
          (js "required", VBool true);
          (js "schema", VObj [(js "type", VStr "string")])]]);
      (js "responses", VObj [
        (js "200", openapi_response "Successful Response" "LogoutResponse");
        (js "401", openapi_response "Authentication required or credentials invalid" "ErrorResponse");
        (js "403", openapi_response "Authenticated request is not permitted or CSRF check failed" "ErrorResponse");
        (js "404", openapi_response "Resource not found" "ErrorResponse");
        (js "409", openapi_response "Version or uniqueness conflict" "ErrorResponse");
        (js "422", openapi_response "Request validation failed" "ErrorResponse");
        (js "500", openapi_response "Unexpected server error" "ErrorResponse")]);
      (js "security", VArr [VObj [(js "SessionCookie", VArr [])]]);
      (js "summary", VStr "Logout Route")])].

Definition openapi_path_auth_register : jsval := VObj [
    (js "post", VObj [
      (js "operationId", VStr "register_route_api_v1_auth_register_post");
      (js "requestBody", VObj [
        (js "content", VObj [
          (js "application/json", VObj [(js "schema", VObj [(js "$ref", VStr "#/components/schemas/RegisterRequest")])])]);
        (js "required", VBool true)]);
      (js "responses", VObj [
        (js "201", openapi_response "Successful Response" "SessionResponse");
        (js "401", openapi_response "Authentication required or credentials invalid" "ErrorResponse");
        (js "403", openapi_response "Authenticated request is not permitted or CSRF check failed" "ErrorResponse");
        (js "404", openapi_response "Resource not found" "ErrorResponse");
        (js "409", openapi_response "Version or uniqueness conflict" "ErrorResponse");
        (js "422", openapi_response "Request validation failed" "ErrorResponse");
        (js "500", openapi_response "Unexpected server error" "ErrorResponse")]);
      (js "summary", VStr "Register Route")])].

Definition openapi_path_auth_session : jsval := VObj [
    (js "get", VObj [
      (js "operationId", VStr "session_route_api_v1_auth_session_get");
      (js "responses", VObj [
        (js "200", openapi_response "Successful Response" "SessionResponse");
        (js "401", openapi_response "Authentication required or credentials invalid" "ErrorResponse");
        (js "403", openapi_response "Authenticated request is not permitted or CSRF check failed" "ErrorResponse");
        (js "404", openapi_response "Resource not found" "ErrorResponse");
        (js "409", openapi_response "Version or uniqueness conflict" "ErrorResponse");
        (js "422", openapi_response "Request validation failed" "ErrorResponse");
        (js "500", openapi_response "Unexpected server error" "ErrorResponse")]);
      (js "security", VArr [VObj [(js "SessionCookie", VArr [])]]);
      (js "summary", VStr "Session Route")])].

Definition openapi_path_capabilities : jsval := VObj [
    (js "get", VObj [
      (js "description", VStr "Advertise only capabilities provided by this foundation.");
      (js "operationId", VStr "capabilities_api_v1_capabilities_get");
      (js "responses", VObj [
        (js "200", openapi_response "Successful Response" "CapabilitiesResponse");
        (js "401", openapi_response "Authentication required or credentials invalid" "ErrorResponse");
        (js "403", openapi_response "Authenticated request is not permitted or CSRF check failed" "ErrorResponse");
        (js "404", openapi_response "Resource not found" "ErrorResponse");
        (js "409", openapi_response "Version or uniqueness conflict" "ErrorResponse");
        (js "422", openapi_response "Request validation failed" "ErrorResponse");
        (js "500", openapi_response "Unexpected server error" "ErrorResponse")]);
      (js "summary", VStr "Capabilities");
      (js "tags", VArr [VStr "instance"])])].

Definition openapi_path_commands_journey_update : jsval := VObj [
    (js "post", VObj [
      (js "operationId", VStr "canonical_update_journey_api_v1_commands_journey_update_post");
      (js "parameters", VArr [
        VObj [
          (js "description", VStr "Double-submit token matching the trax_csrf cookie.");
          (js "in", VStr "header");
          (js "name", VStr "X-CSRF-Token");
          (js "required", VBool true);
          (js "schema", VObj [(js "type", VStr "string")])]]);
      (js "requestBody", VObj [
        (js "content", VObj [
          (js "application/json", VObj [(js "schema", VObj [(js "$ref", VStr "#/components/schemas/JourneyUpdateCommand")])])]);
        (js "required", VBool true)]);
      (js "responses", VObj [
        (js "200", openapi_response "Successful Response" "JourneyUpdateCommandResponse");
        (js "401", openapi_response "Authentication required or credentials invalid" "ErrorResponse");
        (js "403", openapi_response "Authenticated request is not permitted or CSRF check failed" "ErrorResponse");
        (js "404", openapi_response "Resource not found" "ErrorResponse");
        (js "409", openapi_response "Version or uniqueness conflict" "ErrorResponse");
        (js "422", openapi_response "Request validation failed" "ErrorResponse");
        (js "500", openapi_response "Unexpected server error" "ErrorResponse")]);
      (js "security", VArr [VObj [(js "SessionCookie", VArr [])]]);
      (js "summary", VStr "Canonical Update Journey");
      (js "x-trax-command-type", VStr "journey.update")])].

Definition openapi_path_journeys : jsval := VObj [
    (js "get", VObj [
      (js "operationId", VStr "list_journeys_api_v1_journeys_get");
      (js "responses", VObj [
        (js "200", openapi_response "Successful Response" "JourneyListResponse");
        (js "401", openapi_response "Authentication required or credentials invalid" "ErrorResponse");
        (js "403", openapi_response "Authenticated request is not permitted or CSRF check failed" "ErrorResponse");
        (js "404", openapi_response "Resource not found" "ErrorResponse");
        (js "409", openapi_response "Version or uniqueness conflict" "ErrorResponse");
        (js "422", openapi_response "Request validation failed" "ErrorResponse");
        (js "500", openapi_response "Unexpected server error" "ErrorResponse")]);
      (js "security", VArr [VObj [(js "SessionCookie", VArr [])]]);
      (js "summary", VStr "List Journeys")]);
    (js "post", VObj [
      (js "operationId", VStr "create_journey_api_v1_journeys_post");
      (js "parameters", VArr [
        VObj [
          (js "description", VStr "Double-submit token matching the trax_csrf cookie.");
          (js "in", VStr "header");
          (js "name", VStr "X-CSRF-Token");
          (js "required", VBool true);
          (js "schema", VObj [(js "type", VStr "string")])]]);
      (js "requestBody", VObj [
        (js "content", VObj [
          (js "application/json", VObj [(js "schema", VObj [(js "$ref", VStr "#/components/schemas/JourneyCreate")])])]);
        (js "required", VBool true)]);
      (js "responses", VObj [
        (js "201", openapi_response "Successful Response" "JourneyResponse");
        (js "401", openapi_response "Authentication required or credentials invalid" "ErrorResponse");
        (js "403", openapi_response "Authenticated request is not permitted or CSRF check failed" "ErrorResponse");
        (js "404", openapi_response "Resource not found" "ErrorResponse");
        (js "409", openapi_response "Version or uniqueness conflict" "ErrorResponse");
        (js "422", openapi_response "Request validation failed" "ErrorResponse");
        (js "500", openapi_response "Unexpected server error" "ErrorResponse")]);
      (js "security", VArr [VObj [(js "SessionCookie", VArr [])]]);
      (js "summary", VStr "Create Journey")])].

Definition openapi_path_journeys__journey_id_ : jsval := VObj [
    (js "delete", VObj [
      (js "operationId", VStr "delete_journey_api_v1_journeys__journey_id__delete");
      (js "parameters", VArr [
        openapi_uuid_parameter "journey_id" "Journey Id";
        VObj [
          (js "description", VStr "Double-submit token matching the trax_csrf cookie.");
          (js "in", VStr "header");
          (js "name", VStr "X-CSRF-Token");
          (js "required", VBool true);
          (js "schema", VObj [(js "type", VStr "string")])]]);
      (js "responses", VObj [
        (js "204", VObj [
          (js "description", VStr "Successful Response");
          (js "headers", VObj [
            (js "X-Request-ID", VObj [
              (js "description", VStr "Request correlation identifier.");
              (js "schema", VObj [(js "type", VStr "string")])])])]);
        (js "401", openapi_response "Authentication required or credentials invalid" "ErrorResponse");
        (js "403", openapi_response "Authenticated request is not permitted or CSRF check failed" "ErrorResponse");
        (js "404", openapi_response "Resource not found" "ErrorResponse");
        (js "409", openapi_response "Version or uniqueness conflict" "ErrorResponse");
        (js "422", openapi_response "Request validation failed" "ErrorResponse");
        (js "500", openapi_response "Unexpected server error" "ErrorResponse")]);
      (js "security", VArr [VObj [(js "SessionCookie", VArr [])]]);
      (js "summary", VStr "Delete Journey")]);
    (js "get", VObj [
      (js "operationId", VStr "get_journey_api_v1_journeys__journey_id__get");
      (js "parameters", VArr [openapi_uuid_parameter "journey_id" "Journey Id"]);
      (js "responses", VObj [
        (js "200", openapi_response "Successful Response" "JourneyResponse");
        (js "401", openapi_response "Authentication required or credentials invalid" "ErrorResponse");
        (js "403", openapi_response "Authenticated request is not permitted or CSRF check failed" "ErrorResponse");
        (js "404", openapi_response "Resource not found" "ErrorResponse");
        (js "409", openapi_response "Version or uniqueness conflict" "ErrorResponse");
        (js "422", openapi_response "Request validation failed" "ErrorResponse");
        (js "500", openapi_response "Unexpected server error" "ErrorResponse")]);
      (js "security", VArr [VObj [(js "SessionCookie", VArr [])]]);
      (js "summary", VStr "Get Journey")]);
    (js "put", VObj [
      (js "operationId", VStr "update_journey_api_v1_journeys__journey_id__put");
      (js "parameters", VArr [
        openapi_uuid_parameter "journey_id" "Journey Id";
        VObj [
          (js "description", VStr "Double-submit token matching the trax_csrf cookie.");
          (js "in", VStr "header");
          (js "name", VStr "X-CSRF-Token");
          (js "required", VBool true);
          (js "schema", VObj [(js "type", VStr "string")])]]);
      (js "requestBody", VObj [
        (js "content", VObj [
          (js "application/json", VObj [(js "schema", VObj [(js "$ref", VStr "#/components/schemas/JourneyUpdate")])])]);
        (js "required", VBool true)]);
      (js "responses", VObj [
        (js "200", openapi_response "Successful Response" "JourneyResponse");
        (js "401", openapi_response "Authentication required or credentials invalid" "ErrorResponse");
        (js "403", openapi_response "Authenticated request is not permitted or CSRF check failed" "ErrorResponse");
        (js "404", openapi_response "Resource not found" "ErrorResponse");
        (js "409", openapi_response "Version or uniqueness conflict" "ErrorResponse");
        (js "422", openapi_response "Request validation failed" "ErrorResponse");
        (js "500", openapi_response "Unexpected server error" "ErrorResponse")]);
      (js "security", VArr [VObj [(js "SessionCookie", VArr [])]]);
      (js "summary", VStr "Update Journey")])].

Definition openapi_path_journeys__journey_id__packing : jsval := VObj [
    (js "get", VObj [
      (js "operationId", VStr "list_packing_api_v1_journeys__journey_id__packing_get");
      (js "parameters", VArr [openapi_uuid_parameter "journey_id" "Journey Id"]);
      (js "responses", VObj [
        (js "200", openapi_response "Successful Response" "PackingListResponse");
        (js "401", openapi_response "Authentication required or credentials invalid" "ErrorResponse");
        (js "403", openapi_response "Authenticated request is not permitted or CSRF check failed" "ErrorResponse");
        (js "404", openapi_response "Resource not found" "ErrorResponse");
        (js "409", openapi_response "Version or uniqueness conflict" "ErrorResponse");
        (js "422", openapi_response "Request validation failed" "ErrorResponse");
        (js "500", openapi_response "Unexpected server error" "ErrorResponse")]);
      (js "security", VArr [VObj [(js "SessionCookie", VArr [])]]);
      (js "summary", VStr "List Packing")]);
    (js "post", VObj [
      (js "operationId", VStr "create_packing_api_v1_journeys__journey_id__packing_post");
      (js "parameters", VArr [
        openapi_uuid_parameter "journey_id" "Journey Id";
        VObj [
          (js "description", VStr "Double-submit token matching the trax_csrf cookie.");
          (js "in", VStr "header");
          (js "name", VStr "X-CSRF-Token");
          (js "required", VBool true);
          (js "schema", VObj [(js "type", VStr "string")])]]);
      (js "requestBody", VObj [
        (js "content", VObj [
          (js "application/json", VObj [(js "schema", VObj [(js "$ref", VStr "#/components/schemas/PackingCreate")])])]);
        (js "required", VBool true)]);
      (js "responses", VObj [
        (js "201", openapi_response "Successful Response" "PackingResponse");
        (js "401", openapi_response "Authentication required or credentials invalid" "ErrorResponse");
        (js "403", openapi_response "Authenticated request is not permitted or CSRF check failed" "ErrorResponse");
        (js "404", openapi_response "Resource not found" "ErrorResponse");
        (js "409", openapi_response "Version or uniqueness conflict" "ErrorResponse");
        (js "422", openapi_response "Request validation failed" "ErrorResponse");
        (js "500", openapi_response "Unexpected server error" "ErrorResponse")]);
      (js "security", VArr [VObj [(js "SessionCookie", VArr [])]]);
      (js "summary", VStr "Create Packing")])].

Definition openapi_path_journeys__journey_id__packing__item_id_ : jsval := VObj [
    (js "delete", VObj [
      (js "operationId", VStr "delete_packing_api_v1_journeys__journey_id__packing__item_id__delete");
      (js "parameters", VArr [
        openapi_uuid_parameter "journey_id" "Journey Id";
        openapi_uuid_parameter "item_id" "Item Id";
        VObj [
          (js "description", VStr "Double-submit token matching the trax_csrf cookie.");
          (js "in", VStr "header");
          (js "name", VStr "X-CSRF-Token");
          (js "required", VBool true);
          (js "schema", VObj [(js "type", VStr "string")])]]);
      (js "responses", VObj [
        (js "204", VObj [
          (js "description", VStr "Successful Response");
          (js "headers", VObj [
            (js "X-Request-ID", VObj [
              (js "description", VStr "Request correlation identifier.");
              (js "schema", VObj [(js "type", VStr "string")])])])]);
        (js "401", openapi_response "Authentication required or credentials invalid" "ErrorResponse");
        (js "403", openapi_response "Authenticated request is not permitted or CSRF check failed" "ErrorResponse");
        (js "404", openapi_response "Resource not found" "ErrorResponse");
        (js "409", openapi_response "Version or uniqueness conflict" "ErrorResponse");
        (js "422", openapi_response "Request validation failed" "ErrorResponse");
        (js "500", openapi_response "Unexpected server error" "ErrorResponse")]);
      (js "security", VArr [VObj [(js "SessionCookie", VArr [])]]);
      (js "summary", VStr "Delete Packing")]);
    (js "put", VObj [
      (js "operationId", VStr "update_packing_api_v1_journeys__journey_id__packing__item_id__put");
      (js "parameters", VArr [
        openapi_uuid_parameter "journey_id" "Journey Id";
        openapi_uuid_parameter "item_id" "Item Id";
        VObj [
          (js "description", VStr "Double-submit token matching the trax_csrf cookie.");
          (js "in", VStr "header");
          (js "name", VStr "X-CSRF-Token");
          (js "required", VBool true);
          (js "schema", VObj [(js "type", VStr "string")])]]);
      (js "requestBody", VObj [
        (js "content", VObj [
          (js "application/json", VObj [(js "schema", VObj [(js "$ref", VStr "#/components/schemas/PackingUpdate")])])]);
        (js "required", VBool true)]);
      (js "responses", VObj [
        (js "200", openapi_response "Successful Response" "PackingResponse");
        (js "401", openapi_response "Authentication required or credentials invalid" "ErrorResponse");
        (js "403", openapi_response "Authenticated request is not permitted or CSRF check failed" "ErrorResponse");
        (js "404", openapi_response "Resource not found" "ErrorResponse");
        (js "409", openapi_response "Version or uniqueness conflict" "ErrorResponse");
        (js "422", openapi_response "Request validation failed" "ErrorResponse");
        (js "500", openapi_response "Unexpected server error" "ErrorResponse")]);
      (js "security", VArr [VObj [(js "SessionCookie", VArr [])]]);
      (js "summary", VStr "Update Packing")])].

Definition openapi_path_journeys__journey_id__packing__item_id__progress : jsval := VObj [
    (js "put", VObj [
      (js "operationId", VStr "update_packing_progress_api_v1_journeys__journey_id__packing__item_id__progress_put");
      (js "parameters", VArr [
        openapi_uuid_parameter "journey_id" "Journey Id";
        openapi_uuid_parameter "item_id" "Item Id";
        VObj [
          (js "description", VStr "Double-submit token matching the trax_csrf cookie.");
          (js "in", VStr "header");
          (js "name", VStr "X-CSRF-Token");
          (js "required", VBool true);
          (js "schema", VObj [(js "type", VStr "string")])]]);
      (js "requestBody", VObj [
        (js "content", VObj [
          (js "application/json", VObj [(js "schema", VObj [(js "$ref", VStr "#/components/schemas/PackingProgressUpdate")])])]);
        (js "required", VBool true)]);
      (js "responses", VObj [
        (js "200", openapi_response "Successful Response" "PackingResponse");
        (js "401", openapi_response "Authentication required or credentials invalid" "ErrorResponse");
        (js "403", openapi_response "Authenticated request is not permitted or CSRF check failed" "ErrorResponse");
        (js "404", openapi_response "Resource not found" "ErrorResponse");
        (js "409", openapi_response "Version or uniqueness conflict" "ErrorResponse");
        (js "422", openapi_response "Request validation failed" "ErrorResponse");
        (js "500", openapi_response "Unexpected server error" "ErrorResponse")]);
      (js "security", VArr [VObj [(js "SessionCookie", VArr [])]]);
      (js "summary", VStr "Update Packing Progress")])].

Definition openapi_path_journeys__journey_id__segments : jsval := VObj [
    (js "get", VObj [
      (js "operationId", VStr "list_segments_api_v1_journeys__journey_id__segments_get");
      (js "parameters", VArr [openapi_uuid_parameter "journey_id" "Journey Id"]);
      (js "responses", VObj [
        (js "200", openapi_response "Successful Response" "SegmentListResponse");
        (js "401", openapi_response "Authentication required or credentials invalid" "ErrorResponse");
        (js "403", openapi_response "Authenticated request is not permitted or CSRF check failed" "ErrorResponse");
        (js "404", openapi_response "Resource not found" "ErrorResponse");
        (js "409", openapi_response "Version or uniqueness conflict" "ErrorResponse");
        (js "422", openapi_response "Request validation failed" "ErrorResponse");
        (js "500", openapi_response "Unexpected server error" "ErrorResponse")]);
      (js "security", VArr [VObj [(js "SessionCookie", VArr [])]]);
      (js "summary", VStr "List Segments")]);
    (js "post", VObj [
      (js "operationId", VStr "create_segment_api_v1_journeys__journey_id__segments_post");
      (js "parameters", VArr [
        openapi_uuid_parameter "journey_id" "Journey Id";
        VObj [
          (js "description", VStr "Double-submit token matching the trax_csrf cookie.");
          (js "in", VStr "header");
          (js "name", VStr "X-CSRF-Token");
          (js "required", VBool true);
          (js "schema", VObj [(js "type", VStr "string")])]]);
      (js "requestBody", VObj [
        (js "content", VObj [
          (js "application/json", VObj [(js "schema", VObj [(js "$ref", VStr "#/components/schemas/SegmentCreate")])])]);
        (js "required", VBool true)]);
      (js "responses", VObj [
        (js "201", openapi_response "Successful Response" "SegmentResponse");
        (js "401", openapi_response "Authentication required or credentials invalid" "ErrorResponse");
        (js "403", openapi_response "Authenticated request is not permitted or CSRF check failed" "ErrorResponse");
        (js "404", openapi_response "Resource not found" "ErrorResponse");
        (js "409", openapi_response "Version or uniqueness conflict" "ErrorResponse");
        (js "422", openapi_response "Request validation failed" "ErrorResponse");
        (js "500", openapi_response "Unexpected server error" "ErrorResponse")]);
      (js "security", VArr [VObj [(js "SessionCookie", VArr [])]]);
      (js "summary", VStr "Create Segment")])].

Definition openapi_path_journeys__journey_id__segments__segment_id_ : jsval := VObj [
    (js "delete", VObj [
      (js "operationId", VStr "delete_segment_api_v1_journeys__journey_id__segments__segment_id__delete");
      (js "parameters", VArr [
        openapi_uuid_parameter "journey_id" "Journey Id";
        openapi_uuid_parameter "segment_id" "Segment Id";
        VObj [
          (js "description", VStr "Double-submit token matching the trax_csrf cookie.");
          (js "in", VStr "header");
          (js "name", VStr "X-CSRF-Token");
          (js "required", VBool true);
          (js "schema", VObj [(js "type", VStr "string")])]]);
      (js "responses", VObj [
        (js "204", VObj [
          (js "description", VStr "Successful Response");
          (js "headers", VObj [
            (js "X-Request-ID", VObj [
              (js "description", VStr "Request correlation identifier.");
              (js "schema", VObj [(js "type", VStr "string")])])])]);
        (js "401", openapi_response "Authentication required or credentials invalid" "ErrorResponse");
        (js "403", openapi_response "Authenticated request is not permitted or CSRF check failed" "ErrorResponse");
        (js "404", openapi_response "Resource not found" "ErrorResponse");
        (js "409", openapi_response "Version or uniqueness conflict" "ErrorResponse");
        (js "422", openapi_response "Request validation failed" "ErrorResponse");
        (js "500", openapi_response "Unexpected server error" "ErrorResponse")]);
      (js "security", VArr [VObj [(js "SessionCookie", VArr [])]]);
      (js "summary", VStr "Delete Segment")]);
    (js "put", VObj [
      (js "operationId", VStr "update_segment_api_v1_journeys__journey_id__segments__segment_id__put");
      (js "parameters", VArr [
        openapi_uuid_parameter "journey_id" "Journey Id";
        openapi_uuid_parameter "segment_id" "Segment Id";
        VObj [
          (js "description", VStr "Double-submit token matching the trax_csrf cookie.");
          (js "in", VStr "header");
          (js "name", VStr "X-CSRF-Token");
          (js "required", VBool true);
          (js "schema", VObj [(js "type", VStr "string")])]]);
      (js "requestBody", VObj [
        (js "content", VObj [
          (js "application/json", VObj [(js "schema", VObj [(js "$ref", VStr "#/components/schemas/SegmentUpdate")])])]);
        (js "required", VBool true)]);
      (js "responses", VObj [
        (js "200", openapi_response "Successful Response" "SegmentResponse");
        (js "401", openapi_response "Authentication required or credentials invalid" "ErrorResponse");
        (js "403", openapi_response "Authenticated request is not permitted or CSRF check failed" "ErrorResponse");
        (js "404", openapi_response "Resource not found" "ErrorResponse");
        (js "409", openapi_response "Version or uniqueness conflict" "ErrorResponse");
        (js "422", openapi_response "Request validation failed" "ErrorResponse");
        (js "500", openapi_response "Unexpected server error" "ErrorResponse")]);
      (js "security", VArr [VObj [(js "SessionCookie", VArr [])]]);
      (js "summary", VStr "Update Segment")])].

Definition openapi_path_journeys__journey_id__segments__segment_id__reorder : jsval := VObj [
    (js "post", VObj [
      (js "operationId", VStr "reorder_segment_api_v1_journeys__journey_id__segments__segment_id__reorder_post");
      (js "parameters", VArr [
        openapi_uuid_parameter "journey_id" "Journey Id";
        openapi_uuid_parameter "segment_id" "Segment Id";
        VObj [
          (js "description", VStr "Double-submit token matching the trax_csrf cookie.");
          (js "in", VStr "header");
          (js "name", VStr "X-CSRF-Token");
          (js "required", VBool true);
          (js "schema", VObj [(js "type", VStr "string")])]]);
      (js "requestBody", VObj [
        (js "content", VObj [
          (js "application/json", VObj [(js "schema", VObj [(js "$ref", VStr "#/components/schemas/SegmentReorder")])])]);
        (js "required", VBool true)]);
      (js "responses", VObj [
        (js "200", openapi_response "Successful Response" "SegmentResponse");
        (js "401", openapi_response "Authentication required or credentials invalid" "ErrorResponse");
        (js "403", openapi_response "Authenticated request is not permitted or CSRF check failed" "ErrorResponse");
        (js "404", openapi_response "Resource not found" "ErrorResponse");
        (js "409", openapi_response "Version or uniqueness conflict" "ErrorResponse");
        (js "422", openapi_response "Request validation failed" "ErrorResponse");
        (js "500", openapi_response "Unexpected server error" "ErrorResponse")]);
      (js "security", VArr [VObj [(js "SessionCookie", VArr [])]]);
      (js "summary", VStr "Reorder Segment")])].

Definition openapi_path_version : jsval := VObj [
    (js "get", VObj [
      (js "description", VStr "Return the public application and API contract versions.");
      (js "operationId", VStr "version_api_v1_version_get");
      (js "responses", VObj [
        (js "200", openapi_response "Successful Response" "VersionResponse");
        (js "401", openapi_response "Authentication required or credentials invalid" "ErrorResponse");
        (js "403", openapi_response "Authenticated request is not permitted or CSRF check failed" "ErrorResponse");
        (js "404", openapi_response "Resource not found" "ErrorResponse");
        (js "409", openapi_response "Version or uniqueness conflict" "ErrorResponse");
        (js "422", openapi_response "Request validation failed" "ErrorResponse");
        (js "500", openapi_response "Unexpected server error" "ErrorResponse")]);
      (js "summary", VStr "Version");
      (js "tags", VArr [VStr "instance"])])].

Definition openapi_path_health_live : jsval := VObj [
    (js "get", VObj [
      (js "description", VStr "Report that the API process can serve requests.");
      (js "operationId", VStr "live_health_live_get");
      (js "responses", VObj [
        (js "200", openapi_response "Successful Response" "LiveResponse");
        (js "500", openapi_response "Unexpected server error" "ErrorResponse")]);
      (js "summary", VStr "Live");
      (js "tags", VArr [VStr "health"])])].

Definition openapi_path_health_ready : jsval := VObj [
    (js "get", VObj [
      (js "description", VStr "Report readiness of API and authoritative PostgreSQL storage.");
      (js "operationId", VStr "ready_health_ready_get");
      (js "responses", VObj [
        (js "200", openapi_response "Successful Response" "ReadyResponse");
        (js "500", openapi_response "Unexpected server error" "ErrorResponse");
        (js "503", openapi_response "An implemented dependency is unavailable" "ReadyResponse")]);
      (js "summary", VStr "Ready");
      (js "tags", VArr [VStr "health"])])].

Definition openapi_paths : Schema := [
  (js "/api/contract", openapi_path_api_contract);
  (js "/api/v1/auth/login", openapi_path_auth_login);
  (js "/api/v1/auth/logout", openapi_path_auth_logout);
  (js "/api/v1/auth/register", openapi_path_auth_register);
  (js "/api/v1/auth/session", openapi_path_auth_session);
  (js "/api/v1/capabilities", openapi_path_capabilities);
  (js "/api/v1/commands/journey.update", openapi_path_commands_journey_update);
  (js "/api/v1/journeys", openapi_path_journeys);
  (js "/api/v1/journeys/{journey_id}", openapi_path_journeys__journey_id_);
  (js "/api/v1/journeys/{journey_id}/packing", openapi_path_journeys__journey_id__packing);
  (js "/api/v1/journeys/{journey_id}/packing/{item_id}", openapi_path_journeys__journey_id__packing__item_id_);
  (js "/api/v1/journeys/{journey_id}/packing/{item_id}/progress", openapi_path_journeys__journey_id__packing__item_id__progress);
  (js "/api/v1/journeys/{journey_id}/segments", openapi_path_journeys__journey_id__segments);
  (js "/api/v1/journeys/{journey_id}/segments/{segment_id}", openapi_path_journeys__journey_id__segments__segment_id_);
  (js "/api/v1/journeys/{journey_id}/segments/{segment_id}/reorder", openapi_path_journeys__journey_id__segments__segment_id__reorder);
  (js "/api/v1/version", openapi_path_version);
  (js "/health/live", openapi_path_health_live);
  (js "/health/ready", openapi_path_health_ready)].

Definition openapi_document : jsval := VObj [
  (js "components", VObj [
    (js "schemas", VObj openapi_schemas);
    (js "securitySchemes", VObj [
        (js "SessionCookie", VObj [
          (js "description", VStr "Opaque authenticated Trax OS session cookie.");
          (js "in", VStr "cookie");
          (js "name", VStr "trax_session");
          (js "type", VStr "apiKey")])])]);
  (js "info", VObj [
      (js "description", VStr "Versioned foundation contract. Pydantic wire models and FastAPI route metadata are the canonical authored source for the V1 HTTP contract.");
      (js "summary", VStr "Public Trax OS API foundation");
      (js "title", VStr "Trax OS API");
      (js "version", VStr "0.1.0")]);
  (js "openapi", VStr "3.1.0");
  (js "paths", VObj openapi_paths)].

Definition runtime_fixtures : jsval := VObj [
    (js "capabilities", VObj [
      (js "capabilities", VArr [
        VObj [(js "key", VStr "foundation.contract-discovery"); (js "status", VStr "available")];
        VObj [(js "key", VStr "identity.password-session"); (js "status", VStr "available")];
        VObj [(js "key", VStr "journeys.server-authority"); (js "status", VStr "available")];
        VObj [(js "key", VStr "journeys.timeline"); (js "status", VStr "available")];
        VObj [(js "key", VStr "journeys.packing"); (js "status", VStr "available")]]);
      (js "schema_version", VStr "1")]);
    (js "contract", VObj [
      (js "api", VObj [
        (js "current", VNum (NInt 1));
        (js "maximum_supported", VNum (NInt 1));
        (js "minimum_supported", VNum (NInt 1))]);
      (js "commands", VArr [
        VObj [
          (js "command_type", VStr "journey.update");
          (js "current", VNum (NInt 1));
          (js "maximum_supported", VNum (NInt 1));
          (js "minimum_supported", VNum (NInt 1))]]);
      (js "schema_version", VStr "1")]);
    (js "version", VObj [(js "api_version", VStr "1"); (js "application", VStr "Trax OS"); (js "version", VStr "0.1.0")])].
