(* ===== verification/ContractCurrent.v ===== *)
(** The generator on the contract of the repository: it writes the tables the
    client was built with.  And what it lets through that the validator cannot
    use. *)
From S2P Require Export ClientGeneratorSpec OpenApiDocument.

(** The patterns of the contract are in the syntax [Regex] reads. *)
#[local] Instance contract_patterns : RegExpSyntax := fun p => bool_decide (is_Some (parse_pattern p)).

Section Current.
Context `{NumPrinter}.

(** The client in the repository is what the generator writes for the
    contract in the repository: the same component schemas, the same 25
    operations in the same order and the same supported versions. *)
Theorem generated_client_current :
  match generate openapi_document runtime_fixtures with
  | Ok g => generated_schemas g = componentSchemas /\ generated_operations g = operationMetadata /\
      generated_support g = clientSupport
  | Throw _ => False
  end.
Proof. vm_compute. split_and!; reflexivity. Qed.

(** A schema without [type] is let through, and admits no value at all. *)
Lemma untyped_schema_useless n mode v pointer `{DateParser} :
  validate_schema [] (VObj [(js "title", VStr "Anything")]) "schema" = Ok () /\
  validate componentSchemas (S n) mode [(js "title", VStr "Anything")] v pointer = Throw (SchemaValidationError pointer).
Proof. split; reflexivity. Qed.

(** A reference to itself is let through, and the validator never comes back. *)
Definition self_reference : Schema := [(js "Loop", VObj [(js "$ref", VStr "#/components/schemas/Loop")])].

Lemma self_reference_loops n mode v pointer `{DateParser} :
  validate_schema (object_keys self_reference) (get self_reference "Loop") "schema" = Ok () /\
  validate self_reference n mode [(js "$ref", VStr "#/components/schemas/Loop")] v pointer = Throw OutOfFuel.
Proof. split; [reflexivity|]. induction n as [|n IH]; [reflexivity|exact IH]. Qed.

(** The keywords next to [anyOf] are let through, and the validator skips them. *)
Lemma keywords_beside_any_skipped `{DateParser} :
  let schema : Schema := [(js "anyOf", VArr [VObj [(js "type", VStr "string")]]); (js "maxLength", VNum (NInt 1))] in
  validate_schema [] (VObj schema) "schema" = Ok () /\
  validate componentSchemas 2 request_mode schema (VStr "long") "$" = Ok ().
Proof. split; reflexivity. Qed.
End Current.

Module ContractWitnesses.
#[local] Instance no_numbers : NumPrinter := fun _ => [].

Lemma generated_tables_sound_witness :
  exists g, generate openapi_document runtime_fixtures = Ok g /\ NoDup (generated_operations g).*1 /\
    readable (generated_schemas g) (ref_to "JourneyResponse").
Proof.
  destruct (generate openapi_document runtime_fixtures) as [g|] eqn:E; [|vm_compute in E; discriminate E].
  exists g. split; [reflexivity|].
  destruct (generated_tables_sound openapi_document runtime_fixtures g E) as (Hnd & _ & Hr).
  split; [exact Hnd|]. vm_compute in E. injection E as <-.
  eapply Hr; [|apply rtc_refl]. eapply of_response.
  - do 11 apply list_elem_of_further. apply list_elem_of_here.
  - apply list_elem_of_here.
Defined.

Lemma generated_client_negotiates_witness : negotiates clientSupport (discovery_of runtime_fixtures).
Proof.
  destruct (generate openapi_document runtime_fixtures) as [g|] eqn:E; [|vm_compute in E; discriminate E].
  destruct (loadSupport "fixtures" (Ok runtime_fixtures) false) as [[s|]|] eqn:Es; [|vm_compute in Es; discriminate Es..].
  pose proof (generated_client_negotiates openapi_document runtime_fixtures g "fixtures" false s E Es) as Hn.
  vm_compute in E. injection E as <-. exact Hn.
Defined.
End ContractWitnesses.
