(* ===== verification/ModuleGraph.v ===== *)
(** The dependency graph check: [assertAcyclic] of
    [scripts/module-boundaries.mjs], a depth-first search, and that it accepts
    exactly the graphs without a cycle. *)
From S2P Require Export Scripts.

Record Edge := {
  edge_from : jstr;
  edge_to : jstr;
}.

(** [outgoing.get(node) ?? []] *)
Definition outgoing (nodes : list jstr) (edges : list Edge) (node : jstr) : list jstr :=
  if existsb (str_eqb node) nodes
  then edge_to <$> List.filter (fun e => str_eqb (edge_from e) node) edges else [].

(** The sets [visiting] and [visited], the newest member first. *)
Record Walk := {
  visiting : list jstr;
  visited : list jstr;
}.

Definition arrow_join (l : list jstr) : jstr := join " -> " l.

Section Visit.
Context (next : jstr -> list jstr) (label : jstr).

(** [visit(node, trail)] *)
Fixpoint visit (fuel : nat) (trail : list jstr) (node : jstr) (s : Walk) : script Walk :=
  match fuel with
  | O => Throw Unfinished
  | S fuel =>
      if existsb (str_eqb node) (visiting s) then
        script_fail (label ++ js " contains cycle: " ++ arrow_join (trail ++ [node]))
      else if existsb (str_eqb node) (visited s) then Ok s
      else
        s ← (fix visit_targets (l : list jstr) (s : Walk) : script Walk :=
               match l with
               | [] => Ok s
               | target :: l => s ← visit fuel (trail ++ [node]) target s; visit_targets l s
               end) (next node) {| visiting := node :: visiting s; visited := visited s |};
        Ok {| visiting := List.filter (fun x => negb (str_eqb x node)) (visiting s); visited := node :: visited s |}
  end.

Fixpoint visit_all (fuel : nat) (trail l : list jstr) (s : Walk) : script Walk :=
  match l with
  | [] => Ok s
  | node :: l => s ← visit fuel trail node s; visit_all fuel trail l s
  end.
End Visit.

(** A path that repeats no node is no longer than the nodes, and one more. *)
Definition assertAcyclic (nodes : list jstr) (edges : list Edge) (label : jstr) : script () :=
  _ ← visit_all (outgoing nodes edges) label (S (S (length nodes))) [] nodes {| visiting := []; visited := [] |};
  Ok ().

(** ** The graph *)

Definition edge_rel (nodes : list jstr) (edges : list Edge) (x y : jstr) : Prop :=
  x ∈ nodes /\ exists e, e ∈ edges /\ edge_from e = x /\ edge_to e = y.

Lemma outgoing_edge nodes edges x y : y ∈ outgoing nodes edges x <-> edge_rel nodes edges x y.
Proof.
  unfold outgoing, edge_rel. destruct (existsb (str_eqb x) nodes) eqn:E.
  - apply existsb_str_elem in E. rewrite list_elem_of_fmap. setoid_rewrite elem_of_lfilter.
    setoid_rewrite str_eqb_eq. naive_solver.
  - rewrite elem_of_nil. split; [done|]. intros [Hx%existsb_str_elem _]. congruence.
Qed.

Section Visiting.
Context (next : jstr -> list jstr) (label : jstr).
Let E (x y : jstr) : Prop := y ∈ next x.

(** Finished nodes, the newest first: each goes only to older ones. *)
Fixpoint finished (l : list jstr) : Prop :=
  match l with
  | [] => True
  | x :: l => (forall y, E x y -> y ∈ l) /\ x ∉ l /\ finished l
  end.

Lemma finished_closed l x y : finished l -> x ∈ l -> E x y -> y ∈ l.
Proof.
  induction l as [|z l IH]; [by intros _ ?%elem_of_nil|]. intros (Hz & _ & Hl) [->|Hx]%elem_of_cons Hxy;
    apply list_elem_of_further; eauto.
Qed.

Lemma finished_reachable l x y : finished l -> x ∈ l -> rtc E x y -> y ∈ l.
Proof. intros Hl Hx Hr. induction Hr; [done|]. eauto using finished_closed. Qed.

Lemma finished_acyclic l x : finished l -> x ∈ l -> ~ tc E x x.
Proof.
  induction l as [|z l IH]; [by intros _ ?%elem_of_nil|]. intros (Hz & Hn & Hl) [->|Hx]%elem_of_cons; [|by apply IH].
  intros Hc. apply Hn. assert (exists y, E z y /\ rtc E y z) as (y & Hy & Hr).
  { inversion Hc; subst; [exists z; by split|]. eexists. split; [done|]. by apply tc_rtc. }
  eapply finished_reachable; [done| |done]. by apply Hz.
Qed.

(** What a search keeps: it comes back with the same nodes in progress, more
    nodes finished, and fails only on a cycle. *)
Definition good_start (s : Walk) : Prop :=
  finished (visited s) /\ NoDup (visiting s) /\ forall x, x ∈ visiting s -> x ∉ visited s.

Definition outcome_ok (s : Walk) (l : list jstr) (r : script Walk) : Prop :=
  match r with
  | Ok s' => visiting s' = visiting s /\ good_start s' /\
      (forall x, x ∈ visited s -> x ∈ visited s') /\ (forall x, x ∈ l -> x ∈ visited s')
  | Throw (Failed _) => exists x, tc E x x
  | Throw _ => False
  end.

Lemma outcome_bind s node l r (f : Walk -> script Walk) :
  outcome_ok s [node] r ->
  (forall s', visiting s' = visiting s -> good_start s' -> outcome_ok s' l (f s')) ->
  outcome_ok s (node :: l) (r ≫= f).
Proof.
  destruct r as [s1|[]]; cbn; [|done..]. intros (Hv & Hg & Hi & Hn) Hf. specialize (Hf _ Hv Hg).
  unfold outcome_ok in *. destruct (f s1) as [s2|[]]; [|done..]. destruct Hf as (Hv' & Hg' & Hi' & Hn').
  split_and!; [congruence|done|by auto|]. intros x [->|Hx]%elem_of_cons; [|by apply Hn'].
  apply Hi', Hn, list_elem_of_here.
Qed.

Lemma outcome_list (f : jstr -> Walk -> script Walk) (g : list jstr -> Walk -> script Walk) l s :
  (forall s, g [] s = Ok s) -> (forall x l s, g (x :: l) s = s ← f x s; g l s) ->
  good_start s ->
  (forall x s', x ∈ l -> visiting s' = visiting s -> good_start s' -> outcome_ok s' [x] (f x s')) ->
  outcome_ok s l (g l s).
Proof.
  intros Hnil Hcons. revert s. induction l as [|x l IH]; intros s Hg Hf.
  - rewrite Hnil. cbn. split_and!; [done|done|done|]. by intros y ?%elem_of_nil.
  - rewrite Hcons. apply outcome_bind; [apply Hf; [apply list_elem_of_here|done|done]|].
    intros s' Hv Hs. apply IH; [done|]. intros y s'' Hy Hv' Hs'. apply Hf; [by apply list_elem_of_further|congruence|done].
Qed.

Context (nodes : list jstr) (Hnodes : forall x y, E x y -> x ∈ nodes).

Lemma filter_out node (l : list jstr) : node ∉ l -> List.filter (fun x => negb (str_eqb x node)) l = l.
Proof.
  induction l as [|x l IH]; [done|]. rewrite not_elem_of_cons. intros [Hx Hl]. cbn.
  rewrite (proj2 (str_eqb_neq x node)) by congruence. cbn. by rewrite IH.
Qed.

Lemma visit_ok fuel trail node s :
  good_start s -> (forall x, x ∈ visiting s -> tc E x node) ->
  (S (length nodes) < fuel + length (visiting s))%nat ->
  outcome_ok s [node] (visit next label fuel trail node s).
Proof.
  revert trail node s. induction fuel as [|fuel IH]; intros trail node s Hg Hpath Hfuel; cbn [visit].
  { exfalso. destruct Hg as (_ & Hd & _). assert (visiting s ⊆+ nodes) as Hl%submseteq_length.
    { apply NoDup_submseteq; [done|]. intros x Hx. destruct (Hpath x Hx); eauto. }
    lia. }
  destruct (existsb (str_eqb node) (visiting s)) eqn:Ev.
  { apply existsb_str_elem in Ev. exists node. auto. }
  destruct (existsb (str_eqb node) (visited s)) eqn:Ed.
  { apply existsb_str_elem in Ed. cbn. split_and!; [done|done|done|]. by intros x ->%list_elem_of_singleton. }
  assert (node ∉ visiting s) as Hv by (rewrite <- existsb_str_elem; congruence).
  assert (node ∉ visited s) as Hd by (rewrite <- existsb_str_elem; congruence).
  destruct Hg as (Hf & Hn & Hdis).
  match goal with |- outcome_ok _ _ (?g (next node) ?s0 ≫= _) => set (s0' := s0); set (g' := g) end.
  assert (outcome_ok s0' (next node) (g' (next node) s0')) as Hall.
  { apply (outcome_list (visit next label fuel (trail ++ [node]))); [done|done| |].
    - unfold s0'. split_and!; cbn; [done|by constructor|]. intros x [->|Hx]%elem_of_cons; [done|auto].
    - intros x s' Hx Hs' Hg'. apply IH; [done| |].
      + rewrite Hs'. cbn. intros y [->|Hy]%elem_of_cons; [by apply tc_once|].
        eapply tc_r; [by apply Hpath|done].
      + rewrite Hs'. cbn. lia. }
  destruct (g' (next node) s0') as [s'|[]]; cbn in Hall |- *; [|done..].
  destruct Hall as (Hv' & (Hf' & Hn' & Hdis') & Hi' & Ht). rewrite Hv'. unfold s0' in *. cbn in *.
  rewrite str_eqb_refl. cbn. rewrite filter_out by done. split_and!; [done| | |].
  - rewrite Hv' in Hdis'. split_and!; cbn; [|done|].
    + split_and!; [by intros y Hy; apply Ht|apply Hdis', list_elem_of_here|done].
    + intros x Hx [->|Hx']%elem_of_cons; [done|]. apply (Hdis' x); [by apply list_elem_of_further|done].
  - intros x Hx. apply list_elem_of_further. auto.
  - intros x ->%list_elem_of_singleton. apply list_elem_of_here.
Qed.
End Visiting.

Lemma assertAcyclic_search nodes edges label :
  let E := edge_rel nodes edges in
  match assertAcyclic nodes edges label with
  | Ok _ => forall x, ~ tc E x x
  | Throw (Failed _) => exists x, tc E x x
  | Throw _ => False
  end.
Proof.
  set (next := outgoing nodes edges). set (s := {| visiting := []; visited := [] |}).
  assert (forall x y, tc (fun x y => y ∈ next x) x y <-> tc (edge_rel nodes edges) x y) as Htc.
  { intros x y. split; (induction 1; [by apply tc_once, outgoing_edge|by eapply tc_l; [apply outgoing_edge|]]). }
  assert (outcome_ok next s nodes (visit_all next label (S (S (length nodes))) [] nodes s)) as H.
  { apply (outcome_list next (visit next label (S (S (length nodes))) [])); [done|done| |].
    - split_and!; cbn; [done|constructor|by intros x ?%elem_of_nil].
    - intros x s' _ Hv Hg. apply (visit_ok next label nodes); [|done| |].
      + by intros y z [? _]%outgoing_edge.
      + rewrite Hv. by intros y ?%elem_of_nil.
      + rewrite Hv. cbn. lia. }
  cbv zeta. unfold assertAcyclic. fold next s.
  destruct (visit_all _ _ _ _ _ _) as [s'|[]]; cbn in H |- *; [|by setoid_rewrite <- Htc|done..].
  destruct H as (_ & (Hf & _) & _ & Hall). intros x Hx. assert (x ∈ nodes) as Hn.
  { inversion Hx as [? ? []|? ? ? []]; by subst. }
  apply Htc in Hx. by apply (finished_acyclic next (visited s') x); auto.
Qed.

(** C27: [assertAcyclic] accepts a graph exactly when it has no cycle. *)
Theorem assertAcyclic_exact nodes edges label :
  assertAcyclic nodes edges label = Ok () <-> forall x, ~ tc (edge_rel nodes edges) x x.
Proof.
  pose proof (assertAcyclic_search nodes edges label) as H. cbv zeta in H.
  destruct (assertAcyclic nodes edges label) as [[]|[]]; [done| |done..].
  split; [done|]. destruct H as [x Hx]. intros Hc. by destruct (Hc x).
Qed.

Lemma assertAcyclic_ends nodes edges label : ends (assertAcyclic nodes edges label).
Proof.
  pose proof (assertAcyclic_search nodes edges label) as H. intros E. by rewrite E in H.
Qed.
