(* ===== verification/ModuleRegistry.v ===== *)
(** The registry of module boundaries: [validateRegistry] of
    [scripts/module-boundaries.mjs], section by section in its order, on the
    value [JSON.parse] returned. *)
From S2P Require Export ModuleGraph JsonText.

(** ** Reading values *)

Definition text_of (v : jsval) : jstr := default [] (as_string v).

(** [v.k]: a [TypeError] on [undefined] and [null].  (No key read here is one
    that a string, a number or an array has.) *)
Definition field (v : jsval) (k : jstr) : script jsval :=
  match v with VUndef | VNull => Throw Crashed | _ => Ok (prop v k) end.

Definition same_value_zero (a b : jsval) : bool :=
  match a, b with VNum NNaN, VNum NNaN => true | _, _ => strict_eq a b end.

(** [["a", "b"].includes(v)] and [set.has(v)] for strings. *)
Definition is_one_of (names : list string) (v : jsval) : bool :=
  match v with VStr s => named_in names s | _ => false end.
Definition member (names : list jstr) (v : jsval) : bool :=
  match v with VStr s => existsb (str_eqb s) names | _ => false end.

Definition at_label (label : jstr) (index : Z) : jstr := label ++ 91%N :: print_int index ++ [93%N].

(** ** [path.posix] *)

Definition isAbsolute (p : jstr) : bool := startsWith p "/".

(** [normalizeString]: the segments kept so far, the last one first. *)
Fixpoint normal_segments (above : bool) (kept l : list jstr) : list jstr :=
  match l with
  | [] => reverse kept
  | s :: l =>
      if str_eqb s "" || str_eqb s "." then normal_segments above kept l
      else if str_eqb s ".." then
        match kept with
        | k :: ks =>
            if str_eqb k ".." then normal_segments above (if above then s :: kept else kept) l
            else normal_segments above ks l
        | [] => normal_segments above (if above then [s] else []) l
        end
      else normal_segments above (s :: kept) l
  end.

Definition normalize (p : jstr) : jstr :=
  match p with
  | [] => js "."
  | _ =>
      let trailing := endsWith p "/" in
      let body := join "/" (normal_segments (negb (isAbsolute p)) [] (str_split p "/")) in
      match body with
      | [] => if isAbsolute p then js "/" else if trailing then js "./" else js "."
      | _ => (if isAbsolute p then js "/" else []) ++ body ++ (if trailing then js "/" else [])
      end
  end.

Section Validators.
Context `{NumPrinter}.

(** [JSON.stringify(a) === JSON.stringify(b)] on arrays of strings. *)
Definition same_json (a b : list jstr) : bool :=
  str_eqb (json_text (VArr (VStr <$> a))) (json_text (VArr (VStr <$> b))).

Definition exactKeys (value : jsval) (keys : list string) (label : jstr) : script () :=
  match as_record value with
  | None => script_fail (label ++ js " must be an object")
  | Some fs =>
      let actual := sort_strings (object_keys fs) in
      let expected := sort_strings (js <$> keys) in
      fail_when (negb (same_json actual expected))
        (label ++ js " keys must be exactly " ++ join ", " expected ++ js "; received " ++ join ", " actual)
  end.

Definition array (value : jsval) (label : jstr) : script (list jsval) :=
  match value with VArr l => Ok l | _ => script_fail (label ++ js " must be an array") end.

Definition nonEmptyString (value : jsval) (label : jstr) : script jstr :=
  match value with
  | VStr s =>
      if negb (str_eqb (trim s) s) || (str_length s =? 0)%Z
      then script_fail (label ++ js " must be a non-empty trimmed string") else Ok s
  | _ => script_fail (label ++ js " must be a non-empty trimmed string")
  end.

Definition relativePath (value : jsval) (label : jstr) : script jstr :=
  text ← nonEmptyString value label;
  _ ← fail_when
        (isAbsolute text || str_includes text 92 ||
         existsb (fun part => str_eqb part ".." || str_eqb part "") (str_split text "/") ||
         negb (str_eqb (normalize text) text) || str_eqb text ".")
        (label ++ js " must be a normalized repository-relative path");
  Ok text.

(** [unique(values, label, key)] *)
Fixpoint unique_from (seen : list jsval) (values : list jsval) (label : jstr) (key : jsval -> script jsval) : script () :=
  match values with
  | [] => Ok ()
  | value :: values =>
      identity ← key value;
      _ ← (if existsb (same_value_zero identity) seen
           then shown ← template identity; script_fail (label ++ js " contains duplicate " ++ shown) else Ok ());
      unique_from (identity :: seen) values label key
  end.
Definition unique (values : list jsval) (label : jstr) (key : jsval -> script jsval) : script () :=
  unique_from [] values label key.

(** [`${v[a]}<sep>${v[b]}`] *)
Definition pair_key (a sep b : string) (v : jsval) : script jsval :=
  x ← field v a; x ← template x;
  y ← field v b; y ← template y;
  Ok (VStr (x ++ js sep ++ y)).

(** The checks of [from] and [to] of an edge. *)
Definition check_edge (edge : jsval) (label : jstr) : script () :=
  _ ← exactKeys edge ["from"; "to"]%string label;
  _ ← nonEmptyString (prop edge "from") (dotted label "from");
  _ ← nonEmptyString (prop edge "to") (dotted label "to");
  Ok ().
Definition edge_name (a b : jstr) : jstr := a ++ js "->" ++ b.
Definition edge_text (edge : jsval) : jstr := edge_name (text_of (prop edge "from")) (text_of (prop edge "to")).

Definition check_owner (authority : jsval) : script () :=
  _ ← exactKeys authority ["path"; "owner"]%string "ownerAuthority";
  _ ← relativePath (prop authority "path") "ownerAuthority.path";
  owner ← nonEmptyString (prop authority "owner") "ownerAuthority.owner";
  fail_when (negb (startsWith owner "@")) "ownerAuthority.owner must be a CODEOWNERS handle".

Definition check_ignored (value : jsval) : script () :=
  ignored ← array value "ignoredDirectoryNames";
  _ ← unique ignored "ignoredDirectoryNames" Ok;
  for_each (fun item =>
    item ← nonEmptyString item "ignoredDirectoryNames entry";
    fail_when (str_includes item 47 || str_eqb item "." || str_eqb item "..")
      "ignoredDirectoryNames entries must be names, not paths") ignored.

Definition check_export (path : jstr) (entry : jsval) : script () :=
  entry ← nonEmptyString entry (js "active root " ++ path ++ js " export");
  fail_when (negb (str_eqb entry ".") && negb (startsWith entry "./"))
    (js "active root " ++ path ++ js " has invalid public export " ++ entry).

Definition check_active_root (owner : jsval) (item : jsval) (label : jstr) : script () :=
  _ ← exactKeys item ["path"; "ecosystem"; "packageName"; "owner"; "kind"; "publicExports"]%string label;
  path ← relativePath (prop item "path") (dotted label "path");
  _ ← fail_when (negb (is_one_of ["npm"; "python"] (prop item "ecosystem"))) (label ++ js ".ecosystem is unsupported");
  _ ← nonEmptyString (prop item "packageName") (dotted label "packageName");
  _ ← fail_when (negb (strict_eq (prop item "owner") owner))
        (js "active root " ++ path ++ js " owner must equal CODEOWNERS authority");
  _ ← fail_when (negb (is_one_of ["application"; "generated-projection"; "runtime-client"] (prop item "kind")))
        (js "active root " ++ path ++ js " has unsupported kind");
  exports ← array (prop item "publicExports") (js "active root " ++ path ++ js " publicExports");
  _ ← unique exports (js "active root " ++ path ++ js " publicExports") Ok;
  _ ← for_each (check_export path) exports;
  fail_when (strict_eq (prop item "ecosystem") (VStr "python") && negb (length exports =? 0)%nat)
    (js "Python active root " ++ path ++ js " cannot declare npm exports").

Definition of_ecosystem (name : string) (item : jsval) : bool := strict_eq (prop item "ecosystem") (VStr name).
Definition of_kind (name : string) (item : jsval) : bool := strict_eq (prop item "kind") (VStr name).

(** The active roots, with the one Python root among them. *)
Definition check_active (owner value : jsval) : script (list jsval * jsval) :=
  active ← array value "activeRoots";
  _ ← unique active "activeRoots" (fun item => field item "path");
  _ ← unique active "activeRoots packageName" (fun item => field item "packageName");
  _ ← for_each (fun '(index, item) => check_active_root owner item (at_label "activeRoots" index)) (indexed active);
  match List.filter (of_ecosystem "python") active with
  | [python_root] => Ok (active, python_root)
  | _ => script_fail "schema version 1 requires exactly one active Python root"
  end.

Definition check_reserved_root (item : jsval) (label : jstr) : script () :=
  _ ← exactKeys item ["path"; "status"; "required"; "activationGate"]%string label;
  path ← relativePath (prop item "path") (dotted label "path");
  _ ← fail_when (negb (strict_eq (prop item "status") (VStr "inactive") && strict_eq (prop item "required") (VBool false)))
        (js "reserved root " ++ path ++ js " must remain inactive and non-required");
  _ ← nonEmptyString (prop item "activationGate") (js "reserved root " ++ path ++ js " activationGate");
  Ok ().

Definition check_reserved (active : list jsval) (value : jsval) : script () :=
  reserved ← array value "reservedRoots";
  _ ← unique reserved "reservedRoots" (fun item => field item "path");
  _ ← for_each (fun '(index, item) => check_reserved_root item (at_label "reservedRoots" index)) (indexed reserved);
  unique (active ++ reserved) "active and reserved roots" (fun item => Ok (prop item "path")).

Definition to_edge (edge : jsval) : Edge := {| edge_from := text_of (prop edge "from"); edge_to := text_of (prop edge "to") |}.

Definition check_root_edges (activePaths : list jstr) (value : jsval) : script () :=
  edges ← array value "rootEdges";
  _ ← unique edges "rootEdges" (pair_key "from" "->" "to");
  _ ← for_each (fun '(index, edge) =>
        _ ← check_edge edge (at_label "rootEdges" index);
        _ ← fail_when (negb (member activePaths (prop edge "from") && member activePaths (prop edge "to")))
              (js "root edge " ++ edge_text edge ++ js " references an inactive or unknown root");
        fail_when (strict_eq (prop edge "from") (prop edge "to"))
          (js "root edge " ++ edge_text edge ++ js " is self-referential")) (indexed edges);
  assertAcyclic activePaths (to_edge <$> edges) "root dependency graph".

(** [/^\.[a-z]+$/] and [/^#[1-9][0-9]*$/] *)
Definition extension_syntax (s : jstr) : bool :=
  match s with
  | 46%N :: c :: s => forallb (fun c => (97 <=? c) && (c <=? 122))%N (c :: s)
  | _ => false
  end.
Definition issue_syntax (s : jstr) : bool :=
  match s with
  | 35%N :: c :: s => (49 <=? c)%N && (c <=? 57)%N && forallb is_digit s
  | _ => false
  end.

Definition check_extensions (value : jsval) : script () :=
  extensions ← array value "typescript.sourceExtensions";
  _ ← unique extensions "typescript.sourceExtensions" Ok;
  for_each (fun extension =>
    match extension with
    | VStr s => fail_when (negb (extension_syntax s)) (js "invalid TypeScript source extension " ++ s)
    | _ => shown ← template extension; script_fail (js "invalid TypeScript source extension " ++ shown)
    end) extensions.

(** The rules, and the layers they name. *)
Definition check_layer_rules (activePaths : list jstr) (value : jsval) : script (list jstr) :=
  layerRules ← array value "typescript.layerRules";
  _ ← unique layerRules "typescript.layerRules" (pair_key "root" ":" "prefix");
  _ ← for_each (fun '(index, rule) =>
        let label := at_label "typescript.layerRules" index in
        _ ← exactKeys rule ["root"; "prefix"; "layer"]%string label;
        _ ← (if member activePaths (prop rule "root") then Ok ()
             else shown ← template (prop rule "root");
                  script_fail (js "TypeScript layer rule references unknown root " ++ shown));
        _ ← relativePath (prop rule "prefix") (dotted label "prefix");
        _ ← nonEmptyString (prop rule "layer") (dotted label "layer");
        Ok ()) (indexed layerRules);
  Ok ((fun rule => text_of (prop rule "layer")) <$> layerRules).

(** An edge list between known layers: [forbiddenLayerEdges] and
    [allowedLayerEdges]. *)
Definition check_layer_edges (layers : list jstr) (value : jsval) (label what : jstr) : script () :=
  edges ← array value label;
  _ ← unique edges label (pair_key "from" "->" "to");
  for_each (fun '(index, edge) =>
    _ ← check_edge edge (at_label label index);
    fail_when (negb (member layers (prop edge "from") && member layers (prop edge "to")))
      (what ++ js " layer edge " ++ edge_text edge ++ js " references unknown layer")) (indexed edges).

Definition check_inventory (active : list jsval) (value : jsval) (label kind : string) : script () :=
  _ ← exactKeys value ["root"; "files"]%string label;
  root ← relativePath (prop value "root") (dotted label "root");
  _ ← fail_when (match List.filter (of_kind kind) active with
                 | [only] => negb (strict_eq (prop only "path") (VStr root))
                 | _ => true
                 end) (js label ++ js ".root must equal the sole active " ++ js kind ++ js " root");
  files ← array (prop value "files") (dotted label "files");
  _ ← unique files (dotted label "files") Ok;
  for_each (fun item => _ ← relativePath item (js label ++ js " file"); Ok ()) files.

Definition check_typescript (active : list jsval) (activePaths : list jstr) (value : jsval) : script () :=
  _ ← exactKeys value
        ["sourceExtensions"; "layerRules"; "forbiddenLayerEdges"; "generatedInventory"; "runtimeClientInventory"]%string
        "typescript";
  _ ← check_extensions (prop value "sourceExtensions");
  layers ← check_layer_rules activePaths (prop value "layerRules");
  _ ← check_layer_edges layers (prop value "forbiddenLayerEdges") "typescript.forbiddenLayerEdges" "TypeScript forbidden";
  _ ← check_inventory active (prop value "generatedInventory") "typescript.generatedInventory" "generated-projection";
  check_inventory active (prop value "runtimeClientInventory") "typescript.runtimeClientInventory" "runtime-client".

(** The modules, and the layers they name. *)
Definition check_modules (package : jstr) (value : jsval) : script (list jsval) :=
  modules ← array value "python.modules";
  _ ← unique modules "python.modules" (fun item => field item "module");
  _ ← for_each (fun '(index, item) =>
        let label := at_label "python.modules" index in
        _ ← exactKeys item ["module"; "layer"]%string label;
        module ← nonEmptyString (prop item "module") (dotted label "module");
        _ ← fail_when (negb (str_eqb module package) && negb (startsWith module (package ++ js ".")))
              (js "Python module " ++ module ++ js " is outside " ++ package);
        _ ← nonEmptyString (prop item "layer") (dotted label "layer");
        Ok ()) (indexed modules);
  Ok modules.

Definition check_exception (knownModules : list jstr) (item : jsval) (label : jstr) : script () :=
  _ ← exactKeys item ["from"; "to"; "importedNames"; "rationale"; "removalIssue"]%string label;
  from ← template (prop item "from");
  to ← template (prop item "to");
  let edge := from ++ js "->" ++ to in
  _ ← fail_when (negb (member knownModules (prop item "from") && member knownModules (prop item "to")))
        (js "Python exception " ++ edge ++ js " references unknown module");
  names ← array (prop item "importedNames") (js "python exception " ++ edge ++ js " importedNames");
  _ ← fail_when (length names =? 0)%nat (js "Python exception " ++ edge ++ js " must name exact imports");
  _ ← unique names (js "Python exception " ++ edge ++ js " importedNames") Ok;
  _ ← for_each (fun name => _ ← nonEmptyString name "Python exception imported name"; Ok ()) names;
  _ ← nonEmptyString (prop item "rationale") (js "Python exception " ++ edge ++ js " rationale");
  (* the regular expression is tested on the text of the value *)
  issue ← template (prop item "removalIssue");
  fail_when (negb (issue_syntax issue)) (js "Python exception " ++ edge ++ js " must have a removal issue").

Definition check_exceptions (knownModules : list jstr) (value : jsval) : script () :=
  exceptions ← array value "python.exceptions";
  _ ← unique exceptions "python.exceptions" (pair_key "from" "->" "to");
  for_each (fun '(index, item) => check_exception knownModules item (at_label "python.exceptions" index))
    (indexed exceptions).

Definition check_python (pythonRoot : jstr) (value : jsval) : script () :=
  _ ← exactKeys value ["moduleRoot"; "package"; "modules"; "allowedLayerEdges"; "exceptions"]%string "python";
  moduleRoot ← relativePath (prop value "moduleRoot") "python.moduleRoot";
  _ ← fail_when (negb (str_eqb moduleRoot pythonRoot) && negb (startsWith moduleRoot (pythonRoot ++ js "/")))
        "python.moduleRoot must be contained by the sole active Python root";
  package ← nonEmptyString (prop value "package") "python.package";
  modules ← check_modules package (prop value "modules");
  let pythonLayers := (fun item => text_of (prop item "layer")) <$> modules in
  let knownModules := (fun item => text_of (prop item "module")) <$> modules in
  _ ← check_layer_edges pythonLayers (prop value "allowedLayerEdges") "python.allowedLayerEdges" "Python allowed";
  check_exceptions knownModules (prop value "exceptions").

Definition validateRegistry (raw : jsval) : script jsval :=
  _ ← exactKeys raw
        ["schemaVersion"; "ownerAuthority"; "ignoredDirectoryNames"; "activeRoots"; "reservedRoots"; "rootEdges";
         "typescript"; "python"]%string "registry";
  _ ← fail_when (negb (strict_eq (prop raw "schemaVersion") (VNum (NInt 1)))) "registry.schemaVersion must equal 1";
  _ ← check_owner (prop raw "ownerAuthority");
  _ ← check_ignored (prop raw "ignoredDirectoryNames");
  '(active, python_root) ← check_active (prop (prop raw "ownerAuthority") "owner") (prop raw "activeRoots");
  _ ← check_reserved active (prop raw "reservedRoots");
  let activePaths := (fun item => text_of (prop item "path")) <$> active in
  _ ← check_root_edges activePaths (prop raw "rootEdges");
  _ ← check_typescript active activePaths (prop raw "typescript");
  _ ← check_python (text_of (prop python_root "path")) (prop raw "python");
  Ok raw.
End Validators.

(** ** The registry as data *)

Inductive Ecosystem := npm | python.
Inductive RootKind := application | generated_projection | runtime_client.

#[export] Instance Ecosystem_eq_dec : EqDecision Ecosystem.
Proof. solve_decision. Defined.
#[export] Instance RootKind_eq_dec : EqDecision RootKind.
Proof. solve_decision. Defined.

Record ActiveRoot := {
  root_path : jstr;
  ecosystem : Ecosystem;
  packageName : jstr;
  root_owner : jstr;
  kind : RootKind;
  publicExports : list jstr;
}.

Definition is_ecosystem (e : Ecosystem) (r : ActiveRoot) : bool := bool_decide (ecosystem r = e).
Definition is_kind (k : RootKind) (r : ActiveRoot) : bool := bool_decide (kind r = k).

Record LayerRule := {
  rule_root : jstr;
  rule_prefix : jstr;
  rule_layer : jstr;
}.

Record Inventory := {
  inventory_root : jstr;
  inventory_files : list jstr;
}.

Record TypeScriptRules := {
  sourceExtensions : list jstr;
  layerRules : list LayerRule;
  forbiddenLayerEdges : list Edge;
  generatedInventory : Inventory;
  runtimeClientInventory : Inventory;
}.

Record PythonModule := {
  module_name : jstr;
  module_layer : jstr;
}.

Record PythonException := {
  exception_from : jstr;
  exception_to : jstr;
  importedNames : list jstr;
}.

Record PythonRules := {
  moduleRoot : jstr;
  package : jstr;
  modules : list PythonModule;
  allowedLayerEdges : list Edge;
  exceptions : list PythonException;
}.

Record Registry := {
  owner_path : jstr;
  owner : jstr;
  ignoredDirectoryNames : list jstr;
  activeRoots : list ActiveRoot;
  reservedRoots : list jstr;
  rootEdges : list Edge;
  typescript_rules : TypeScriptRules;
  python_rules : PythonRules;
}.

(** ** The fields of a validated value *)

Definition as_list {A} (read : jsval -> option A) (v : jsval) : option (list A) :=
  match v with VArr l => mapM read l | _ => None end.
Definition strings_of : jsval -> option (list jstr) := as_list as_string.

Definition ecosystem_of (v : jsval) : option Ecosystem :=
  if strict_eq v (VStr "npm") then Some npm else if strict_eq v (VStr "python") then Some python else None.
Definition root_kind_of (v : jsval) : option RootKind :=
  if strict_eq v (VStr "application") then Some application
  else if strict_eq v (VStr "generated-projection") then Some generated_projection
  else if strict_eq v (VStr "runtime-client") then Some runtime_client else None.

Definition edge_of (v : jsval) : option Edge :=
  a ← as_string (prop v "from"); b ← as_string (prop v "to"); Some {| edge_from := a; edge_to := b |}.

Definition active_root_of (v : jsval) : option ActiveRoot :=
  a ← as_string (prop v "path");
  e ← ecosystem_of (prop v "ecosystem");
  p ← as_string (prop v "packageName");
  o ← as_string (prop v "owner");
  k ← root_kind_of (prop v "kind");
  x ← strings_of (prop v "publicExports");
  Some {| root_path := a; ecosystem := e; packageName := p; root_owner := o; kind := k; publicExports := x |}.

Definition rule_of (v : jsval) : option LayerRule :=
  r ← as_string (prop v "root"); p ← as_string (prop v "prefix"); l ← as_string (prop v "layer");
  Some {| rule_root := r; rule_prefix := p; rule_layer := l |}.

Definition inventory_of (v : jsval) : option Inventory :=
  r ← as_string (prop v "root"); f ← strings_of (prop v "files");
  Some {| inventory_root := r; inventory_files := f |}.

Definition typescript_of (v : jsval) : option TypeScriptRules :=
  e ← strings_of (prop v "sourceExtensions");
  r ← as_list rule_of (prop v "layerRules");
  f ← as_list edge_of (prop v "forbiddenLayerEdges");
  g ← inventory_of (prop v "generatedInventory");
  c ← inventory_of (prop v "runtimeClientInventory");
  Some {| sourceExtensions := e; layerRules := r; forbiddenLayerEdges := f; generatedInventory := g;
          runtimeClientInventory := c |}.

Definition module_of (v : jsval) : option PythonModule :=
  m ← as_string (prop v "module"); l ← as_string (prop v "layer"); Some {| module_name := m; module_layer := l |}.

Definition exception_of (v : jsval) : option PythonException :=
  a ← as_string (prop v "from"); b ← as_string (prop v "to"); n ← strings_of (prop v "importedNames");
  Some {| exception_from := a; exception_to := b; importedNames := n |}.

Definition python_of (v : jsval) : option PythonRules :=
  r ← as_string (prop v "moduleRoot");
  p ← as_string (prop v "package");
  m ← as_list module_of (prop v "modules");
  a ← as_list edge_of (prop v "allowedLayerEdges");
  x ← as_list exception_of (prop v "exceptions");
  Some {| moduleRoot := r; package := p; modules := m; allowedLayerEdges := a; exceptions := x |}.

Definition registry_of (v : jsval) : option Registry :=
  p ← as_string (prop (prop v "ownerAuthority") "path");
  o ← as_string (prop (prop v "ownerAuthority") "owner");
  i ← strings_of (prop v "ignoredDirectoryNames");
  a ← as_list active_root_of (prop v "activeRoots");
  r ← as_list (fun item => as_string (prop item "path")) (prop v "reservedRoots");
  e ← as_list edge_of (prop v "rootEdges");
  t ← typescript_of (prop v "typescript");
  y ← python_of (prop v "python");
  Some {| owner_path := p; owner := o; ignoredDirectoryNames := i; activeRoots := a; reservedRoots := r;
          rootEdges := e; typescript_rules := t; python_rules := y |}.
