(* ===== verification/ModulePaths.v ===== *)
(** What [relativePath] of [scripts/module-boundaries.mjs] accepts: the paths
    that name a place under the repository in one way. *)
From S2P Require Export ModuleRegistry.

(** A segment that stays where it is written. *)
Definition plain_segment (s : jstr) : Prop := s <> [] /\ s <> js "." /\ s <> js "..".

Definition relative_path (s : jstr) : Prop :=
  trim s = s /\ str_includes s 92 = false /\ Forall plain_segment (str_split s "/").

(** ** Splitting at a slash *)

(** [str_split] for one unit, without the bookkeeping. *)
Fixpoint pieces (c : N) (s : jstr) : list jstr :=
  match s with
  | [] => [[]]
  | x :: s =>
      if N.eqb x c then [] :: pieces c s
      else match pieces c s with [] => [[x]] | p :: ps => (x :: p) :: ps end
  end.

Lemma pieces_cons c s : exists p ps, pieces c s = p :: ps.
Proof. destruct s as [|x s]; cbn; [eauto|]. destruct (N.eqb x c); [eauto|]. destruct (pieces c s); eauto. Qed.

Lemma startsWith_nil s : startsWith s [] = true.
Proof. by destruct s. Qed.

Lemma split_loop_pieces c s piece :
  split_loop [c] s piece 0 = match pieces c s with [] => [] | p :: ps => (reverse piece ++ p) :: ps end.
Proof.
  revert piece. induction s as [|x s IH]; intros piece; cbn [split_loop pieces].
  { by rewrite app_nil_r. }
  destruct (pieces_cons c s) as (p & ps & E). cbn [startsWith].
  rewrite startsWith_nil, andb_true_r. destruct (N.eqb x c).
  - cbn [length Nat.sub]. rewrite IH, E. cbn. by rewrite app_nil_r.
  - rewrite IH, E. by rewrite reverse_cons, <- app_assoc.
Qed.

Lemma str_split_pieces c s : str_split s [c] = pieces c s.
Proof. unfold str_split. rewrite split_loop_pieces. by destruct (pieces_cons c s) as (p & ps & ->). Qed.

Lemma join_pieces c s : join [c] (pieces c s) = s.
Proof.
  induction s as [|x s IH]; [done|]. cbn [pieces]. destruct (pieces_cons c s) as (p & ps & E). rewrite E in *.
  destruct (N.eqb_spec x c) as [->|]; cbn in *; by rewrite IH.
Qed.

Lemma pieces_free c s p : p ∈ pieces c s -> str_includes p c = false.
Proof.
  revert p. induction s as [|x s IH]; intros p; cbn [pieces]; [by intros ->%list_elem_of_singleton|].
  destruct (pieces_cons c s) as (q & qs & E). rewrite E in *. destruct (N.eqb_spec x c) as [->|Hx].
  - intros [->|Hp]%elem_of_cons; [done|]. by apply IH.
  - intros [->|Hp]%elem_of_cons; [|by apply IH, list_elem_of_further].
    unfold str_includes. cbn. rewrite (proj2 (N.eqb_neq c x)) by congruence. cbn. apply IH, list_elem_of_here.
Qed.

(** ** [normalize] *)

Lemma normal_segments_plain above kept l :
  Forall (fun s => s <> [] /\ s <> js "..") l ->
  normal_segments above kept l = reverse kept ++ List.filter (fun s => negb (str_eqb s ".")) l.
Proof.
  intros Hl. revert kept. induction Hl as [|s l [Hn Hd] Hl IH]; intros kept; cbn [normal_segments List.filter].
  { by rewrite app_nil_r. }
  rewrite (proj2 (str_eqb_neq s (js ""))), (proj2 (str_eqb_neq s (js ".."))) by done. cbn [orb].
  destruct (str_eqb s "."); cbn; [done|]. by rewrite IH, reverse_cons, <- app_assoc.
Qed.

Fixpoint weight (l : list jstr) : nat := match l with [] => 0 | s :: l => S (length s + weight l) end.

Lemma join_weight c (l : list jstr) : l <> [] -> S (length (join [c] l)) = weight l.
Proof.
  destruct l as [|x l]; [done|]. intros _. cbn. rewrite length_app. do 2 f_equal.
  induction l as [|y l IH]; [done|]. cbn. by rewrite length_app, IH.
Qed.

Lemma weight_filter (f : jstr -> bool) l : weight (List.filter f l) = weight l -> List.filter f l = l.
Proof.
  assert (forall l, weight (List.filter f l) <= weight l)%nat as Hle.
  { clear l. intros l. induction l as [|x l IH]; [done|]. cbn. destruct (f x); cbn; lia. }
  induction l as [|x l IH]; [done|]. cbn. destruct (f x); cbn; intros H.
  - f_equal. apply IH. lia.
  - specialize (Hle l). lia.
Qed.

Lemma filter_id {A} (f : A -> bool) l : List.filter f l = l <-> forall x, x ∈ l -> f x = true.
Proof.
  split.
  - intros E x Hx. rewrite <- E in Hx. by apply elem_of_lfilter in Hx as [_ ?].
  - induction l as [|x l IH]; [done|]. intros H. cbn. rewrite H by apply list_elem_of_here. f_equal.
    apply IH. intros y Hy. apply H. by apply list_elem_of_further.
Qed.

Lemma pieces_head c s p ps : pieces c s = p :: ps -> p <> [] -> startsWith s [c] = false.
Proof.
  destruct s as [|x s]; cbn; [done|]. destruct (N.eqb_spec x c) as [->|]; [by intros [= <- <-]|done].
Qed.

Lemma pieces_snoc c s : pieces c (s ++ [c]) = pieces c s ++ [[]].
Proof.
  induction s as [|y s IH]; cbn; [by rewrite N.eqb_refl|]. rewrite IH.
  destruct (pieces_cons c s) as (p & ps & E). rewrite E. by destruct (N.eqb y c).
Qed.

Lemma pieces_last c s : (forall p, p ∈ pieces c s -> p <> []) -> endsWith s [c] = false.
Proof.
  destruct s as [|x s _] using rev_ind; [done|]. intros H. unfold endsWith. rewrite reverse_snoc. cbn.
  rewrite startsWith_nil, andb_true_r. destruct (N.eqb_spec x c) as [->|]; [|done]. rewrite pieces_snoc in H. destruct (H []); [|done].
  apply elem_of_app. right. apply list_elem_of_here.
Qed.

Lemma normalize_plain s :
  Forall (fun s => s <> [] /\ s <> js "..") (pieces 47 s) ->
  (normalize s = s /\ s <> js ".") <-> Forall plain_segment (pieces 47 s).
Proof.
  intros Hs. assert (forall p, p ∈ pieces 47 s -> p <> []) as Hne.
  { rewrite Forall_forall in Hs. intros p Hp. by apply Hs. }
  destruct s as [|c s']; [exfalso; by apply (Hne []); [apply list_elem_of_here|]|]. set (s := c :: s') in *.
  assert (isAbsolute s = false) as Ha.
  { destruct (pieces_cons 47 s) as (p & ps & E). apply (pieces_head 47 s p ps E), Hne. rewrite E. apply list_elem_of_here. }
  assert (normalize s = match join "/" (List.filter (fun s => negb (str_eqb s ".")) (pieces 47 s)) with
                        | [] => js "." | body => body end) as ->.
  { unfold normalize. cbv zeta. unfold s at 1. rewrite Ha. change (js "/") with [47%N]. rewrite (pieces_last 47 s Hne), str_split_pieces.
    rewrite normal_segments_plain by done. cbn [reverse rev_append app].
    destruct (join _ _); [done|]. cbn [app]. by rewrite ?app_nil_r. }
  transitivity (List.filter (fun s => negb (str_eqb s ".")) (pieces 47 s) = pieces 47 s).
  - set (f := fun s => negb (str_eqb s ".")). change (js "/") with [47%N]. split.
    + intros [E Hd]. apply weight_filter. destruct (List.filter f (pieces 47 s)) as [|p ps] eqn:Ef; [by cbn in E|].
      rewrite <- !(join_weight 47%N); [|by destruct (pieces_cons 47 s) as (?&?&->)|done].
      rewrite join_pieces. destruct (join [47%N] (p :: ps)); [by cbn in E|]. by rewrite E.
    + intros E. rewrite E, join_pieces. split; [done|]. intros Es. rewrite filter_id in E.
      specialize (E (js ".")). rewrite Es in E. by specialize (E (list_elem_of_here _ _)).
  - rewrite filter_id, Forall_forall. rewrite Forall_forall in Hs. unfold plain_segment.
    setoid_rewrite negb_true_iff. setoid_rewrite str_eqb_neq. naive_solver.
Qed.

Section Paths.
Context `{NumPrinter}.

Lemma nonEmptyString_ok v label s : nonEmptyString v label = Ok s <-> v = VStr s /\ trim s = s /\ s <> [].
Proof.
  unfold nonEmptyString. destruct v; try (split; [done|by intros (? & _)]).
  destruct (str_eqb (trim s0) s0) eqn:E; cbn.
  - apply str_eqb_eq in E. unfold str_length. destruct s0; cbn; [split; [done|by intros ([= <-] & _ & ?)]|].
    zcmp. destruct (Z.eqb_spec (Z.of_nat (S (length s0))) 0) as [?|_]; [lia|].
    split; [by intros [= <-]|by intros ([= <-] & _)].
  - apply str_eqb_neq in E. split; [done|]. by intros ([= <-] & ? & _).
Qed.

(** [relativePath] accepts exactly the trimmed strings without a backslash
    whose every segment is a name: not empty, not [.] and not [..]. *)
Theorem relativePath_exact v label s : relativePath v label = Ok s <-> v = VStr s /\ relative_path s.
Proof.
  unfold relativePath, relative_path. change (js "/") with [47%N]. rewrite str_split_pieces. split.
  - intros E. inv_script. apply nonEmptyString_ok in Ha as (-> & Ht & Hs).
    rewrite !orb_false_iff, negb_false_iff, str_eqb_eq, str_eqb_neq in Ha0. destruct Ha0 as ((((_ & Hb) & Hp) & Hn) & Hd).
    rewrite str_split_pieces in Hp. split_and!; [done..|]. apply normalize_plain; [|done].
    rewrite Forall_forall. intros p Hin. apply (proj1 (existsb_false _ _)) with (x := p) in Hp; [|done].
    apply orb_false_iff in Hp as [H1%str_eqb_neq H2%str_eqb_neq]. done.
  - intros (-> & Ht & Hb & Hp).
    assert (Forall (fun s => s <> [] /\ s <> js "..") (pieces 47 s)) as Hq.
    { eapply Forall_impl; [done|]. by intros ? (? & ? & ?). }
    destruct (proj2 (normalize_plain s Hq) Hp) as [Hn Hd].
    assert (s <> []) as Hs. { intros ->. apply Forall_inv in Hp. by destruct Hp. }
    rewrite (proj2 (nonEmptyString_ok (VStr s) label s)) by done. cbn [mbind outcome_bind].
    assert (isAbsolute s = false) as ->.
    { destruct (pieces_cons 47 s) as (p & ps & E). apply (pieces_head 47 s p ps E). rewrite E in Hq.
      by apply Forall_inv in Hq as [? _]. }
    rewrite Hb, Hn, str_eqb_refl, (proj2 (str_eqb_neq s (js "."))), str_split_pieces by done. cbn [orb negb].
    rewrite (proj2 (existsb_false _ _)); [done|]. rewrite Forall_forall in Hq. intros p Hin.
    destruct (Hq p Hin). by rewrite !(proj2 (str_eqb_neq _ _)).
Qed.
End Paths.
