(* ===== verification/ModuleRegistrySpec.v ===== *)
(** What [validateRegistry] guarantees: a value it returns is a registry, with
    every field of its type, every name known and the roots without a cycle. *)
From S2P Require Export ModulePaths.

Definition edge_key (e : Edge) : jstr := edge_name (edge_from e) (edge_to e).

Definition known_edges (names : list jstr) (l : list Edge) : Prop :=
  Forall (fun e => edge_from e ∈ names /\ edge_to e ∈ names) l /\ NoDup (edge_key <$> l).

Definition export_ok (s : jstr) : Prop := s = js "." \/ startsWith s "./" = true.

Record active_ok (owner : jstr) (r : ActiveRoot) : Prop := {
  active_path : relative_path (root_path r);
  active_owner : root_owner r = owner;
  active_exports : NoDup (publicExports r) /\ Forall export_ok (publicExports r);
  active_python : ecosystem r = python -> publicExports r = [];
}.

Definition sole_root (p : ActiveRoot -> bool) (roots : list ActiveRoot) (path : jstr) : Prop :=
  exists r, List.filter p roots = [r] /\ root_path r = path.

Definition inventory_ok (roots : list ActiveRoot) (k : RootKind) (i : Inventory) : Prop :=
  sole_root (is_kind k) roots (inventory_root i) /\ NoDup (inventory_files i) /\ Forall relative_path (inventory_files i).

Record typescript_ok (roots : list ActiveRoot) (t : TypeScriptRules) : Prop := {
  ts_extensions : NoDup (sourceExtensions t) /\ Forall (fun s => extension_syntax s = true) (sourceExtensions t);
  ts_rules : Forall (fun rule => rule_root rule ∈ root_path <$> roots /\ relative_path (rule_prefix rule)) (layerRules t);
  ts_rules_distinct : NoDup ((fun rule => (rule_root rule, rule_prefix rule)) <$> layerRules t);
  ts_forbidden : known_edges (rule_layer <$> layerRules t) (forbiddenLayerEdges t);
  ts_generated : inventory_ok roots generated_projection (generatedInventory t);
  ts_client : inventory_ok roots runtime_client (runtimeClientInventory t);
}.

(** A module is the package or in it; a directory is the root or under it. *)
Definition within (sep : string) (outer inner : jstr) : Prop := inner = outer \/ startsWith inner (outer ++ js sep) = true.

Definition exception_key (x : PythonException) : jstr := edge_name (exception_from x) (exception_to x).

Record python_ok (roots : list ActiveRoot) (p : PythonRules) : Prop := {
  py_root : exists path, sole_root (is_ecosystem python) roots path /\ within "/" path (moduleRoot p);
  py_modules : Forall (fun m => within "." (package p) (module_name m)) (modules p) /\ NoDup (module_name <$> modules p);
  py_edges : known_edges (module_layer <$> modules p) (allowedLayerEdges p);
  py_exceptions : Forall (fun x => exception_from x ∈ module_name <$> modules p /\
    exception_to x ∈ module_name <$> modules p /\ importedNames x <> [] /\ NoDup (importedNames x)) (exceptions p);
  py_exceptions_distinct : NoDup (exception_key <$> exceptions p);
}.

Definition root_arrow (r : Registry) : jstr -> jstr -> Prop := edge_rel (root_path <$> activeRoots r) (rootEdges r).

Record well_formed (r : Registry) : Prop := {
  wf_owner : relative_path (owner_path r) /\ startsWith (owner r) "@" = true;
  wf_ignored : NoDup (ignoredDirectoryNames r) /\
    Forall (fun s => str_includes s 47 = false /\ plain_segment s) (ignoredDirectoryNames r);
  wf_active : Forall (active_ok (owner r)) (activeRoots r);
  wf_packages : NoDup (packageName <$> activeRoots r);
  wf_paths : NoDup ((root_path <$> activeRoots r) ++ reservedRoots r);
  wf_reserved : Forall relative_path (reservedRoots r);
  wf_edges : known_edges (root_path <$> activeRoots r) (rootEdges r);
  wf_acyclic : forall x, ~ tc (root_arrow r) x x;
  wf_typescript : typescript_ok (activeRoots r) (typescript_rules r);
  wf_python : python_ok (activeRoots r) (python_rules r);
}.

(** ** Generic readings *)

Lemma same_value_str a b : same_value_zero (VStr a) (VStr b) = str_eqb a b.
Proof. done. Qed.

Lemma member_elem names v : member names v = true <-> exists s, v = VStr s /\ s ∈ names.
Proof.
  unfold member. destruct v; try (split; [done|by intros (? & ? & ?)]).
  rewrite existsb_str_elem. split; [eauto|]. by intros (? & [= ->] & ?).
Qed.

Lemma mapM_fmap {A B C} (read : A -> option B) (f : A -> C) (g : B -> C) l ys :
  mapM read l = Some ys -> (forall x y, read x = Some y -> g y = f x) -> g <$> ys = f <$> l.
Proof. intros H%mapM_Some Hfg. induction H; cbn; [done|]. f_equal; auto. Qed.

Lemma mapM_Forall {A B} (read : A -> option B) (P : A -> Prop) (Q : B -> Prop) l ys :
  mapM read l = Some ys -> (forall x, x ∈ l -> P x) -> (forall x y, read x = Some y -> P x -> Q y) -> Forall Q ys.
Proof.
  intros H%mapM_Some HP HPQ. induction H; constructor; [eauto using list_elem_of_here|].
  apply IHForall2. intros z Hz. apply HP. by apply list_elem_of_further.
Qed.

Lemma mapM_elem {A B} (read : A -> option B) l ys x :
  mapM read l = Some ys -> x ∈ l -> exists y, read x = Some y /\ y ∈ ys.
Proof.
  intros H%mapM_Some (i & Hi)%list_elem_of_lookup. destruct (Forall2_lookup_l _ _ _ _ _ H Hi) as (y & Hy & ?).
  exists y. split; [done|]. by eapply list_elem_of_lookup_2.
Qed.

Lemma mapM_defined {A B} (read : A -> option B) l : (forall x, x ∈ l -> is_Some (read x)) -> is_Some (mapM read l).
Proof. intros H. apply mapM_is_Some. by rewrite Forall_forall. Qed.

Lemma mapM_lfilter {A B} (read : A -> option B) (p : A -> bool) (q : B -> bool) l ys :
  mapM read l = Some ys -> (forall x y, read x = Some y -> q y = p x) -> mapM read (List.filter p l) = Some (List.filter q ys).
Proof.
  intros H%mapM_Some Hpq. apply mapM_Some. induction H as [|x y l ys Hxy H IH]; cbn; [done|].
  rewrite (Hpq _ _ Hxy). destruct (p x); [by constructor|done].
Qed.

Lemma indexed_ok {E} (f : Z * jsval -> outcome E ()) l u x :
  for_each f (indexed l) = Ok u -> x ∈ l -> exists i, f (i, x) = Ok ().
Proof. intros H (i & Hi)%elem_indexed. exists i. by apply (for_each_elem _ _ _ _ H). Qed.

Section Readings.
Context `{NumPrinter}.

Lemma same_json_eq a b : same_json a b = true <-> a = b.
Proof.
  unfold same_json. rewrite str_eqb_eq. split; [|by intros ->]. intros E.
  apply json_text_inj in E; [injection E as E|constructor..].
  - apply (list_fmap_eq_inj VStr) in E; [done|]. by intros ? ? [= ->].
  - intros v (s & -> & _)%list_elem_of_fmap. constructor.
  - intros v (s & -> & _)%list_elem_of_fmap. constructor.
Qed.

Lemma exactKeys_fields v keys label u : exactKeys v keys label = Ok u -> exists fs, v = VObj fs /\ object_keys fs ≡ₚ js <$> keys.
Proof.
  unfold exactKeys. destruct v as [| | | | | |fs|]; cbn; try done. intros E%fail_when_ok.
  apply negb_false_iff, same_json_eq in E. exists fs. split; [done|].
  by rewrite <- (sort_strings_perm (object_keys fs)), E, sort_strings_perm.
Qed.

Lemma array_ok v label l : array v label = Ok l -> v = VArr l.
Proof. destruct v; cbn; by try intros [= ->]. Qed.

Lemma unique_from_ok (f : jsval -> jstr) seen values label key u :
  unique_from (VStr <$> seen) values label key = Ok u -> (forall v, v ∈ values -> key v = Ok (VStr (f v))) ->
  NoDup (f <$> values) /\ forall v, v ∈ values -> f v ∉ seen.
Proof.
  revert seen. induction values as [|v values IH]; intros seen E Hf.
  { split; [constructor|by intros ? ?%elem_of_nil]. }
  cbn [unique_from] in E. rewrite (Hf v) in E by apply list_elem_of_here. cbn [mbind outcome_bind] in E.
  destruct (existsb _ _) eqn:Es; [done|]. cbn [mbind outcome_bind] in E.
  apply (IH (f v :: seen)) in E as [Hn Hs]; [|intros; by apply Hf, list_elem_of_further].
  assert (f v ∉ seen) as Hv.
  { intros Hin. rewrite existsb_false in Es. specialize (Es (VStr (f v))). rewrite same_value_str, str_eqb_refl in Es.
    by specialize (Es ltac:(by apply list_elem_of_fmap_2)). }
  split.
  - cbn. constructor; [|done]. intros (w & Hw & Hin)%list_elem_of_fmap. apply (Hs w Hin). rewrite <- Hw. apply list_elem_of_here.
  - intros w [->|Hw]%elem_of_cons; [done|]. intros Hin. apply (Hs w Hw). by apply list_elem_of_further.
Qed.

Lemma unique_ok (f : jsval -> jstr) values label key u :
  unique values label key = Ok u -> (forall v, v ∈ values -> key v = Ok (VStr (f v))) -> NoDup (f <$> values).
Proof. intros E Hf. by apply (unique_from_ok f [] _ _ _ _ E) in Hf as [? _]. Qed.

Lemma unique_texts values label u :
  unique values label Ok = Ok u -> (forall v, v ∈ values -> exists s, v = VStr s) -> NoDup (text_of <$> values).
Proof. intros E Hv. eapply unique_ok; [done|]. intros v (s & ->)%Hv. done. Qed.

Lemma field_string v k s : prop v k = VStr s -> field v k = Ok (VStr s).
Proof. intros E. destruct v; cbn in *; by rewrite ?E. Qed.

Lemma pair_key_string (a sep b : string) v x y :
  prop v a = VStr x -> prop v b = VStr y -> pair_key a sep b v = Ok (VStr (x ++ js sep ++ y)).
Proof. intros Ea Eb. unfold pair_key. by rewrite (field_string _ _ _ Ea), (field_string _ _ _ Eb). Qed.

Lemma strings_of_ok v l : v = VArr l -> (forall x, x ∈ l -> exists s, x = VStr s) -> strings_of v = Some (text_of <$> l).
Proof.
  intros -> Hl. apply mapM_Some. induction l as [|x l IH]; cbn; constructor.
  - destruct (Hl x (list_elem_of_here _ _)) as [s ->]. done.
  - apply IH. intros y Hy. apply Hl. by apply list_elem_of_further.
Qed.
End Readings.

(** ** The sections *)

Section Checks.
Context `{NumPrinter}.

Lemma check_edge_ok e label u : check_edge e label = Ok u ->
  exists d, edge_of e = Some d /\ prop e "from" = VStr (edge_from d) /\ prop e "to" = VStr (edge_to d).
Proof.
  unfold check_edge. intros E. inv_script. apply nonEmptyString_ok in Ha0 as (Hf & _), Ha1 as (Ht & _).
  unfold edge_of. rewrite Hf, Ht. eexists. by split.
Qed.

Lemma edge_of_to_edge v d : edge_of v = Some d -> to_edge v = d.
Proof.
  unfold edge_of, to_edge, text_of. destruct (as_string (prop v "from")), (as_string (prop v "to")); by try intros [= <-].
Qed.

Lemma edge_of_key v d : edge_of v = Some d -> edge_key d = edge_text v.
Proof. intros <-%edge_of_to_edge. done. Qed.

(** A list of edges between [names]. *)
Lemma edges_ok (names : list jstr) edges label (check : Z * jsval -> script ()) u u' :
  unique edges label (pair_key "from" "->" "to") = Ok u ->
  for_each check (indexed edges) = Ok u' ->
  (forall i e, check (i, e) = Ok () -> (exists label u, check_edge e label = Ok u) /\
    member names (prop e "from") = true /\ member names (prop e "to") = true) ->
  exists l, mapM edge_of edges = Some l /\ known_edges names l.
Proof.
  intros Hu Hall Hc.
  assert (forall e, e ∈ edges -> exists d, edge_of e = Some d /\ prop e "from" = VStr (edge_from d) /\
    prop e "to" = VStr (edge_to d) /\ edge_from d ∈ names /\ edge_to d ∈ names) as Hd.
  { intros e He. destruct (indexed_ok _ _ _ _ Hall He) as [i Hi]. apply Hc in Hi as ((lb & w & Hi) & Hf & Ht).
    apply check_edge_ok in Hi as (d & Hd & Ef & Et). rewrite Ef in Hf. rewrite Et in Ht.
    apply member_elem in Hf as (? & [= <-] & Hf), Ht as (? & [= <-] & Ht). eauto 10. }
  destruct (mapM_defined edge_of edges) as [l Hl]. { intros e (d & -> & _)%Hd. eauto. }
  exists l. split; [done|]. split.
  - eapply (mapM_Forall _ _ _ _ _ Hl Hd). intros e d He (d' & He' & _ & _ & ?). congruence.
  - rewrite (mapM_fmap _ edge_text _ _ _ Hl edge_of_key). eapply unique_ok; [done|].
    intros e (d & Ed & Hf & Ht & _)%Hd. rewrite (pair_key_string _ _ _ _ _ _ Hf Ht). unfold edge_text. by rewrite Hf, Ht.
Qed.

Lemma check_layer_edges_ok layers value label what u : check_layer_edges layers value label what = Ok u ->
  exists l, as_list edge_of value = Some l /\ known_edges layers l.
Proof.
  unfold check_layer_edges. intros E. inv_script. apply array_ok in Ha as ->.
  apply (edges_ok _ _ _ _ _ _ Ha0 E). clear. intros i e E. inv_script.
  apply negb_false_iff, andb_true_iff in E as [? ?]. eauto.
Qed.

Lemma check_root_edges_ok names value u : check_root_edges names value = Ok u ->
  exists l, as_list edge_of value = Some l /\ known_edges names l /\ forall x, ~ tc (edge_rel names l) x x.
Proof.
  unfold check_root_edges. intros E. inv_script. apply array_ok in Ha as ->.
  destruct (edges_ok names _ _ _ _ _ Ha0 Ha1) as (l & Hl & Hk).
  { clear. intros i e E. inv_script. apply negb_false_iff, andb_true_iff in Ha0 as [? ?]. eauto. }
  exists l. split_and!; [done..|]. pose proof (assertAcyclic_search names (to_edge <$> a) "root dependency graph") as Hs.
  rewrite E in Hs. cbv zeta in Hs. rewrite <- (mapM_fmap _ to_edge id _ _ Hl), list_fmap_id in Hs; [done|].
  intros ? ? <-%edge_of_to_edge. done.
Qed.

Lemma strings_each values (check : jsval -> script ()) label u u' (P : jstr -> Prop) :
  unique values label Ok = Ok u -> for_each check values = Ok u' ->
  (forall v, check v = Ok () -> exists s, v = VStr s /\ P s) ->
  exists l, strings_of (VArr values) = Some l /\ NoDup l /\ Forall P l /\ length l = length values.
Proof.
  intros Hu Hall Hc. assert (forall v, v ∈ values -> exists s, v = VStr s /\ P s) as Hv.
  { intros v Hv. apply Hc. by apply (for_each_elem _ _ _ _ Hall). }
  exists (text_of <$> values). split_and!.
  - apply strings_of_ok; [done|]. intros v (s & -> & _)%Hv. eauto.
  - apply (unique_texts _ _ _ Hu). intros v (s & -> & _)%Hv. eauto.
  - rewrite Forall_forall. intros s (v & -> & (x & -> & Hx)%Hv)%list_elem_of_fmap. done.
  - apply length_fmap.
Qed.

Lemma check_ignored_ok value u : check_ignored value = Ok u -> exists l, strings_of value = Some l /\ NoDup l /\
  Forall (fun s => str_includes s 47 = false /\ plain_segment s) l.
Proof.
  unfold check_ignored. intros E. inv_script. apply array_ok in Ha as ->.
  destruct (strings_each _ _ _ _ _ (fun s => str_includes s 47 = false /\ plain_segment s) Ha0 E)
    as (l & ? & ? & ? & _); [|eauto].
  clear. intros v E. inv_script. apply nonEmptyString_ok in Ha as (-> & _ & Hn).
  rewrite !orb_false_iff, !str_eqb_neq in E. destruct E as [[? ?] ?]. unfold plain_segment. eauto 10.
Qed.

Lemma check_extensions_ok value u : check_extensions value = Ok u -> exists l, strings_of value = Some l /\ NoDup l /\
  Forall (fun s => extension_syntax s = true) l.
Proof.
  unfold check_extensions. intros E. inv_script. apply array_ok in Ha as ->.
  destruct (strings_each _ _ _ _ _ (fun s => extension_syntax s = true) Ha0 E) as (l & ? & ? & ? & _); [|eauto].
  clear. intros v E. destruct v; inv_script. apply negb_false_iff in E. eauto.
Qed.

Lemma relative_each v label : (_ ← relativePath v label; Ok ()) = Ok () -> exists s, v = VStr s /\ relative_path s.
Proof. intros E. inv_script. apply relativePath_exact in Ha as [-> ?]. eauto. Qed.

Lemma ecosystem_known v : is_one_of ["npm"; "python"] v = true -> exists e, ecosystem_of v = Some e.
Proof.
  destruct v; try done. unfold is_one_of, named_in, ecosystem_of. cbn [existsb strict_eq].
  rewrite !orb_true_iff, !str_eqb_eq. intros [<-|[<-|?]]; [by eexists..|done].
Qed.
Lemma kind_known v : is_one_of ["application"; "generated-projection"; "runtime-client"] v = true -> exists k, root_kind_of v = Some k.
Proof.
  destruct v; try done. unfold is_one_of, named_in, root_kind_of. cbn [existsb strict_eq].
  rewrite !orb_true_iff, !str_eqb_eq. intros [<-|[<-|[<-|?]]]; [by eexists..|done].
Qed.

Lemma check_active_root_ok o item label u : check_active_root (VStr o) item label = Ok u ->
  exists r, active_root_of item = Some r /\ active_ok o r.
Proof.
  unfold check_active_root. intros E. inv_script.
  apply relativePath_exact in Ha0 as [Hp Hr]. apply nonEmptyString_ok in Ha2 as (Hn & _).
  apply negb_false_iff, ecosystem_known in Ha1 as [e He]. apply negb_false_iff, strict_eq_str in Ha3.
  apply negb_false_iff, kind_known in Ha4 as [k Hk]. apply array_ok in Ha5 as Hx.
  destruct (strings_each _ _ _ _ _ export_ok Ha6 Ha7) as (l & Hl & Hd & Hf & Hlen).
  { clear. intros v E. unfold check_export in E. inv_script. apply nonEmptyString_ok in Ha as (-> & _).
    eexists. split; [done|]. apply andb_false_iff in E as [?%negb_false_iff|?%negb_false_iff]; [left; by apply str_eqb_eq|by right]. }
  eexists. split.
  - unfold active_root_of. rewrite Hp, He, Hn, Ha3, Hk, Hx, Hl. done.
  - split; cbn; [done..|]. intros ->. apply andb_false_iff in E as [E|E%negb_false_iff%Nat.eqb_eq].
    + unfold ecosystem_of in He. rewrite E in He. by destruct (strict_eq _ _).
    + apply nil_length_inv. by rewrite Hlen.
Qed.
End Checks.

(** ** The registry *)

Section Registry.
Context `{NumPrinter}.

Lemma ecosystem_of_python v e : ecosystem_of v = Some e -> bool_decide (e = python) = strict_eq v (VStr "python").
Proof.
  unfold ecosystem_of. destruct (strict_eq v (VStr "npm")) eqn:E1.
  { apply strict_eq_str in E1 as ->. by intros [= <-]. }
  destruct (strict_eq v (VStr "python")); [by intros [= <-]|done].
Qed.

Lemma kind_of_name v k : root_kind_of v = Some k ->
  bool_decide (k = generated_projection) = strict_eq v (VStr "generated-projection") /\ bool_decide (k = runtime_client) = strict_eq v (VStr "runtime-client").
Proof.
  unfold root_kind_of. destruct (strict_eq v (VStr "application")) eqn:E1.
  { apply strict_eq_str in E1 as ->. by intros [= <-]. }
  destruct (strict_eq v (VStr "generated-projection")) eqn:E2.
  { apply strict_eq_str in E2 as ->. by intros [= <-]. }
  destruct (strict_eq v (VStr "runtime-client")); [by intros [= <-]|done].
Qed.

Lemma as_string_eq v s : as_string v = Some s -> v = VStr s.
Proof. destruct v; cbn; by try intros [= ->]. Qed.

Lemma active_root_fields v r : active_root_of v = Some r ->
  prop v "path" = VStr (root_path r) /\ prop v "packageName" = VStr (packageName r) /\
  is_ecosystem python r = of_ecosystem "python" v /\
  is_kind generated_projection r = of_kind "generated-projection" v /\ is_kind runtime_client r = of_kind "runtime-client" v.
Proof.
  unfold active_root_of, is_ecosystem, is_kind, of_ecosystem, of_kind. rewrite !bind_Some.
  intros (a & Ha & Hr). rewrite bind_Some in Hr. destruct Hr as (e & He & Hr). rewrite bind_Some in Hr.
  destruct Hr as (n & Hn & Hr). rewrite !bind_Some in Hr. destruct Hr as (o & _ & Hr). rewrite !bind_Some in Hr.
  destruct Hr as (k & Hk & Hr). rewrite !bind_Some in Hr. destruct Hr as (x & _ & [= <-]). cbn [root_path packageName ecosystem kind].
  apply as_string_eq in Ha, Hn. apply kind_of_name in Hk as [? ?]. by apply ecosystem_of_python in He.
Qed.

Lemma check_active_ok o value u : check_active (VStr o) value = Ok u ->
  exists roots p, value = VArr u.1 /\ mapM active_root_of u.1 = Some roots /\ Forall (active_ok o) roots /\
    NoDup (packageName <$> roots) /\ List.filter (is_ecosystem python) roots = [p] /\
    prop u.2 "path" = VStr (root_path p) /\ (fun item => text_of (prop item "path")) <$> u.1 = root_path <$> roots.
Proof.
  unfold check_active. intros E. inv_script. apply array_ok in Ha as ->.
  destruct (List.filter (of_ecosystem "python") a) as [|py []] eqn:Ep; inv_script. cbn [fst snd].
  assert (forall v, v ∈ a -> exists r, active_root_of v = Some r /\ active_ok o r) as Hv.
  { intros v Hv. destruct (indexed_ok _ _ _ _ Ha2 Hv) as [i Hi]. by eapply check_active_root_ok. }
  destruct (mapM_defined active_root_of a) as [roots Hr]. { intros v (r & -> & _)%Hv. eauto. }
  assert (forall v, v ∈ a -> exists r, active_root_of v = Some r) as Hd by (intros v (r & ? & _)%Hv; eauto).
  pose proof (mapM_lfilter _ (of_ecosystem "python") (is_ecosystem python) _ _ Hr) as Hf.
  rewrite Ep in Hf. specialize (Hf ltac:(intros ? ? (_ & _ & ? & _)%active_root_fields; done)).
  cbn in Hf. destruct (active_root_of py) as [p|] eqn:Epy; [|done]. cbn in Hf. injection Hf as Hf.
  exists roots, p. split_and!; [done|done| | |done| |].
  - apply (mapM_Forall _ _ _ _ _ Hr Hv). intros v r Hv' (r' & Hr' & ?). congruence.
  - rewrite (mapM_fmap _ (fun v => text_of (prop v "packageName")) _ _ _ Hr).
    + eapply unique_ok; [exact Ha1|]. intros v (r & (_ & E & _)%active_root_fields)%Hd.
      rewrite E. by apply field_string.
    + intros v r (_ & -> & _)%active_root_fields. done.
  - by apply active_root_fields in Epy as [-> _].
  - symmetry. apply (mapM_fmap _ _ _ _ _ Hr). intros v r (-> & _)%active_root_fields. done.
Qed.

Lemma check_reserved_ok active roots value u :
  mapM active_root_of active = Some roots -> check_reserved active value = Ok u ->
  exists l, as_list (fun item => as_string (prop item "path")) value = Some l /\ Forall relative_path l /\
    NoDup ((root_path <$> roots) ++ l).
Proof.
  unfold check_reserved. intros Hr E. inv_script. apply array_ok in Ha as ->.
  assert (forall v, v ∈ a -> exists s, prop v "path" = VStr s /\ relative_path s) as Hv.
  { intros v Hv. destruct (indexed_ok _ _ _ _ Ha1 Hv) as [i Hi]. unfold check_reserved_root in Hi. inv_script.
    apply relativePath_exact in Ha2 as [? ?]. eauto. }
  destruct (mapM_defined (fun item => as_string (prop item "path")) a) as [l Hl].
  { intros v (s & -> & _)%Hv. by eexists. }
  assert (l = (fun v => text_of (prop v "path")) <$> a) as Hla.
  { rewrite <- (list_fmap_id l). apply (mapM_fmap _ _ _ _ _ Hl). intros v s. unfold text_of. by intros ->. }
  exists l. split_and!; [done| |].
  - apply (mapM_Forall _ _ _ _ _ Hl Hv). intros v s Hs (s' & Hs' & ?). rewrite Hs' in Hs. by injection Hs as <-.
  - rewrite Hla, (mapM_fmap _ (fun v => text_of (prop v "path")) _ _ _ Hr), <- fmap_app.
    2:{ intros v r (-> & _)%active_root_fields. done. }
    eapply unique_ok; [exact E|]. intros v [Hin|(s & -> & _)%Hv]%elem_of_app; [|done].
    destruct (mapM_elem _ _ _ _ Hr Hin) as (r & (-> & _)%active_root_fields & _). done.
Qed.

Lemma check_inventory_ok active roots value label name k u :
  mapM active_root_of active = Some roots ->
  (forall v r, active_root_of v = Some r -> is_kind k r = of_kind name v) ->
  check_inventory active value label name = Ok u ->
  exists i, inventory_of value = Some i /\ inventory_ok roots k i.
Proof.
  unfold check_inventory. intros Hr Hk E. inv_script. apply relativePath_exact in Ha0 as [Hp _]. apply array_ok in Ha2 as Hf.
  destruct (strings_each _ _ _ _ _ relative_path Ha3 E) as (l & Hl & Hd & Hall & _).
  { intros v Hv. by apply relative_each in Hv. }
  destruct (List.filter (of_kind name) active) as [|only []] eqn:Eo; try discriminate. apply negb_false_iff, strict_eq_str in Ha1.
  pose proof (mapM_lfilter _ _ _ _ _ Hr Hk) as Hm. rewrite Eo in Hm. cbn in Hm.
  destruct (active_root_of only) as [r|] eqn:Er; [|done]. injection Hm as Hm.
  apply active_root_fields in Er as [Er _]. rewrite Ha1 in Er. injection Er as ->.
  eexists. unfold inventory_of. rewrite Hp, Hf, Hl. split; [done|]. split_and!; [by exists r|done..].
Qed.

Lemma check_layer_rules_ok names value layers : check_layer_rules names value = Ok layers ->
  exists l, as_list rule_of value = Some l /\ layers = rule_layer <$> l /\
    Forall (fun rule => rule_root rule ∈ names /\ relative_path (rule_prefix rule)) l /\
    NoDup ((fun rule => (rule_root rule, rule_prefix rule)) <$> l).
Proof.
  unfold check_layer_rules. intros E. inv_script. apply array_ok in Ha as ->.
  assert (forall v, v ∈ a -> exists r, rule_of v = Some r /\ prop v "root" = VStr (rule_root r) /\
    prop v "prefix" = VStr (rule_prefix r) /\ prop v "layer" = VStr (rule_layer r) /\
    rule_root r ∈ names /\ relative_path (rule_prefix r)) as Hv.
  { intros v Hv. destruct (indexed_ok _ _ _ _ Ha1 Hv) as [i Hi]. cbv zeta in Hi. inv_script.
    apply relativePath_exact in Ha3 as [Hp ?]. apply nonEmptyString_ok in Ha4 as (Hl & _).
    destruct (member names (prop v "root")) eqn:Hm; [|inv_script]. apply member_elem in Hm as (s & Hs & ?).
    unfold rule_of. rewrite Hs, Hp, Hl. eexists. split_and!; try done. }
  destruct (mapM_defined rule_of a) as [l Hl]. { intros v (r & -> & _)%Hv. by eexists. }
  assert (forall v r, rule_of v = Some r -> rule_layer r = text_of (prop v "layer") /\
    rule_root r = text_of (prop v "root") /\ rule_prefix r = text_of (prop v "prefix")) as Hread.
  { unfold rule_of, text_of. intros v r. destruct (as_string (prop v "root")), (as_string (prop v "prefix")),
      (as_string (prop v "layer")); by try intros [= <-]. }
  exists l. split_and!; [done| | |].
  - symmetry. apply (mapM_fmap _ _ _ _ _ Hl). intros v r (? & _)%Hread. done.
  - apply (mapM_Forall _ _ _ _ _ Hl Hv). intros v r Hr (r' & Hr' & _ & _ & _ & ? & ?). by simplify_eq.
  - apply (NoDup_fmap_1 (fun '(x, y) => x ++ js ":" ++ y)). rewrite <- list_fmap_compose.
    rewrite (mapM_fmap _ (fun v => text_of (prop v "root") ++ js ":" ++ text_of (prop v "prefix")) _ _ _ Hl).
    + eapply unique_ok; [exact Ha0|]. intros v (r & _ & Er & Ep & _)%Hv.
      rewrite (pair_key_string _ _ _ _ _ _ Er Ep), Er, Ep. done.
    + intros v r (_ & Hx & Hy)%Hread. cbn. by rewrite Hx, Hy.
Qed.

Lemma check_typescript_ok active roots value u :
  mapM active_root_of active = Some roots -> check_typescript active (root_path <$> roots) value = Ok u ->
  exists t, typescript_of value = Some t /\ typescript_ok roots t.
Proof.
  unfold check_typescript. intros Hr E. inv_script.
  apply check_extensions_ok in Ha0 as (ex & Hex & ? & ?). apply check_layer_rules_ok in Ha1 as (rules & Hrules & -> & ? & ?).
  apply check_layer_edges_ok in Ha2 as (fb & Hfb & ?).
  apply (check_inventory_ok _ _ _ _ _ generated_projection _ Hr) in Ha3 as (g & Hg & ?);
    [|by intros ? ? (_ & _ & _ & ? & _)%active_root_fields].
  apply (check_inventory_ok _ _ _ _ _ runtime_client _ Hr) in E as (c & Hc & ?);
    [|by intros ? ? (_ & _ & _ & _ & ?)%active_root_fields].
  unfold typescript_of. rewrite Hex, Hrules, Hfb, Hg, Hc. eexists. split; [done|]. by split.
Qed.

Lemma check_modules_ok pkg value items : check_modules pkg value = Ok items ->
  exists l, value = VArr items /\ mapM module_of items = Some l /\
    (fun item => text_of (prop item "layer")) <$> items = module_layer <$> l /\
    (fun item => text_of (prop item "module")) <$> items = module_name <$> l /\
    Forall (fun m => within "." pkg (module_name m)) l /\ NoDup (module_name <$> l).
Proof.
  unfold check_modules. intros E. inv_script. apply array_ok in Ha as ->.
  assert (forall v, v ∈ items -> exists m, module_of v = Some m /\ prop v "module" = VStr (module_name m) /\
    within "." pkg (module_name m)) as Hv.
  { intros v Hv. destruct (indexed_ok _ _ _ _ Ha1 Hv) as [i Hi]. cbv zeta in Hi. inv_script.
    apply nonEmptyString_ok in Ha2 as (Hm & _), Ha4 as (Hl & _). unfold module_of. rewrite Hm, Hl.
    eexists. split_and!; [done|done|]. cbn. apply andb_false_iff in Ha3 as [?%negb_false_iff|?%negb_false_iff]; [left; by apply str_eqb_eq|by right]. }
  destruct (mapM_defined module_of items) as [l Hl]. { intros v (r & -> & _)%Hv. by eexists. }
  assert (forall v m, module_of v = Some m -> module_layer m = text_of (prop v "layer") /\ module_name m = text_of (prop v "module")) as Hread.
  { unfold module_of, text_of. intros v r. destruct (as_string (prop v "module")), (as_string (prop v "layer")); by try intros [= <-]. }
  exists l. split_and!; [done|done| | | |].
  - symmetry. apply (mapM_fmap _ _ _ _ _ Hl). by intros v r (? & _)%Hread.
  - symmetry. apply (mapM_fmap _ _ _ _ _ Hl). by intros v r (_ & ?)%Hread.
  - apply (mapM_Forall _ _ _ _ _ Hl Hv). intros v r Hr (r' & Hr' & _ & ?). by simplify_eq.
  - rewrite (mapM_fmap _ (fun v => text_of (prop v "module")) _ _ _ Hl).
    + eapply unique_ok; [exact Ha0|]. intros v (r & _ & Er & _)%Hv. rewrite Er. by apply field_string.
    + by intros v r (_ & ?)%Hread.
Qed.

Lemma check_exception_ok names item label u : check_exception names item label = Ok u ->
  exists x, exception_of item = Some x /\ prop item "from" = VStr (exception_from x) /\
    prop item "to" = VStr (exception_to x) /\
    exception_from x ∈ names /\ exception_to x ∈ names /\ importedNames x <> [] /\ NoDup (importedNames x).
Proof.
  unfold check_exception. intros E. inv_script.
  apply negb_false_iff, andb_true_iff in Ha2 as [(f & Ef & ?)%member_elem (t & Et & ?)%member_elem].
  apply array_ok in Ha3 as Hn.
  destruct (strings_each _ _ _ _ _ (fun _ => True) Ha5 Ha6) as (l & Hl & Hd & _ & Hlen).
  { intros v E'. apply bind_Ok in E' as (s & (-> & _)%nonEmptyString_ok & _). eauto. }
  unfold exception_of. rewrite Ef, Et, Hn, Hl. eexists. split_and!; [done..| |done]. cbn. intros ->.
  cbn in Hlen. rewrite <- Hlen in Ha4. done.
Qed.

Lemma check_exceptions_ok names value u : check_exceptions names value = Ok u ->
  exists l, as_list exception_of value = Some l /\
    Forall (fun x => exception_from x ∈ names /\ exception_to x ∈ names /\ importedNames x <> [] /\ NoDup (importedNames x)) l /\
    NoDup (exception_key <$> l).
Proof.
  unfold check_exceptions. intros E. inv_script. apply array_ok in Ha as ->.
  assert (forall v, v ∈ a -> exists x, exception_of v = Some x /\ prop v "from" = VStr (exception_from x) /\
    prop v "to" = VStr (exception_to x) /\
    exception_from x ∈ names /\ exception_to x ∈ names /\ importedNames x <> [] /\ NoDup (importedNames x)) as Hv.
  { intros v Hv. destruct (indexed_ok _ _ _ _ E Hv) as [i Hi]. by eapply check_exception_ok. }
  destruct (mapM_defined exception_of a) as [l Hl]. { intros v (r & -> & _)%Hv. by eexists. }
  exists l. split_and!; [done| |].
  - apply (mapM_Forall _ _ _ _ _ Hl Hv). intros v r Hr (r' & Hr' & _ & _ & ?). by simplify_eq.
  - rewrite (mapM_fmap _ edge_text _ _ _ Hl).
    + eapply unique_ok; [exact Ha0|]. intros v (x & _ & Ef & Et & _)%Hv. rewrite (pair_key_string _ _ _ _ _ _ Ef Et).
      unfold edge_text. by rewrite Ef, Et.
    + unfold exception_of, edge_text, exception_key, text_of. intros v x.
      destruct (as_string (prop v "from")), (as_string (prop v "to")), (strings_of (prop v "importedNames")); by try intros [= <-].
Qed.

Lemma check_python_ok roots path value u :
  sole_root (is_ecosystem python) roots path -> check_python path value = Ok u ->
  exists p, python_of value = Some p /\ python_ok roots p.
Proof.
  unfold check_python. intros Hs E. inv_script. apply relativePath_exact in Ha0 as [Hm _].
  apply nonEmptyString_ok in Ha2 as (Hp & _). apply check_modules_ok in Ha3 as (ms & Hv & Hms & Hl & Hn & ? & ?).
  rewrite Hl in Ha4. rewrite Hn in E. apply check_layer_edges_ok in Ha4 as (es & Hes & ?).
  apply check_exceptions_ok in E as (xs & Hxs & ? & ?).
  unfold python_of. rewrite Hm, Hp, Hv. cbn [as_string as_list mbind option_bind]. rewrite Hms. cbn [mbind option_bind].
  rewrite Hes, Hxs. eexists. split; [done|]. split; cbn; [|by auto..]. exists path. split; [done|].
  apply andb_false_iff in Ha1 as [?%negb_false_iff|?%negb_false_iff]; [left; by apply str_eqb_eq|by right].
Qed.

Lemma check_owner_ok v u : check_owner v = Ok u -> exists p o, prop v "path" = VStr p /\ prop v "owner" = VStr o /\
  relative_path p /\ startsWith o "@" = true.
Proof.
  unfold check_owner. intros E. inv_script. apply relativePath_exact in Ha0 as [Hp ?].
  apply nonEmptyString_ok in Ha1 as (Ho & _). apply negb_false_iff in E. eauto 10.
Qed.

Lemma validateRegistry_ok raw v : validateRegistry raw = Ok v ->
  v = raw /\ exists r, registry_of raw = Some r /\ well_formed r.
Proof.
  unfold validateRegistry. intros E. inv_script.
  match type of E with (let (_, _) := ?x in _) = _ => destruct x as [active py] end. inv_script. split; [done|].
  apply check_owner_ok in Ha1 as (p & o & Hp & Ho & ? & ?). rewrite Ho in Ha3.
  apply check_ignored_ok in Ha2 as (ig & Hig & ? & ?).
  apply check_active_ok in Ha3 as (roots & pr & Hact & Hroots & Hall & Hpkg & Hpy & Hpath & Hpaths). cbn [fst snd] in *.
  rewrite Hpath in Ha7. rewrite Hpaths in *.
  apply (check_reserved_ok _ _ _ _ Hroots) in Ha4 as (rs & Hrs & ? & ?).
  apply check_root_edges_ok in Ha5 as (es & Hes & ? & ?).
  apply (check_typescript_ok _ _ _ _ Hroots) in Ha6 as (t & Ht & ?).
  apply (check_python_ok roots) in Ha7 as (y & Hy & ?); [|by exists pr].
  unfold registry_of. rewrite Hp, Ho, Hig, Hact. cbn [as_string as_list mbind option_bind]. rewrite Hroots. cbn [mbind option_bind].
  rewrite Hrs, Hes, Ht, Hy. eexists. split; [done|]. by split.
Qed.

(** C26: a value [validateRegistry] returns is the one it was given, and is a
    well-formed registry: every field has its type, every path is normal, names
    are unique and known, and the root dependency graph has no cycle. *)
Theorem validated_registry_well_formed raw v : validateRegistry raw = Ok v ->
  v = raw /\ exists r, registry_of raw = Some r /\ well_formed r.
Proof. apply validateRegistry_ok. Qed.
End Registry.
