(* ===== verification/ModuleBoundaries.v ===== *)
(** The checks of [scripts/module-boundaries.mjs] that read the repository:
    the roots and their manifests, the imports of every source file, and the
    report on the Python modules.  The file system, the TypeScript compiler and
    the Python scanner are operations of a host. *)
From S2P Require Export ModuleRegistry.
#[local] Open Scope Z_scope.

(** ** [node:path] on POSIX *)

(** [path.resolve(a, b)] for an absolute [a]. *)
Definition resolve (a b : jstr) : jstr :=
  let p := if isAbsolute b then b else a ++ 47%N :: b in
  47%N :: join "/" (normal_segments false [] (str_split p "/")).

(** [path.join(a, b)] of two paths that are not empty. *)
Definition path_join (a b : jstr) : jstr := normalize (a ++ 47%N :: b).

Definition segments (p : jstr) : list jstr := List.filter str_truthy (str_split p "/").

Fixpoint relative_segments (from to : list jstr) : list jstr :=
  match from, to with
  | x :: from', y :: to' =>
      if str_eqb x y then relative_segments from' to' else ((fun _ => js "..") <$> from) ++ to
  | _, _ => ((fun _ => js "..") <$> from) ++ to
  end.

(** [path.relative(from, to)] of absolute normal paths. *)
Definition relative (from to : jstr) : jstr := join "/" (relative_segments (segments from) (segments to)).

(** [relation.startsWith("..") || path.isAbsolute(relation)] *)
Definition outside (relation : jstr) : bool := startsWith relation ".." || isAbsolute relation.

(** The last segment, and what is before it. *)
Definition basename (p : jstr) : jstr := List.last (str_split p "/") [].
Definition dirname (p : jstr) : jstr :=
  match join "/" (removelast (str_split p "/")) with [] => js "/" | d => d end.

(** [s.lastIndexOf(c)] for a one-unit [c]: [-1] when it is not there. *)
Fixpoint lastIndexOf (s : jstr) (c : N) : Z :=
  match s with
  | [] => -1
  | x :: s => let i := lastIndexOf s c in
              if 0 <=? i then i + 1 else if N.eqb x c then 0 else -1
  end.

(** [path.extname] *)
Definition extname (p : jstr) : jstr :=
  let base := basename p in
  let i := lastIndexOf base 46 in
  if (i <=? 0) || str_eqb base ".." then [] else drop (Z.to_nat i) base.

(** ** The host *)

Inductive Entry := File | Directory | Link | Special.

#[export] Instance Entry_eq_dec : EqDecision Entry.
Proof. solve_decision. Defined.

(** An import of a source file, as the TypeScript parser reports it. *)
Record Import := {
  value : jstr;
  line : Z;
}.

Record Resolution := {
  resolvedFileName : jstr;
  isExternalLibraryImport : bool;
}.

Record PythonEdge := {
  py_source : jstr;
  py_target : jstr;
  py_line : Z;
  names : list jstr;
  dynamic : bool;
}.

Record PythonDiagnostic := {
  diagnostic_source : jstr;
  diagnostic_line : Z;
  diagnostic_kind : jstr;
  detail : jstr;
}.

(** What [scripts/python-imports.py] prints. *)
Record PythonReport := {
  report_version : Z;
  report_package : jstr;
  projectName : jstr;
  diagnostics : list PythonDiagnostic;
  report_modules : list jstr;
  report_edges : list PythonEdge;
}.

(** The operations of the host; a path is absolute.  [lstat] gives [None] where
    the code is [ENOENT]; [readJson] rejects duplicate keys with the TypeScript
    parser; [collectSpecifiers] and [resolveModuleName] are the compiler's. *)
Class Host := {
  lstat : jstr -> script (option Entry);
  stat : jstr -> script (option Entry);
  realpath : jstr -> script jstr;
  readdir : jstr -> script (list (jstr * Entry));
  readFile : jstr -> script jstr;
  readJson : jstr -> jstr -> script jsval;
  scan_python : jstr -> jstr -> jstr -> script PythonReport;
  collectSpecifiers : jstr -> script (list Import);
  aliasPatterns : jstr -> script (list jstr);
  resolveModuleName : jstr -> jstr -> option Resolution;
}.

(** [new Map(l.map((item) => [key(item), item])).get(k)]: a later item
    replaces an earlier one. *)
Definition map_of {A} (key : A -> jstr) (l : list A) (k : jstr) : option A :=
  List.find (fun item => str_eqb (key item) k) (reverse l).

Definition edge_names (l : list Edge) : list jstr := (fun e => edge_name (edge_from e) (edge_to e)) <$> l.
Definition includes (l : list jstr) (s : jstr) : bool := existsb (str_eqb s) l.

(** ** Pure parts *)

(** [Object.keys(v)] *)
Definition index_keys (n : nat) : list jstr := (fun i => print_int (Z.of_nat i)) <$> seq 0 n.
Definition keys_of (v : jsval) : list jstr :=
  match v with
  | VObj fs => object_keys fs
  | VArr l => index_keys (length l)
  | VStr s => index_keys (length s)
  | _ => []
  end.

Definition packageExports (manifest : jsval) : script (list jstr) :=
  exports ← field manifest "exports";
  Ok (match exports with VObj fs => sort_strings (object_keys fs) | _ => [] end).

(** The nesting of a value bounds the recursion. *)
Fixpoint exportTargets (value : jsval) (label : jstr) : script (list jstr) :=
  match value with
  | VStr s => Ok [s]
  | VObj fs =>
      targets ← (fix flat (fs : list (jstr * jsval)) : script (list jstr) :=
                   match fs with
                   | [] => Ok []
                   | (_, entry) :: fs =>
                       ts ← exportTargets entry label; rest ← flat fs; Ok (ts ++ rest)
                   end) fs;
      match targets with
      | [] => script_fail (label ++ js " has no target")
      | _ => Ok targets
      end
  | _ => script_fail (label ++ js " must resolve to a string or condition object")
  end.

(** [specifier.split("/").slice(0, 2).join("/")] *)
Definition internalPackageName (specifier : jstr) : option jstr :=
  if startsWith specifier "@trax-os/" then Some (join "/" (take 2 (str_split specifier "/"))) else None.

Definition DEPENDENCY_FIELDS : list string :=
  ["dependencies"; "devDependencies"; "peerDependencies"; "optionalDependencies"].

Fixpoint dependency_names (manifest : jsval) (fields : list string) : script (list jstr) :=
  match fields with
  | [] => Ok []
  | f :: fields => v ← field manifest f; rest ← dependency_names manifest fields; Ok (keys_of v ++ rest)
  end.
Definition manifestDependencies (manifest : jsval) : script (list jstr) := dependency_names manifest DEPENDENCY_FIELDS.

(** The longest prefix that matches; the earlier rule when two are as long. *)
Definition matches_rule (rootPath relative : jstr) (rule : LayerRule) : bool :=
  str_eqb (rule_root rule) rootPath &&
  (str_eqb relative (rule_prefix rule) || startsWith relative (rule_prefix rule ++ js "/")).
Definition classifyLayer (rules : list LayerRule) (rootPath relative : jstr) : option jstr :=
  rule_layer <$> head (sort_by (fun rule => - str_length (rule_prefix rule)) (List.filter (matches_rule rootPath relative) rules)).

Definition aliasPatternMatches (pattern specifier : jstr) : bool :=
  if str_includes pattern 42 then
    match str_split pattern "*" with
    | prefix :: suffix :: _ => startsWith specifier prefix && endsWith specifier suffix
    | _ => false
    end
  else str_eqb pattern specifier.

Definition publicSubpath (specifier packageName : jstr) : jstr :=
  if str_eqb specifier packageName then js "." else 46%N :: drop (length packageName) specifier.

(** ** Python *)

Definition configured_layer (modules : list PythonModule) (name : jstr) : option jstr :=
  module_layer <$> map_of module_name modules name.

(** [while (!configured.has(target) && target.includes("."))]: each turn drops
    the last segment. *)
Fixpoint nearest_module (fuel : nat) (modules : list PythonModule) (target : jstr) : script jstr :=
  match fuel with
  | O => Throw Unfinished
  | S fuel =>
      if negb (bool_decide (is_Some (configured_layer modules target))) && str_includes target 46
      then nearest_module fuel modules (take (Z.to_nat (lastIndexOf target 46)) target)
      else Ok target
  end.

(** The key of the exception an edge uses, if it needs one. *)
Definition check_python_edge `{NumPrinter} (rules : PythonRules) (edge : PythonEdge) : script (option jstr) :=
  let at_line := py_source edge ++ js ":" ++ print_int (py_line edge) ++ js ": " in
  match configured_layer (modules rules) (py_source edge) with
  | None => script_fail (js "unclassified Python source " ++ py_source edge)
  | Some source_layer =>
      target ← nearest_module (S (length (py_target edge))) (modules rules) (py_target edge);
      match configured_layer (modules rules) target with
      | None => script_fail (at_line ++ js "internal import target " ++ py_target edge ++ js " is unclassified")
      | Some target_layer =>
          let layerEdge := edge_name source_layer target_layer in
          if includes (edge_names (allowedLayerEdges rules)) layerEdge then Ok None
          else
            let key := edge_name (py_source edge) target in
            match map_of (fun x => edge_name (exception_from x) (exception_to x)) (exceptions rules) key with
            | None => script_fail (at_line ++ js "forbidden Python layer edge " ++ layerEdge ++ js " to " ++ target)
            | Some x =>
                let actualNames := sort_strings (names edge) in
                let expectedNames := sort_strings (importedNames x) in
                _ ← fail_when (dynamic edge || negb (same_json actualNames expectedNames))
                      (at_line ++ js "Python exception " ++ key ++ js " widened; expected exact static imports " ++
                       join ", " expectedNames);
                Ok (Some key)
            end
      end
  end.

(** The exceptions the edges use. *)
Fixpoint check_python_edges `{NumPrinter} (rules : PythonRules) (edges : list PythonEdge) : script (list jstr) :=
  match edges with
  | [] => Ok []
  | edge :: edges =>
      used ← check_python_edge rules edge;
      rest ← check_python_edges rules edges;
      Ok (match used with Some key => key :: rest | None => rest end)
  end.

Definition or_none (l : list jstr) : jstr := match join "," l with [] => js "none" | s => s end.

(** The keys of [configured]. *)
Fixpoint distinct_keys (l : list jstr) : list jstr :=
  match l with
  | [] => []
  | x :: l => x :: List.filter (fun y => negb (str_eqb y x)) (distinct_keys l)
  end.

Definition verifyPython `{NumPrinter} (rules : PythonRules) (report : PythonReport) : script () :=
  _ ← fail_when (negb (report_version report =? 2) || negb (str_eqb (report_package report) (package rules)))
        "Python import scanner returned incompatible report";
  _ ← match diagnostics report with
      | [] => Ok ()
      | item :: _ => script_fail (diagnostic_source item ++ js ":" ++ print_int (diagnostic_line item) ++ js ": " ++
                                  diagnostic_kind item ++ js ": " ++ detail item)
      end;
  let actualModules := sort_strings (report_modules report) in
  let configuredModules := sort_strings (distinct_keys (module_name <$> modules rules)) in
  let missing := List.filter (fun item => negb (bool_decide (is_Some (configured_layer (modules rules) item)))) actualModules in
  let stale := List.filter (fun item => negb (includes actualModules item)) configuredModules in
  _ ← fail_when (negb (same_json actualModules configuredModules))
        (js "Python module classification drift; unclassified=" ++ or_none missing ++ js "; stale=" ++ or_none stale);
  used ← check_python_edges rules (report_edges report);
  for_each (fun x =>
    let key := edge_name (exception_from x) (exception_to x) in
    fail_when (negb (includes used key)) (js "Python exception " ++ key ++ js " is stale or no longer needed"))
    (exceptions rules).

(** ** The repository *)

Section Repository.
Context `{NumPrinter} `{Host} (root : jstr).

(** A value that has to be there; [ENOENT] is thrown on. *)
Definition existing {A} (m : script (option A)) : script A :=
  entry ← m; match entry with Some a => Ok a | None => Throw Crashed end.

Fixpoint no_links (current : jstr) (parts : list jstr) (label : jstr) : script () :=
  match parts with
  | [] => Ok ()
  | part :: parts =>
      let current := path_join current part in
      info ← existing (lstat current);
      _ ← fail_when (bool_decide (info = Link)) (label ++ js " contains symlink component " ++ relative root current);
      no_links current parts label
  end.
Definition assertNoSymlinkComponents (target label : jstr) : script () :=
  let relation := relative root target in
  _ ← fail_when (outside relation) (label ++ js " escapes repository");
  no_links root (List.filter str_truthy (str_split relation "/")) label.

Definition safeRepositoryPath (path label : jstr) : script jstr :=
  _ ← relativePath (VStr path) label;
  let target := resolve root path in
  _ ← fail_when (outside (relative root target)) (label ++ js " escapes repository");
  _ ← assertNoSymlinkComponents target label;
  real ← realpath target;
  real_root ← realpath root;
  _ ← fail_when (outside (relative real_root real)) (label ++ js " resolves outside repository");
  Ok target.

(** [text.split(/\r?\n/)] *)
Definition without_return (l : jstr) : jstr := if endsWith l [13%N] then slice_end l 1 else l.
Definition split_lines (s : jstr) : list jstr :=
  let l := str_split s [10%N] in (without_return <$> removelast l) ++ [List.last l []].

Definition verifyCodeowners (registry : Registry) : script () :=
  ownerFile ← safeRepositoryPath (owner_path registry) "ownerAuthority.path";
  content ← readFile ownerFile;
  let rules := List.filter (fun line => str_truthy line && negb (startsWith line "#")) (trim <$> split_lines content) in
  let expected := js "* " ++ owner registry in
  fail_when (match rules with [rule] => negb (str_eqb rule expected) | _ => true end)
    (js "CODEOWNERS v0 policy must contain exactly '" ++ expected ++ js "' and no path override or additional owner").

(** [walkFiles]: a stack of directories still to be read; [fuel] is the number
    of directories. *)
Fixpoint walk_entries (ignored : list jstr) (current : jstr) (entries : list (jstr * Entry)) (stack files : list jstr)
    : script (list jstr * list jstr) :=
  match entries with
  | [] => Ok (stack, files)
  | (name, entry) :: entries =>
      if includes ignored name then walk_entries ignored current entries stack files
      else
        let absolute := path_join current name in
        _ ← fail_when (bool_decide (entry = Link)) (js "source tree contains symlink " ++ relative root absolute);
        match entry with
        | Directory => walk_entries ignored current entries (absolute :: stack) files
        | File => walk_entries ignored current entries stack (files ++ [absolute])
        | _ => walk_entries ignored current entries stack files
        end
  end.
Fixpoint walk (fuel : nat) (ignored : list jstr) (stack files : list jstr) : script (list jstr) :=
  match stack with
  | [] => Ok (sort_strings files)
  | current :: stack =>
      match fuel with
      | O => Throw Unfinished
      | S fuel =>
          entries ← readdir current;
          '(stack, files) ← walk_entries ignored current entries stack files;
          walk fuel ignored stack files
      end
  end.
Definition walkFiles (fuel : nat) (directory : jstr) (ignored : list jstr) : script (list jstr) :=
  walk fuel ignored [directory] [].

(** *** Roots *)

Definition is_file (path : jstr) : script bool := entry ← lstat path; Ok (bool_decide (entry = Some File)).

Definition manifest_names : list jstr := [js "package.json"; js "pyproject.toml"].

Definition found_manifest (base name manifestName : jstr) : script (list (jstr * jstr)) :=
  let place := base ++ 47%N :: name in
  info ← lstat (path_join (path_join (path_join root base) name) manifestName);
  _ ← fail_when (bool_decide (info = Some Link)) (js "project manifest is a symlink at " ++ place ++ 47%N :: manifestName);
  Ok (if bool_decide (info = Some File) then [(place, manifestName)] else []).

Fixpoint concat_each {A B} (f : A -> script (list B)) (l : list A) : script (list B) :=
  match l with [] => Ok [] | x :: l => a ← f x; b ← concat_each f l; Ok (a ++ b) end.

Definition inventoryProjectManifests : script (list (jstr * jstr)) :=
  concat_each (fun base =>
    entries ← readdir (path_join root base);
    concat_each (fun '(name, entry) =>
      _ ← fail_when (bool_decide (entry = Link)) (base ++ js " contains symlink root " ++ name);
      if bool_decide (entry = Directory) then concat_each (found_manifest base name) manifest_names else Ok [])
      entries) [js "apps"; js "packages"].

Definition verify_export (active : ActiveRoot) (absolute : jstr) (manifest : jsval) (subpath : jstr) : script () :=
  let label := root_path active ++ js " export " ++ subpath in
  exports ← field manifest "exports";
  target ← field exports subpath;
  targets ← exportTargets target label;
  for_each (fun target =>
    _ ← fail_when (negb (startsWith target "./")) (label ++ js " target must be package-relative");
    resolved ← safeRepositoryPath (root_path active ++ 47%N :: drop 2 target) label;
    entry ← existing (stat resolved);
    _ ← fail_when (negb (bool_decide (entry = File))) (label ++ js " target is not a file");
    fail_when (outside (relative absolute resolved)) (label ++ js " escapes its package")) targets.

(** An internal dependency has to follow an edge of the registry. *)
Definition verify_dependency (registry : Registry) (active : ActiveRoot) (name : jstr) : script () :=
  match internalPackageName name with
  | None => Ok ()
  | Some package =>
      match map_of packageName (activeRoots registry) package with
      | None => script_fail (root_path active ++ js " manifest references unknown internal package " ++ package)
      | Some target =>
          _ ← fail_when (negb (is_ecosystem npm target))
                (root_path active ++ js " manifest internal dependency " ++ package ++ js " is not npm");
          _ ← fail_when (str_eqb (root_path target) (root_path active))
                (root_path active ++ js " manifest cannot depend on itself");
          let edge := edge_name (root_path active) (root_path target) in
          fail_when (negb (includes (edge_names (rootEdges registry)) edge))
            (root_path active ++ js " manifest has disallowed internal dependency " ++ edge)
      end
  end.

Definition verify_manifest (registry : Registry) (active : ActiveRoot) (absolute : jstr) (manifest : jsval) : script () :=
  name ← field manifest "name";
  _ ← fail_when (negb (strict_eq name (VStr (packageName active))))
        (root_path active ++ js " package name must be " ++ packageName active);
  actualExports ← packageExports manifest;
  let expectedExports := sort_strings (publicExports active) in
  _ ← fail_when (negb (same_json actualExports expectedExports))
        (root_path active ++ js " exports must be exactly " ++ join ", " expectedExports ++ js "; received " ++
         join ", " actualExports);
  _ ← for_each (verify_export active absolute manifest) expectedExports;
  dependencies ← manifestDependencies manifest;
  for_each (verify_dependency registry active) dependencies.

(** The manifests of the active roots of npm. *)
Fixpoint verify_active_roots (registry : Registry) (l : list ActiveRoot) : script (list (jstr * jsval)) :=
  match l with
  | [] => Ok []
  | active :: l =>
      absolute ← safeRepositoryPath (root_path active) (js "active root " ++ root_path active);
      entry ← existing (stat absolute);
      _ ← fail_when (negb (bool_decide (entry = Directory))) (js "active root " ++ root_path active ++ js " is not a directory");
      if is_ecosystem npm active then
        let file := root_path active ++ js "/package.json" in
        path ← safeRepositoryPath file file;
        manifest ← readJson path file;
        _ ← verify_manifest registry active absolute manifest;
        rest ← verify_active_roots registry l;
        Ok ((root_path active, manifest) :: rest)
      else verify_active_roots registry l
  end.

(** [[...(v ?? [])]] for the workspaces: an array, or a string by its code
    points. *)
Fixpoint code_points (s : jstr) : list jstr :=
  match s with
  | [] => []
  | h :: s1 =>
      match s1 with
      | l :: s2 => if is_high h && is_low l then [h; l] :: code_points s2 else [h] :: code_points s1
      | [] => [[h]]
      end
  end.
Definition spread (v : jsval) : script (list jsval) :=
  match v with
  | VUndef | VNull => Ok []
  | VArr l => Ok l
  | VStr s => Ok (VStr <$> code_points s)
  | _ => Throw Crashed
  end.

Definition verify_workspaces (registry : Registry) : script () :=
  rootManifest ← readJson (path_join root "package.json") "root package.json";
  workspaces ← field rootManifest "workspaces";
  actual ← spread workspaces;
  let expected := sort_strings (root_path <$> List.filter (is_ecosystem npm) (activeRoots registry)) in
  (* an entry that is not a string never prints like one *)
  fail_when (match mapM as_string actual with
             | Some names => negb (same_json (sort_strings names) expected)
             | None => true
             end) (js "root npm workspaces must be exactly active npm roots " ++ join ", " expected).

Definition verify_reserved (path manifestName : jstr) : script () :=
  present ← is_file (path_join (path_join root path) manifestName);
  fail_when present
    (js "inactive reserved root " ++ path ++ js " contains " ++ manifestName ++ js "; activate it through review first").

Definition verify_inventory_item (registry : Registry) (place manifestName : jstr) : script () :=
  match map_of root_path (activeRoots registry) place with
  | None => script_fail (js "unregistered project manifest at " ++ place ++ 47%N :: manifestName)
  | Some active =>
      let expected := if is_ecosystem npm active then js "package.json" else js "pyproject.toml" in
      fail_when (negb (str_eqb manifestName expected))
        (place ++ 47%N :: manifestName ++ js " does not match registered " ++
         (if is_ecosystem npm active then js "npm" else js "python") ++ js " ecosystem")
  end.

Definition invokePythonScanner (registry : Registry) : script (ActiveRoot * PythonReport) :=
  match List.find (is_ecosystem python) (activeRoots registry) with
  | None => Throw Crashed
  | Some pythonRoot =>
      report ← scan_python (root_path pythonRoot) (moduleRoot (python_rules registry)) (package (python_rules registry));
      Ok (pythonRoot, report)
  end.

Definition verifyRoots (registry : Registry) : script (PythonReport * list (jstr * jsval)) :=
  _ ← verifyCodeowners registry;
  manifests ← verify_active_roots registry (activeRoots registry);
  '(pythonRoot, report) ← invokePythonScanner registry;
  _ ← fail_when (negb (str_eqb (projectName report) (packageName pythonRoot)))
        (root_path pythonRoot ++ js " exact [project].name must be " ++ packageName pythonRoot ++ js "; received " ++
         projectName report);
  _ ← for_each (fun path => for_each (verify_reserved path) manifest_names) (reservedRoots registry);
  inventory ← inventoryProjectManifests;
  _ ← for_each (fun '(place, manifestName) => verify_inventory_item registry place manifestName) inventory;
  _ ← verify_workspaces registry;
  Ok (report, manifests).
End Repository.

(** ** Imports *)

Record SourceFile := {
  filename : jstr;
  file_root : ActiveRoot;
  file_relative : jstr;
  layer : jstr;
}.

(** What [verifyTypeScript] holds while it walks the imports: the files of each
    root, [fileInfo] by real path, and the manifests. *)
Record Sources := {
  files : list SourceFile;
  fileInfo : list (jstr * SourceFile);
  manifests : list (jstr * jsval);
}.

Definition info_of (sources : Sources) (real : jstr) : option SourceFile :=
  snd <$> map_of fst (fileInfo sources) real.
Definition manifest_of (sources : Sources) (path : jstr) : jsval :=
  from_option snd VUndef (map_of fst (manifests sources) path).

Section TypeScript.
Context `{NumPrinter} `{Host} (root : jstr) (registry : Registry).

Let rules := typescript_rules registry.
Let activeNpm := List.filter (is_ecosystem npm) (activeRoots registry).

(** A source file of an active root, if its extension is one of a source. *)
Definition source_file (active : ActiveRoot) (absolute name : jstr) : script (list (jstr * SourceFile)) :=
  if includes (sourceExtensions rules) (extname name) then
    let relation := relative absolute name in
    match classifyLayer (layerRules rules) (root_path active) relation with
    | Some ((_ :: _) as l) =>
        real ← realpath name;
        Ok [(real, {| filename := name; file_root := active; file_relative := relation; layer := l |})]
    | _ => script_fail (root_path active ++ 47%N :: relation ++ js " is unclassified TypeScript/JavaScript source")
    end
  else Ok [].

Definition root_files (fuel : nat) (active : ActiveRoot) : script (list (jstr * SourceFile)) :=
  absolute ← safeRepositoryPath root (root_path active) (js "active root " ++ root_path active);
  names ← walkFiles root fuel absolute (ignoredDirectoryNames registry);
  concat_each (source_file active absolute) names.

Definition at_import (source : SourceFile) (imported : Import) : jstr :=
  root_path (file_root source) ++ 47%N :: file_relative source ++ js ":" ++ print_int (line imported) ++ js ": ".

(** The first candidate that is a file. *)
Fixpoint first_file (candidates : list jstr) : script (option jstr) :=
  match candidates with
  | [] => Ok None
  | c :: candidates =>
      entry ← stat c;
      if bool_decide (entry = Some File) then Ok (Some c) else first_file candidates
  end.
Definition resolveRelativeImport (source specifier : jstr) (extensions : list jstr) : script jstr :=
  let base := resolve (dirname source) specifier in
  let endings := extensions ++ [js ".json"] in
  found ← first_file (base :: ((fun e => base ++ e) <$> endings) ++ ((fun e => path_join base (js "index" ++ e)) <$> endings));
  match found with
  | Some c => Ok c
  | None => script_fail (source ++ js ": cannot resolve relative import " ++ specifier)
  end.

(** [relation === "" || !outside]: the place is at or under a directory. *)
Definition holds_path (directory target : jstr) : bool := negb (outside (relative directory target)).

Definition outside_label (real repositoryRelation : jstr) : jstr :=
  let under (path : jstr) := holds_path (resolve root path) real in
  match List.find (fun item => under (root_path item)) (activeRoots registry) with
  | Some item => root_path item
  | None => default repositoryRelation (List.find under (reservedRoots registry))
  end.

Definition inspectPathTarget (sources : Sources) (source : SourceFile) (target : jstr) (imported : Import) : script () :=
  let at_line := at_import source imported in
  let repositoryRelation := relative root target in
  _ ← fail_when (outside repositoryRelation) (at_line ++ js "import resolves outside repository");
  _ ← assertNoSymlinkComponents root target
        (root_path (file_root source) ++ 47%N :: file_relative source ++ js ":" ++ print_int (line imported));
  realTarget ← realpath target;
  _ ← fail_when (outside (relative (resolve root (root_path (file_root source))) realTarget))
        (at_line ++ js "path import outside its active root into " ++ outside_label realTarget repositoryRelation ++
         js "; use a declared public npm package export");
  match info_of sources realTarget with
  | None =>
      fail_when (includes (sourceExtensions rules) (extname realTarget))
        (at_line ++ js "import resolves to ignored or unclassified source " ++ relative root realTarget)
  | Some info =>
      let edge := edge_name (layer source) (layer info) in
      fail_when (includes (edge_names (forbiddenLayerEdges rules)) edge) (at_line ++ js "forbidden " ++ edge ++ js " import")
  end.

(** The files a public export of a package stands for. *)
Definition declared_targets (sources : Sources) (target : ActiveRoot) (subpath : jstr) : script (list jstr) :=
  exports ← field (manifest_of sources (root_path target)) "exports";
  entry ← field exports subpath;
  targets ← exportTargets entry (root_path target ++ js " export " ++ subpath);
  mapM (fun entry => realpath (resolve (resolve root (root_path target)) (drop 2 entry))) targets.

Definition inspectPackage (sources : Sources) (declared : list jstr) (source : SourceFile) (imported : Import)
    (packageName_ : jstr) : script () :=
  let at_line := at_import source imported in
  match map_of packageName activeNpm packageName_ with
  | None => script_fail (at_line ++ js "unknown internal package " ++ packageName_)
  | Some target =>
      let subpath := publicSubpath (value imported) packageName_ in
      _ ← match resolveModuleName (value imported) (filename source) with
          | Some resolution =>
              if includes (publicExports target) subpath then
                resolved ← try_catch (realpath (resolve root (resolvedFileName resolution)))
                  (fun _ => script_fail (at_line ++ js "internal package " ++ packageName_ ++ js " resolution cannot be inspected"));
                targets ← declared_targets sources target subpath;
                fail_when (negb (includes targets resolved))
                  (at_line ++ js "internal package alias shadowing for " ++ value imported ++ js "; resolved " ++
                   relative root resolved ++ js " outside declared " ++ root_path target ++ js " export " ++ subpath)
              else Ok ()
          | None => Ok ()
          end;
      _ ← (if str_eqb (root_path target) (root_path (file_root source)) then Ok ()
           else
             _ ← fail_when (negb (includes declared packageName_))
                   (at_line ++ js "undeclared internal dependency " ++ packageName_);
             let edge := edge_name (root_path (file_root source)) (root_path target) in
             fail_when (negb (includes (edge_names (rootEdges registry)) edge))
               (at_line ++ js "disallowed root dependency " ++ edge));
      fail_when (negb (includes (publicExports target) subpath)) (at_line ++ js "unexported deep import " ++ value imported)
  end.

(** Any other specifier: a configured alias, or an external package. *)
Definition inspectAlias (sources : Sources) (patterns : list jstr) (source : SourceFile) (imported : Import) : script () :=
  let at_line := at_import source imported in
  let aliasMatched := existsb (fun pattern => aliasPatternMatches pattern (value imported)) patterns in
  match resolveModuleName (value imported) (filename source) with
  | None =>
      fail_when aliasMatched (at_line ++ js "unresolved configured path alias " ++ value imported)
  | Some resolution =>
      if isExternalLibraryImport resolution && negb aliasMatched then Ok ()
      else
        let target := resolve root (resolvedFileName resolution) in
        let insideRepository := holds_path root target in
        if aliasMatched || insideRepository then
          _ ← fail_when (negb insideRepository)
                (at_line ++ js "configured path alias " ++ value imported ++ js " resolves outside repository");
          inspectPathTarget sources source target imported
        else Ok ()
  end.

Definition check_import (sources : Sources) (declared patterns : list jstr) (source : SourceFile) (imported : Import) : script () :=
  if startsWith (value imported) "." then
    target ← resolveRelativeImport (filename source) (value imported) (sourceExtensions rules);
    inspectPathTarget sources source target imported
  else
    match internalPackageName (value imported) with
    | Some packageName_ => inspectPackage sources declared source imported packageName_
    | None => inspectAlias sources patterns source imported
    end.

Definition check_source (sources : Sources) (source : SourceFile) : script () :=
  declared ← manifestDependencies (manifest_of sources (root_path (file_root source)));
  patterns ← aliasPatterns (filename source);
  imports ← collectSpecifiers (filename source);
  for_each (check_import sources declared patterns source) imports.

Definition verify_inventory (fuel : nat) (label : jstr) (inventory : Inventory) : script () :=
  inventoryRoot ← safeRepositoryPath root (inventory_root inventory) (js "typescript " ++ label ++ js " inventory root");
  names ← walkFiles root fuel inventoryRoot [js "node_modules"];
  let actual := sort_strings (relative inventoryRoot <$> names) in
  let expected := sort_strings (inventory_files inventory) in
  fail_when (negb (same_json actual expected))
    (label ++ js " inventory must be exactly " ++ join ", " expected ++ js "; received " ++ join ", " actual).

Definition verifyTypeScript (fuel : nat) (manifests : list (jstr * jsval)) : script () :=
  info ← concat_each (root_files fuel) activeNpm;
  let sources := {| files := info.*2; fileInfo := info; manifests := manifests |} in
  _ ← for_each (check_source sources) (files sources);
  _ ← verify_inventory fuel "generated contract" (generatedInventory rules);
  verify_inventory fuel "runtime client" (runtimeClientInventory rules).
End TypeScript.

(** ** The run *)

Record Summary := {
  active_count : nat;
  reserved_count : nat;
  edge_count : nat;
  module_count : nat;
}.

(** [validateRegistry(readJson(registryPath, ...))]; a validated value is a
    registry, so the last case is never reached. *)
Definition loadRegistry `{NumPrinter} `{Host} (root registryPath : jstr) : script Registry :=
  path ← safeRepositoryPath root registryPath "registry path";
  raw ← readJson path "module boundary registry";
  raw ← validateRegistry raw;
  match registry_of raw with Some registry => Ok registry | None => Throw Crashed end.

Definition runModuleBoundaryCheck `{NumPrinter} `{Host} (fuel : nat) (root registryPath : jstr) : script Summary :=
  registry ← loadRegistry root registryPath;
  '(report, manifests) ← verifyRoots root registry;
  _ ← verifyTypeScript root registry fuel manifests;
  _ ← verifyPython (python_rules registry) report;
  Ok {| active_count := length (activeRoots registry);
        reserved_count := length (reservedRoots registry);
        edge_count := length (rootEdges registry);
        module_count := length (modules (python_rules registry)) |}.
