(* ===== verification/PythonBoundariesSpec.v ===== *)
(** What [verifyPython] of [scripts/module-boundaries.mjs] lets through. *)
From S2P Require Export ModuleBoundaries ModuleRegistrySpec.

(** ** Sorted lists of strings *)

Lemma str_ltb_total a b : str_ltb a b = false -> str_ltb b a = false -> a = b.
Proof.
  revert b. induction a as [|x a IH]; intros [|y b]; cbn; try done.
  destruct (N.ltb_spec x y), (N.ltb_spec y x); try done; try lia. intros. f_equal; [lia|auto].
Qed.

Lemma str_ltb_trans a b c : str_ltb b a = false -> str_ltb c b = false -> str_ltb c a = false.
Proof.
  revert b c. induction a as [|x a IH]; intros [|y b] [|z c]; cbn; try done.
  destruct (N.ltb_spec y x), (N.ltb_spec x y), (N.ltb_spec z y), (N.ltb_spec y z), (N.ltb_spec z x), (N.ltb_spec x z);
    try done; try lia. eauto.
Qed.

Lemma str_ltb_asym a b : str_ltb a b = true -> str_ltb b a = false.
Proof.
  revert b. induction a as [|x a IH]; intros [|y b]; cbn; try done.
  destruct (N.ltb_spec x y), (N.ltb_spec y x); try done; try lia. auto.
Qed.

Definition str_le (a b : jstr) : Prop := str_ltb b a = false.

Lemma insert_str_sorted x l : StronglySorted str_le l -> StronglySorted str_le (insert_str x l).
Proof.
  induction 1 as [|y l Hl IH Hy]; cbn; [repeat constructor|]. destruct (str_ltb y x) eqn:E.
  - constructor; [done|]. rewrite insert_str_perm. constructor; [by apply str_ltb_asym|done].
  - constructor; [by constructor|]. constructor; [done|]. eapply Forall_impl; [done|]. intros z Hz. by eapply str_ltb_trans.
Qed.

Lemma sort_strings_sorted l : StronglySorted str_le (sort_strings l).
Proof. induction l; cbn; [constructor|]. by apply insert_str_sorted. Qed.

#[export] Instance str_le_antisym : AntiSymm (=) str_le.
Proof. intros a b Ha Hb. by apply str_ltb_total. Qed.

Lemma sort_strings_eq a b : sort_strings a = sort_strings b <-> a ≡ₚ b.
Proof.
  split; intros E.
  - by rewrite <- (sort_strings_perm a), E, sort_strings_perm.
  - apply (StronglySorted_unique str_le); [apply sort_strings_sorted..|]. by rewrite !sort_strings_perm.
Qed.

Lemma same_sorted `{NumPrinter} a b : same_json (sort_strings a) (sort_strings b) = true <-> a ≡ₚ b.
Proof. by rewrite same_json_eq, sort_strings_eq. Qed.

(** ** Maps and keys *)

Lemma includes_elem l s : includes l s = true <-> s ∈ l.
Proof. apply existsb_str_elem. Qed.

Lemma map_of_elem {A} (key : A -> jstr) l k x : map_of key l k = Some x -> x ∈ l /\ key x = k.
Proof.
  unfold map_of. intros [Hx Hk]%find_Some_elem. apply str_eqb_eq in Hk. by rewrite elem_of_reverse in Hx.
Qed.

Lemma map_of_None {A} (key : A -> jstr) l k : map_of key l k = None <-> k ∉ key <$> l.
Proof.
  unfold map_of. split.
  - intros E (x & -> & Hx)%list_elem_of_fmap. rewrite <- elem_of_reverse in Hx.
    pose proof (find_None_elem _ _ _ E Hx) as Hn. cbn in Hn. by rewrite str_eqb_refl in Hn.
  - intros Hk. destruct (List.find _ _) as [x|] eqn:E; [|done]. exfalso. apply Hk.
    apply (map_of_elem key l k x) in E as [Hx <-]. by apply list_elem_of_fmap_2.
Qed.

Lemma map_of_Some {A} (key : A -> jstr) l k x :
  NoDup (key <$> l) -> map_of key l k = Some x <-> x ∈ l /\ key x = k.
Proof.
  intros Hl. split; [apply map_of_elem|]. intros [Hx <-]. destruct (map_of key l (key x)) as [y|] eqn:E.
  - apply map_of_elem in E as [Hy E]. f_equal. by apply (NoDup_fmap_inj key l).
  - exfalso. apply map_of_None in E. apply E. by apply list_elem_of_fmap_2.
Qed.

(** Names without the unit [>] make keys that can be read back. *)
Definition plain_name (s : jstr) : Prop := str_includes s 62 = false.

Lemma plain_cons c s : plain_name (c :: s) <-> c <> 62%N /\ plain_name s.
Proof. unfold plain_name, str_includes. cbn. rewrite orb_false_iff, N.eqb_neq. naive_solver. Qed.

Lemma edge_name_inj a b c d : plain_name a -> plain_name c -> edge_name a b = edge_name c d -> a = c /\ b = d.
Proof.
  unfold edge_name. change (js "->") with [45; 62]%N. revert c. induction a as [|x a IH]; intros [|y c]; rewrite ?plain_cons; cbn.
  - by intros _ _ [= ->].
  - intros _ [_ Hc] [= <- E]. destruct c as [|z c]; [discriminate E|]. apply plain_cons in Hc as [Hz _]. injection E as ? ?; congruence.
  - intros [_ Ha] _ [= -> E]. destruct a as [|z a]; [discriminate E|]. apply plain_cons in Ha as [Hz _]. injection E as ? ?; congruence.
  - intros [_ Ha] [_ Hc] [= -> E]. by apply IH in E as [-> ->].
Qed.

(** ** The nearest module *)

Lemma lastIndexOf_none s c : str_includes s c = false -> lastIndexOf s c = -1.
Proof.
  unfold str_includes. induction s as [|x s IH]; cbn; [done|]. intros [Hx Hs]%orb_false_iff. rewrite (IH Hs).
  rewrite N.eqb_sym, Hx. done.
Qed.

Lemma lastIndexOf_split s c : str_includes s c = true ->
  exists p q, s = p ++ c :: q /\ lastIndexOf s c = Z.of_nat (length p) /\ str_includes q c = false.
Proof.
  unfold str_includes. induction s as [|x s IH]; cbn; [done|]. destruct (existsb (N.eqb c) s) eqn:Es.
  - intros _. destruct IH as (p & q & -> & -> & Hq); [done|]. exists (x :: p), q. split_and!; [done| |done].
    destruct (Z.leb_spec 0 (Z.of_nat (length p))); cbn [length]; lia.
  - rewrite orb_false_r. intros E%N.eqb_eq. subst x. exists [], s. rewrite (lastIndexOf_none s c) by done.
    cbn. by rewrite N.eqb_refl.
Qed.

(** [m] is [t] or a package [t] is in. *)
Definition package_of (m t : jstr) : Prop := t = m \/ exists s, t = m ++ 46%N :: s.

Definition nearest (names : list jstr) (t m : jstr) : Prop :=
  m ∈ names /\ package_of m t /\ forall m', m' ∈ names -> package_of m' t -> package_of m' m.

Lemma package_of_shorter m p q : str_includes q 46 = false -> package_of m (p ++ 46%N :: q) -> m = p ++ 46%N :: q \/ package_of m p.
Proof.
  intros Hq [->|[s E]]; [by left|]. right. unfold package_of.
  revert m E. induction p as [|x p IH]; intros [|y m] E; cbn in *.
  - by left.
  - injection E as <- ->. unfold str_includes in Hq. by rewrite existsb_app in Hq; cbn in Hq; rewrite orb_true_r in Hq.
  - injection E as -> <-. right. by exists p.
  - injection E as <- E. destruct (IH m E) as [->|[s' ->]]; [by left|right; by exists s'].
Qed.

Section Nearest.
Context (mods : list PythonModule).
Let mnames := module_name <$> mods.

Lemma configured_elem t : is_Some (configured_layer mods t) <-> t ∈ mnames.
Proof.
  unfold configured_layer. rewrite fmap_is_Some. destruct (map_of module_name mods t) as [m|] eqn:E.
  - apply map_of_elem in E as [Hm <-]. split; [|eauto]. intros _. by apply list_elem_of_fmap_2.
  - apply map_of_None in E. split; [by intros []|done].
Qed.

Lemma nearest_module_ok fuel t : (length t < fuel)%nat ->
  exists m, nearest_module fuel mods t = Ok m /\
    (m ∈ mnames -> nearest mnames t m) /\ (m ∉ mnames -> forall m', m' ∈ mnames -> ~ package_of m' t).
Proof.
  revert t. induction fuel as [|fuel IH]; intros t Hf; [lia|]. cbn [nearest_module].
  destruct (bool_decide (is_Some (configured_layer mods t))) eqn:Ec; cbn [negb andb].
  { apply bool_decide_eq_true in Ec. rewrite configured_elem in Ec. exists t. split_and!; [done| |done].
    intros _. split_and!; [done|by left|done]. }
  apply bool_decide_eq_false in Ec. rewrite configured_elem in Ec.
  destruct (str_includes t 46) eqn:Ed.
  - destruct (lastIndexOf_split _ _ Ed) as (p & q & -> & -> & Hq). rewrite Nat2Z.id, take_app_length.
    rewrite length_app in Hf. cbn in Hf. destruct (IH p) as (m & Em & Hin & Hout); [lia|]. exists m.
    split; [done|]. split.
    + intros Hm. destruct (Hin Hm) as (_ & Hp & Hmax). split_and!; [done| |].
      * right. destruct Hp as [->|[s ->]]; [by exists q|]. exists (s ++ 46%N :: q). by rewrite <- app_assoc.
      * intros m' Hm' Hp'. destruct (package_of_shorter _ _ _ Hq Hp') as [->|Hp'']; [done|auto].
    + intros Hm m' Hm' Hp'. destruct (package_of_shorter _ _ _ Hq Hp') as [->|Hp'']; [done|]. by apply (Hout Hm m').
  - exists t. split_and!; [done|done|]. intros _ m' Hm' [->|[s ->]]; [done|].
    unfold str_includes in Ed. by rewrite existsb_app in Ed; cbn in Ed; rewrite orb_true_r in Ed.
Qed.

Lemma package_of_antisym a b : package_of a b -> package_of b a -> a = b.
Proof.
  intros [->|[s ->]]; [done|]. intros [E|[s' E]]; apply (f_equal length) in E; rewrite ?length_app in E; cbn in E;
    rewrite ?length_app in E; cbn in E; lia.
Qed.

Lemma nearest_unique t m m' : nearest mnames t m -> nearest mnames t m' -> m = m'.
Proof. intros (Hm & Hp & Hx) (Hm' & Hp' & Hx'). apply package_of_antisym; auto. Qed.
End Nearest.

(** ** The report *)

Section Report.
Context `{NumPrinter} (rules : PythonRules).

Let mnames := module_name <$> modules rules.

(** The module has the layer. *)
Definition in_layer (m l : jstr) : Prop := exists x, x ∈ modules rules /\ module_name x = m /\ module_layer x = l.
Definition allowed (a b : jstr) : Prop := exists e, e ∈ allowedLayerEdges rules /\ edge_from e = a /\ edge_to e = b.

(** An import leads from a module and its layer to another. *)
Definition leads (edge : PythonEdge) (a target b : jstr) : Prop :=
  in_layer (py_source edge) a /\ nearest (module_name <$> modules rules) (py_target edge) target /\ in_layer target b.

(** The import is the debt an exception writes down, name for name. *)
Definition excepted (edge : PythonEdge) (target : jstr) (x : PythonException) : Prop :=
  x ∈ exceptions rules /\ exception_from x = py_source edge /\ exception_to x = target /\
  dynamic edge = false /\ names edge ≡ₚ importedNames x.

Definition permitted (edge : PythonEdge) : Prop :=
  exists a target b, leads edge a target b /\ (allowed a b \/ exists x, excepted edge target x).

Definition needs (edge : PythonEdge) (x : PythonException) : Prop :=
  exists a target b, leads edge a target b /\ ~ allowed a b /\ exception_from x = py_source edge /\ exception_to x = target.

Definition exact_report (report : PythonReport) : Prop :=
  report_version report = 2 /\ report_package report = package rules /\ diagnostics report = [] /\
  report_modules report ≡ₚ module_name <$> modules rules /\
  (forall edge, edge ∈ report_edges report -> permitted edge) /\
  (forall x, x ∈ exceptions rules -> exists edge, edge ∈ report_edges report /\ needs edge x).

(** Names with which a key stands for one pair. *)
Record clear_rules : Prop := {
  clear_modules : NoDup mnames;
  clear_names : forall m, m ∈ modules rules -> plain_name (module_name m) /\ plain_name (module_layer m);
  clear_edges : forall e, e ∈ allowedLayerEdges rules -> plain_name (edge_from e);
  clear_exceptions : NoDup (exception_key <$> exceptions rules) /\
    forall x, x ∈ exceptions rules -> plain_name (exception_from x);
}.
Context (Hclear : clear_rules).

Lemma configured_in_layer m l : configured_layer (modules rules) m = Some l <-> in_layer m l.
Proof.
  unfold configured_layer, in_layer. rewrite fmap_Some. setoid_rewrite (map_of_Some _ _ _ _ (clear_modules Hclear)).
  naive_solver.
Qed.

Lemma in_layer_plain m l : in_layer m l -> m ∈ mnames /\ plain_name m /\ plain_name l.
Proof. intros (x & Hx & <- & <-). destruct (clear_names Hclear x Hx). split; [by apply list_elem_of_fmap_2|done]. Qed.

Lemma allowed_key a b : plain_name a -> includes (edge_names (allowedLayerEdges rules)) (edge_name a b) = true <-> allowed a b.
Proof.
  intros Ha. rewrite includes_elem. unfold edge_names, allowed. rewrite list_elem_of_fmap. split.
  - intros (e & E & He). apply edge_name_inj in E as [-> ->]; [eauto|done|by apply (clear_edges Hclear)].
  - intros (e & He & <- & <-). eauto.
Qed.

Lemma exception_lookup s t x : plain_name s ->
  map_of (fun x => edge_name (exception_from x) (exception_to x)) (exceptions rules) (edge_name s t) = Some x <->
  x ∈ exceptions rules /\ exception_from x = s /\ exception_to x = t.
Proof.
  intros Hs. destruct (clear_exceptions Hclear) as [Hd Hp]. rewrite (map_of_Some _ _ _ _ Hd). split.
  - intros [Hx E]. apply edge_name_inj in E as [-> ->]; auto.
  - by intros (? & <- & <-).
Qed.

(** A classified import, decided. *)
Lemma check_led edge a target b : leads edge a target b ->
  match check_python_edge rules edge with
  | Ok None => allowed a b
  | Ok (Some key) => ~ allowed a b /\ exists x, excepted edge target x /\ key = exception_key x
  | Throw Unfinished => False
  | Throw _ => ~ allowed a b /\ ~ exists x, excepted edge target x
  end.
Proof.
  intros (Ha & Ht & Hb). apply in_layer_plain in Ha as Hap. destruct Hap as (_ & Hs & Hal).
  unfold check_python_edge. rewrite (proj2 (configured_in_layer _ _) Ha).
  destruct (nearest_module_ok (modules rules) (S (length (py_target edge))) (py_target edge)) as (m & -> & Hin & Hout); [lia|].
  assert (m = target) as ->.
  { destruct (decide (m ∈ mnames)) as [Hm|Hm]; [by eapply nearest_unique; [apply Hin|]|].
    destruct Ht as (Hm' & Hp & _). by destruct (Hout Hm _ Hm'). }
  cbn [mbind outcome_bind]. rewrite (proj2 (configured_in_layer _ _) Hb).
  pose proof (allowed_key a b Hal) as Hkey. destruct (includes _ _); [by apply Hkey|].
  assert (~ allowed a b) as Hno by (intros ?%Hkey; done). cbv zeta.
  destruct (map_of _ _ _) as [x|] eqn:Ex.
  - apply exception_lookup in Ex as (Hx & Hf & Hto); [|done].
    destruct (dynamic edge || negb (same_json (sort_strings (names edge)) (sort_strings (importedNames x)))) eqn:Eg;
      cbn [fail_when throw_if mbind outcome_bind].
    + split; [done|]. intros (y & Hy & Hyf & Hyt & Hd & Hn). apply orb_true_iff in Eg as [|Eg%negb_true_iff]; [congruence|].
      assert (x = y) as <-.
      { destruct (clear_exceptions Hclear) as [Hu _]. apply (NoDup_fmap_inj exception_key _ _ _ Hu Hx Hy).
        unfold exception_key. congruence. }
      apply same_sorted in Hn. congruence.
    + apply orb_false_iff in Eg as [Hd Hn%negb_false_iff%same_sorted]. split; [done|]. exists x.
      split; [by split_and!|]. unfold exception_key. congruence.
  - split; [done|]. intros (y & Hy & Hyf & Hyt & _).
    rewrite (proj2 (exception_lookup _ _ y Hs)) in Ex by done. done.
Qed.

Lemma check_python_edge_leads edge used : check_python_edge rules edge = Ok used -> exists a target b, leads edge a target b.
Proof.
  unfold check_python_edge. destruct (configured_layer _ (py_source edge)) as [a|] eqn:Ea; [|done].
  destruct (nearest_module_ok (modules rules) (S (length (py_target edge))) (py_target edge)) as (m & -> & Hin & _); [lia|].
  cbn [mbind outcome_bind]. destruct (configured_layer _ m) as [b|] eqn:Eb; [|done]. intros _.
  apply configured_in_layer in Ea, Eb. exists a, m, b. split_and!; [done| |done]. apply Hin. by apply in_layer_plain in Eb as [? _].
Qed.

Lemma leads_unique edge a t b a' t' b' : leads edge a t b -> leads edge a' t' b' -> a = a' /\ t = t' /\ b = b'.
Proof.
  intros (Ha & Ht & Hb) (Ha' & Ht' & Hb'). assert (t = t') as <- by (by eapply nearest_unique).
  apply configured_in_layer in Ha, Ha', Hb, Hb'. naive_solver.
Qed.

Lemma check_python_edge_ok edge used : check_python_edge rules edge = Ok used ->
  permitted edge /\ forall x, x ∈ exceptions rules -> used = Some (exception_key x) <-> needs edge x.
Proof.
  intros E. destruct (check_python_edge_leads edge used E) as (a & t & b & Hl). pose proof (check_led edge a t b Hl) as Hc.
  rewrite E in Hc. destruct used as [key|].
  - destruct Hc as [Hno (x & Hx & ->)]. split; [exists a, t, b; eauto|]. intros y Hy. split.
    + intros [= Ek]. destruct (clear_exceptions Hclear) as [Hu _].
      assert (x = y) as <- by (apply (NoDup_fmap_inj exception_key _ _ _ Hu); [by destruct Hx|done|done]).
      destruct Hx as (_ & ? & ? & _). by exists a, t, b.
    + intros (a' & t' & b' & Hl' & _ & Hf & Ht). destruct (leads_unique _ _ _ _ _ _ _ Hl Hl') as (<- & <- & <-).
      destruct Hx as (Hx & Hxf & Hxt & _). unfold exception_key. congruence.
  - split; [exists a, t, b; eauto|]. intros y Hy. split; [done|].
    intros (a' & t' & b' & Hl' & Hno & _). destruct (leads_unique _ _ _ _ _ _ _ Hl Hl') as (<- & <- & <-). done.
Qed.

Lemma check_permitted edge : permitted edge -> exists used : option jstr, check_python_edge rules edge = Ok used.
Proof.
  intros (a & t & b & Hl & Hor). pose proof (check_led edge a t b Hl) as Hc.
  destruct (check_python_edge rules edge) as [used|e]; [eauto|]. exfalso.
  destruct e as [message| |]; [destruct Hc as [? []]|destruct Hc as [? []]|done]; tauto.
Qed.

Lemma check_python_edges_ok edges used : check_python_edges rules edges = Ok used ->
  (forall edge, edge ∈ edges -> permitted edge) /\
  forall x, x ∈ exceptions rules -> exception_key x ∈ used <-> exists edge, edge ∈ edges /\ needs edge x.
Proof.
  revert used. induction edges as [|edge edges IH]; intros used E; cbn [check_python_edges] in E; inv_ok.
  { split; [by intros ? ?%elem_of_nil|]. intros x _. split; [by intros ?%elem_of_nil|by intros (? & ?%elem_of_nil & _)]. }
  apply check_python_edge_ok in Ha as [Hp Hu]. apply IH in Ha0 as [Hps Hus]. split.
  - by intros e [->|He]%elem_of_cons; [|apply Hps].
  - intros x Hx. specialize (Hu x Hx). specialize (Hus x Hx). setoid_rewrite elem_of_cons.
    destruct a as [key|]; rewrite ?elem_of_cons; naive_solver.
Qed.

Lemma check_all_permitted edges : (forall edge, edge ∈ edges -> permitted edge) -> exists used, check_python_edges rules edges = Ok used.
Proof.
  induction edges as [|edge edges IH]; intros Hp; cbn [check_python_edges]; [eauto|].
  destruct (check_permitted edge) as [used ->]; [apply Hp, list_elem_of_here|].
  destruct IH as [rest ->]; [intros; by apply Hp, list_elem_of_further|]. by eexists.
Qed.

Lemma distinct_keys_id l : NoDup l -> distinct_keys l = l.
Proof.
  induction 1 as [|x l Hx Hl IH]; cbn; [done|]. rewrite IH. f_equal. apply filter_id. intros y Hy.
  apply negb_true_iff, str_eqb_neq. by intros ->.
Qed.

(** The check, with keys that can be read back. *)
Lemma verifyPython_clear report : verifyPython rules report = Ok () <-> exact_report report.
Proof.
  unfold verifyPython, exact_report. rewrite !distinct_keys_id by apply (clear_modules Hclear). split.
  - intros E. inv_script. apply orb_false_iff in Ha as [Hv%negb_false_iff Hp%negb_false_iff].
    apply Z.eqb_eq in Hv. apply str_eqb_eq in Hp.
    destruct (diagnostics report); [|done]. apply negb_false_iff, same_sorted in Ha1.
    apply check_python_edges_ok in Ha2 as [Hall Hused]. split_and!; [done..|]. intros x Hx.
    pose proof (for_each_elem _ _ _ _ E Hx) as Hin.
    apply fail_when_ok, negb_false_iff, includes_elem in Hin. by apply (Hused x Hx).
  - intros (-> & -> & -> & Hm & Hall & Hused). rewrite str_eqb_refl. cbn [Z.eqb negb orb fail_when throw_if mbind outcome_bind].
    change (negb (2 =? 2) || negb true) with false. cbn [fail_when throw_if mbind outcome_bind].
    rewrite (proj2 (same_sorted _ _) Hm). cbn [negb fail_when throw_if mbind outcome_bind].
    destruct (check_all_permitted _ Hall) as [used E]. rewrite E. cbn [mbind outcome_bind]. apply for_each_ok. intros x Hx.
    apply check_python_edges_ok in E as [_ Hk]. rewrite (proj2 (includes_elem _ _)); [done|]. by apply Hk, Hused.
Qed.
End Report.

(** A validated registry has rules with such keys when no name of a module or
    a layer holds the unit [>]. *)
Lemma python_ok_clear roots rules :
  python_ok roots rules ->
  (forall m, m ∈ modules rules -> plain_name (module_name m) /\ plain_name (module_layer m)) ->
  clear_rules rules.
Proof.
  intros [_ [_ Hm] [He _] Hx Hd] Hplain. split; [done..| |split; [done|]].
  - intros e Hin. destruct (proj1 (Forall_forall _ _) He e Hin) as [Hf _].
    apply list_elem_of_fmap in Hf as (m & -> & Hm'). by apply Hplain.
  - intros x Hin. destruct (proj1 (Forall_forall _ _) Hx x Hin) as [Hf _].
    apply list_elem_of_fmap in Hf as (m & -> & Hm'). by apply Hplain.
Qed.

(** C25: with the rules of a validated registry in which no name of a Python
    module or layer holds the character [>], [verifyPython] lets a report
    through exactly when the modules are the configured ones, every import
    stays within the allowed layer edges or is written down, name for name, as
    an exception, and every exception is still needed.  With such names two
    edges may have one key (see [clear_rules]). *)
Theorem verifyPython_exact `{NumPrinter} roots rules report :
  python_ok roots rules ->
  (forall m, m ∈ modules rules -> plain_name (module_name m) /\ plain_name (module_layer m)) ->
  verifyPython rules report = Ok () <-> exact_report rules report.
Proof. intros Hok Hplain. by apply verifyPython_clear, (python_ok_clear roots). Qed.
