(* ===== verification/ModuleBoundariesSpec.v ===== *)
(** What a run of [scripts/module-boundaries.mjs] that passes says about the
    repository: where every import leads. *)
From S2P Require Export PythonBoundariesSpec.

(** ** Paths *)

Lemma relative_segments_prefix from to :
  (exists rest, to = from ++ rest /\ relative_segments from to = rest) \/
  exists rest, relative_segments from to = js ".." :: rest.
Proof.
  revert to. induction from as [|x from IH]; intros [|y to]; cbn [relative_segments].
  - left. by exists [].
  - left. by exists (y :: to).
  - right. cbn. eauto.
  - destruct (str_eqb x y) eqn:E; [|right; cbn; eauto]. apply str_eqb_eq in E as ->.
    destruct (IH to) as [(rest & -> & E)|(rest & E)]; [left|right]; eauto.
Qed.

(** A path that is not outside a directory is the directory or below it. *)
Lemma holds_path_under d t : holds_path d t = true -> exists rest, segments t = segments d ++ rest.
Proof.
  unfold holds_path, outside, relative. rewrite negb_true_iff, orb_false_iff. intros [Hd _].
  destruct (relative_segments_prefix (segments d) (segments t)) as [(rest & E & _)|(rest & E)]; [by exists rest|].
  rewrite E in Hd. unfold join in Hd. rewrite startsWith_app in Hd. done.
Qed.

Section Repository.
Context `{NumPrinter} `{Host} (root : jstr).

Lemma concat_each_ok {A B} (f : A -> script (list B)) l r : concat_each f l = Ok r ->
  (forall x, x ∈ l -> exists ys, f x = Ok ys /\ forall y, y ∈ ys -> y ∈ r) /\
  (forall y, y ∈ r -> exists x ys, x ∈ l /\ f x = Ok ys /\ y ∈ ys).
Proof.
  revert r. induction l as [|x l IH]; intros r E; cbn [concat_each] in E; inv_script.
  - split; by intros ? ?%elem_of_nil.
  - destruct (IH _ Ha0) as [H1 H2]. split.
    + intros y [->|Hy]%elem_of_cons.
      * exists a. split; [done|]. intros z Hz. apply elem_of_app. auto.
      * destruct (H1 y Hy) as (ys & Hys & Hin). exists ys. split; [done|]. intros z Hz. apply elem_of_app. auto.
    + intros y [Hy|Hy]%elem_of_app; [exists x, a; split_and!; [apply list_elem_of_here|done|done]|].
      destruct (H2 y Hy) as (z & ys & Hz & ? & ?). exists z, ys. split_and!; [by apply list_elem_of_further|done..].
Qed.

(** ** The registry *)

Lemma loadRegistry_well_formed path registry : loadRegistry root path = Ok registry -> well_formed registry.
Proof.
  unfold loadRegistry. intros E. inv_script. apply validateRegistry_ok in Ha1 as [-> (r & Hr & Hw)]. rewrite Hr in E.
  by injection E as <-.
Qed.

Context (registry : Registry) (Hw : well_formed registry).
Context (Hplain : forall r, r ∈ activeRoots registry -> plain_name (root_path r)).

(** A key of a root edge is the edge. *)
Lemma root_edge_key (a b : jstr) : a ∈ root_path <$> activeRoots registry ->
  includes (edge_names (rootEdges registry)) (edge_name a b) = true -> root_arrow registry a b.
Proof.
  intros Ha Hk. rewrite includes_elem in Hk. apply list_elem_of_fmap in Hk as (e & E & He).
  assert (plain_name a) as Hpa by (apply list_elem_of_fmap in Ha as (r & -> & ?); auto).
  destruct (wf_edges _ Hw) as [Hknown _]. rewrite Forall_forall in Hknown. destruct (Hknown e He) as [Hf _].
  apply list_elem_of_fmap in Hf as (r & Hr & Hin). apply edge_name_inj in E as [-> ->]; [|done|rewrite Hr; auto].
  split; [by rewrite Hr; apply list_elem_of_fmap_2|]. eauto.
Qed.

(** ** Manifests *)

(** The manifest of a root asks for the package of another. *)
Definition manifest_needs (manifest : jsval) (target : ActiveRoot) : Prop :=
  exists deps name package, manifestDependencies manifest = Ok deps /\ name ∈ deps /\
    internalPackageName name = Some package /\ target ∈ activeRoots registry /\ packageName target = package.

Record manifest_ok (r : ActiveRoot) (manifest : jsval) : Prop := {
  manifest_name : prop manifest "name" = VStr (packageName r);
  manifest_exports : exists l, packageExports manifest = Ok l /\ l ≡ₚ publicExports r;
  manifest_edges : forall target, manifest_needs manifest target ->
    is_ecosystem npm target = true /\ root_arrow registry (root_path r) (root_path target);
  manifest_known : forall deps name package, manifestDependencies manifest = Ok deps -> name ∈ deps ->
    internalPackageName name = Some package -> exists target, manifest_needs manifest target /\ packageName target = package;
}.

Lemma field_ok v k w : field v k = Ok w -> w = prop v k.
Proof. destruct v; cbn; by try intros [= <-]. Qed.

Lemma verify_manifest_ok r absolute manifest u :
  r ∈ activeRoots registry -> verify_manifest root registry r absolute manifest = Ok u -> manifest_ok r manifest.
Proof.
  unfold verify_manifest. intros Hr E. inv_script. apply field_ok in Ha as ->.
  apply negb_false_iff, strict_eq_str in Ha0. apply negb_false_iff, same_json_eq in Ha2.
  assert (forall name package, name ∈ a4 -> internalPackageName name = Some package ->
    exists target, target ∈ activeRoots registry /\ packageName target = package /\ is_ecosystem npm target = true /\
      root_arrow registry (root_path r) (root_path target)) as Hdep.
  { intros name package Hn Hp. pose proof (for_each_elem _ _ _ _ E Hn) as Hv. unfold verify_dependency in Hv. rewrite Hp in Hv.
    destruct (map_of packageName (activeRoots registry) package) as [target|] eqn:Et; [|done]. inv_script.
    apply map_of_elem in Et as [Ht <-]. exists target. apply negb_false_iff in Ha, Hv. split_and!; [done..|].
    apply root_edge_key; [by apply list_elem_of_fmap_2|done]. }
  split.
  - done.
  - eexists. split; [done|]. by rewrite Ha2, sort_strings_perm.
  - intros target (deps & name & package & Hd & Hn & Hp & Ht & Hpk). rewrite Ha4 in Hd. injection Hd as <-.
    destruct (Hdep name package Hn Hp) as (t & Hti & Htp & ? & ?).
    assert (t = target) as ->; [|done]. apply (NoDup_fmap_inj packageName _ _ _ (wf_packages _ Hw) Hti Ht). congruence.
  - intros deps name package Hd Hn Hp. rewrite Ha4 in Hd. injection Hd as <-.
    destruct (Hdep name package Hn Hp) as (t & ? & ? & _). exists t. split; [|done]. by exists a4, name, package.
Qed.

Lemma verify_active_roots_ok l manifests : (forall r, r ∈ l -> r ∈ activeRoots registry) ->
  verify_active_roots root registry l = Ok manifests ->
  (forall r, r ∈ l -> is_ecosystem npm r = true -> exists m, (root_path r, m) ∈ manifests) /\
  (forall x m, (x, m) ∈ manifests -> exists r, r ∈ l /\ is_ecosystem npm r = true /\ root_path r = x /\ manifest_ok r m).
Proof.
  revert manifests. induction l as [|r l IH]; intros manifests Hl E; cbn [verify_active_roots] in E; inv_script.
  { split; [by intros ? ?%elem_of_nil|by intros ? ? ?%elem_of_nil]. }
  assert (forall manifests, verify_active_roots root registry l = Ok manifests ->
    (forall r, r ∈ l -> is_ecosystem npm r = true -> exists m, (root_path r, m) ∈ manifests) /\
    (forall x m, (x, m) ∈ manifests -> exists r, r ∈ l /\ is_ecosystem npm r = true /\ root_path r = x /\ manifest_ok r m)) as IH'.
  { intros ms. apply IH. intros x Hx. by apply Hl, list_elem_of_further. }
  clear IH. destruct (is_ecosystem npm r) eqn:En; inv_script.
  - apply verify_manifest_ok in Ha4; [|by apply Hl, list_elem_of_here]. destruct (IH' _ Ha5) as [H1 H2]. split.
    + intros x [->|Hx]%elem_of_cons Hn; [eexists; apply list_elem_of_here|].
      destruct (H1 x Hx Hn) as [m Hm]. exists m. by apply list_elem_of_further.
    + intros x m [[= -> ->]|Hx]%elem_of_cons; [exists r; split_and!; [apply list_elem_of_here|done..]|].
      destruct (H2 x m Hx) as (y & ? & ?). exists y. split; [by apply list_elem_of_further|done].
  - destruct (IH' _ E) as [H1 H2]. split.
    + intros x [->|Hx]%elem_of_cons Hn; [congruence|auto].
    + intros x m Hx. destruct (H2 x m Hx) as (y & ? & ?). exists y. split; [by apply list_elem_of_further|done].
Qed.

(** The package a manifest asks for: from root to root. *)
Definition package_needs (manifests : list (jstr * jsval)) (x y : jstr) : Prop :=
  exists m target, (x, m) ∈ manifests /\ manifest_needs m target /\ root_path target = y.

Lemma verifyRoots_manifests report manifests : verifyRoots root registry = Ok (report, manifests) ->
  verify_active_roots root registry (activeRoots registry) = Ok manifests.
Proof. unfold verifyRoots. intros E. inv_script. destruct a1. by inv_script. Qed.

Lemma package_needs_edge report manifests x y : verifyRoots root registry = Ok (report, manifests) ->
  package_needs manifests x y -> root_arrow registry x y.
Proof.
  intros E%verifyRoots_manifests (m & target & Hm & Ht & <-). apply verify_active_roots_ok in E as [_ E]; [|done].
  destruct (E x m Hm) as (r & Hr & _ & <- & Hok). by apply (manifest_edges _ _ Hok).
Qed.
End Repository.

(** ** Imports *)

Section Imports.
Context `{NumPrinter} `{Host} (root : jstr) (registry : Registry).

#[local] Notation rules := (typescript_rules registry).

Definition forbidden (a b : jstr) : Prop := exists e, e ∈ forbiddenLayerEdges rules /\ edge_from e = a /\ edge_to e = b.

(** A file may import the place: it is in the file's own root, and it is no
    source file, or one of a layer the file's layer may use. *)
Definition may_reach (sources : Sources) (source : SourceFile) (real : jstr) : Prop :=
  (exists rest, segments real = segments (resolve root (root_path (file_root source))) ++ rest) /\
  match info_of sources real with
  | Some info => ~ forbidden (layer source) (layer info)
  | None => extname real ∉ sourceExtensions rules
  end.

Lemma includes_false l s : includes l s = false <-> s ∉ l.
Proof. rewrite <- includes_elem. by destruct (includes l s). Qed.

Lemma inspectPathTarget_ok sources source target imported u :
  inspectPathTarget root registry sources source target imported = Ok u ->
  exists real, realpath target = Ok real /\ may_reach sources source real.
Proof.
  unfold inspectPathTarget. intros E. inv_script. exists a1. split; [done|]. split.
  - apply holds_path_under. unfold holds_path. by rewrite Ha2.
  - destruct (info_of sources a1) as [info|]; inv_script; apply includes_false in E; [|done].
    intros (e & He & Hf & Ht). apply E. apply list_elem_of_fmap. exists e. by rewrite Hf, Ht.
Qed.

(** The import is of the package of an active root of npm. *)
Definition imports_package (imported : Import) (package : jstr) : Prop :=
  startsWith (value imported) "." = false /\ internalPackageName (value imported) = Some package.

(** The place an import by path or by a configured alias leads to. *)
Inductive leads_to (patterns : list jstr) (source : SourceFile) (imported : Import) : jstr -> Prop :=
| relative_import target real :
    startsWith (value imported) "." = true ->
    resolveRelativeImport (filename source) (value imported) (sourceExtensions rules) = Ok target ->
    realpath target = Ok real -> leads_to patterns source imported real
| alias_import resolution real :
    startsWith (value imported) "." = false -> internalPackageName (value imported) = None ->
    resolveModuleName (value imported) (filename source) = Some resolution ->
    existsb (fun pattern => aliasPatternMatches pattern (value imported)) patterns = true \/
      isExternalLibraryImport resolution = false /\ holds_path root (resolve root (resolvedFileName resolution)) = true ->
    realpath (resolve root (resolvedFileName resolution)) = Ok real -> leads_to patterns source imported real.

Lemma check_import_path sources declared patterns source imported real u :
  check_import root registry sources declared patterns source imported = Ok u ->
  leads_to patterns source imported real -> may_reach sources source real.
Proof.
  unfold check_import. intros E Hl. destruct Hl as [target real Hs Ht Hr|resolution real Hs Hi Hm Ha Hr].
  - rewrite Hs, Ht in E. cbn [mbind outcome_bind] in E. apply inspectPathTarget_ok in E as (r & Hr' & ?). congruence.
  - rewrite Hs, Hi in E. unfold inspectAlias in E. rewrite Hm in E.
    assert (inspectPathTarget root registry sources source (resolve root (resolvedFileName resolution)) imported = Ok u) as E'.
    { destruct Ha as [Ha|[Hx Ha]]; rewrite Ha in E.
      - rewrite andb_false_r in E. cbn [orb] in E. by inv_script.
      - rewrite Hx in E. cbn [andb] in E. rewrite orb_true_r in E. by inv_script. }
    apply inspectPathTarget_ok in E' as (r & Hr' & ?). congruence.
Qed.

Context (Hw : well_formed registry).
(** The path of no active root holds the unit [>]. *)
Definition plain_roots : Prop := forall r, r ∈ activeRoots registry -> plain_name (root_path r).

Lemma check_import_package sources declared patterns source imported package u :
  plain_roots -> file_root source ∈ activeRoots registry ->
  check_import root registry sources declared patterns source imported = Ok u -> imports_package imported package ->
  exists target, target ∈ activeRoots registry /\ is_ecosystem npm target = true /\ packageName target = package /\
    publicSubpath (value imported) package ∈ publicExports target /\
    (root_path target = root_path (file_root source) \/
     package ∈ declared /\ root_arrow registry (root_path (file_root source)) (root_path target)).
Proof.
  unfold check_import. intros Hplain Hroot E [Hs Hp]. rewrite Hs, Hp in E. unfold inspectPackage in E.
  destruct (map_of _ _ _) as [target|] eqn:Et; [|done]. inv_script.
  apply map_of_elem in Et as [Ht <-]. apply elem_of_lfilter in Ht as [Ht Hn]. exists target.
  apply negb_false_iff, includes_elem in E. split_and!; [done..|].
  destruct (str_eqb (root_path target) (root_path (file_root source))) eqn:Er; [left; by apply str_eqb_eq|]. right.
  inv_script. apply negb_false_iff, includes_elem in Ha1. apply negb_false_iff in Ha0. split; [done|].
  apply root_edge_key; [done|done|by apply list_elem_of_fmap_2|done].
Qed.

(** *** The files *)

Lemma source_file_ok active absolute name l real source : source_file registry active absolute name = Ok l -> (real, source) ∈ l ->
  file_root source = active /\ realpath name = Ok real /\
  classifyLayer (layerRules rules) (root_path active) (file_relative source) = Some (layer source).
Proof.
  unfold source_file. destruct (includes _ _); [|by intros [= <-] ?%elem_of_nil].
  destruct (classifyLayer _ _ _) as [[|c s]|] eqn:E; try done. intros E'. inv_script.
  intros [= -> ->]%list_elem_of_singleton.
  split_and!; done.
Qed.

Definition source_files (fuel : nat) : script (list (jstr * SourceFile)) :=
  concat_each (root_files root registry fuel) (List.filter (is_ecosystem npm) (activeRoots registry)).

Lemma source_files_ok fuel info real source : source_files fuel = Ok info -> (real, source) ∈ info ->
  file_root source ∈ activeRoots registry /\
  classifyLayer (layerRules rules) (root_path (file_root source)) (file_relative source) = Some (layer source).
Proof.
  unfold source_files. intros E Hin. apply concat_each_ok in E as [_ E].
  destruct (E _ Hin) as (active & ys & Hact & Hf & Hy). apply elem_of_lfilter in Hact as [Hact _].
  unfold root_files in Hf. inv_script. apply concat_each_ok in Hf as [_ Hf].
  destruct (Hf _ Hy) as (name & zs & _ & Hs & Hz). destruct (source_file_ok _ _ _ _ _ _ Hs Hz) as (-> & _ & Hc). done.
Qed.

(** What the run knows about one import. *)
Record import_ok (sources : Sources) (source : SourceFile) (declared patterns : list jstr) (imported : Import) : Prop := {
  import_path : forall real, leads_to patterns source imported real -> may_reach sources source real;
  import_package : plain_roots -> forall package, imports_package imported package ->
    exists target, target ∈ activeRoots registry /\ is_ecosystem npm target = true /\ packageName target = package /\
      publicSubpath (value imported) package ∈ publicExports target /\
      (root_path target = root_path (file_root source) \/
       package ∈ declared /\ root_arrow registry (root_path (file_root source)) (root_path target));
}.

(** An import of a file the run has read. *)
Definition file_imports (manifests : list (jstr * jsval)) (info : list (jstr * SourceFile)) (source : SourceFile)
    (declared patterns : list jstr) (imported : Import) : Prop :=
  exists real imports,
    (real, source) ∈ info /\ collectSpecifiers (filename source) = Ok imports /\ imported ∈ imports /\
    aliasPatterns (filename source) = Ok patterns /\
    manifestDependencies (manifest_of {| files := info.*2; fileInfo := info; manifests := manifests |}
      (root_path (file_root source))) = Ok declared.

Lemma verifyTypeScript_ok fuel manifests u : verifyTypeScript root registry fuel manifests = Ok u ->
  exists info, source_files fuel = Ok info /\
    forall source declared patterns imported, file_imports manifests info source declared patterns imported ->
      import_ok {| files := info.*2; fileInfo := info; manifests := manifests |} source declared patterns imported.
Proof.
  unfold verifyTypeScript. intros E. inv_script. exists a. split; [done|].
  intros source declared patterns imported (real & imports & Hin & Hi & Himp & Hp & Hd).
  assert (source ∈ a.*2) as Hs by (apply list_elem_of_fmap; by exists (real, source)).
  pose proof (for_each_elem _ _ _ _ Ha0 Hs) as Hc. unfold check_source in Hc. rewrite Hd in Hc. cbn [mbind outcome_bind] in Hc.
  rewrite Hp, Hi in Hc. cbn [mbind outcome_bind] in Hc. pose proof (for_each_elem _ _ _ _ Hc Himp) as Hk.
  destruct (source_files_ok _ _ _ _ Ha Hin) as [Hr _]. split.
  - intros r Hl. by eapply check_import_path.
  - intros Hplain package Hpk. by eapply check_import_package.
Qed.

(** A source file of one root imports the package of another. *)
Definition crosses (manifests : list (jstr * jsval)) (info : list (jstr * SourceFile)) (x y : jstr) : Prop :=
  exists source declared patterns imported target,
    file_imports manifests info source declared patterns imported /\ root_path (file_root source) = x /\
    imports_package imported (packageName target) /\ target ∈ activeRoots registry /\ root_path target = y /\ x <> y.

Lemma crosses_edge fuel manifests info u x y :
  plain_roots -> verifyTypeScript root registry fuel manifests = Ok u -> source_files fuel = Ok info ->
  crosses manifests info x y -> root_arrow registry x y.
Proof.
  intros Hplain E Hinfo (source & declared & patterns & imported & target & Hf & <- & Hp & Ht & <- & Hne).
  apply verifyTypeScript_ok in E as (info' & Hinfo' & Hok). assert (info' = info) as -> by congruence.
  destruct (import_package _ _ _ _ _ (Hok _ _ _ _ Hf) Hplain _ Hp) as (t & Hti & _ & Hpk & _ & Hor).
  assert (t = target) as -> by (by apply (NoDup_fmap_inj packageName _ _ _ (wf_packages _ Hw))).
  by destruct Hor as [?|[_ ?]].
Qed.
End Imports.

(** The layer of a place is that of the longest rule that matches it. *)
Lemma classifyLayer_longest rules rootPath path l : classifyLayer rules rootPath path = Some l ->
  exists rule, rule ∈ rules /\ matches_rule rootPath path rule = true /\ rule_layer rule = l /\
    forall other, other ∈ rules -> matches_rule rootPath path other = true ->
      (length (rule_prefix other) <= length (rule_prefix rule))%nat.
Proof.
  unfold classifyLayer. set (m := List.filter (matches_rule rootPath path) rules).
  set (key := fun rule => - str_length (rule_prefix rule)).
  intros (rule & Hh & ->)%fmap_Some. pose proof (sort_by_sorted key m) as Hs. pose proof (sort_by_perm key m) as Hp.
  destruct (sort_by key m) as [|r rs]; [done|]. injection Hh as ->.
  assert (rule ∈ m) as Hr by (rewrite <- Hp; apply list_elem_of_here). apply elem_of_lfilter in Hr as [Hr Hm].
  exists rule. split_and!; [done..|]. intros other Ho Hmo.
  assert (other ∈ rule :: rs) as Hin by (rewrite Hp; by apply elem_of_lfilter).
  apply elem_of_cons in Hin as [->|Hin]; [done|]. apply StronglySorted_inv in Hs as [_ Hs]. rewrite Forall_forall in Hs.
  specialize (Hs other Hin). unfold key, str_length in Hs. lia.
Qed.

(** ** The run *)

Section Run.
Context `{NumPrinter} `{Host}.

Lemma tc_mono {A} (R S : A -> A -> Prop) : (forall x y, R x y -> S x y) -> forall x y, tc R x y -> tc S x y.
Proof. intros HRS x y Ht. induction Ht; [by apply tc_once, HRS|by eapply tc_l; [apply HRS|]]. Qed.

Lemma run_parts fuel root path summary : runModuleBoundaryCheck fuel root path = Ok summary ->
  exists registry report manifests, loadRegistry root path = Ok registry /\ well_formed registry /\
    verifyRoots root registry = Ok (report, manifests) /\ verifyTypeScript root registry fuel manifests = Ok () /\
    verifyPython (python_rules registry) report = Ok ().
Proof.
  unfold runModuleBoundaryCheck. intros E. inv_script. destruct a0 as [report manifests]. inv_script.
  exists a, report, manifests. destruct a0, a1. split_and!; [done|by eapply loadRegistry_well_formed|done..].
Qed.

(** One root needs another: its manifest asks for the other's package, or one
    of its source files imports it. *)
Definition root_needs (registry : Registry) (manifests : list (jstr * jsval)) (info : list (jstr * SourceFile)) (x y : jstr) : Prop :=
  package_needs registry manifests x y \/ crosses registry manifests info x y.

(** C17: after a run that passes, with a registry in which the path of no
    active root holds the character [>], no root needs itself, through any
    number of others: neither the manifests nor the imports of the source
    files close a cycle, and every step is an edge the registry allows.  The
    condition is needed: with such paths two edges may have one key, and the
    check takes an edge that is not allowed for one that is
    ([edge_keys_collide]). *)
Theorem roots_stay_acyclic fuel root path summary registry : loadRegistry root path = Ok registry -> plain_roots registry ->
  runModuleBoundaryCheck fuel root path = Ok summary ->
  exists report manifests info,
    verifyRoots root registry = Ok (report, manifests) /\ source_files root registry fuel = Ok info /\
    (forall x y, root_needs registry manifests info x y -> root_arrow registry x y) /\
    forall x, ~ tc (root_needs registry manifests info) x x.
Proof.
  intros Hl Hplain (registry' & report & manifests & Hl' & Hw & Hr & Ht & _)%run_parts.
  rewrite Hl in Hl'. injection Hl' as <-. destruct (verifyTypeScript_ok _ _ Hw _ _ _ Ht) as (info & Hinfo & _).
  assert (forall x y, root_needs registry manifests info x y -> root_arrow registry x y) as Hstep.
  { intros x y [Hn|Hn]; [by eapply package_needs_edge|by eapply crosses_edge]. }
  exists report, manifests, info. split_and!; [done..|]. intros x Hx. apply (wf_acyclic _ Hw x). by eapply tc_mono.
Qed.

(** C18: after a run that passes, an import by path or by an alias leads to a
    place inside the file's own root, and never from a layer to one the
    registry forbids it. *)
Theorem imports_respect_layers fuel root path summary registry : loadRegistry root path = Ok registry ->
  runModuleBoundaryCheck fuel root path = Ok summary ->
  exists report manifests info,
    verifyRoots root registry = Ok (report, manifests) /\ source_files root registry fuel = Ok info /\
    forall source declared patterns imported real,
      file_imports manifests info source declared patterns imported ->
      leads_to root registry patterns source imported real ->
      (exists rest, segments real = segments (resolve root (root_path (file_root source))) ++ rest) /\
      forall target, map_of fst info real = Some (real, target) ->
        ~ forbidden registry (layer source) (layer target).
Proof.
  intros Hl (registry' & report & manifests & Hl' & Hw & Hr & Ht & _)%run_parts.
  rewrite Hl in Hl'. injection Hl' as <-. destruct (verifyTypeScript_ok _ _ Hw _ _ _ Ht) as (info & Hinfo & Hok).
  exists report, manifests, info. split_and!; [done..|]. intros source declared patterns imported real Hf Hlead.
  destruct (import_path _ _ _ _ _ _ _ (Hok _ _ _ _ Hf) _ Hlead) as [Hin Hlayer]. split; [done|].
  intros target Hm. unfold info_of in Hlayer. cbn [fileInfo] in Hlayer. rewrite Hm in Hlayer. done.
Qed.
End Run.

(** ** Where the check is not what it means to be *)

(** An edge [a->b] to [c] and one from [a] to [b->c] have one key. *)
Lemma edge_keys_collide : edge_name "a->b" "c" = edge_name "a" "b->c".
Proof. reflexivity. Qed.

(** The parts of a pattern may overlap in a specifier. *)
Lemma alias_parts_overlap : aliasPatternMatches "ab*ba" "aba" = true.
Proof. vm_compute. reflexivity. Qed.

(** A name that begins with two dots is taken for a way out. *)
Lemma dotted_name_outside : holds_path "/repo" "/repo/..cache" = false.
Proof. vm_compute. reflexivity. Qed.

(** A list whose text is an issue number is taken for one. *)
Lemma removal_issue_list `{NumPrinter} :
  check_exception [js "p.a"; js "p.b"] (VObj [(js "from", VStr "p.a"); (js "to", VStr "p.b"); (js "importedNames", VArr [VStr "x"]);
    (js "rationale", VStr "debt"); (js "removalIssue", VArr [VStr "#1"])]) "python.exceptions[0]" = Ok ().
Proof. vm_compute. reflexivity. Qed.
