(* ===== verification/BoundariesEnd.v ===== *)
(** The module boundary check ends: with a summary or with an error, when the
    fuel is the number of directories below a root. *)
From S2P Require Export ModuleBoundariesSpec.
#[local] Open Scope nat_scope.

(** ** The registry *)

Section Validation.
Context `{NumPrinter}.

Lemma template_ends v : ends (template v).
Proof. unfold template. ends_all. Qed.
Lemma field_ends v k : ends (field v k).
Proof. unfold field. ends_all. Qed.
Lemma exactKeys_ends v keys label : ends (exactKeys v keys label).
Proof. unfold exactKeys. ends_all. Qed.
Lemma array_ends v label : ends (array v label).
Proof. unfold array. ends_all. Qed.
Lemma nonEmptyString_ends v label : ends (nonEmptyString v label).
Proof. unfold nonEmptyString. ends_all. Qed.
#[local] Hint Resolve template_ends field_ends exactKeys_ends array_ends nonEmptyString_ends assertAcyclic_ends : ends.
Lemma relativePath_ends v label : ends (relativePath v label).
Proof. unfold relativePath. ends_all. Qed.
Lemma pair_key_ends a sep b v : ends (pair_key a sep b v).
Proof. unfold pair_key. ends_all. Qed.
#[local] Hint Resolve relativePath_ends pair_key_ends : ends.

Lemma unique_ends values label key : (forall v, ends (key v)) -> ends (unique values label key).
Proof.
  intros Hk. unfold unique. generalize ([] : list jsval) as seen. induction values as [|v values IH]; intros seen; cbn [unique_from]; ends_all.
Qed.
#[local] Hint Resolve unique_ends : ends.

Lemma check_edge_ends e label : ends (check_edge e label).
Proof. unfold check_edge. ends_all. Qed.
Lemma check_active_root_ends owner item label : ends (check_active_root owner item label).
Proof. unfold check_active_root, check_export. ends_all. Qed.
Lemma check_exception_ends names item label : ends (check_exception names item label).
Proof. unfold check_exception. ends_all. Qed.
#[local] Hint Resolve check_edge_ends check_active_root_ends check_exception_ends : ends.

Lemma check_layer_edges_ends layers v label what : ends (check_layer_edges layers v label what).
Proof. unfold check_layer_edges. ends_all. Qed.
Lemma check_inventory_ends active v label kind : ends (check_inventory active v label kind).
Proof. unfold check_inventory. ends_all. Qed.
Lemma check_layer_rules_ends paths v : ends (check_layer_rules paths v).
Proof.
  unfold check_layer_rules. ends_all.
Qed.
Lemma check_modules_ends package v : ends (check_modules package v).
Proof. unfold check_modules. ends_all. Qed.
#[local] Hint Resolve check_layer_edges_ends check_inventory_ends check_layer_rules_ends check_modules_ends : ends.
Lemma check_typescript_ends active paths v : ends (check_typescript active paths v).
Proof. unfold check_typescript, check_extensions. ends_all. Qed.
Lemma check_python_ends path v : ends (check_python path v).
Proof. unfold check_python, check_exceptions. ends_all. Qed.
#[local] Hint Resolve check_typescript_ends check_python_ends : ends.

Lemma validateRegistry_ends raw : ends (validateRegistry raw).
Proof. unfold validateRegistry, check_owner, check_ignored, check_active, check_reserved, check_root_edges. ends_all. Qed.
End Validation.

(** ** The host *)

(** Its operations return or throw. *)
Class EndingHost `{Host} : Prop := {
  lstat_ends p : ends (lstat p);
  stat_ends p : ends (stat p);
  realpath_ends p : ends (realpath p);
  readdir_ends p : ends (readdir p);
  readFile_ends p : ends (readFile p);
  readJson_ends p label : ends (readJson p label);
  scan_python_ends a b c : ends (scan_python a b c);
  collectSpecifiers_ends p : ends (collectSpecifiers p);
  aliasPatterns_ends p : ends (aliasPatterns p);
}.
#[export] Hint Resolve lstat_ends stat_ends realpath_ends readdir_ends readFile_ends readJson_ends scan_python_ends
  collectSpecifiers_ends aliasPatterns_ends : ends.
#[export] Hint Resolve template_ends field_ends relativePath_ends validateRegistry_ends : ends.

Section Repository.
Context `{NumPrinter} `{EndingHost} (root : jstr).

Lemma existing_ends {A} (m : script (option A)) : ends m -> ends (existing m).
Proof. intros Hm. unfold existing. ends_all. Qed.
#[local] Hint Resolve existing_ends : ends.

Lemma no_links_ends current parts label : ends (no_links root current parts label).
Proof. revert current. induction parts as [|p parts IH]; intros current; cbn [no_links]; cbv zeta; ends_all. Qed.
Lemma assertNoSymlinkComponents_ends target label : ends (assertNoSymlinkComponents root target label).
Proof. unfold assertNoSymlinkComponents. pose proof no_links_ends. ends_all. Qed.
#[local] Hint Resolve assertNoSymlinkComponents_ends : ends.
Lemma safeRepositoryPath_ends path label : ends (safeRepositoryPath root path label).
Proof. unfold safeRepositoryPath. ends_all. Qed.
#[local] Hint Resolve safeRepositoryPath_ends : ends.

Lemma concat_each_ends {A B} (f : A -> script (list B)) l : (forall x, x ∈ l -> ends (f x)) -> ends (concat_each f l).
Proof.
  induction l as [|x l IH]; intros Hf; cbn [concat_each]; [done|].
  apply ends_bind; [apply Hf, list_elem_of_here|intros a _]. apply ends_bind; [|done].
  apply IH. intros y Hy. by apply Hf, list_elem_of_further.
Qed.

(** *** The walk over a directory *)

(** [size d] directories lie below [d]. *)
Context (size : jstr -> nat).

Fixpoint entries_size (ignored : list jstr) (current : jstr) (entries : list (jstr * Entry)) : nat :=
  match entries with
  | [] => 0
  | (name, entry) :: entries =>
      (if negb (includes ignored name) && bool_decide (entry = Directory) then S (size (path_join current name)) else 0) +
      entries_size ignored current entries
  end.

Definition sized (ignored : list jstr) : Prop :=
  forall current entries, readdir current = Ok entries -> entries_size ignored current entries <= size current.

Fixpoint stack_size (stack : list jstr) : nat := match stack with [] => 0 | d :: stack => S (size d) + stack_size stack end.

Lemma walk_entries_size ignored current entries stack files stack' files' :
  walk_entries root ignored current entries stack files = Ok (stack', files') ->
  stack_size stack' = entries_size ignored current entries + stack_size stack.
Proof.
  revert stack files. induction entries as [|[name entry] entries IH]; intros stack files E; cbn [walk_entries entries_size] in E |- *.
  - by injection E as <- _.
  - destruct (includes ignored name); cbn [negb andb]; [by apply IH in E|].
    inv_script. destruct entry; try (apply IH in E; done). apply IH in E. rewrite E. cbn [stack_size].
    rewrite bool_decide_eq_true_2 by done. lia.
Qed.

Lemma walk_entries_ends ignored current entries stack files : ends (walk_entries root ignored current entries stack files).
Proof.
  revert stack files. induction entries as [|[name entry] entries IH]; intros stack files; cbn [walk_entries]; cbv zeta; ends_all.
Qed.

Lemma walk_ends ignored fuel stack files : sized ignored -> stack_size stack <= fuel -> ends (walk root fuel ignored stack files).
Proof.
  intros Hs. revert stack files. induction fuel as [|fuel IH]; intros [|d stack] files Hf; cbn [walk stack_size] in *; try done; [lia|].
  apply ends_bind; [apply readdir_ends|]. intros entries He. apply ends_bind; [apply walk_entries_ends|].
  intros [stack' files'] Hw. apply IH. rewrite (walk_entries_size _ _ _ _ _ _ _ Hw). specialize (Hs _ _ He). lia.
Qed.

Lemma walkFiles_ends fuel directory ignored : sized ignored -> size directory < fuel -> ends (walkFiles root fuel directory ignored).
Proof. intros Hs Hf. apply walk_ends; [done|]. cbn. lia. Qed.

Lemma entries_size_all ignored current entries : entries_size ignored current entries <= entries_size [] current entries.
Proof.
  induction entries as [|[name entry] entries IH]; cbn [entries_size]; [done|].
  destruct (includes ignored name); cbn [includes existsb negb andb]; lia.
Qed.

Lemma sized_all ignored : sized [] -> sized ignored.
Proof. intros Hs d entries He. specialize (Hs _ _ He). pose proof (entries_size_all ignored d entries). lia. Qed.

(** *** The checks *)

Lemma exportTargets_ends v label : ends (exportTargets v label).
Proof.
  induction v as [| | | | | |fs IH|] using jsval_induct; cbn [exportTargets]; try done.
  apply ends_bind; [|intros ts _; destruct ts; ends_all].
  induction IH as [|[k v] fs Hv Hfs IHfs]; [done|]. apply ends_bind; [exact Hv|intros ts _]. apply ends_bind; [exact IHfs|done].
Qed.
#[local] Hint Resolve safeRepositoryPath_ends existing_ends assertNoSymlinkComponents_ends exportTargets_ends : ends.

Lemma manifestDependencies_ends manifest : ends (manifestDependencies manifest).
Proof.
  unfold manifestDependencies. generalize DEPENDENCY_FIELDS as l. induction l as [|f l IH]; cbn [dependency_names]; ends_all.
Qed.
#[local] Hint Resolve manifestDependencies_ends : ends.

Lemma verify_export_ends active absolute manifest subpath : ends (verify_export root active absolute manifest subpath).
Proof. unfold verify_export. cbv zeta. ends_all. Qed.
Lemma verify_dependency_ends registry active name : ends (verify_dependency registry active name).
Proof. unfold verify_dependency. cbv zeta. ends_all. Qed.
Lemma packageExports_ends manifest : ends (packageExports manifest).
Proof. unfold packageExports. ends_all. Qed.
#[local] Hint Resolve verify_export_ends verify_dependency_ends packageExports_ends : ends.

Lemma verify_active_roots_ends registry l : ends (verify_active_roots root registry l).
Proof. induction l as [|r l IH]; cbn [verify_active_roots]; unfold verify_manifest; cbv zeta; ends_all. Qed.

Lemma inventory_ends : ends (inventoryProjectManifests root).
Proof.
  unfold inventoryProjectManifests. apply concat_each_ends. intros base _. apply ends_bind; [eauto with ends|intros entries _].
  apply concat_each_ends. intros [name entry] _. apply ends_bind; [eauto with ends|intros _ _].
  destruct (bool_decide _); [|done]. apply concat_each_ends. intros m _. unfold found_manifest. cbv zeta. ends_all.
Qed.
#[local] Hint Resolve verify_active_roots_ends inventory_ends : ends.

Lemma verifyRoots_ends registry : ends (verifyRoots root registry).
Proof.
  unfold verifyRoots, verifyCodeowners, invokePythonScanner, verify_reserved, is_file, verify_inventory_item, verify_workspaces, spread.
  cbv zeta. ends_all.
Qed.

Lemma nearest_module_ends mods t : ends (nearest_module (S (length t)) mods t).
Proof. destruct (nearest_module_ok mods (S (length t)) t) as (m & -> & _); [lia|done]. Qed.
#[local] Hint Resolve nearest_module_ends : ends.

Lemma verifyPython_ends rules report : ends (verifyPython rules report).
Proof.
  unfold verifyPython. cbv zeta.
  assert (forall l, ends (check_python_edges rules l)) as Hl.
  { intros l. induction l as [|e l IH]; cbn [check_python_edges]; unfold check_python_edge; cbv zeta; ends_all. }
  ends_all.
Qed.

Context (Hsized : sized []) (fuel : nat) (Hfuel : forall path, size (resolve root path) < fuel).

Lemma safeRepositoryPath_ok path label t : safeRepositoryPath root path label = Ok t -> t = resolve root path.
Proof. unfold safeRepositoryPath. intros E. by inv_script. Qed.

Lemma walk_safe path label ignored (f : jstr -> list jstr -> script ()) : (forall a l, ends (f a l)) ->
  ends (a ← safeRepositoryPath root path label; l ← walkFiles root fuel a ignored; f a l).
Proof.
  intros Hf. apply ends_bind; [eauto with ends|]. intros a ->%safeRepositoryPath_ok.
  apply ends_bind; [apply walkFiles_ends; [by apply sized_all|done]|]. intros l _. apply Hf.
Qed.

Lemma root_files_ends registry active : ends (root_files root registry fuel active).
Proof.
  unfold root_files. apply ends_bind; [eauto with ends|]. intros a ->%safeRepositoryPath_ok.
  apply ends_bind; [apply walkFiles_ends; [by apply sized_all|done]|]. intros l _. apply concat_each_ends. intros name _.
  unfold source_file. cbv zeta. ends_all.
Qed.

Lemma first_file_ends l : ends (first_file l).
Proof. induction l as [|c l IH]; cbn [first_file]; ends_all. Qed.
Lemma inspectPathTarget_ends registry sources source target imported :
  ends (inspectPathTarget root registry sources source target imported).
Proof. unfold inspectPathTarget. cbv zeta. ends_all. Qed.
#[local] Hint Resolve first_file_ends inspectPathTarget_ends : ends.

Lemma mapM_ends {A B} (f : A -> script B) l : (forall x, ends (f x)) -> ends (mapM f l).
Proof. intros Hf. induction l as [|x l IH]; [done|]. apply ends_bind; [done|intros y _]. by apply ends_bind. Qed.

Lemma try_ends {A} (m : script A) message : ends (try_catch m (fun _ => script_fail message)).
Proof. by destruct m. Qed.

Lemma inspectPackage_ends registry sources declared source imported package :
  ends (inspectPackage root registry sources declared source imported package).
Proof.
  unfold inspectPackage, declared_targets. cbv zeta.
  assert (forall target l, ends (mapM (fun entry => realpath (resolve (resolve root target) (drop 2 entry))) l)) as Hm.
  { intros target l. apply mapM_ends. eauto with ends. }
  pose proof @try_ends. ends_all.
Qed.
#[local] Hint Resolve inspectPackage_ends : ends.

Lemma check_source_ends registry sources source : ends (check_source root registry sources source).
Proof. unfold check_source, check_import, inspectAlias, resolveRelativeImport. cbv zeta. ends_all. Qed.

Lemma verifyTypeScript_ends registry manifests : ends (verifyTypeScript root registry fuel manifests).
Proof.
  unfold verifyTypeScript. cbv zeta.
  apply ends_bind; [apply concat_each_ends; intros active _; apply root_files_ends|intros info _].
  apply ends_bind; [apply ends_each; intros source _; apply check_source_ends|intros _ _].
  apply ends_bind; [|intros _ _]; apply walk_safe; intros a l; cbv zeta; ends_all.
Qed.

(** C28: the check of a repository with fewer directories than the fuel returns or
    fails: the walk over the directories, the search of the root graph and the
    search for the nearest module all end. *)
Theorem boundary_check_ends path : runModuleBoundaryCheck fuel root path <> Throw Unfinished.
Proof.
  change (ends (runModuleBoundaryCheck fuel root path)). unfold runModuleBoundaryCheck, loadRegistry.
  pose proof verifyRoots_ends. pose proof verifyTypeScript_ends. pose proof verifyPython_ends. ends_all.
Qed.
End Repository.
