(* ===== verification/RepositoryFiles.v ===== *)
(** The repository as the module boundary check finds it: the registry of
    [docs/architecture/module-boundaries.json], the manifests, the directories
    of the active roots of npm, the specifiers of every source file in them and
    the imports of the Python modules; data only, value for value. *)
From S2P Require Export ModuleBoundaries.

Definition module_boundaries : jsval := VObj [
    (js "schemaVersion", VNum (NInt 1));
    (js "ownerAuthority", VObj [(js "path", VStr ".github/CODEOWNERS"); (js "owner", VStr "@Maurice-aXeTech")]);
    (js "ignoredDirectoryNames", VArr [
      VStr ".git";
      VStr ".mypy_cache";
      VStr ".pytest_cache";
      VStr ".ruff_cache";
      VStr ".venv";
      VStr "__pycache__";
      VStr "coverage";
      VStr "dist";
      VStr "node_modules"]);
    (js "activeRoots", VArr [
      VObj [
        (js "path", VStr "apps/api");
        (js "ecosystem", VStr "python");
        (js "packageName", VStr "trax-os-api");
        (js "owner", VStr "@Maurice-aXeTech");
        (js "kind", VStr "application");
        (js "publicExports", VArr [])];
      VObj [
        (js "path", VStr "apps/web");
        (js "ecosystem", VStr "npm");
        (js "packageName", VStr "@trax-os/web");
        (js "owner", VStr "@Maurice-aXeTech");
        (js "kind", VStr "application");
        (js "publicExports", VArr [])];
      VObj [
        (js "path", VStr "packages/api-contract");
        (js "ecosystem", VStr "npm");
        (js "packageName", VStr "@trax-os/api-contract");
        (js "owner", VStr "@Maurice-aXeTech");
        (js "kind", VStr "generated-projection");
        (js "publicExports", VArr [VStr "."; VStr "./openapi.json"; VStr "./runtime-fixtures.json"])];
      VObj [
        (js "path", VStr "packages/api-client");
        (js "ecosystem", VStr "npm");
        (js "packageName", VStr "@trax-os/api-client");
        (js "owner", VStr "@Maurice-aXeTech");
        (js "kind", VStr "runtime-client");
        (js "publicExports", VArr [VStr "."])]]);
    (js "reservedRoots", VArr [
      VObj [
        (js "path", VStr "apps/mobile");
        (js "status", VStr "inactive");
        (js "required", VBool false);
        (js "activationGate", VStr "Issue #3 approval plus package manifest, owner, boundary edges and runtime evidence")];
      VObj [
        (js "path", VStr "apps/desktop");
        (js "status", VStr "inactive");
        (js "required", VBool false);
        (js "activationGate", VStr "Issue #3 approval plus package manifest, owner, boundary edges and runtime evidence")];
      VObj [
        (js "path", VStr "apps/worker");
        (js "status", VStr "inactive");
        (js "required", VBool false);
        (js "activationGate", VStr "Reviewed worker delivery issue plus package manifest, owner and boundary edges")];
      VObj [
        (js "path", VStr "apps/mcp-server");
        (js "status", VStr "inactive");
        (js "required", VBool false);
        (js "activationGate", VStr "Reviewed MCP delivery issue plus package manifest, owner and boundary edges")];
      VObj [
        (js "path", VStr "apps/atlas");
        (js "status", VStr "inactive");
        (js "required", VBool false);
        (js "activationGate", VStr "Reviewed Atlas delivery issue plus package manifest, owner and boundary edges")];
      VObj [
        (js "path", VStr "packages/domain");
        (js "status", VStr "inactive");
        (js "required", VBool false);
        (js "activationGate", VStr "Reviewed language-neutral vocabulary scope plus package manifest, owner and boundary edges")];
      VObj [
        (js "path", VStr "packages/commands");
        (js "status", VStr "inactive");
        (js "required", VBool false);
        (js "activationGate", VStr "Issue #14 approval plus package manifest, exports, owner and boundary edges")];
      VObj [
        (js "path", VStr "packages/queries");
        (js "status", VStr "inactive");
        (js "required", VBool false);
        (js "activationGate", VStr "Reviewed query-registry issue plus package manifest, exports, owner and boundary edges")];
      VObj [
        (js "path", VStr "packages/access-control");
        (js "status", VStr "inactive");
        (js "required", VBool false);
        (js "activationGate", VStr "Reviewed access-policy issue plus package manifest, exports, owner and boundary edges")];
      VObj [
        (js "path", VStr "packages/change-engine");
        (js "status", VStr "inactive");
        (js "required", VBool false);
        (js "activationGate", VStr "Reviewed change-engine issue plus package manifest, exports, owner and boundary edges")];
      VObj [
        (js "path", VStr "packages/sync-engine");
        (js "status", VStr "inactive");
        (js "required", VBool false);
        (js "activationGate", VStr "Approved Issue #8 architecture plus package manifest, exports, owner and boundary edges")];
      VObj [
        (js "path", VStr "packages/sync-powersync");
        (js "status", VStr "inactive");
        (js "required", VBool false);
        (js "activationGate", VStr "Issues #8 and #45 approval plus package manifest, exports, owner and boundary edges")];
      VObj [
        (js "path", VStr "packages/credential-store");
        (js "status", VStr "inactive");
        (js "required", VBool false);
        (js "activationGate", VStr "Reviewed credential-storage issue plus package manifest, exports, owner and boundary edges")];
      VObj [
        (js "path", VStr "packages/offline-store");
        (js "status", VStr "inactive");
        (js "required", VBool false);
        (js "activationGate", VStr "Issues #2 and #9 approval plus package manifest, exports, owner and boundary edges")];
      VObj [
        (js "path", VStr "packages/ui");
        (js "status", VStr "inactive");
        (js "required", VBool false);
        (js "activationGate", VStr "Reviewed shared-UI issue plus package manifest, exports, owner and boundary edges")]]);
    (js "rootEdges", VArr [
      VObj [(js "from", VStr "apps/web"); (js "to", VStr "packages/api-client")];
      VObj [(js "from", VStr "packages/api-client"); (js "to", VStr "packages/api-contract")]]);
    (js "typescript", VObj [
      (js "sourceExtensions", VArr [
        VStr ".ts";
        VStr ".tsx";
        VStr ".mts";
        VStr ".cts";
        VStr ".js";
        VStr ".jsx";
        VStr ".mjs";
        VStr ".cjs"]);
      (js "layerRules", VArr [
        VObj [(js "root", VStr "apps/web"); (js "prefix", VStr "src/features"); (js "layer", VStr "feature")];
        VObj [
          (js "root", VStr "apps/web");
          (js "prefix", VStr "src/repositories");
          (js "layer", VStr "repository")];
        VObj [(js "root", VStr "apps/web"); (js "prefix", VStr "src/adapters"); (js "layer", VStr "adapter")];
        VObj [(js "root", VStr "apps/web"); (js "prefix", VStr "src"); (js "layer", VStr "application")];
        VObj [(js "root", VStr "apps/web"); (js "prefix", VStr "scripts"); (js "layer", VStr "tooling")];
        VObj [
          (js "root", VStr "apps/web");
          (js "prefix", VStr "eslint.config.js");
          (js "layer", VStr "tooling")];
        VObj [
          (js "root", VStr "apps/web");
          (js "prefix", VStr "vite.config.ts");
          (js "layer", VStr "tooling")];
        VObj [
          (js "root", VStr "packages/api-contract");
          (js "prefix", VStr "generated");
          (js "layer", VStr "generated")];
        VObj [
          (js "root", VStr "packages/api-client");
          (js "prefix", VStr "generated");
          (js "layer", VStr "generated")];
        VObj [
          (js "root", VStr "packages/api-client");
          (js "prefix", VStr "src");
          (js "layer", VStr "client-runtime")]]);
      (js "forbiddenLayerEdges", VArr [
        VObj [(js "from", VStr "feature"); (js "to", VStr "adapter")];
        VObj [(js "from", VStr "repository"); (js "to", VStr "adapter")];
        VObj [(js "from", VStr "generated"); (js "to", VStr "application")];
        VObj [(js "from", VStr "generated"); (js "to", VStr "feature")];
        VObj [(js "from", VStr "generated"); (js "to", VStr "repository")];
        VObj [(js "from", VStr "generated"); (js "to", VStr "adapter")];
        VObj [(js "from", VStr "generated"); (js "to", VStr "client-runtime")];
        VObj [(js "from", VStr "client-runtime"); (js "to", VStr "application")];
        VObj [(js "from", VStr "client-runtime"); (js "to", VStr "feature")];
        VObj [(js "from", VStr "client-runtime"); (js "to", VStr "repository")];
        VObj [(js "from", VStr "client-runtime"); (js "to", VStr "adapter")]]);
      (js "generatedInventory", VObj [
        (js "root", VStr "packages/api-contract");
        (js "files", VArr [
          VStr "README.md";
          VStr "generated/openapi.json";
          VStr "generated/runtime-fixtures.json";
          VStr "generated/schema.ts";
          VStr "package.json"])]);
      (js "runtimeClientInventory", VObj [
        (js "root", VStr "packages/api-client");
        (js "files", VArr [
          VStr "README.md";
          VStr "generated/client.ts";
          VStr "package.json";
          VStr "src/client.test.ts";
          VStr "src/client.ts";
          VStr "src/index.ts";
          VStr "src/negotiation.test.ts";
          VStr "src/negotiation.ts";
          VStr "src/validator.test.ts";
          VStr "src/validator.ts";
          VStr "tsconfig.json"])])]);
    (js "python", VObj [
      (js "moduleRoot", VStr "apps/api/src");
      (js "package", VStr "trax_api");
      (js "modules", VArr [
        VObj [(js "module", VStr "trax_api"); (js "layer", VStr "foundation")];
        VObj [(js "module", VStr "trax_api.settings"); (js "layer", VStr "foundation")];
        VObj [(js "module", VStr "trax_api.models"); (js "layer", VStr "wire")];
        VObj [(js "module", VStr "trax_api.server_models"); (js "layer", VStr "wire")];
        VObj [(js "module", VStr "trax_api.schema"); (js "layer", VStr "persistence")];
        VObj [(js "module", VStr "trax_api.database"); (js "layer", VStr "persistence")];
        VObj [(js "module", VStr "trax_api.application_errors"); (js "layer", VStr "application")];
        VObj [(js "module", VStr "trax_api.command_registry"); (js "layer", VStr "application")];
        VObj [(js "module", VStr "trax_api.command_executor"); (js "layer", VStr "application")];
        VObj [(js "module", VStr "trax_api.auth"); (js "layer", VStr "application")];
        VObj [(js "module", VStr "trax_api.journey_repository"); (js "layer", VStr "application")];
        VObj [(js "module", VStr "trax_api.request_id"); (js "layer", VStr "transport")];
        VObj [(js "module", VStr "trax_api.routes"); (js "layer", VStr "transport")];
        VObj [(js "module", VStr "trax_api.errors"); (js "layer", VStr "transport")];
        VObj [(js "module", VStr "trax_api.server_errors"); (js "layer", VStr "transport")];
        VObj [(js "module", VStr "trax_api.server_routes"); (js "layer", VStr "transport")];
        VObj [(js "module", VStr "trax_api.main"); (js "layer", VStr "composition")]]);
      (js "allowedLayerEdges", VArr [
        VObj [(js "from", VStr "wire"); (js "to", VStr "wire")];
        VObj [(js "from", VStr "persistence"); (js "to", VStr "foundation")];
        VObj [(js "from", VStr "application"); (js "to", VStr "application")];
        VObj [(js "from", VStr "application"); (js "to", VStr "persistence")];
        VObj [(js "from", VStr "application"); (js "to", VStr "wire")];
        VObj [(js "from", VStr "application"); (js "to", VStr "foundation")];
        VObj [(js "from", VStr "transport"); (js "to", VStr "transport")];
        VObj [(js "from", VStr "transport"); (js "to", VStr "application")];
        VObj [(js "from", VStr "transport"); (js "to", VStr "persistence")];
        VObj [(js "from", VStr "transport"); (js "to", VStr "wire")];
        VObj [(js "from", VStr "transport"); (js "to", VStr "foundation")];
        VObj [(js "from", VStr "composition"); (js "to", VStr "composition")];
        VObj [(js "from", VStr "composition"); (js "to", VStr "transport")];
        VObj [(js "from", VStr "composition"); (js "to", VStr "application")];
        VObj [(js "from", VStr "composition"); (js "to", VStr "persistence")];
        VObj [(js "from", VStr "composition"); (js "to", VStr "wire")];
        VObj [(js "from", VStr "composition"); (js "to", VStr "foundation")]]);
      (js "exceptions", VArr [])])].

Definition root_package : jsval := VObj [
    (js "name", VStr "trax-os");
    (js "version", VStr "0.1.0");
    (js "private", VBool true);
    (js "description", VStr "Trax OS public foundation");
    (js "license", VStr "Apache-2.0");
    (js "workspaces", VArr [VStr "apps/web"; VStr "packages/api-client"; VStr "packages/api-contract"]);
    (js "scripts", VObj [
      (js "predev", VStr "npm ci && uv sync --project apps/api --locked");
      (js "dev", VStr (js "concurrently -k -n api,web -c blue,green " ++ 34%N :: js "uv run --project apps/api uvicorn trax_api.main:app --reload --port 18000" ++ 34%N :: js " " ++ 34%N :: js "npm run dev --workspace @trax-os/web" ++ 34%N :: js ""));
      (js "generate", VStr "node scripts/contracts.mjs generate");
      (js "contract:check", VStr "node scripts/contracts.mjs check && node --test scripts/contracts.test.mjs scripts/generate-api-client.test.mjs scripts/contract-compatibility.test.mjs scripts/support-compatibility.test.mjs");
      (js "contract:compat", VStr "node scripts/contract-compatibility.mjs");
      (js "support:compat", VStr "node scripts/support-compatibility.mjs");
      (js "architecture:check", VStr "node scripts/architecture-decisions.mjs");
      (js "boundaries:check", VStr "node --test scripts/module-boundaries.test.mjs && node scripts/module-boundaries.mjs");
      (js "security:check", VStr "node --test scripts/check-threat-model.test.mjs && node scripts/check-threat-model.mjs docs/security/phase-0-threat-model.json");
      (js "security:closure", VStr "node scripts/check-threat-model.mjs docs/security/phase-0-threat-model.json --closure")]);
    (js "devDependencies", VObj [
      (js "api-smart-diff", VStr "1.0.6");
      (js "concurrently", VStr "9.1.2");
      (js "openapi-typescript", VStr "7.8.0");
      (js "typescript", VStr "5.8.3")]);
    (js "engines", VObj [(js "node", VStr ">=22 <23"); (js "npm", VStr ">=10 <11")])].

Definition web_package : jsval := VObj [
    (js "name", VStr "@trax-os/web");
    (js "version", VStr "0.1.0");
    (js "private", VBool true);
    (js "type", VStr "module");
    (js "scripts", VObj [
      (js "dev", VStr "vite");
      (js "build", VStr "tsc -b && vite build");
      (js "format", VStr "prettier --write .");
      (js "format:check", VStr "prettier --check .");
      (js "lint", VStr "eslint . --max-warnings 0");
      (js "typecheck", VStr "tsc -b --pretty false");
      (js "test", VStr "vitest run");
      (js "test:pwa", VStr "node scripts/check-pwa-offline.mjs");
      (js "check", VStr "npm run format:check && npm run lint && npm run typecheck && npm run build")]);
    (js "dependencies", VObj [
      (js "@trax-os/api-client", VStr "0.1.0");
      (js "react", VStr "19.1.0");
      (js "react-dom", VStr "19.1.0")]);
    (js "devDependencies", VObj [
      (js "@eslint/js", VStr "9.28.0");
      (js "@testing-library/jest-dom", VStr "6.6.3");
      (js "@testing-library/react", VStr "16.3.0");
      (js "@testing-library/user-event", VStr "14.5.2");
      (js "@types/node", VStr "22.15.30");
      (js "@types/react", VStr "19.1.8");
      (js "@types/react-dom", VStr "19.1.6");
      (js "@vitejs/plugin-react", VStr "4.5.1");
      (js "eslint", VStr "9.28.0");
      (js "eslint-plugin-react-hooks", VStr "5.2.0");
      (js "eslint-plugin-react-refresh", VStr "0.4.20");
      (js "globals", VStr "16.2.0");
      (js "jsdom", VStr "26.1.0");
      (js "prettier", VStr "3.5.3");
      (js "typescript", VStr "5.8.3");
      (js "typescript-eslint", VStr "8.34.0");
      (js "vite", VStr "6.4.3");
      (js "vite-plugin-pwa", VStr "1.0.1");
      (js "vitest", VStr "3.2.7")])].

Definition contract_package : jsval := VObj [
    (js "name", VStr "@trax-os/api-contract");
    (js "version", VStr "0.1.0");
    (js "private", VBool true);
    (js "description", VStr "Generated Trax OS OpenAPI and static TypeScript contract projections");
    (js "type", VStr "module");
    (js "types", VStr "generated/schema.ts");
    (js "exports", VObj [
      (js ".", VObj [(js "types", VStr "./generated/schema.ts")]);
      (js "./openapi.json", VStr "./generated/openapi.json");
      (js "./runtime-fixtures.json", VStr "./generated/runtime-fixtures.json")]);
    (js "files", VArr [VStr "generated"]);
    (js "license", VStr "Apache-2.0")].

Definition client_package : jsval := VObj [
    (js "name", VStr "@trax-os/api-client");
    (js "version", VStr "0.1.0");
    (js "private", VBool true);
    (js "description", VStr "Validated same-origin browser client for the Trax OS HTTP API");
    (js "type", VStr "module");
    (js "exports", VObj [(js ".", VObj [(js "types", VStr "./src/index.ts"); (js "default", VStr "./src/index.ts")])]);
    (js "files", VArr [VStr "generated"; VStr "src"]);
    (js "scripts", VObj [
      (js "format:check", VStr "prettier --check .");
      (js "typecheck", VStr "tsc --noEmit --pretty false");
      (js "test", VStr "vitest run");
      (js "check", VStr "npm run format:check && npm run typecheck")]);
    (js "dependencies", VObj [(js "@trax-os/api-contract", VStr "0.1.0")]);
    (js "devDependencies", VObj [(js "prettier", VStr "3.5.3"); (js "typescript", VStr "5.8.3"); (js "vitest", VStr "3.2.7")]);
    (js "license", VStr "Apache-2.0")].

Definition repository_directories : list (jstr * list (jstr * Entry)) :=
  [(js "/repo", [(js ".dockerignore", File); (js ".env.example", File); (js ".github", Directory); (js ".gitignore", File); (js "BRANDING.md", File); (js "CONTRIBUTING.md", File); (js "LICENSE", File); (js "Makefile", File); (js "NOTICE", File); (js "README.md", File); (js "SECURITY.md", File); (js "TRADEMARKS.md", File); (js "apps", Directory); (js "compose.yaml", File); (js "docs", Directory); (js "package-lock.json", File); (js "package.json", File); (js "packages", Directory); (js "scripts", Directory); (js "spikes", Directory)]);
   (js "/repo/.github", [(js "CODEOWNERS", File); (js "ISSUE_TEMPLATE", Directory); (js "pull_request_template.md", File); (js "workflows", Directory)]);
   (js "/repo/apps", [(js "api", Directory); (js "web", Directory)]);
   (js "/repo/apps/api", [(js "Dockerfile", File); (js "alembic.ini", File); (js "migrations", Directory); (js "postgres", Directory); (js "pyproject.toml", File); (js "scripts", Directory); (js "src", Directory); (js "tests", Directory); (js "uv.lock", File)]);
   (js "/repo/apps/api/src", [(js "trax_api", Directory)]);
   (js "/repo/apps/web", [(js ".prettierignore", File); (js "Dockerfile", File); (js "eslint.config.js", File); (js "index.html", File); (js "nginx.conf", File); (js "package.json", File); (js "public", Directory); (js "scripts", Directory); (js "src", Directory); (js "tsconfig.app.json", File); (js "tsconfig.json", File); (js "tsconfig.node.json", File); (js "vite.config.ts", File)]);
   (js "/repo/apps/web/public", [(js "icons", Directory)]);
   (js "/repo/apps/web/public/icons", [(js "trax.svg", File)]);
   (js "/repo/apps/web/scripts", [(js "check-pwa-offline.mjs", File)]);
   (js "/repo/apps/web/src", [(js "adapters", Directory); (js "app.test.tsx", File); (js "app.tsx", File); (js "auth", Directory); (js "components", Directory); (js "features", Directory); (js "hooks", Directory); (js "i18n", Directory); (js "main.tsx", File); (js "pages", Directory); (js "repositories", Directory); (js "routes.test.ts", File); (js "routes.ts", File); (js "styles.css", File); (js "test", Directory); (js "use-pathname.ts", File); (js "vite-env.d.ts", File)]);
   (js "/repo/apps/web/src/adapters", [(js "http-auth-repository.test.ts", File); (js "http-auth-repository.ts", File); (js "http-instance-repository.test.ts", File); (js "http-instance-repository.ts", File); (js "http-journey-repository.test.ts", File); (js "http-journey-repository.ts", File); (js "http-repositories.test.ts", File); (js "http-repositories.ts", File); (js "in-memory-auth-repository.ts", File); (js "in-memory-journey-repository.ts", File)]);
   (js "/repo/apps/web/src/auth", [(js "auth.tsx", File)]);
   (js "/repo/apps/web/src/components", [(js "app-link.tsx", File); (js "app-shell.tsx", File); (js "instance-status.tsx", File)]);
   (js "/repo/apps/web/src/features", [(js "journeys", Directory)]);
   (js "/repo/apps/web/src/features/journeys", [(js "domain.ts", File); (js "journey-data.tsx", File); (js "journey-pages.tsx", File); (js "journey-service.test.ts", File); (js "journey-service.ts", File); (js "packing-page.tsx", File); (js "timeline-page.tsx", File)]);
   (js "/repo/apps/web/src/hooks", [(js "use-instance.ts", File); (js "use-online-status.ts", File)]);
   (js "/repo/apps/web/src/i18n", [(js "catalog.test.ts", File); (js "catalog.ts", File); (js "i18n.tsx", File)]);
   (js "/repo/apps/web/src/pages", [(js "static-pages.tsx", File)]);
   (js "/repo/apps/web/src/repositories", [(js "auth-repository.ts", File); (js "instance-repository.ts", File); (js "journey-repository.ts", File)]);
   (js "/repo/apps/web/src/test", [(js "setup.ts", File)]);
   (js "/repo/docs", [(js "README.md", File); (js "architecture", Directory); (js "design", Directory); (js "development", Directory); (js "integrations", Directory); (js "product", Directory); (js "security", Directory)]);
   (js "/repo/docs/architecture", [(js "AGENCY_ACCESS_MODEL.md", File); (js "AGENTIC_CORE.md", File); (js "AGENT_RESEARCH_V1.md", File); (js "ATLAS_PROVIDER_MODEL.md", File); (js "DOMAIN_MODEL.md", File); (js "GLOSSARY.md", File); (js "IMPLEMENTATION_ARCHITECTURE.md", File); (js "MODULE_AND_PACKAGE_BOUNDARIES.md", File); (js "README.md", File); (js "RETENTION_AND_DELETION.md", File); (js "decisions", Directory); (js "module-boundaries.json", File)]);
   (js "/repo/packages", [(js "api-client", Directory); (js "api-contract", Directory)]);
   (js "/repo/packages/api-client", [(js "README.md", File); (js "generated", Directory); (js "package.json", File); (js "src", Directory); (js "tsconfig.json", File)]);
   (js "/repo/packages/api-client/generated", [(js "client.ts", File)]);
   (js "/repo/packages/api-client/src", [(js "client.test.ts", File); (js "client.ts", File); (js "index.ts", File); (js "negotiation.test.ts", File); (js "negotiation.ts", File); (js "validator.test.ts", File); (js "validator.ts", File)]);
   (js "/repo/packages/api-contract", [(js "README.md", File); (js "generated", Directory); (js "package.json", File)]);
   (js "/repo/packages/api-contract/generated", [(js "openapi.json", File); (js "runtime-fixtures.json", File); (js "schema.ts", File)])].

Definition repository_imports : list (jstr * list (string * Z)) :=
  [(js "/repo/apps/web/eslint.config.js", [("@eslint/js", 1); ("globals", 2); ("eslint-plugin-react-hooks", 3); ("eslint-plugin-react-refresh", 4); ("typescript-eslint", 5)]);
   (js "/repo/apps/web/scripts/check-pwa-offline.mjs", [("node:child_process", 1); ("node:fs/promises", 2); ("node:os", 3); ("node:path", 4)]);
   (js "/repo/apps/web/src/adapters/http-auth-repository.test.ts", [("@trax-os/api-client", 1); ("vitest", 2); ("./http-auth-repository", 4)]);
   (js "/repo/apps/web/src/adapters/http-auth-repository.ts", [("@trax-os/api-client", 1); ("../repositories/auth-repository", 3)]);
   (js "/repo/apps/web/src/adapters/http-instance-repository.test.ts", [("@trax-os/api-client", 1); ("vitest", 2); ("./http-instance-repository", 4)]);
   (js "/repo/apps/web/src/adapters/http-instance-repository.ts", [("@trax-os/api-client", 1); ("../repositories/instance-repository", 3)]);
   (js "/repo/apps/web/src/adapters/http-journey-repository.test.ts", [("@trax-os/api-client", 1); ("vitest", 2); ("../features/journeys/domain", 4); ("../features/journeys/journey-service", 5); ("./http-journey-repository", 6)]);
   (js "/repo/apps/web/src/adapters/http-journey-repository.ts", [("@trax-os/api-client", 1); ("../features/journeys/domain", 3); ("../i18n/catalog", 10); ("../repositories/journey-repository", 11)]);
   (js "/repo/apps/web/src/adapters/http-repositories.test.ts", [("@trax-os/api-client", 1); ("vitest", 2); ("./http-repositories", 4)]);
   (js "/repo/apps/web/src/adapters/http-repositories.ts", [("@trax-os/api-client", 1); ("./http-auth-repository", 3); ("./http-instance-repository", 4); ("./http-journey-repository", 5)]);
   (js "/repo/apps/web/src/adapters/in-memory-auth-repository.ts", [("../repositories/auth-repository", 1)]);
   (js "/repo/apps/web/src/adapters/in-memory-journey-repository.ts", [("../features/journeys/domain", 1); ("../i18n/catalog", 5); ("../repositories/journey-repository", 6)]);
   (js "/repo/apps/web/src/app.test.tsx", [("@testing-library/react", 1); ("@testing-library/user-event", 2); ("vitest", 3); ("./adapters/in-memory-auth-repository", 5); ("./adapters/in-memory-journey-repository", 6); ("./app", 7); ("./features/journeys/domain", 8); ("./repositories/instance-repository", 9)]);
   (js "/repo/apps/web/src/app.tsx", [("./auth/auth", 1); ("./components/app-shell", 2); ("./features/journeys/journey-data", 3); ("./features/journeys/journey-pages", 7); ("./features/journeys/packing-page", 12); ("./features/journeys/timeline-page", 13); ("./i18n/i18n", 14); ("./pages/static-pages", 15); ("./repositories/auth-repository", 20); ("./repositories/instance-repository", 21); ("./repositories/journey-repository", 22); ("./routes", 23); ("./use-pathname", 24)]);
   (js "/repo/apps/web/src/auth/auth.tsx", [("react", 1); ("../i18n/i18n", 11); ("../repositories/auth-repository", 12)]);
   (js "/repo/apps/web/src/components/app-link.tsx", [("react", 1)]);
   (js "/repo/apps/web/src/components/app-shell.tsx", [("react", 1); ("../features/journeys/domain", 3); ("../repositories/auth-repository", 4); ("../hooks/use-online-status", 5); ("../i18n/i18n", 6); ("../routes", 7); ("../routes", 8); ("./app-link", 9)]);
   (js "/repo/apps/web/src/components/instance-status.tsx", [("../hooks/use-instance", 1); ("../i18n/i18n", 2); ("../repositories/instance-repository", 3)]);
   (js "/repo/apps/web/src/features/journeys/domain.ts", []);
   (js "/repo/apps/web/src/features/journeys/journey-data.tsx", [("react", 1); ("../../repositories/journey-repository", 11); ("./domain", 15)]);
   (js "/repo/apps/web/src/features/journeys/journey-pages.tsx", [("react", 1); ("../../components/app-link", 3); ("../../i18n/i18n", 4); ("../../i18n/catalog", 5); ("../../routes", 6); ("./domain", 7); ("./journey-data", 14); ("./journey-service", 15)]);
   (js "/repo/apps/web/src/features/journeys/journey-service.test.ts", [("vitest", 1); ("./domain", 3); ("./journey-service", 8)]);
   (js "/repo/apps/web/src/features/journeys/journey-service.ts", [("./domain", 1)]);
   (js "/repo/apps/web/src/features/journeys/packing-page.tsx", [("react", 1); ("../../components/app-link", 3); ("../../i18n/i18n", 4); ("../../i18n/catalog", 5); ("../../routes", 6); ("./domain", 7); ("./journey-data", 15); ("./journey-service", 16)]);
   (js "/repo/apps/web/src/features/journeys/timeline-page.tsx", [("react", 1); ("../../components/app-link", 3); ("../../i18n/i18n", 4); ("../../i18n/catalog", 5); ("../../routes", 6); ("./domain", 7); ("./domain", 13); ("./journey-data", 14); ("./journey-service", 15)]);
   (js "/repo/apps/web/src/hooks/use-instance.ts", [("react", 1); ("../repositories/instance-repository", 3)]);
   (js "/repo/apps/web/src/hooks/use-online-status.ts", [("react", 1)]);
   (js "/repo/apps/web/src/i18n/catalog.test.ts", [("vitest", 1); ("./catalog", 3)]);
   (js "/repo/apps/web/src/i18n/catalog.ts", []);
   (js "/repo/apps/web/src/i18n/i18n.tsx", [("react", 1); ("../repositories/journey-repository", 10); ("./catalog", 11)]);
   (js "/repo/apps/web/src/main.tsx", [("react", 1); ("react-dom/client", 2); ("virtual:pwa-register", 3); ("./adapters/http-repositories", 5); ("./app", 6); ("./styles.css", 7)]);
   (js "/repo/apps/web/src/pages/static-pages.tsx", [("../components/app-link", 1); ("../components/instance-status", 2); ("../i18n/i18n", 3); ("../repositories/instance-repository", 4); ("../routes", 5)]);
   (js "/repo/apps/web/src/repositories/auth-repository.ts", []);
   (js "/repo/apps/web/src/repositories/instance-repository.ts", []);
   (js "/repo/apps/web/src/repositories/journey-repository.ts", [("../features/journeys/domain", 1); ("../i18n/catalog", 2)]);
   (js "/repo/apps/web/src/routes.test.ts", [("vitest", 1); ("./routes", 3)]);
   (js "/repo/apps/web/src/routes.ts", []);
   (js "/repo/apps/web/src/test/setup.ts", [("@testing-library/jest-dom/vitest", 1)]);
   (js "/repo/apps/web/src/use-pathname.ts", [("react", 1)]);
   (js "/repo/apps/web/src/vite-env.d.ts", []);
   (js "/repo/apps/web/vite.config.ts", [("@vitejs/plugin-react", 1); ("vite-plugin-pwa", 2); ("vitest/config", 3)]);
   (js "/repo/packages/api-client/generated/client.ts", [("@trax-os/api-contract", 2)]);
   (js "/repo/packages/api-client/src/client.test.ts", [("vitest", 1); ("./client", 3)]);
   (js "/repo/packages/api-client/src/client.ts", [("@trax-os/api-contract", 1); ("../generated/client", 3); ("./negotiation", 9); ("./validator", 15)]);
   (js "/repo/packages/api-client/src/index.ts", [("./client", 1); ("./negotiation", 6); ("./validator", 14); ("../generated/client", 15)]);
   (js "/repo/packages/api-client/src/negotiation.test.ts", [("vitest", 1); ("./negotiation", 3)]);
   (js "/repo/packages/api-client/src/negotiation.ts", [("@trax-os/api-contract", 1); ("../generated/client", 3)]);
   (js "/repo/packages/api-client/src/validator.test.ts", [("vitest", 1); ("./validator", 3)]);
   (js "/repo/packages/api-client/src/validator.ts", [("../generated/client", 1)]);
   (js "/repo/packages/api-contract/generated/schema.ts", [])].

Definition scanned_modules : list string :=
  ["trax_api";
   "trax_api.application_errors";
   "trax_api.auth";
   "trax_api.command_executor";
   "trax_api.command_registry";
   "trax_api.database";
   "trax_api.errors";
   "trax_api.journey_repository";
   "trax_api.main";
   "trax_api.models";
   "trax_api.request_id";
   "trax_api.routes";
   "trax_api.schema";
   "trax_api.server_errors";
   "trax_api.server_models";
   "trax_api.server_routes";
   "trax_api.settings"].

Definition scanned_edges : list (string * string * list string * Z) :=
  [("trax_api.auth", "trax_api.application_errors", ["ApplicationError"], 18);
   ("trax_api.auth", "trax_api.schema", ["memberships"; "password_credentials"; "sessions"; "users"; "workspaces"], 19);
   ("trax_api.auth", "trax_api.server_models", ["LoginRequest"; "RegisterRequest"; "UserResponse"], 20);
   ("trax_api.auth", "trax_api.settings", ["Settings"], 21);
   ("trax_api.command_executor", "trax_api.application_errors", ["ApplicationError"], 12);
   ("trax_api.command_executor", "trax_api.auth", ["AuthContext"], 13);
   ("trax_api.command_executor", "trax_api.command_registry", ["command_digest_v1"; "resolve_command"; "role_allows"], 14);
   ("trax_api.command_executor", "trax_api.journey_repository", ["JourneyRepository"; "JourneyUpdateMutation"], 15);
   ("trax_api.command_executor", "trax_api.schema", ["command_change_events"; "command_change_sets"; "command_receipts"], 16);
   ("trax_api.command_executor", "trax_api.server_models", ["JourneyResponse"; "JourneyUpdate"; "JourneyUpdateCommandPayload"], 21);
   ("trax_api.command_registry", "trax_api.application_errors", ["ApplicationError"], 11);
   ("trax_api.command_registry", "trax_api.server_models", ["JourneyUpdateCommandPayload"], 12);
   ("trax_api.database", "trax_api.settings", ["Settings"], 14);
   ("trax_api.errors", "trax_api.models", ["ErrorBody"; "ErrorResponse"], 12);
   ("trax_api.errors", "trax_api.request_id", ["current_request_id"], 13);
   ("trax_api.journey_repository", "trax_api.application_errors", ["ApplicationError"], 12);
   ("trax_api.journey_repository", "trax_api.auth", ["AuthContext"], 13);
   ("trax_api.journey_repository", "trax_api.schema", ["journeys"; "packing_items"; "segments"], 14);
   ("trax_api.journey_repository", "trax_api.server_models", ["JourneyCreate"; "JourneyResponse"; "JourneyUpdate"; "PackingCreate"; "PackingProgressUpdate"; "PackingResponse"; "PackingUpdate"; "SegmentCreate"; "SegmentResponse"; "SegmentUpdate"], 15);
   ("trax_api.main", "trax_api", ["__version__"], 10);
   ("trax_api.main", "trax_api.application_errors", ["ApplicationError"], 11);
   ("trax_api.main", "trax_api.database", ["Database"], 12);
   ("trax_api.main", "trax_api.errors", ["http_exception_handler"; "unexpected_exception_handler"; "validation_exception_handler"], 13);
   ("trax_api.main", "trax_api.request_id", ["request_id_middleware"], 18);
   ("trax_api.main", "trax_api.routes", ["api_router"; "contract_router"; "health_router"], 19);
   ("trax_api.main", "trax_api.server_errors", ["application_error_handler"], 20);
   ("trax_api.main", "trax_api.server_routes", ["router"], 21);
   ("trax_api.main", "trax_api.settings", ["load_settings"], 22);
   ("trax_api.request_id", "trax_api.errors", ["unexpected_exception_handler"], 40);
   ("trax_api.routes", "trax_api", ["__version__"], 7);
   ("trax_api.routes", "trax_api.command_registry", ["command_version_ranges"], 8);
   ("trax_api.routes", "trax_api.models", ["CapabilitiesResponse"; "Capability"; "CommandVersionSupport"; "ContractDiscoveryResponse"; "ErrorResponse"; "LiveResponse"; "ReadinessChecks"; "ReadyResponse"; "SupportedVersionRange"; "VersionResponse"], 9);
   ("trax_api.server_errors", "trax_api.application_errors", ["ApplicationError"], 6);
   ("trax_api.server_errors", "trax_api.errors", ["error_response"], 7);
   ("trax_api.server_models", "trax_api.models", ["WireModel"], 9);
   ("trax_api.server_routes", "trax_api.auth", ["AuthContext"; "CSRF_HEADER"; "SESSION_COOKIE"; "authenticate"; "login"; "logout"; "register"; "require_csrf"], 10);
   ("trax_api.server_routes", "trax_api.command_executor", ["CommandExecutor"; "authorize_permission"], 20);
   ("trax_api.server_routes", "trax_api.command_registry", ["JOURNEY_WRITE_PERMISSION"], 21);
   ("trax_api.server_routes", "trax_api.database", ["request_session"], 22);
   ("trax_api.server_routes", "trax_api.journey_repository", ["JourneyRepository"], 23);
   ("trax_api.server_routes", "trax_api.routes", ["CREATED_RESPONSE"; "ERROR_RESPONSES"; "NO_CONTENT_RESPONSE"; "SUCCESS_RESPONSE"], 24);
   ("trax_api.server_routes", "trax_api.server_models", ["CommandEntityVersion"; "JourneyCreate"; "JourneyListResponse"; "JourneyResponse"; "JourneyUpdate"; "JourneyUpdateCommand"; "JourneyUpdateCommandPayload"; "JourneyUpdateCommandResponse"; "LoginRequest"; "LogoutResponse"; "PackingCreate"; "PackingListResponse"; "PackingProgressUpdate"; "PackingResponse"; "PackingUpdate"; "RegisterRequest"; "SegmentCreate"; "SegmentListResponse"; "SegmentReorder"; "SegmentResponse"; "SegmentUpdate"; "SessionResponse"], 30);
   ("trax_api.server_routes", "trax_api.settings", ["Settings"], 54)].

Definition codeowners : string :=
  "# Maurice is the sole PR approver during the v0.x foundation phase.
* @Maurice-aXeTech
".
