(* ===== verification/RepositoryRun.v ===== *)
(** The module boundary check on the repository itself: the run passes, and
    what the theorems say of it. *)
From S2P Require Export RepositoryFiles BoundariesEnd.

Definition find_key {A} (l : list (jstr * A)) (k : jstr) : option A := snd <$> List.find (fun kv => str_eqb kv.1 k) l.

Definition entry_at (p : jstr) : option Entry :=
  if str_eqb p "/repo" then Some Directory
  else l ← find_key repository_directories (dirname p); find_key l (basename p).

Definition manifests_at (p : jstr) : option jsval :=
  find_key [(js "/repo/docs/architecture/module-boundaries.json", module_boundaries); (js "/repo/package.json", root_package);
            (js "/repo/apps/web/package.json", web_package); (js "/repo/packages/api-contract/package.json", contract_package);
            (js "/repo/packages/api-client/package.json", client_package)] p.

Definition or_crash {A} (o : option A) : script A := match o with Some a => Ok a | None => Throw Crashed end.

Definition scanned_report : PythonReport := {|
  report_version := 2;
  report_package := "trax_api";
  projectName := "trax-os-api";
  diagnostics := [];
  report_modules := List.map js scanned_modules;
  report_edges := List.map (fun '(source, target, l, at_line) =>
    {| py_source := js source; py_target := js target; py_line := at_line; names := List.map js l; dynamic := false |}) scanned_edges;
|}.

(** The workspaces are linked into [node_modules]; every other package is
    external. *)
Definition resolved_modules : list (jstr * jstr) :=
  [(js "@trax-os/api-client", js "/repo/packages/api-client/src/index.ts");
   (js "@trax-os/api-contract", js "/repo/packages/api-contract/generated/schema.ts")].

#[local] Instance integers_only : NumPrinter := fun _ => [].

Definition repository_host (registry : jsval) : Host := {|
  lstat p := Ok (entry_at p);
  stat p := Ok (entry_at p);
  realpath p := match entry_at p with Some _ => Ok p | None => Throw Crashed end;
  readdir p := or_crash (find_key repository_directories p);
  readFile p := if str_eqb p "/repo/.github/CODEOWNERS" then Ok (js codeowners) else Throw Crashed;
  readJson p label := if str_eqb p "/repo/docs/architecture/module-boundaries.json" then Ok registry else or_crash (manifests_at p);
  scan_python _ _ _ := Ok scanned_report;
  collectSpecifiers p := 
    match find_key repository_imports p with
    | Some l => Ok (List.map (fun '(specifier, at_line) => {| value := js specifier; line := at_line |}) l)
    | None => Throw Crashed
    end;
  aliasPatterns _ := Ok [];
  resolveModuleName specifier _ :=
    (fun file => {| resolvedFileName := file; isExternalLibraryImport := true |}) <$> find_key resolved_modules specifier;
|}.

Definition registry_path : jstr := "docs/architecture/module-boundaries.json".

Definition empty_registry : Registry := {|
  owner_path := []; owner := []; ignoredDirectoryNames := []; activeRoots := []; reservedRoots := []; rootEdges := [];
  typescript_rules := {| sourceExtensions := []; layerRules := []; forbiddenLayerEdges := [];
    generatedInventory := {| inventory_root := []; inventory_files := [] |};
    runtimeClientInventory := {| inventory_root := []; inventory_files := [] |} |};
  python_rules := {| moduleRoot := []; package := []; modules := []; allowedLayerEdges := []; exceptions := [] |};
|}.

(** The registry of the repository. *)
Definition repository_registry : Registry := default empty_registry (registry_of module_boundaries).

Lemma repository_registry_valid : validateRegistry module_boundaries = Ok module_boundaries.
Proof. vm_compute. reflexivity. Qed.

#[export] Instance repository : Host := repository_host module_boundaries.

Lemma repository_load : loadRegistry "/repo" registry_path = Ok repository_registry.
Proof. vm_compute. reflexivity. Qed.

Lemma repository_plain : plain_roots repository_registry.
Proof.
  assert (forallb (fun r => negb (str_includes (root_path r) 62)) (activeRoots repository_registry) = true) as Hall by (vm_compute; done).
  intros r Hr. rewrite forallb_forall in Hall. apply negb_true_iff, Hall. by apply list_elem_of_In.
Qed.

Definition repository_summary : Summary := {| active_count := 4; reserved_count := 15; edge_count := 2; module_count := 17 |}.

(** The check passes on the repository as it is. *)
Lemma repository_passes : runModuleBoundaryCheck 100 "/repo" registry_path = Ok repository_summary.
Proof. vm_compute. reflexivity. Qed.

(** ** Features and adapters *)

(** The layer of a file of the web application by its directory. *)
Lemma web_layer directory rest l :
  directory ∈ [js "src/features/"; js "src/repositories/"; js "src/adapters/"] ->
  classifyLayer (layerRules (typescript_rules repository_registry)) "apps/web" (directory ++ rest) = Some l ->
  (directory = js "src/features/" /\ l = js "feature") \/ (directory = js "src/repositories/" /\ l = js "repository") \/
  (directory = js "src/adapters/" /\ l = js "adapter").
Proof.
  rewrite !elem_of_cons, elem_of_nil. intros [->|[->|[->|[]]]]; destruct rest; intros E; vm_compute in E; injection E as <-; auto.
Qed.

Section AnyHost.
Context `{NumPrinter} (h : Host).

(** With the registry of the repository, whatever the files are: after a run
    that passes no feature and no repository interface of the web application
    imports an adapter. *)
Lemma features_import_no_adapter fuel root path summary :
  loadRegistry root path = Ok repository_registry -> runModuleBoundaryCheck fuel root path = Ok summary ->
  exists manifests info, source_files root repository_registry fuel = Ok info /\
    forall source declared patterns imported real target directory rest rest',
      file_imports manifests info source declared patterns imported ->
      leads_to root repository_registry patterns source imported real -> map_of fst info real = Some (real, target) ->
      root_path (file_root source) = js "apps/web" -> root_path (file_root target) = js "apps/web" ->
      directory ∈ [js "src/features/"; js "src/repositories/"] ->
      file_relative source = directory ++ rest -> file_relative target <> js "src/adapters/" ++ rest'.
Proof.
  intros Hl (registry & report & manifests & Hl' & Hw & _ & Ht & _)%run_parts.
  rewrite Hl in Hl'. injection Hl' as <-.
  destruct (verifyTypeScript_ok _ _ Hw _ _ _ Ht) as (info & Hinfo & Hok). exists manifests, info.
  split; [done|]. intros source declared patterns imported real target directory rest rest' Hf Hlead Hm Hs Htr Hd Hrel Hadapter.
  destruct (import_path _ _ _ _ _ _ _ (Hok _ _ _ _ Hf) _ Hlead) as [_ Hlayer].
  unfold info_of in Hlayer. cbn [fileInfo] in Hlayer. rewrite Hm in Hlayer. cbn [fmap option_fmap option_map snd] in Hlayer.
  apply map_of_elem in Hm as [Hm _]. destruct (source_files_ok _ _ _ _ _ _ Hinfo Hm) as [_ Hct].
  destruct Hf as (r & imports & Hin & _). destruct (source_files_ok _ _ _ _ _ _ Hinfo Hin) as [_ Hcs].
  rewrite Hs, Hrel in Hcs. rewrite Htr, Hadapter in Hct.
  apply web_layer in Hct as [[Hx _]|[[Hx _]|[_ Hlt]]]; [discriminate Hx..| |in_list].
  apply Hlayer. rewrite Hlt. apply web_layer in Hcs; [|apply elem_of_cons in Hd as [Hd | Hd%list_elem_of_singleton]; rewrite Hd; in_list].
  destruct Hcs as [[-> ->]|[[-> ->]|[-> _]]].
  - eexists. split; [apply list_elem_of_here|]. done.
  - eexists. split; [apply list_elem_of_further, list_elem_of_here|]. done.
  - exfalso. apply elem_of_cons in Hd as [Hx | Hx%list_elem_of_singleton]; discriminate Hx.
Qed.
End AnyHost.

(** ** Witnesses *)

Module BoundaryWitnesses.

Lemma roots_stay_acyclic_witness :
  exists report manifests info,
    verifyRoots "/repo" repository_registry = Ok (report, manifests) /\ source_files "/repo" repository_registry 100 = Ok info /\
    (forall x y, root_needs repository_registry manifests info x y -> root_arrow repository_registry x y) /\
    forall x, ~ tc (root_needs repository_registry manifests info) x x.
Proof.
  exact (roots_stay_acyclic 100 "/repo" registry_path repository_summary repository_registry repository_load repository_plain
    repository_passes).
Defined.

Lemma imports_respect_layers_witness :
  exists report manifests info,
    verifyRoots "/repo" repository_registry = Ok (report, manifests) /\ source_files "/repo" repository_registry 100 = Ok info /\
    forall source declared patterns imported real,
      file_imports manifests info source declared patterns imported ->
      leads_to "/repo" repository_registry patterns source imported real ->
      (exists rest, segments real = segments (resolve "/repo" (root_path (file_root source))) ++ rest) /\
      forall target, map_of fst info real = Some (real, target) ->
        ~ forbidden repository_registry (layer source) (layer target).
Proof.
  exact (imports_respect_layers 100 "/repo" registry_path repository_summary repository_registry repository_load
    repository_passes).
Defined.

Lemma validated_registry_well_formed_witness :
  validateRegistry module_boundaries = Ok module_boundaries /\
  exists r, registry_of module_boundaries = Some r /\ well_formed r.
Proof.
  split; [exact repository_registry_valid|].
  exact (proj2 (validated_registry_well_formed module_boundaries module_boundaries repository_registry_valid)).
Defined.

Lemma repository_names_plain m : m ∈ modules (python_rules repository_registry) ->
  plain_name (module_name m) /\ plain_name (module_layer m).
Proof.
  assert (forallb (fun m => negb (str_includes (module_name m) 62) && negb (str_includes (module_layer m) 62))
    (modules (python_rules repository_registry)) = true) as Hall by (vm_compute; done).
  intros Hm. rewrite forallb_forall in Hall. apply list_elem_of_In, Hall, andb_true_iff in Hm.
  by rewrite !negb_true_iff in Hm.
Qed.

Lemma repository_python_ok : python_ok (activeRoots repository_registry) (python_rules repository_registry).
Proof. apply wf_python. by apply (loadRegistry_well_formed "/repo" registry_path). Qed.

Lemma verifyPython_exact_witness :
  verifyPython (python_rules repository_registry) scanned_report = Ok () /\
  exact_report (python_rules repository_registry) scanned_report.
Proof.
  assert (verifyPython (python_rules repository_registry) scanned_report = Ok ()) as E by (vm_compute; reflexivity).
  split; [exact E|]. exact (proj1 (verifyPython_exact _ (python_rules repository_registry) scanned_report repository_python_ok repository_names_plain) E).
Defined.

(** The directories below one, counted to a depth that is enough. *)
Fixpoint below_to (depth : nat) (d : jstr) : nat :=
  match depth with
  | O => 0
  | S depth => entries_size (below_to depth) [] d (default [] (find_key repository_directories d))
  end.
Definition below : jstr -> nat := below_to 10.

#[local] Instance repository_ends : EndingHost.
Proof.
  split; intros; cbn; try done; unfold ends; repeat case_match; try done; unfold or_crash; repeat case_match; done.
Qed.

Lemma find_key_elem {A} (l : list (jstr * A)) k x : find_key l k = Some x -> (k, x) ∈ l.
Proof.
  unfold find_key. intros ([k' x'] & Hf & ->)%fmap_Some. apply find_Some_elem in Hf as [? Ek]. apply str_eqb_eq in Ek. cbn in Ek. by subst.
Qed.

Lemma repository_sized : sized below [].
Proof.
  assert (forallb (fun kv => entries_size below [] kv.1 kv.2 <=? below kv.1)%nat repository_directories = true) as Hall by (vm_compute; done).
  rewrite forallb_forall in Hall. intros d entries E.
  change (or_crash (find_key repository_directories d) = Ok entries) in E.
  destruct (find_key repository_directories d) as [l|] eqn:Ef; [|done]. injection E as ->. apply find_key_elem, list_elem_of_In in Ef.
  apply Hall in Ef. by apply Nat.leb_le in Ef.
Qed.

Lemma below_bound d : (below d < 100)%nat.
Proof.
  assert (forallb (fun kv => below kv.1 <? 100)%nat repository_directories = true) as Hall by (vm_compute; done).
  rewrite forallb_forall in Hall. destruct (find_key repository_directories d) as [l|] eqn:Ef.
  - apply find_key_elem, list_elem_of_In, Hall in Ef. by apply Nat.ltb_lt in Ef.
  - unfold below. cbn [below_to]. rewrite Ef. cbn. lia.
Qed.

Lemma boundary_check_ends_witness : runModuleBoundaryCheck 100 "/repo" registry_path <> Throw Unfinished.
Proof. exact (boundary_check_ends "/repo" below repository_sized 100 (fun path => below_bound _) registry_path). Defined.
End BoundaryWitnesses.
