(* ===== verification/ContractCompatibility.v ===== *)
(** The comparison of two API contracts: [scripts/contract-compatibility.mjs].
    Reading a document is an argument; the list of differences is what
    [api-smart-diff] returns. *)
From S2P Require Export ModuleBoundaries JsUri.
#[local] Open Scope Z_scope.

(** ** Text *)

(** [s.replaceAll(a + b, r)] for two different units, and
    [s.replaceAll(a, r)] for one. *)
Fixpoint replace_pair (a b : N) (r s : jstr) : jstr :=
  match s with
  | [] => []
  | x :: t =>
      match t with
      | y :: t' => if N.eqb x a && N.eqb y b then r ++ replace_pair a b r t' else x :: replace_pair a b r t
      | [] => [x]
      end
  end.
Definition replace_unit (a : N) (r s : jstr) : jstr := s ≫= fun x => if N.eqb x a then r else [x].

Definition escapePointerToken (value : jstr) : jstr := replace_unit 47 (js "~1") (replace_unit 126 (js "~0") value).
Definition unescape_token (token : jstr) : jstr := replace_pair 126 48 (js "~") (replace_pair 126 49 (js "/") token).

(** [s.toUpperCase()], as far as the result can be ASCII: the units outside
    ASCII that have an ASCII uppercase are listed, others are left. *)
Definition upper_units (c : N) : jstr :=
  if ((97 <=? c) && (c <=? 122))%N then [(c - 32)%N]
  else match c with
       | 223 => "SS" | 305 => "I" | 383 => "S" | 64256 => "FF" | 64257 => "FI" | 64258 => "FL" | 64259 => "FFI"
       | 64260 => "FFL" | 64261 | 64262 => "ST"
       | _ => [c]
       end%N.
Definition upper_text (s : jstr) : jstr := s ≫= upper_units.

(** ** [isDeepStrictEqual] on values of JSON: the order of keys is no part *)

Fixpoint deep_equal (a b : jsval) : bool :=
  match a, b with
  | VArr l, VArr m =>
      (fix items (l m : list jsval) : bool :=
         match l, m with
         | [], [] => true
         | x :: l, y :: m => deep_equal x y && items l m
         | _, _ => false
         end) l m
  | VObj fs, VObj gs =>
      (length fs =? length gs)%nat &&
      (fix fields (fs : list (jstr * jsval)) : bool :=
         match fs with
         | [] => true
         | (k, x) :: fs => match own gs k with Some y => deep_equal x y | None => false end && fields fs
         end) fs
  | _, _ => object_is a b
  end.

(** ** References *)

(** [Object.hasOwn(v, k)] and [v[k]] for an object or an array. *)
Definition own_value (v : jsval) (k : jstr) : option jsval :=
  match v with
  | VObj fs => own fs k
  | VArr l =>
      if str_eqb k "length" then Some (VNum (NInt (Z.of_nat (length l))))
      else snd <$> List.find (fun kv => str_eqb (kv.1) k) (imap (fun i x => (print_int (Z.of_nat i), x)) l)
  | _ => None
  end.

Fixpoint resolves_tokens (current : jsval) (tokens : list jstr) : bool :=
  match tokens with
  | [] => true
  | token :: tokens => match own_value current token with Some next => resolves_tokens next tokens | None => false end
  end.

Definition reference_tokens (reference : jstr) : option (list jstr) :=
  decoded ← decodeURIComponent (drop 1 reference); Some (unescape_token <$> str_split (drop 1 decoded) "/").

Definition resolvesLocalReference (document : jsval) (reference : jstr) : bool :=
  match reference_tokens reference with Some tokens => resolves_tokens document tokens | None => false end.

Section References.
Context (location : jstr) (document : jsval).

Definition check_pointer (key : jstr) (child : jsval) (childPointer : jstr) : script () :=
  if str_eqb key "$ref" then
    match child with
    | VStr reference =>
        if startsWith reference "#/" then
          fail_when (negb (resolvesLocalReference document reference))
            (location ++ js " contains a dangling local $ref at " ++ childPointer ++ js ": " ++ reference)
        else script_fail (location ++ js " contains a non-local $ref at " ++ childPointer ++
                          js "; compatibility checks never resolve external references.")
    | _ => script_fail (location ++ js " contains a non-local $ref at " ++ childPointer ++
                        js "; compatibility checks never resolve external references.")
    end
  else Ok ().

Fixpoint assertLocalReferences (value : jsval) (pointer : jstr) : script () :=
  match value with
  | VArr l =>
      (fix items (l : list jsval) (index : Z) : script () :=
         match l with
         | [] => Ok ()
         | item :: l => _ ← assertLocalReferences item (pointer ++ 47%N :: print_int index); items l (index + 1)
         end) l 0
  | VObj fs =>
      (fix entries (fs : list (jstr * jsval)) : script () :=
         match fs with
         | [] => Ok ()
         | (key, child) :: fs =>
             let childPointer := pointer ++ 47%N :: escapePointerToken key in
             _ ← check_pointer key child childPointer;
             _ ← assertLocalReferences child childPointer;
             entries fs
         end) fs
  | _ => Ok ()
  end.
End References.

(** [/^3\.1\.\d+$/] *)
Definition version_syntax (s : jstr) : bool :=
  startsWith s "3.1." && match drop 4 s with [] => false | digits => forallb is_digit digits end.

Definition is_object (v : jsval) : bool := match v with VObj _ | VArr _ => true | _ => false end.

(** [read] is what reading and parsing the file gives, or the message. *)
Definition loadOpenApi (path : jstr) (read : outcome jstr jsval) : script jsval :=
  document ← try_catch read (fun message => script_fail (js "Cannot read OpenAPI contract " ++ path ++ js ": " ++ message));
  _ ← fail_when (negb (match document with
                       | VObj fs => match get fs "openapi" with VStr v => version_syntax v | _ => false end &&
                                    is_object (get fs "paths")
                       | _ => false
                       end)) (path ++ js " is not a supported OpenAPI 3.1 document.");
  _ ← assertLocalReferences path document document "$";
  Ok document.

(** ** Differences *)

Record ContractDifference := {
  difference_type : jstr;
  action : jstr;
  difference_path : list jsval;
  after : jsval;
}.

Class ApiCompare := apiCompare : jsval -> jsval -> list ContractDifference.

Definition ALLOWED_DIFFERENCE_TYPES : list string := ["annotation"; "deprecated"; "non-breaking"].

Definition MUTATION_OPERATIONS : list string :=
  ["POST /api/v1/auth/logout"; "POST /api/v1/commands/journey.update"; "POST /api/v1/journeys";
   "PUT /api/v1/journeys/{journey_id}"; "DELETE /api/v1/journeys/{journey_id}";
   "POST /api/v1/journeys/{journey_id}/segments"; "PUT /api/v1/journeys/{journey_id}/segments/{segment_id}";
   "POST /api/v1/journeys/{journey_id}/segments/{segment_id}/reorder";
   "DELETE /api/v1/journeys/{journey_id}/segments/{segment_id}";
   "POST /api/v1/journeys/{journey_id}/packing"; "PUT /api/v1/journeys/{journey_id}/packing/{item_id}";
   "PUT /api/v1/journeys/{journey_id}/packing/{item_id}/progress"; "DELETE /api/v1/journeys/{journey_id}/packing/{item_id}"].
Definition AUTHENTICATED_OPERATIONS : list string :=
  ["GET /api/v1/auth/session"; "GET /api/v1/journeys"; "GET /api/v1/journeys/{journey_id}";
   "GET /api/v1/journeys/{journey_id}/segments"; "GET /api/v1/journeys/{journey_id}/packing"] ++ MUTATION_OPERATIONS.

Definition SESSION_SECURITY : jsval := VArr [VObj [(js "SessionCookie", VArr [])]].
Definition SESSION_SCHEME : jsval :=
  VObj [(js "type", VStr "apiKey"); (js "description", VStr "Opaque authenticated Trax OS session cookie.");
        (js "in", VStr "cookie"); (js "name", VStr "trax_session")].
Definition CSRF_PARAMETER : jsval :=
  VObj [(js "name", VStr "X-CSRF-Token"); (js "in", VStr "header"); (js "required", VBool true);
        (js "description", VStr "Double-submit token matching the trax_csrf cookie."); (js "schema", VObj [(js "type", VStr "string")])].

(** [path.indexOf(name, from)] for a [from] that is not negative: [-1] when it
    is not there. *)
Definition path_index (path : list jsval) (name : string) (from : Z) : Z :=
  let i := findIndex (fun item => strict_eq item (VStr name)) (drop (Z.to_nat from) path) in
  if i <? 0 then -1 else from + i.

Definition isOptionalParameterAddition (difference : ContractDifference) (parametersIndex : Z) : bool :=
  if negb (str_eqb (action difference) "add") || (parametersIndex + 1 <? Z.of_nat (length (difference_path difference))) then false
  else
    let parameters := match after difference with VArr l => l | v => [v] end in
    forallb (fun parameter => is_object parameter && negb (strict_eq (prop parameter "required") (VBool true))) parameters.

Definition RESERVED : list string := ["security"; "securitySchemes"; "servers"; "operationId"; "x-trax-command-type"].

Definition violatesTraxCompatibilityPolicy (difference : ContractDifference) : bool :=
  let path := difference_path difference in
  if existsb (is_one_of RESERVED) path then true
  else
    let parametersIndex := path_index path "parameters" 0 in
    if 0 <=? parametersIndex then negb (isOptionalParameterAddition difference parametersIndex)
    else
      let requestBodyIndex := path_index path "requestBody" 0 in
      let propertiesIndex := path_index path "properties" requestBodyIndex in
      if (0 <=? requestBodyIndex) && (0 <=? propertiesIndex) then
        negb (str_eqb (action difference) "add" && (Z.of_nat (length path) =? propertiesIndex + 2))
      else false.

(** [v?.k] on what JSON gives. *)
Definition findOperation (document : jsval) (operationKey : string) : jsval :=
  let key := js operationKey in
  let separator := Z.to_nat (str_indexOf key 32) in
  prop (prop (prop document "paths") (drop (S separator) key)) (toLowerCase (take separator key)).

Definition hasCsrfParameter (operation : jsval) : bool :=
  match prop operation "parameters" with VArr l => existsb (fun parameter => deep_equal parameter CSRF_PARAMETER) l | _ => false end.

Definition or_empty (v : jsval) : jsval := match v with VUndef | VNull => VArr [] | _ => v end.

(** One turn of the loop over the operations. *)
Definition operation_corrected (source destination : jsval) (operationKey : string) : script bool :=
  let sourceOperation := findOperation source operationKey in
  let destinationOperation := findOperation destination operationKey in
  if negb (truthy sourceOperation) || negb (truthy destinationOperation) ||
     defined (prop sourceOperation "security") || negb (deep_equal (prop destinationOperation "security") SESSION_SECURITY)
  then Ok false
  else
    let sourceParameters := or_empty (prop sourceOperation "parameters") in
    expectedParameters ← (if existsb (String.eqb operationKey) MUTATION_OPERATIONS
                          then l ← spread sourceParameters; Ok (VArr (l ++ [CSRF_PARAMETER]))
                          else Ok sourceParameters);
    Ok (negb (hasCsrfParameter sourceOperation) &&
        deep_equal (or_empty (prop destinationOperation "parameters")) expectedParameters).

Fixpoint all_corrected (source destination : jsval) (operations : list string) : script bool :=
  match operations with
  | [] => Ok true
  | operationKey :: operations =>
      ok ← operation_corrected source destination operationKey;
      if ok : bool then all_corrected source destination operations else Ok false
  end.

Definition qualifiesLegacySecurityMetadataCorrection (source destination : jsval) : script bool :=
  if defined (prop (prop source "components") "securitySchemes") ||
     negb (deep_equal (prop (prop destination "components") "securitySchemes") (VObj [(js "SessionCookie", SESSION_SCHEME)]))
  then Ok false
  else all_corrected source destination AUTHENTICATED_OPERATIONS.

Section Compare.
Context `{NumPrinter}.

Definition path_item (difference : ContractDifference) (i : nat) : jsval := default VUndef (difference_path difference !! i).

Definition isLegacySecurityMetadataDifference (difference : ContractDifference) : bool :=
  if negb (str_eqb (action difference) "add") then false
  else if deep_equal (VArr (difference_path difference)) (VArr [VStr "components"; VStr "securitySchemes"]) then true
  else if negb (strict_eq (path_item difference 0) (VStr "paths")) then false
  else
    let operationKey := upper_text (to_string (path_item difference 2)) ++ 32%N :: to_string (path_item difference 1) in
    (strict_eq (path_item difference 3) (VStr "security") && named_in AUTHENTICATED_OPERATIONS operationKey) ||
    (strict_eq (path_item difference 3) (VStr "parameters") && named_in MUTATION_OPERATIONS operationKey).

Definition blocking (securityMetadataCorrection : bool) (difference : ContractDifference) : bool :=
  (negb (named_in ALLOWED_DIFFERENCE_TYPES (difference_type difference)) || violatesTraxCompatibilityPolicy difference) &&
  negb (securityMetadataCorrection && isLegacySecurityMetadataDifference difference).

Record Comparison := {
  differences : list ContractDifference;
  blockingDifferences : list ContractDifference;
  securityMetadataCorrection : bool;
}.

Definition compareOpenApi `{ApiCompare} (source destination : jsval) : script Comparison :=
  let diffs := apiCompare source destination in
  correction ← qualifiesLegacySecurityMetadataCorrection source destination;
  Ok {| differences := diffs; blockingDifferences := List.filter (blocking correction) diffs;
        securityMetadataCorrection := correction |}.

Definition describeDifference (difference : ContractDifference) : jstr :=
  difference_type difference ++ js ": " ++ action difference ++ js " /" ++
  join "/" ((fun item => escapePointerToken (to_string item)) <$> difference_path difference).

(** [main]: the exit code and the lines on the console; the text of a
    [TypeError] is the engine's. *)
Definition main `{ApiCompare} (engine_message : jstr) (arguments : list jstr) (read : jstr -> outcome jstr jsval) : Z * list jstr :=
  match arguments with
  | [(_ :: _) as sourcePath; (_ :: _) as destinationPath] =>
      let run :=
        source ← loadOpenApi sourcePath (read sourcePath);
        destination ← loadOpenApi destinationPath (read destinationPath);
        compared ← compareOpenApi source destination;
        let blocked := blockingDifferences compared in
        let count := Z.of_nat (length blocked) in
        if 0 <? count then
          Ok (1, [js "Contract compatibility failed with " ++ print_int count ++ js " breaking or unclassified difference(s):"] ++
                 ((fun difference => js "- " ++ describeDifference difference) <$> take 20 blocked) ++
                 (if 20 <? count then [[45; 32; 8230; 32]%N ++ print_int (count - 20) ++ js " more"] else []))
        else
          Ok (0, [js "Contract compatibility passed (" ++ print_int (Z.of_nat (length (differences compared))) ++
                  js " accepted difference(s)" ++
                  (if securityMetadataCorrection compared then js "; exact legacy security metadata correction qualified" else []) ++ js ")."])
      in
      match run with
      | Ok printed => printed
      | Throw (Failed message) => (1, [message])
      | Throw _ => (1, [engine_message])
      end
  | _ => (2, [js "Usage: node scripts/contract-compatibility.mjs BASE_OPENAPI CANDIDATE_OPENAPI"])
  end.
End Compare.
