(* ===== verification/ContractCompatibilitySpec.v ===== *)
(** What [scripts/contract-compatibility.mjs] promises: every reference of a
    contract it reads leads to a place in it, and no change of the security
    metadata passes. *)
From S2P Require Export ContractCompatibility ModulePaths OpenApiDocument.
#[local] Open Scope Z_scope.

(** ** Pointers *)

Lemma replace_pair_free a b r s : str_includes s a = false -> replace_pair a b r s = s.
Proof.
  unfold str_includes. induction s as [|x s IH]; [done|]. cbn. intros [Hx Hs]%orb_false_iff.
  destruct s as [|y t]; [done|]. rewrite N.eqb_sym, Hx. cbn [andb]. by rewrite IH.
Qed.

(** The tilde pairs of an escaped token, one unit at a time. *)
Definition escaped_unit (x : N) : jstr := if N.eqb x 126 then [126; 48]%N else if N.eqb x 47 then [126; 49]%N else [x].

Lemma escape_units s : escapePointerToken s = s ≫= escaped_unit.
Proof.
  unfold escapePointerToken, replace_unit. induction s as [|x s IH]; [done|]. cbn. rewrite bind_app, IH. f_equal.
  unfold escaped_unit. destruct (N.eqb x 126); [done|]. cbn. destruct (N.eqb x 47); by rewrite ?app_nil_r.
Qed.

Lemma replace_pair_skip a b r x s : x <> a -> replace_pair a b r (x :: s) = x :: replace_pair a b r s.
Proof. intros Hx. cbn. destruct s as [|y t]; [done|]. by rewrite (proj2 (N.eqb_neq x a)). Qed.

Lemma replace_pair_hit a b r s : replace_pair a b r (a :: b :: s) = r ++ replace_pair a b r s.
Proof. cbn. by rewrite !N.eqb_refl. Qed.

Lemma replace_pair_miss a b r y s : y <> a -> y <> b -> replace_pair a b r (a :: y :: s) = a :: y :: replace_pair a b r s.
Proof.
  intros Ha Hb. cbn [replace_pair]. rewrite (proj2 (N.eqb_neq y b)), andb_false_r by done. f_equal. by apply replace_pair_skip.
Qed.

(** After the slashes are back only the tildes are still written as pairs. *)
Lemma unescape_slashes s : replace_pair 126 49 (js "/") (s ≫= escaped_unit) = s ≫= (fun x => if N.eqb x 126 then [126; 48]%N else [x]).
Proof.
  induction s as [|x s IH]; [done|]. cbn. unfold escaped_unit at 1. destruct (N.eqb_spec x 126) as [->|Hx]; cbn [app].
  - by rewrite replace_pair_miss, IH.
  - destruct (N.eqb_spec x 47) as [->|Hy]; cbn [app]; [by rewrite replace_pair_hit, IH|by rewrite replace_pair_skip, IH].
Qed.

Lemma unescape_tildes s : replace_pair 126 48 (js "~") (s ≫= fun x => if N.eqb x 126 then [126; 48]%N else [x]) = s.
Proof.
  induction s as [|x s IH]; [done|]. cbn. destruct (N.eqb_spec x 126) as [->|Hx]; cbn [app].
  - by rewrite replace_pair_hit, IH.
  - by rewrite replace_pair_skip, IH.
Qed.

Lemma unescape_escape s : unescape_token (escapePointerToken s) = s.
Proof. unfold unescape_token. by rewrite escape_units, unescape_slashes, unescape_tildes. Qed.

Lemma escape_no_slash s : str_includes (escapePointerToken s) 47 = false.
Proof.
  rewrite escape_units. unfold str_includes. induction s as [|x s IH]; [done|]. cbn. rewrite existsb_app, IH, orb_false_r.
  unfold escaped_unit. destruct (N.eqb_spec x 126); [done|]. destruct (N.eqb_spec x 47); [done|]. cbn.
  by rewrite (proj2 (N.eqb_neq 47 x)).
Qed.

Lemma pieces_app_free c p s : str_includes p c = false ->
  pieces c (p ++ s) = match pieces c s with [] => [p] | q :: qs => (p ++ q) :: qs end.
Proof.
  unfold str_includes. induction p as [|x p IH]; cbn; [by destruct (pieces_cons c s) as (q & qs & ->)|].
  intros [Hx Hp]%orb_false_iff. rewrite N.eqb_sym, Hx, IH by done. by destruct (pieces_cons c s) as (q & qs & ->).
Qed.

Lemma pieces_join c p ps : Forall (fun s => str_includes s c = false) (p :: ps) -> pieces c (join [c] (p :: ps)) = p :: ps.
Proof.
  cbn. revert p. induction ps as [|q ps IH]; intros p Hp; inversion_clear Hp as [|? ? H1 H2].
  - cbn. rewrite pieces_app_free by done. cbn. by rewrite app_nil_r.
  - cbn. rewrite pieces_app_free by done. cbn [pieces app]. rewrite N.eqb_refl. cbn in IH. rewrite IH by done. by rewrite app_nil_r.
Qed.

(** A text without escapes is its own decoding. *)
Lemma decode_plain s : str_includes s 37 = false -> decodeURIComponent s = Some s.
Proof.
  unfold decodeURIComponent, str_includes. induction s as [|x s IH]; [done|]. cbn [existsb uri_tokens].
  intros [Hx Hs]%orb_false_iff. rewrite N.eqb_sym, Hx. specialize (IH Hs).
  destruct (uri_tokens s) as [ts|]; cbn in IH |- *; [|done]. by rewrite IH.
Qed.

(** ** Places in a document *)

Inductive follows : jsval -> list jstr -> jsval -> Prop :=
| follows_here v : follows v [] v
| follows_key v k w ks u : own_value v k = Some w -> follows w ks u -> follows v (k :: ks) u.

Lemma resolves_follows v ks : resolves_tokens v ks = true <-> exists u, follows v ks u.
Proof.
  revert v. induction ks as [|k ks IH]; intros v; cbn [resolves_tokens].
  - split; [intros _; exists v; constructor|done].
  - destruct (own_value v k) as [w|] eqn:E.
    + rewrite IH. split; intros [u Hu]; [exists u; by econstructor|]. inversion Hu; subst. exists u. congruence.
    + split; [done|]. intros [u Hu]. inversion Hu. congruence.
Qed.

(** The reference is local and names a place of the document. *)
Definition points_into (document : jsval) (reference : jstr) : Prop :=
  startsWith reference "#/" = true /\ exists tokens target, reference_tokens reference = Some tokens /\ follows document tokens target.

Lemma resolves_points document reference : startsWith reference "#/" = true ->
  resolvesLocalReference document reference = true <-> points_into document reference.
Proof.
  intros Hs. unfold resolvesLocalReference, points_into. destruct (reference_tokens reference) as [tokens|].
  - rewrite resolves_follows. naive_solver.
  - split; [done|]. by intros (_ & ? & ? & ? & _).
Qed.

Definition pointer_of (path : list jstr) : jstr := js "#/" ++ join "/" (escapePointerToken <$> path).

Lemma join_free (c d : N) (l : list jstr) : c <> d -> Forall (fun s => str_includes s c = false) l ->
  str_includes (d :: join [d] l) c = false.
Proof.
  unfold str_includes. intros Hcd Hl. cbn [existsb]. rewrite (proj2 (N.eqb_neq c d)) by done. cbn [orb].
  destruct Hl as [|x l Hx Hl]; [done|]. cbn [join]. rewrite existsb_app, Hx. cbn [orb].
  induction Hl as [|y l Hy Hl IH]; [done|]. cbn. rewrite (proj2 (N.eqb_neq c d)) by done. cbn. rewrite existsb_app, Hy. exact IH.
Qed.

Lemma pointer_tokens t ts : Forall (fun s => str_includes s 37 = false) (t :: ts) ->
  reference_tokens (pointer_of (t :: ts)) = Some (t :: ts).
Proof.
  intros Hp. unfold reference_tokens, pointer_of. change (js "#/") with [35; 47]%N. change (js "/") with [47%N].
  cbn [app drop]. rewrite decode_plain.
  - cbn [mbind option_bind]. rewrite skipn_cons, skipn_O, str_split_pieces, fmap_cons, pieces_join.
    + rewrite <- fmap_cons, <- list_fmap_compose. rewrite (list_fmap_ext _ id); [by rewrite list_fmap_id|].
      intros i x _. apply unescape_escape.
    + rewrite <- fmap_cons. apply Forall_fmap, Forall_true. apply escape_no_slash.
  - assert (Forall (fun s => str_includes s 37 = false) (escapePointerToken <$> t :: ts)) as He.
    { apply Forall_fmap. eapply Forall_impl; [done|]. intros s Hs. cbn. rewrite escape_units. unfold str_includes in *.
      induction s as [|x s IH]; [done|]. cbn in *. apply orb_false_iff in Hs as [Hx Hs]. rewrite existsb_app, IH, orb_false_r by done.
      unfold escaped_unit. destruct (N.eqb x 126); [done|]. destruct (N.eqb x 47); [done|]. cbn. by rewrite Hx. }
    by apply (join_free 37 47).
Qed.

(** A place of a document is named by the pointer of its path: escaping
    the keys and joining them gives a reference that leads back to it. *)
Theorem pointer_roundtrip document t ts target :
  Forall (fun s => str_includes s 37 = false) (t :: ts) -> follows document (t :: ts) target ->
  reference_tokens (pointer_of (t :: ts)) = Some (t :: ts) /\ resolvesLocalReference document (pointer_of (t :: ts)) = true.
Proof.
  intros Hp Hf. pose proof (pointer_tokens t ts Hp) as Ht. split; [done|].
  unfold resolvesLocalReference. rewrite Ht. apply resolves_follows. eauto.
Qed.

(** ** References *)

Inductive inside : jsval -> jsval -> Prop :=
| inside_here v : inside v v
| inside_item l x v : x ∈ l -> inside x v -> inside (VArr l) v
| inside_field fs k x v : (k, x) ∈ fs -> inside x v -> inside (VObj fs) v.

(** The value stands under a key [$ref] somewhere. *)
Definition reference_in (document v : jsval) : Prop := exists fs, inside document (VObj fs) /\ (js "$ref", v) ∈ fs.

Definition good_reference (document v : jsval) : Prop := exists s, v = VStr s /\ points_into document s.

Lemma unit_bind {E} (m : outcome E ()) (k : outcome E ()) : (_ ← m; k) = Ok () <-> m = Ok () /\ k = Ok ().
Proof. destruct m as [[]|]; cbn; naive_solver. Qed.

Section References.
Context (location : jstr) (document : jsval).

Lemma check_pointer_ok key child pointer :
  check_pointer location document key child pointer = Ok () <-> (key = js "$ref" -> good_reference document child).
Proof.
  unfold check_pointer, good_reference. destruct (str_eqb key "$ref") eqn:E.
  - apply str_eqb_eq in E as ->. destruct child as [| | | |s| | |]; try (split; [done|]; intros Hc; by destruct (Hc eq_refl) as (? & ? & _)).
    destruct (startsWith s "#/") eqn:Es.
    + pose proof (resolves_points document s Es) as Hr. destruct (resolvesLocalReference document s); cbn.
      * split; [|done]. intros _ _. exists s. split; [done|]. by apply Hr.
      * split; [done|]. intros Hc. destruct (Hc eq_refl) as (s' & [= <-] & Hp). by apply Hr in Hp.
    + split; [done|]. intros Hc. destruct (Hc eq_refl) as (s' & [= <-] & Hp & _). congruence.
  - apply str_eqb_neq in E. split; [by intros _ ?|done].
Qed.

Lemma assertLocalReferences_ok value pointer :
  assertLocalReferences location document value pointer = Ok () <-> forall v, reference_in value v -> good_reference document v.
Proof.
  revert pointer. induction value as [| | | | |l IH|fs IH|] using jsval_induct; intros pointer; cbn [assertLocalReferences].
  1-5,8: (split; [|done]); intros _ v (fs & Hi & _); inversion Hi.
  - match goal with |- ?f l 0 = _ <-> _ => set (items := f) end. generalize 0 as index. intros index.
    transitivity (forall x, x ∈ l -> forall v, reference_in x v -> good_reference document v).
    + revert index. induction IH as [|x l Hx Hl IHl]; intros index; [split; [by intros _ ? ?%elem_of_nil|done]|].
      change (items (x :: l) index) with (_ ← assertLocalReferences location document x (pointer ++ 47%N :: print_int index); items l (index + 1)).
      rewrite unit_bind, Hx, IHl. setoid_rewrite elem_of_cons. naive_solver.
    + split; [|intros H x Hx v (fs & Hi & Hk); apply H; exists fs; split; [by econstructor|done]].
      intros H v (fs & Hi & Hk). inversion Hi as [|? x ? Hx Hi'|]; subst. apply (H x Hx). by exists fs.
  - match goal with |- ?f fs = _ <-> _ => set (entries := f) end.
    transitivity (forall k x, (k, x) ∈ fs -> (k = js "$ref" -> good_reference document x) /\
      forall v, reference_in x v -> good_reference document v).
    + induction IH as [|[k x] fs Hx Hl IHl]; [split; [by intros _ ? ? ?%elem_of_nil|done]|].
      change (entries ((k, x) :: fs)) with
        (_ ← check_pointer location document k x (pointer ++ 47%N :: escapePointerToken k);
         _ ← assertLocalReferences location document x (pointer ++ 47%N :: escapePointerToken k); entries fs).
      cbn in Hx. rewrite !unit_bind, check_pointer_ok, Hx, IHl. setoid_rewrite elem_of_cons. split.
      * intros (H1 & H2 & H3) k' x' [[= -> ->]|Hin]; [done|by eapply H3].
      * intros H. split_and!; [by apply (H k x); left|by apply (H k x); left|]. intros. apply H. by right.
    + split.
      * intros H v (gs & Hi & Hk). inversion Hi as [|? |? k x ? Hx Hi']; subst; [by apply (proj1 (H _ _ Hk))|].
        destruct (H _ _ Hx) as [_ H']. apply H'. by exists gs.
      * intros H k x Hx. split; [intros ->; apply H; exists fs; split; [constructor|done]|].
        intros v (gs & Hi & Hk). apply H. exists gs. split; [by econstructor|done].
Qed.

Lemma references_ok : assertLocalReferences location document document "$" = Ok () <->
  forall v, reference_in document v -> good_reference document v.
Proof. apply assertLocalReferences_ok. Qed.
End References.

(** ** Documents *)

Definition supported (document : jsval) : Prop :=
  exists fs version, document = VObj fs /\ get fs "openapi" = VStr version /\ version_syntax version = true /\
    is_object (get fs "paths") = true.

(** C30: a contract is loaded exactly when it is an OpenAPI 3.1 document in
    which every reference, wherever it stands, is a local pointer to a place
    of the document. *)
Theorem loadOpenApi_exact path document loaded : loadOpenApi path (Ok document) = Ok loaded <->
  loaded = document /\ supported document /\ forall v, reference_in document v -> good_reference document v.
Proof.
  unfold loadOpenApi. cbn [try_catch mbind outcome_bind]. split.
  - intros E. inv_script. apply negb_false_iff in Ha. destruct a0. pose proof (proj1 (references_ok _ _) Ha0) as Hr. split_and!; [done| |done].
    destruct loaded as [| | | | | |fs|]; try done. apply andb_true_iff in Ha as [Hv Hp].
    destruct (get fs "openapi") as [| | | |version| | |] eqn:Ev; try done. by exists fs, version.
  - intros (-> & (fs & version & -> & Hv & Hs & Hp) & Hr). rewrite Hv, Hs, Hp. cbn [andb negb fail_when throw_if mbind outcome_bind].
    by rewrite (proj2 (references_ok _ _) Hr).
Qed.

(** ** Equal values of JSON *)

(** The same value, whatever the order of the keys. *)
Inductive alike : jsval -> jsval -> Prop :=
| alike_leaf a b : object_is a b = true -> alike a b
| alike_items l m : Forall2 alike l m -> alike (VArr l) (VArr m)
| alike_fields fs gs hs :
    Forall2 (fun kv kw => kv.1 = kw.1 /\ alike kv.2 kw.2) fs gs -> gs ≡ₚ hs -> alike (VObj fs) (VObj hs).

(** No object has a key twice, as in every value [JSON.parse] gives. *)
Fixpoint keyed (v : jsval) : bool :=
  match v with
  | VArr l => forallb keyed l
  | VObj fs => bool_decide (NoDup fs.*1) && forallb (fun kv => keyed kv.2) fs
  | _ => true
  end.

Lemma keyed_items l : keyed (VArr l) = true -> forall x, x ∈ l -> keyed x = true.
Proof. cbn. rewrite forallb_forall. intros H x Hx. by apply H, list_elem_of_In. Qed.
Lemma keyed_fields fs : keyed (VObj fs) = true ->
  NoDup fs.*1 /\ forall k x, (k, x) ∈ fs -> keyed x = true.
Proof.
  cbn. rewrite andb_true_iff, bool_decide_eq_true, forallb_forall. intros [Hd H]. split; [done|].
  intros k x Hx. by apply (H (k, x)), list_elem_of_In.
Qed.
Lemma own_in fs k x : own fs k = Some x -> (k, x) ∈ fs.
Proof.
  unfold own. intros ([k' y] & Hf & ->)%fmap_Some. apply List.find_some in Hf as [Hin Hk].
  apply str_eqb_eq in Hk. cbn in Hk. subst k'. by apply list_elem_of_In.
Qed.
Lemma in_own fs k x : NoDup fs.*1 -> (k, x) ∈ fs -> own fs k = Some x.
Proof.
  induction fs as [|[k' y] fs IH]; [by intros _ ?%elem_of_nil|]. cbn. intros [Hk Hd]%NoDup_cons Hin.
  unfold own. cbn. destruct (str_eqb k' k) eqn:E.
  - apply str_eqb_eq in E as ->. apply elem_of_cons in Hin as [[= ->]|Hin]; [done|].
    destruct Hk. apply list_elem_of_fmap. by exists (k, x).
  - apply elem_of_cons in Hin as [[= -> ->]|Hin]; [by rewrite str_eqb_refl in E|]. by apply IH.
Qed.
Lemma keyed_prop v k : keyed v = true -> keyed (prop v k) = true.
Proof.
  unfold prop. destruct v as [| | | | | |fs|]; try done. cbn [as_record]. intros [_ Hfs]%keyed_fields. unfold get.
  destruct (own fs k) as [x|] eqn:E; [apply own_in in E; by eapply Hfs|].
  unfold inherited. destruct (str_eqb k "__proto__"); [done|]. by destruct (existsb _ _).
Qed.

(** The fields of one object, looked up in another. *)
Lemma deep_equal_fields fs gs :
  deep_equal (VObj fs) (VObj gs) = true <->
  length fs = length gs /\ forall k x, (k, x) ∈ fs -> exists y, own gs k = Some y /\ deep_equal x y = true.
Proof.
  cbn [deep_equal]. rewrite andb_true_iff, Nat.eqb_eq. apply and_iff_compat_l. induction fs as [|[k x] fs IH].
  - split; [by intros _ ? ? ?%elem_of_nil|done].
  - rewrite andb_true_iff, IH. setoid_rewrite elem_of_cons. split.
    + intros [Hx H] k' x' [[= -> ->]|Hin]; [|by apply H]. destruct (own gs k); [eauto|done].
    + intros H. split; [|eauto]. destruct (H k x) as (y & -> & Hy); [by left|done].
Qed.

Lemma deep_equal_alike a b : keyed a = true -> keyed b = true -> deep_equal a b = true -> alike a b.
Proof.
  revert b. induction a as [| | | | |l IH|fs IH|] using jsval_induct; intros c Ha Hb E;
    try (destruct c; try discriminate E; by apply alike_leaf).
  - destruct c as [| | | | |m| |]; try discriminate E. apply alike_items. cbn [deep_equal] in E.
    pose proof (keyed_items l Ha) as Hl. pose proof (keyed_items m Hb) as Hm. clear Ha Hb.
    revert m E Hm. induction IH as [|x l Hx IHl IHF]; intros [|y m] E Hm; try discriminate E; constructor.
    + apply andb_true_iff in E as [E _]. apply Hx; [apply Hl|apply Hm|done]; by left.
    + apply andb_true_iff in E as [_ E]. apply IHF; [|done|]; intros; [apply Hl|apply Hm]; by right.
  - destruct c as [| | | | | |gs|]; try discriminate E. apply deep_equal_fields in E as [Hlen Hown].
    apply keyed_fields in Ha as [Hfs Hkf]. apply keyed_fields in Hb as [Hgs Hkg].
    set (found := fun kv : jstr * jsval => (kv.1, default VUndef (own gs kv.1))).
    apply (alike_fields fs (found <$> fs) gs).
    + apply Forall2_fmap_r, Forall_Forall2_diag, Forall_forall. intros [k x] Hx. split; [done|]. cbn.
      destruct (Hown k x Hx) as (y & Hy & Hd). rewrite Hy. cbn. rewrite Forall_forall in IH.
      apply (IH (k, x)); [done|by eapply Hkf|apply own_in in Hy; by eapply Hkg|done].
    + apply submseteq_length_Permutation; [|by rewrite length_fmap, Hlen]. apply NoDup_submseteq.
      * apply (NoDup_fmap_1 fst). by rewrite <- list_fmap_compose.
      * intros ? ([k x] & -> & Hx)%list_elem_of_fmap. destruct (Hown k x Hx) as (y & Hy & _). unfold found. cbn. rewrite Hy.
        by apply own_in.
Qed.

Lemma alike_deep_equal a b : keyed b = true -> alike a b -> deep_equal a b = true.
Proof.
  revert b. induction a as [| | | | |l IH|fs IH|] using jsval_induct; intros c Hb Hs; inversion Hs as [? ? E|? m Hf|? gs hs Hf Hp]; subst; try done.
  - pose proof (keyed_items m Hb) as Hm. clear Hb Hs. cbn [deep_equal].
    revert IH. induction Hf as [|x y l m Hxy Hf IHf]; [done|]. intros [Hx IH]%Forall_cons. apply andb_true_iff. split.
    + apply Hx; [apply Hm; by left|done].
    + apply IHf; [|done]. intros z Hz. apply Hm. by right.
  - apply keyed_fields in Hb as [Hd Hk]. apply deep_equal_fields. split.
    + rewrite <- (Permutation_length Hp). by eapply Forall2_length.
    + intros k x [i Hi]%list_elem_of_lookup. destruct (Forall2_lookup_l _ _ _ _ _ Hf Hi) as ([k' y] & Hy & Hkk & Hxy).
      cbn in *. subst k'. apply list_elem_of_lookup_2 in Hi, Hy. rewrite Hp in Hy. exists y. split; [by apply in_own|].
      rewrite Forall_forall in IH. apply (IH (k, x)); [done|by eapply Hk|done].
Qed.

(** ** Differences *)

Section Compare.
Context `{NumPrinter} `{ApiCompare}.

Lemma compare_ok source destination c : compareOpenApi source destination = Ok c ->
  differences c = apiCompare source destination /\
  qualifiesLegacySecurityMetadataCorrection source destination = Ok (securityMetadataCorrection c) /\
  forall d, d ∈ blockingDifferences c <-> d ∈ apiCompare source destination /\ blocking (securityMetadataCorrection c) d = true.
Proof. unfold compareOpenApi. intros E. inv_script. split_and!; [done|done|]. intros d. apply elem_of_lfilter. Qed.

(** The difference is at a part of the contract that says who may call it. *)
Definition touches_reserved (d : ContractDifference) : Prop := exists item, item ∈ difference_path d /\ is_one_of RESERVED item = true.

(** An addition the correction of the legacy metadata stands for. *)
Definition metadata_addition (d : ContractDifference) : Prop :=
  action d = js "add" /\
  (difference_path d = [VStr "components"; VStr "securitySchemes"] \/
   exists operation, path_item d 0 = VStr "paths" /\
     upper_text (to_string (path_item d 2)) ++ 32%N :: to_string (path_item d 1) = js operation /\
     (path_item d 3 = VStr "security" /\ operation ∈ AUTHENTICATED_OPERATIONS \/
      path_item d 3 = VStr "parameters" /\ operation ∈ MUTATION_OPERATIONS)).

Lemma deep_equal_str v s : deep_equal v (VStr s) = true <-> v = VStr s.
Proof. destruct v as [| | |[]|t| | |]; cbn; try done. rewrite str_eqb_eq. naive_solver. Qed.
Lemma deep_equal_scheme_path path :
  deep_equal (VArr path) (VArr [VStr "components"; VStr "securitySchemes"]) = true <->
  path = [VStr "components"; VStr "securitySchemes"].
Proof.
  destruct path as [|x [|y [|z l]]]; try done; cbn [deep_equal].
  - by rewrite andb_false_r.
  - rewrite !andb_true_iff, !deep_equal_str. naive_solver.
  - by rewrite !andb_false_r.
Qed.

Lemma named_in_elem l s : named_in l s = true <-> exists n, n ∈ l /\ js n = s.
Proof. unfold named_in. rewrite existsb_elem. by setoid_rewrite str_eqb_eq. Qed.

Lemma legacy_metadata d : isLegacySecurityMetadataDifference d = true <-> metadata_addition d.
Proof.
  unfold isLegacySecurityMetadataDifference, metadata_addition. destruct (str_eqb (action d) "add") eqn:Ea; cbn [negb].
  2:{ apply str_eqb_neq in Ea. split; [done|by intros [? _]]. }
  apply str_eqb_eq in Ea. destruct (deep_equal (VArr _) _) eqn:Es.
  { apply deep_equal_scheme_path in Es. by split; auto. }
  assert (difference_path d <> [VStr "components"; VStr "securitySchemes"]) as Hne by (intros Hx%deep_equal_scheme_path; congruence).
  destruct (strict_eq (path_item d 0) (VStr "paths")) eqn:Ep; cbn [negb].
  - apply strict_eq_str in Ep. rewrite orb_true_iff, !andb_true_iff, !strict_eq_str, !named_in_elem. split.
    + intros [(Hs & n & Hn & E)|(Hs & n & Hn & E)]; (split; [done|]); right; exists n; split_and!; auto.
    + intros (_ & [?|(n & _ & E & [(Hs & Hn)|(Hs & Hn)])]); [done|left; eauto 10|right; eauto 10].
  - split; [done|]. intros (_ & [?|(n & E & _)]); [done|]. by rewrite E in Ep.
Qed.

Lemma reserved_violates d : touches_reserved d -> violatesTraxCompatibilityPolicy d = true.
Proof.
  intros (item & Hi & Hr). unfold violatesTraxCompatibilityPolicy.
  rewrite (proj2 (existsb_elem (is_one_of RESERVED) (difference_path d))); [done|eauto].
Qed.

(** *** The correction of the legacy metadata *)

(** What a session may read and what it may change, as method and path. *)
Definition session_reads : list (string * string) :=
  [("get", "/api/v1/auth/session"); ("get", "/api/v1/journeys"); ("get", "/api/v1/journeys/{journey_id}");
   ("get", "/api/v1/journeys/{journey_id}/segments"); ("get", "/api/v1/journeys/{journey_id}/packing")].
Definition session_writes : list (string * string) :=
  [("post", "/api/v1/auth/logout"); ("post", "/api/v1/commands/journey.update"); ("post", "/api/v1/journeys");
   ("put", "/api/v1/journeys/{journey_id}"); ("delete", "/api/v1/journeys/{journey_id}");
   ("post", "/api/v1/journeys/{journey_id}/segments");
   ("put", "/api/v1/journeys/{journey_id}/segments/{segment_id}");
   ("post", "/api/v1/journeys/{journey_id}/segments/{segment_id}/reorder");
   ("delete", "/api/v1/journeys/{journey_id}/segments/{segment_id}");
   ("post", "/api/v1/journeys/{journey_id}/packing");
   ("put", "/api/v1/journeys/{journey_id}/packing/{item_id}");
   ("put", "/api/v1/journeys/{journey_id}/packing/{item_id}/progress");
   ("delete", "/api/v1/journeys/{journey_id}/packing/{item_id}")].
Definition operation_at (document : jsval) (mp : string * string) : jsval :=
  prop (prop (prop document "paths") (js mp.2)) (js mp.1).

(** The parameters of an operation; a text stands for its characters. *)
Inductive lists_parameters (operation : jsval) : list jsval -> Prop :=
| lists_none : prop operation "parameters" = VUndef \/ prop operation "parameters" = VNull -> lists_parameters operation []
| lists_array l : prop operation "parameters" = VArr l -> lists_parameters operation l
| lists_text s : prop operation "parameters" = VStr s -> lists_parameters operation (VStr <$> ModuleBoundaries.code_points s).

(** An operation before and after it was brought under the session cookie. *)
Record secured (before after : jsval) : Prop := {
  se_there : truthy before = true /\ truthy after = true;
  se_open : prop before "security" = VUndef;
  se_session : alike (prop after "security") (VArr [VObj [(js "SessionCookie", VArr [])]]);
  se_new : forall l p, prop before "parameters" = VArr l -> p ∈ l -> ~ alike p CSRF_PARAMETER;
}.
Definition read_corrected (before after : jsval) : Prop :=
  secured before after /\
  alike (or_empty (prop after "parameters")) (or_empty (prop before "parameters")).
Definition write_corrected (before after : jsval) : Prop :=
  secured before after /\
  exists l, lists_parameters before l /\ alike (or_empty (prop after "parameters")) (VArr (l ++ [CSRF_PARAMETER])).

(** The session scheme is the only one and is new, the session is new on every
    operation of a session, and the CSRF token on each that changes
    something. *)
Record legacy_correction (source destination : jsval) : Prop := {
  lc_unsecured : prop (prop source "components") "securitySchemes" = VUndef;
  lc_scheme : alike (prop (prop destination "components") "securitySchemes") (VObj [(js "SessionCookie", SESSION_SCHEME)]);
  lc_reads : forall mp, mp ∈ session_reads -> read_corrected (operation_at source mp) (operation_at destination mp);
  lc_writes : forall mp, mp ∈ session_writes -> write_corrected (operation_at source mp) (operation_at destination mp);
}.

Lemma all_corrected_ok source destination operations :
  all_corrected source destination operations = Ok true ->
  Forall (fun key => operation_corrected source destination key = Ok true) operations.
Proof.
  induction operations as [|key operations IH]; intros E; [constructor|]. cbn in E.
  destruct (operation_corrected source destination key) as [[|]|] eqn:Ek; try discriminate E. constructor; auto.
Qed.

Lemma undefined_eq v : defined v = false -> v = VUndef.
Proof. by destruct v. Qed.
Lemma hasCsrf_none operation l p : hasCsrfParameter operation = false ->
  prop operation "parameters" = VArr l -> p ∈ l -> ~ alike p CSRF_PARAMETER.
Proof.
  unfold hasCsrfParameter. intros E Hl Hp Ha%alike_deep_equal; [|done]. rewrite Hl in E.
  apply not_true_iff_false in E. apply E. apply existsb_elem. by exists p.
Qed.
Lemma keyed_or_empty v : keyed v = true -> keyed (or_empty v) = true.
Proof. by destruct v. Qed.
Lemma keyed_snoc l p : keyed (VArr l) = true -> keyed p = true -> keyed (VArr (l ++ [p])) = true.
Proof. cbn. rewrite forallb_app. cbn. by intros -> ->. Qed.
Lemma keyed_texts (l : list jstr) : keyed (VArr (VStr <$> l)) = true.
Proof. by induction l. Qed.

Section Corrected.
Context (source destination : jsval) (Hks : keyed source = true) (Hkd : keyed destination = true).

Lemma keyed_operation document key : keyed document = true -> keyed (findOperation document key) = true.
Proof. intros Hk. unfold findOperation. by apply keyed_prop, keyed_prop, keyed_prop. Qed.

Lemma operation_corrected_ok key : operation_corrected source destination key = Ok true ->
  let before := findOperation source key in
  let after := findOperation destination key in
  if existsb (String.eqb key) MUTATION_OPERATIONS then write_corrected before after else read_corrected before after.
Proof.
  cbv zeta. unfold operation_corrected. pose proof (keyed_operation source key Hks) as Hb.
  pose proof (keyed_operation destination key Hkd) as Ha.
  set (before := findOperation source key) in *. set (after := findOperation destination key) in *. clearbody before after.
  destruct (_ || _) eqn:Eg; [done|]. apply orb_false_iff in Eg as [[[Ht%negb_false_iff Hu%negb_false_iff]%orb_false_iff Ho]%orb_false_iff Hs%negb_false_iff].
  apply undefined_eq in Ho. apply deep_equal_alike in Hs; [|by apply keyed_prop|done].
  assert (hasCsrfParameter before = false -> secured before after) as Hsec.
  { intros Hc. split; [done..|]. intros l p. by apply hasCsrf_none. }
  pose proof (keyed_or_empty _ (keyed_prop after "parameters" Ha)) as Hkp.
  pose proof (keyed_prop before "parameters" Hb) as Hkb.
  destruct (existsb _ _); intros E.
  - apply bind_Ok in E as (expected & (l & Hl & [= <-])%bind_Ok & [= [Hc%negb_true_iff Hd]%andb_true_iff]).
    split; [by apply Hsec|]. exists l. split.
    + destruct (prop before "parameters") eqn:Ep; cbn in Hl; try discriminate Hl; injection Hl as <-;
        first [by apply lists_none; auto|by apply lists_array|by apply lists_text].
    + apply deep_equal_alike; [done| |done]. apply keyed_snoc; [|done].
      destruct (prop before "parameters"); cbn in Hl; try discriminate Hl; injection Hl as <-; try done. apply keyed_texts.
  - cbn [mbind outcome_bind] in E. injection E as [Hc%negb_true_iff Hd]%andb_true_iff.
    split; [by apply Hsec|]. apply deep_equal_alike; [done| |done]. by apply keyed_or_empty.
Qed.

Lemma qualifies_correction :
  qualifiesLegacySecurityMetadataCorrection source destination = Ok true -> legacy_correction source destination.
Proof.
  unfold qualifiesLegacySecurityMetadataCorrection. destruct (_ || _) eqn:Eg; [done|].
  apply orb_false_iff in Eg as [Hu%undefined_eq Hs%negb_false_iff]. intros Hall%all_corrected_ok.
  assert (Forall (fun key => let before := findOperation source key in let after := findOperation destination key in
    if existsb (String.eqb key) MUTATION_OPERATIONS then write_corrected before after else read_corrected before after)
    AUTHENTICATED_OPERATIONS) as Hops by (eapply Forall_impl; [exact Hall|apply operation_corrected_ok]).
  clear Hall. unfold AUTHENTICATED_OPERATIONS in Hops. apply Forall_app in Hops as [Hr Hw]. split; [done| | |].
  - apply deep_equal_alike; [by apply keyed_prop, keyed_prop|done|done].
  - intros mp Hin. repeat (apply Forall_cons in Hr as [? Hr]).
    repeat (apply elem_of_cons in Hin as [-> | Hin]; [assumption|]). by apply elem_of_nil in Hin.
  - intros mp Hin. unfold MUTATION_OPERATIONS in Hw. repeat (apply Forall_cons in Hw as [? Hw]).
    repeat (apply elem_of_cons in Hin as [-> | Hin]; [assumption|]). by apply elem_of_nil in Hin.
Qed.
End Corrected.

(** C29: let a comparison of two contracts, neither with an object that has a
    key twice, pass.  Then it has no change of the security metadata, the
    servers, the operation ids or the command types but additions of the
    session and CSRF metadata to the operations that need them, and these only
    when the base had no security scheme and the candidate has the session
    cookie alone; when on every one of the 18 operations of a session the base
    had no security and the candidate has the session; and when the
    parameters of each of the 13 that change something are those of the base
    with the CSRF token appended, those of the other 5 as they were, and none
    had the CSRF token before. *)
Theorem security_changes_block source destination c d :
  keyed source = true -> keyed destination = true ->
  compareOpenApi source destination = Ok c -> blockingDifferences c = [] ->
  d ∈ apiCompare source destination -> touches_reserved d ->
  metadata_addition d /\ legacy_correction source destination.
Proof.
  intros Hks Hkd E Hb Hd Ht. apply compare_ok in E as (_ & Hq & Hall).
  assert (blocking (securityMetadataCorrection c) d = false) as Hn.
  { destruct (blocking _ d) eqn:Eb; [|done]. assert (d ∈ blockingDifferences c) as Hin by (by apply Hall). rewrite Hb in Hin.
    by apply elem_of_nil in Hin. }
  unfold blocking in Hn. rewrite (reserved_violates d Ht), orb_true_r in Hn. cbn [andb] in Hn.
  apply negb_false_iff, andb_true_iff in Hn as [Hc Hl]. rewrite Hc in Hq. apply legacy_metadata in Hl.
  split; [done|]. by apply qualifies_correction.
Qed.
End Compare.

(** ** Witnesses *)

Module CompatibilityWitnesses.
#[local] Instance no_numbers : NumPrinter := fun _ => [].

(** A document whose keys hold both units a pointer escapes. *)
Definition small_document : jsval :=
  VObj [(js "paths", VObj [(js "/v1/~me", VArr [VNull; VObj [(js "get", VBool true)]])])].

Lemma small_place : follows small_document [js "paths"; js "/v1/~me"; js "1"; js "get"] (VBool true).
Proof. repeat (eapply follows_key; [vm_compute; reflexivity|]). constructor. Qed.

Lemma pointer_roundtrip_witness :
  pointer_of [js "paths"; js "/v1/~me"; js "1"; js "get"] = js "#/paths/~1v1~1~0me/1/get" /\
  resolvesLocalReference small_document (js "#/paths/~1v1~1~0me/1/get") = true.
Proof.
  split; [vm_compute; reflexivity|].
  apply (pointer_roundtrip small_document (js "paths") [js "/v1/~me"; js "1"; js "get"] (VBool true)); [|apply small_place].
  repeat constructor.
Defined.

(** A contract before and after the correction of its security metadata. *)
Definition operations_of (read write : jsval) : jsval :=
  VObj ((fun path => (js path, VObj [(js "get", read); (js "post", write); (js "put", write); (js "delete", write)])) <$>
    ["/api/v1/auth/logout"; "/api/v1/auth/session"; "/api/v1/commands/journey.update"; "/api/v1/journeys";
     "/api/v1/journeys/{journey_id}"; "/api/v1/journeys/{journey_id}/segments";
     "/api/v1/journeys/{journey_id}/segments/{segment_id}"; "/api/v1/journeys/{journey_id}/segments/{segment_id}/reorder";
     "/api/v1/journeys/{journey_id}/packing"; "/api/v1/journeys/{journey_id}/packing/{item_id}";
     "/api/v1/journeys/{journey_id}/packing/{item_id}/progress"]).

Definition legacy_contract : jsval := VObj [(js "paths", operations_of (VObj []) (VObj []))].
Definition corrected_contract : jsval :=
  VObj [(js "components", VObj [(js "securitySchemes", VObj [(js "SessionCookie", SESSION_SCHEME)])]);
        (js "paths", operations_of (VObj [(js "security", SESSION_SECURITY)])
                       (VObj [(js "parameters", VArr [CSRF_PARAMETER]); (js "security", SESSION_SECURITY)]))].

Definition security_added : ContractDifference :=
  {| difference_type := js "breaking"; action := js "add"; after := SESSION_SECURITY;
     difference_path := [VStr "paths"; VStr "/api/v1/journeys"; VStr "post"; VStr "security"] |}.
Definition security_removed : ContractDifference :=
  {| difference_type := js "breaking"; action := js "remove"; after := VUndef;
     difference_path := [VStr "paths"; VStr "/api/v1/journeys"; VStr "post"; VStr "security"] |}.

(** A comparison that tells the two contracts apart by their first key. *)
#[local] Instance compare_security : ApiCompare := fun source destination =>
  match defined (prop source "components"), defined (prop destination "components") with
  | false, true => [security_added]
  | true, false => [security_removed]
  | _, _ => []
  end.

Lemma security_changes_block_witness :
  exists c, compareOpenApi legacy_contract corrected_contract = Ok c /\ blockingDifferences c = [] /\
    metadata_addition security_added /\ legacy_correction legacy_contract corrected_contract.
Proof.
  eexists. split; [vm_compute; reflexivity|]. split; [reflexivity|].
  refine (security_changes_block legacy_contract corrected_contract _ security_added _ _ _ _ _ _).
  - vm_compute. reflexivity.
  - vm_compute. reflexivity.
  - vm_compute. reflexivity.
  - reflexivity.
  - vm_compute. left.
  - exists (VStr "security"). split; [do 3 right; left|reflexivity].
Defined.

Definition versioned (contract : jsval) : jsval :=
  match contract with VObj fs => VObj ((js "openapi", VStr "3.1.0") :: fs) | _ => contract end.

(** The way back is a difference that blocks, and the run says so. *)
Example security_taken_away :
  main [] [js "new"; js "old"]
    (fun path => Ok (versioned (if str_eqb path "new" then corrected_contract else legacy_contract))) =
  (1, [js "Contract compatibility failed with 1 breaking or unclassified difference(s):";
       js "- breaking: remove /paths/~1api~1v1~1journeys/post/security"]).
Proof. vm_compute. reflexivity. Qed.

(** The contract of the repository is one the check reads. *)
Lemma repository_contract_loads path : loadOpenApi path (Ok openapi_document) = Ok openapi_document.
Proof.
  destruct (loadOpenApi path (Ok openapi_document)) as [d|] eqn:E; [|vm_compute in E; discriminate E].
  unfold loadOpenApi in E. inv_script. symmetry. exact Ha.
Qed.
End CompatibilityWitnesses.
