(* ===== verification/ThreatReports.v ===== *)
(** Checks that collect what they find: [scripts/check-threat-model.mjs], its
    diagnostics and the checks of single values.  A report is what a check
    returns and the diagnostics it pushed; reading a property of [undefined],
    or a file that cannot be read, stops the run. *)
From S2P Require Export Regex JsDate ModuleBoundaries.
#[local] Open Scope Z_scope.

Record Diagnostic := {
  code : jstr;
  diagnostic_path : jstr;
  message : jstr;
}.

Inductive report (A : Type) : Type :=
| Reported (a : A) (errors : list Diagnostic)
| Stopped (e : ScriptError).
Arguments Reported {A} a errors.
Arguments Stopped {A} e.

#[export] Instance report_ret : MRet report := fun A a => Reported a [].
#[export] Instance report_bind : MBind report := fun A B f m =>
  match m with
  | Reported a found =>
      match f a with Reported b more => Reported b (found ++ more) | Stopped e => Stopped e end
  | Stopped e => Stopped e
  end.

Definition push (code : string) (path message : jstr) : report () :=
  Reported () [{| code := js code; diagnostic_path := path; message := message |}].
Definition push_when (b : bool) (code : string) (path message : jstr) : report () :=
  if b then push code path message else mret ().
Definition run {A} (m : script A) : report A := match m with Ok a => mret a | Throw e => Stopped e end.

Fixpoint check_each {A} (f : A -> report ()) (l : list A) : report () :=
  match l with [] => mret () | x :: l => _ ← f x; check_each f l end.
Definition check_each_at {A} (f : Z -> A -> report ()) (l : list A) : report () := check_each (fun '(i, x) => f i x) (indexed l).

(** ** What stays silent

    A run with no diagnostics is what every theorem about the check is about:
    each of its parts returned and found nothing. *)

Definition silent {A} (m : report A) (a : A) : Prop := m = Reported a [].

Lemma silent_bind {A B} (m : report A) (f : A -> report B) b :
  silent (m ≫= f) b <-> exists a, silent m a /\ silent (f a) b.
Proof.
  unfold silent. destruct m as [a found|e]; cbn; [|naive_solver]. destruct (f a) as [c more|e] eqn:E.
  - split; [intros [= -> [-> ->]%app_nil]; eauto|]. intros (a' & [= -> ->] & Ha). rewrite E in Ha. by injection Ha as -> ->.
  - split; [done|]. intros (a' & [= -> ->] & Ha). congruence.
Qed.
Lemma silent_ret {A} (a b : A) : silent (mret a) b <-> a = b.
Proof. unfold silent, mret, report_ret. naive_solver. Qed.
Lemma silent_push code path message u : ~ silent (push code path message) u.
Proof. done. Qed.
Lemma silent_when b code path message u : silent (push_when b code path message) u <-> b = false.
Proof. destruct b, u; unfold silent; naive_solver. Qed.
Lemma silent_run {A} (m : script A) a : silent (run m) a <-> m = Ok a.
Proof. unfold silent, run, mret, report_ret. destruct m; naive_solver. Qed.
Lemma silent_check_each {A} (f : A -> report ()) l u : silent (check_each f l) u <-> forall x, x ∈ l -> silent (f x) ().
Proof.
  destruct u. induction l as [|x l IH]; cbn [check_each]; [split; [intros _ ? []%elem_of_nil|done]|].
  rewrite silent_bind. setoid_rewrite IH. setoid_rewrite elem_of_cons. split.
  - intros ([] & H1 & H2) y [->|Hy]; auto.
  - intros H. exists (). auto.
Qed.
Lemma silent_check_each_at {A} (f : Z -> A -> report ()) l u :
  silent (check_each_at f l) u -> forall x, x ∈ l -> exists i, silent (f i x) ().
Proof.
  unfold check_each_at. rewrite silent_check_each. intros H x (i & Hi)%elem_indexed. exists i. apply (H (i, x) Hi).
Qed.

(** Peel a run that found nothing. *)
Ltac inv_silent :=
  repeat match goal with
  | H : silent (_ ≫= _) _ |- _ => apply (proj1 (silent_bind _ _ _)) in H as (? & ? & ?)
  | H : silent (mret _) _ |- _ => apply (proj1 (silent_ret _ _)) in H; try subst
  | H : silent (push _ _ _) _ |- _ => by apply silent_push in H
  | H : silent (push_when _ _ _ _) _ |- _ => apply (proj1 (silent_when _ _ _ _ _)) in H
  | H : silent (run _) _ |- _ => apply (proj1 (silent_run _ _)) in H
  | u : unit |- _ => destruct u
  end.

Section Values.
Context `{NumPrinter}.

Definition as_text (v : jsval) : report jstr := run (template v).

(** [r.test(v ?? "")]: the pattern is tested on the text of the value. *)
Definition tested (r : jstr -> bool) (v : jsval) : report bool :=
  s ← as_text (match v with VUndef | VNull => VStr [] | _ => v end); mret (r s).

Definition isObject (v : jsval) : bool := match v with VObj _ => true | _ => false end.
Definition arrayOrEmpty (v : jsval) : list jsval := match v with VArr l => l | _ => [] end.
Definition non_blank (s : jstr) : bool := 0 <? str_length (trim s).
Definition isNonEmptyString (v : jsval) : bool := match v with VStr s => non_blank s | _ => false end.

Definition requireObject (value : jsval) (path : jstr) : report bool :=
  if isObject value then mret true else _ ← push "REQUIRED_OBJECT" path "must be an object"; mret false.
Definition requireString (value : jsval) (path : jstr) : report bool :=
  if isNonEmptyString value then mret true
  else _ ← push "REQUIRED_STRING" path "must be a non-empty string"; mret false.
Definition requireNullableString (value : jsval) (path : jstr) : report () :=
  push_when (negb (strict_eq value VNull) && negb (isNonEmptyString value)) "NULLABLE_STRING" path
    "must be null or a non-empty string".
Definition requireBoolean (value : jsval) (path : jstr) : report () :=
  push_when (match value with VBool _ => false | _ => true end) "STRICT_BOOLEAN" path "must be a boolean".

Definition requireArray (nonEmpty : bool) (value : jsval) (path : jstr) : report (list jsval) :=
  match value with
  | VArr l => _ ← push_when (nonEmpty && bool_decide (l = [])) "REQUIRED_ARRAY" path "must be non-empty"; mret l
  | _ => _ ← push "REQUIRED_ARRAY" path "must be an array"; mret []
  end.

Definition must_be_one_of (allowed : list string) : jstr := js "must be one of: " ++ join ", " (js <$> allowed).

Fixpoint string_entries (allowed : option (list string)) (path : jstr) (index : Z) (seen : list jstr) (array : list jsval)
    : report () :=
  match array with
  | [] => mret ()
  | entry :: array =>
      match entry with
      | VStr s =>
          if non_blank s then
            _ ← push_when (includes seen s) "DUPLICATE_ARRAY_VALUE" (at_label path index) (js "duplicates " ++ s);
            _ ← match allowed with
                | Some names => push_when (negb (named_in names s)) "INVALID_ENUM" (at_label path index) (must_be_one_of names)
                | None => mret ()
                end;
            string_entries allowed path (index + 1) (s :: seen) array
          else
            _ ← push "ARRAY_STRING" (at_label path index) "must be a non-empty string";
            string_entries allowed path (index + 1) seen array
      | _ =>
          _ ← push "ARRAY_STRING" (at_label path index) "must be a non-empty string";
          string_entries allowed path (index + 1) seen array
      end
  end.

Definition texts_of (l : list jsval) : list jstr := omap (fun v => if isNonEmptyString v then as_string v else None) l.

Definition requireStringArray (nonEmpty : bool) (allowed : option (list string)) (value : jsval) (path : jstr)
    : report (list jstr) :=
  array ← requireArray nonEmpty value path;
  _ ← string_entries allowed path 0 [] array;
  mret (texts_of array).

(** An entry that is no object is [null] in what the code returns. *)
Definition requireObjectArray (nonEmpty : bool) (value : jsval) (path : jstr) : report (list (option jsval)) :=
  array ← requireArray nonEmpty value path;
  _ ← check_each_at (fun index entry => push_when (negb (isObject entry)) "ARRAY_OBJECT" (at_label path index) "must be an object") array;
  mret ((fun entry => if isObject entry then Some entry else None) <$> array).

Definition requireEnumAs (code : string) (value : jsval) (allowed : list string) (path : jstr) : report () :=
  push_when (negb (is_one_of allowed value)) code path (must_be_one_of allowed).
Definition requireEnum := requireEnumAs "INVALID_ENUM".

(** [/^\d{4}-\d{2}-\d{2}$/], and the date is one of the calendar. *)
Definition date_number (digits : jstr) : Z := foldl (fun n c => 10 * n + (Z.of_N c - 48)) 0 digits.
Definition iso_date (s : jstr) : bool :=
  match s with
  | [a; b; c; d; h1; e; f; h2; g; i] =>
      forallb is_digit [a; b; c; d; e; f; g; i] && N.eqb h1 45 && N.eqb h2 45 &&
      let month := date_number [e; f] in
      let day := date_number [g; i] in
      (1 <=? month) && (month <=? 12) && (1 <=? day) && (day <=? days_in_month (date_number [a; b; c; d]) month)
  | _ => false
  end.
(** The text of the value is tested, and the date's text is compared with the
    value itself. *)
Definition isIsoDate (value : jsval) : report bool :=
  _ ← tested (fun _ => true) value; mret (match value with VStr s => iso_date s | _ => false end).
Definition requireIsoDate (value : jsval) (path : jstr) : report () :=
  ok ← isIsoDate value; push_when (negb ok) "ISO_DATE" path "must be a valid YYYY-MM-DD date".
End Values.

(** ** Patterns *)

Definition lit (s : string) : regex := foldr (fun c r => RSeq (RClass (N.eqb c)) r) REps (js s).
Definition plus (p : N -> bool) : regex := RSeq (RClass p) (RStar (RClass p)).
Definition opt (r : regex) : regex := RAlt r REps.
Definition alts (l : list string) : regex := foldr (fun s r => RAlt (lit s) r) REmpty l.
Fixpoint repeat_class (n : nat) (p : N -> bool) : regex :=
  match n with O => REps | S n => RSeq (RClass p) (repeat_class n p) end.
Infix "⋅⋅" := RSeq (at level 40, left associativity).

Definition is_lower (c : N) : bool := ((97 <=? c) && (c <=? 122))%N.
Definition is_alnum (c : N) : bool := is_digit c || is_upper c || is_lower c.
Definition is_word (c : N) : bool := is_alnum c || N.eqb c 95.
Definition upper_digit (c : N) : bool := is_upper c || is_digit c.
(** [[A-Z0-9]+(?:-[A-Z0-9]+)*] *)
Definition dashed : regex := plus upper_digit ⋅⋅ RStar (lit "-" ⋅⋅ plus upper_digit).
Definition decimal : regex := plus is_digit.

Definition DOMAIN_SUFFIXES : list string :=
  ["IDENTITY"; "ACCESS"; "NATIVE"; "SYNC"; "DOCUMENTS"; "ATLAS-MCP"; "SELF-HOSTING"].
Definition numbered (prefix : string) : regex := lit prefix ⋅⋅ alts DOMAIN_SUFFIXES ⋅⋅ lit "-" ⋅⋅ repeat_class 3 is_digit.

Definition ID_PATTERNS : list (string * regex) :=
  [("domains", lit "DOM-" ⋅⋅ alts DOMAIN_SUFFIXES);
   ("owners", lit "OWN-" ⋅⋅ dashed);
   ("boundaries", numbered "TB-");
   ("threats", numbered "TH-");
   ("mitigations", numbered "MIT-");
   ("evidence", lit "EV-" ⋅⋅ dashed);
   ("residualRisks", numbered "RR-");
   ("compatibility", lit "COMPAT-" ⋅⋅ dashed);
   ("reviews", lit "REV-PHASE0-" ⋅⋅ repeat_class 3 is_digit)].

Definition handle_regex : regex :=
  lit "@" ⋅⋅ plus (fun c => is_alnum c || N.eqb c 45) ⋅⋅
  opt (lit "/" ⋅⋅ plus (fun c => is_word c || N.eqb c 46 || N.eqb c 45)).
Definition repository_url : regex := lit "https://github.com/aXeTech-NL/Trax-OS/".
Definition is_hex40 : regex := repeat_class 40 is_lower_hex.
Definition pull_review : regex := lit "pull/" ⋅⋅ decimal ⋅⋅ lit "#pullrequestreview-" ⋅⋅ decimal.

Definition HANDLE : jstr -> bool := regex_test handle_regex.
Definition REPOSITORY_URL : jstr -> bool :=
  regex_test (repository_url ⋅⋅ alts ["issues"; "pull"; "actions"; "commit"; "tree"; "blob"] ⋅⋅ lit "/" ⋅⋅ plus (fun c => negb (is_space c))).
Definition EVIDENCE_REFERENCE : jstr -> bool :=
  regex_test (repository_url ⋅⋅
    RAlt (lit "actions/runs/" ⋅⋅ decimal ⋅⋅ opt (lit "/job/" ⋅⋅ decimal))
      (RAlt (lit "pull/" ⋅⋅ decimal ⋅⋅ opt (lit "#pullrequestreview-" ⋅⋅ decimal)) (lit "commit/" ⋅⋅ is_hex40))).
Definition REVIEW_REFERENCE : jstr -> bool := regex_test (repository_url ⋅⋅ pull_review).
Definition ISSUE_URL : jstr -> bool := regex_test (repository_url ⋅⋅ lit "issues/" ⋅⋅ decimal).
Definition COMMIT : jstr -> bool := regex_test is_hex40.
Definition SEMVER : jstr -> bool := regex_test (decimal ⋅⋅ lit "." ⋅⋅ decimal ⋅⋅ lit "." ⋅⋅ decimal).
Definition AUTHOR_ID : jstr -> bool := regex_test (lit "AUTH-" ⋅⋅ dashed).

(** [content.includes(s)], and a search from every place of a text: [before]
    is the unit in front of it. *)
Fixpoint contains (content s : jstr) : bool :=
  startsWith content s || match content with [] => false | _ :: content => contains content s end.
Fixpoint search {A} (f : option N -> jstr -> option A) (before : option N) (s : jstr) : option A :=
  match f before s with
  | Some a => Some a
  | None => match s with [] => None | c :: s => search f (Some c) s end
  end.

(** The [i] flag folds ASCII letters only: a letter outside ASCII never folds
    to one inside it. *)
Definition fold_unit (c : N) : N := if is_upper c then (c + 32)%N else c.
Definition fold_case (s : jstr) : jstr := fold_unit <$> s.
Definition word_at (c : option N) : bool := match c with Some c => is_word c | None => false end.
Definition whole_word (word : jstr) (before : option N) (s : jstr) : bool :=
  negb (word_at before) && startsWith s word && negb (word_at (drop (length word) s !! 0%nat)).

(** [/\b(?:TODO|TBD|FIXME)\b|example\.com/i] *)
Definition PLACEHOLDER (s : jstr) : bool :=
  bool_decide (is_Some (search (fun before s =>
    if existsb (fun word => whole_word (js word) before s) ["todo"; "tbd"; "fixme"] || startsWith s "example.com" then Some () else None)
    None (fold_case s))).
