(* ===== verification/ThreatReferences.v ===== *)
(** What a threat register may refer to: [scripts/check-threat-model.mjs],
    files of the repository with their anchors, commits, dates and the
    entities of the register itself.  The file system and git are operations
    of a workspace. *)
From S2P Require Export ThreatReports.
#[local] Open Scope Z_scope.

(** [realpathSync] gives [None] where it throws; [isFile] is
    [statSync(path).isFile()]; [cat_file] and [git_show] are git's answers,
    [None] for a status that is not 0, and [parse_json] is [JSON.parse],
    [None] where it throws. *)
Class Workspace := {
  realpathSync : jstr -> option jstr;
  isFile : jstr -> script bool;
  readFileSync : jstr -> script jstr;
  cat_file : jstr -> bool;
  is_shallow : option jstr;
  git_show : jstr -> option jstr;
  parse_json : jstr -> option jsval;
}.

(** The tables of Unicode: [toLowerCase], and [\p{L}] or [\p{N}] of a code
    point. *)
Class UnicodeTables := {
  lowercase : jstr -> jstr;
  letter_or_number : N -> bool;
}.

(** ** Markdown *)

(** The code points of a text; a surrogate that has no partner is one. *)
Fixpoint code_points_of (s : jstr) : list (N * jstr) :=
  match s with
  | [] => []
  | h :: s1 =>
      match s1 with
      | l :: s2 =>
          if is_high h && is_low l then ((65536 + (h - 55296) * 1024 + (l - 56320))%N, [h; l]) :: code_points_of s2
          else (h, [h]) :: code_points_of s1
      | [] => [(h, [h])]
      end
  end.

(** [s.replace(/\s+/g, "-").replace(/-+/g, "-")] *)
Fixpoint collapse (p : N -> bool) (inside : bool) (s : jstr) : jstr :=
  match s with
  | [] => []
  | c :: s => if p c then (if inside then collapse p true s else 45%N :: collapse p true s) else c :: collapse p false s
  end.

Definition slug_kept `{UnicodeTables} (c : N) : bool := letter_or_number c || is_space c || N.eqb c 45.
Definition githubSlug `{UnicodeTables} (text : jstr) : jstr :=
  let plain := List.filter (fun c => negb (N.eqb c 8217 || N.eqb c 39)) (lowercase (trim text)) in
  let kept := code_points_of plain ≫= fun '(c, units) => if slug_kept c then units else [] in
  collapse (N.eqb 45) false (collapse is_space false kept).

Definition line_end (c : N) : bool := N.eqb c 10 || N.eqb c 13 || N.eqb c 8232 || N.eqb c 8233.

(** [\s*#*\s*$] *)
Fixpoint drop_while (p : N -> bool) (s : jstr) : jstr :=
  match s with [] => [] | c :: t => if p c then drop_while p t else s end.
Definition only_closing (s : jstr) : bool := bool_decide (trimStart (drop_while (N.eqb 35) (trimStart s)) = []).

(** The shortest [.+?] in front of that, what is taken so far in reverse. *)
Fixpoint heading_text (taken s : jstr) : option jstr :=
  match s with
  | [] => None
  | c :: s =>
      if line_end c then None
      else if only_closing s then Some (reverse (c :: taken)) else heading_text (c :: taken) s
  end.

(** [\s+] takes as much as lets the rest match. *)
Fixpoint after_spaces (s : jstr) : option jstr :=
  match s with
  | c :: s =>
      if is_space c then match after_spaces s with Some t => Some t | None => heading_text [] s end else None
  | [] => None
  end.

(** [/^(#{1,6})\s+(.+?)\s*#*\s*$/.exec(line)?.[2]] *)
Definition heading (line : jstr) : option jstr :=
  let rest := drop_while (N.eqb 35) line in
  let level := Z.of_nat (length line - length rest) in
  if (1 <=? level) && (level <=? 6) then after_spaces rest else None.

(** How often a slug was seen, and the anchors so far. *)
Fixpoint anchors_of `{UnicodeTables} (seen : list jstr) (lines : list jstr) : list jstr :=
  match lines with
  | [] => []
  | line :: lines =>
      match heading line with
      | None => anchors_of seen lines
      | Some title =>
          let base := githubSlug title in
          let count := Z.of_nat (length (List.filter (str_eqb base) seen)) in
          (if count =? 0 then base else base ++ 45%N :: print_int count) :: anchors_of (base :: seen) lines
      end
  end.
Definition markdownAnchors `{UnicodeTables} (content : jstr) : list jstr := anchors_of [] (split_lines content).

(** ** Entities and files *)

(** The kind of an entity is the name of its array. *)
Record Entity := { type : jstr; value_of : jsval }.
Abbreviation Entities := (gmap jstr Entity).


(** [path.split(/[\\/]/)] *)
Definition path_parts (path : jstr) : list jstr := str_split ((fun c => if N.eqb c 92 then 47%N else c) <$> path) "/".
Definition escapes (relation : jstr) : bool := startsWith relation "../" || str_eqb relation "..".

Section References.
Context `{NumPrinter} `{UnicodeTables} `{Workspace} (root : jstr).

Definition resolveRegularFile (relativePath : jsval) (path : jstr) : report (option jstr) :=
  match relativePath with
  | VStr p =>
      if negb (non_blank p) then _ ← push "REFERENCE_PATH" path "must be a repository-relative path"; mret None
      else if isAbsolute p || includes (path_parts p) ".." then
        _ ← push "REFERENCE_TRAVERSAL" path "must not be absolute or traverse outside the repository"; mret None
      else
        let candidate := resolve root p in
        if escapes (relative root candidate) then _ ← push "REFERENCE_TRAVERSAL" path "escapes the repository"; mret None
        else
          match realpathSync root, realpathSync candidate with
          | Some realRoot, Some realCandidate =>
              if escapes (relative realRoot realCandidate) then
                _ ← push "REFERENCE_SYMLINK_ESCAPE" path "resolves outside the repository"; mret None
              else
                file ← run (isFile realCandidate);
                if file : bool then mret (Some realCandidate)
                else _ ← push "REFERENCE_NOT_FILE" path "must resolve to a regular file"; mret None
          | _, _ => _ ← push "REFERENCE_MISSING" path (js "does not exist: " ++ p); mret None
          end
  | _ => _ ← push "REFERENCE_PATH" path "must be a repository-relative path"; mret None
  end.

(** [reference.k !== undefined && !isNonEmptyString(reference.k)] *)
Definition optional_string (code : string) (value : jsval) (path : jstr) : report () :=
  push_when (defined value && negb (isNonEmptyString value)) code path "must be a non-empty string".

(** [if (isNonEmptyString(v) && !test(v)) push(...)] *)
Definition unless_found (value : jsval) (test : jstr -> bool) (code : string) (path : jstr) (missing : jstr) : report () :=
  match value with
  | VStr s => push_when (non_blank s && negb (test s)) code path (missing ++ s)
  | _ => mret ()
  end.

Definition validateRepositoryReference (artifact : bool) (reference : jsval) (path : jstr) : report () :=
  ok ← requireObject reference path;
  if negb ok then mret ()
  else if negb (strict_eq (prop reference "kind") (VStr "repository")) then
    push "REFERENCE_KIND" (dotted path "kind")
      (if artifact then js "artifact kind must be repository" else js "must be repository or issue-or-review")
  else
    let anchor := prop reference "anchor" in
    let selector := prop reference "selector" in
    file ← resolveRegularFile (prop reference "path") (dotted path "path");
    _ ← optional_string "REFERENCE_ANCHOR_TYPE" anchor (dotted path "anchor");
    _ ← optional_string "REFERENCE_SELECTOR_TYPE" selector (dotted path "selector");
    _ ← push_when (artifact && negb (isNonEmptyString selector)) "ARTIFACT_SELECTOR" (dotted path "selector")
          "artifact requires an exact selector";
    match file with
    | None => mret ()
    | Some file =>
        content ← run (readFileSync file);
        _ ← unless_found anchor (includes (markdownAnchors content)) "REFERENCE_ANCHOR" (dotted path "anchor") "missing Markdown anchor #";
        unless_found selector (contains content) "REFERENCE_SELECTOR" (dotted path "selector") "missing selector "
    end.

Definition validateReference (reference : jsval) (path : jstr) : report () :=
  if negb (isObject reference) then push "REFERENCE_REQUIRED" path "must be an object"
  else if strict_eq (prop reference "kind") (VStr "repository") then validateRepositoryReference false reference path
  else if strict_eq (prop reference "kind") (VStr "issue-or-review") then
    ok ← tested REPOSITORY_URL (prop reference "url");
    push_when (negb ok) "REFERENCE_URL" (dotted path "url") "must be an immutable or tracked Trax OS GitHub URL"
  else push "REFERENCE_KIND" (dotted path "kind") "must be repository or issue-or-review".

Definition validateReferences (references : jsval) (path : jstr) : report () :=
  array ← requireObjectArray true references path;
  check_each_at (fun index reference =>
    match reference with Some reference => validateReference reference (at_label path index) | None => mret () end) array.

(** ** Commits *)

Definition commit_text (commit : jsval) : report jstr := as_text (match commit with VUndef | VNull => VStr [] | _ => commit end).
(** [git cat-file -e commit^{commit}], for a text of forty digits. *)
Definition repositoryCommitExists (commit : jsval) : report bool :=
  s ← commit_text commit; mret (COMMIT s && cat_file (s ++ js "^{commit}")).
Definition repositoryIsShallow : bool :=
  match is_shallow with Some stdout => str_eqb (trim stdout) "true" | None => false end.

(** A commit that is no commit's name, or none of this repository. *)
Definition require_commit (commit : jsval) (path : jstr) (syntax missing : string) (message : string) : report bool :=
  ok ← tested COMMIT commit;
  if negb ok then _ ← push syntax path message; mret false
  else
    exists_ ← repositoryCommitExists commit;
    if negb exists_ then _ ← push missing path "must exist in this repository"; mret false else mret true.

(** ** The entities of the register *)

Definition ENTITY_ARRAYS : list string :=
  ["domains"; "owners"; "boundaries"; "threats"; "mitigations"; "evidence"; "residualRisks"; "compatibility"; "reviews"].

Definition id_pattern (arrayName : string) (id : jstr) : bool :=
  match List.find (fun p => String.eqb p.1 arrayName) ID_PATTERNS with Some (_, r) => regex_test r id | None => false end.

Fixpoint add_entries (arrayName : string) (index : Z) (array : list (option jsval)) (byId : Entities) : report Entities :=
  match array with
  | [] => mret byId
  | None :: array => add_entries arrayName (index + 1) array byId
  | Some entry :: array =>
      let path := dotted (at_label (js "$." ++ js arrayName) index) "id" in
      byId ← match prop entry "id" with
             | VStr id =>
                 if negb (non_blank id) then _ ← push "ENTITY_ID" path "must be a non-empty ID"; mret byId
                 else if negb (id_pattern arrayName id) then
                   _ ← push "ENTITY_ID_PATTERN" path (js "has invalid " ++ js arrayName ++ js " ID syntax"); mret byId
                 else match byId !! id with
                      | Some _ => _ ← push "DUPLICATE_ID" path (js "duplicates " ++ id); mret byId
                      | None => mret (<[id := {| type := js arrayName; value_of := entry |}]> byId)
                      end
             | _ => _ ← push "ENTITY_ID" path "must be a non-empty ID"; mret byId
             end;
      add_entries arrayName (index + 1) array byId
  end.

Fixpoint add_arrays (model : jsval) (names : list string) (byId : Entities) : report Entities :=
  match names with
  | [] => mret byId
  | arrayName :: names =>
      array ← requireObjectArray true (prop model arrayName) (js "$." ++ js arrayName);
      byId ← add_entries arrayName 0 array byId;
      add_arrays model names byId
  end.

Definition entityMap (model : jsval) : report Entities :=
  add_arrays model ENTITY_ARRAYS
    (match prop model "modelId" with
     | VStr id => if non_blank id then {[ id := {| type := js "model"; value_of := model |} ]} else ∅
     | _ => ∅
     end).

(** [byId.get(id)?.value] *)
Definition entity (byId : Entities) (id : jsval) : option jsval :=
  match id with VStr s => value_of <$> byId !! s | _ => None end.
(** [byId.get(id)?.value.k] *)
Definition entity_prop (byId : Entities) (id : jsval) (k : jstr) : jsval :=
  match entity byId id with Some v => prop v k | None => VUndef end.

Definition requireReference (byId : Entities) (id : jsval) (expectedType : option string) (path : jstr) : report () :=
  match id with
  | VStr s =>
      match (if non_blank s then byId !! s else None) with
      | None => push "DANGLING_ID" path (js "references unknown ID " ++ s)
      | Some e =>
          match expectedType with
          | Some t => push_when (negb (str_eqb (type e) t)) "WRONG_ID_TYPE" path (s ++ js " is not a " ++ js t ++ js " ID")
          | None => mret ()
          end
      end
  | _ => shown ← as_text id; push "DANGLING_ID" path (js "references unknown ID " ++ shown)
  end.

Definition requireIdArray (byId : Entities) (value : jsval) (expectedType : option string) (path : jstr) : report (list jstr) :=
  idsValue ← requireStringArray true None value path;
  _ ← check_each_at (fun index id => requireReference byId (VStr id) expectedType (at_label path index)) idsValue;
  mret idsValue.
End References.
