(* ===== verification/ThreatModel.v ===== *)
(** The checks of a threat register: [scripts/check-threat-model.mjs], section
    by section in its order, up to the closure of a review. *)
From S2P Require Export ThreatReferences.
#[local] Open Scope Z_scope.

(** ** The rubric *)

Definition RISK_LIKELIHOOD : list (jstr * jsval) :=
  [(js "unlikely", VNum (NInt 1)); (js "possible", VNum (NInt 2)); (js "likely", VNum (NInt 3))].
Definition RISK_IMPACT : list (jstr * jsval) :=
  [(js "limited", VNum (NInt 1)); (js "serious", VNum (NInt 2)); (js "severe", VNum (NInt 3)); (js "critical", VNum (NInt 4))].
Definition RISK_VALUES : list (string * list (jstr * jsval)) := [("likelihood", RISK_LIKELIHOOD); ("impact", RISK_IMPACT)].
Definition RATING_BANDS : jsval :=
  VObj [(js "low", VStr "1-2"); (js "medium", VStr "3-4"); (js "high", VStr "6-8"); (js "critical", VStr "9-12")].

Definition METHODOLOGY_CATEGORIES : list string :=
  ["spoofing"; "tampering"; "repudiation"; "information-disclosure"; "denial-of-service"; "elevation-of-privilege";
   "privacy"; "abuse"; "supply-chain"].
Definition CAPABILITY : list string := ["implemented"; "partial"; "not-implemented"].
Definition DELIVERY_STATUS : list string := ["designed"; "implemented"; "integrated"; "validated"].
Definition SECURITY_PROPERTIES : list string :=
  ["confidentiality"; "integrity"; "availability"; "authenticity"; "authorization"; "accountability"; "privacy"; "safety";
   "recoverability"].
Definition CURRENT_INTEGRATED_CONTROLS : list string :=
  ["MIT-IDENTITY-001"; "MIT-IDENTITY-002"; "MIT-ACCESS-001"; "MIT-ACCESS-002"].
Definition REQUIRED_COMPATIBILITY : list string :=
  ["authenticated-web"; "android"; "macos-arm64"; "api-contract"; "command-contract"; "mcp-contract"; "sync-contract";
   "self-hosted"; "managed-cloud"].
Definition REQUIRED_DOMAINS : list jstr := (fun suffix => js "DOM-" ++ js suffix) <$> DOMAIN_SUFFIXES.

(** [String(n).padStart(3, "0")] for [n] below a thousand. *)
Definition pad3 (n : Z) : jstr := let s := print_int n in replicate (3 - length s) 48%N ++ s.
Definition ids (domain : string) (count : nat) : list jstr :=
  (fun index => js "TB-" ++ js domain ++ js "-" ++ pad3 (Z.of_nat index + 1)) <$> seq 0 count.
Definition REQUIRED_BOUNDARIES : list jstr :=
  ids "IDENTITY" 5 ++ ids "ACCESS" 5 ++ ids "NATIVE" 5 ++ ids "SYNC" 5 ++ ids "DOCUMENTS" 6 ++ ids "ATLAS-MCP" 8 ++
  ids "SELF-HOSTING" 9.
Definition expectedPartial : list string := ["TB-IDENTITY-001"; "TB-IDENTITY-002"; "TB-ACCESS-001"; "TB-ACCESS-002"].

Record Risk := { score : jsnum; rating : jstr }.

(** A value that is found but is no number came from the prototype: the
    product is [NaN], and no comparison with it holds. *)
Definition rating_of (score : Z) : jstr :=
  if score <=? 2 then js "low" else if score <=? 4 then js "medium" else if score <=? 8 then js "high" else js "critical".
Definition risk_of (likelihoodValue impactValue : jsval) : Risk :=
  match likelihoodValue, impactValue with
  | VNum (NInt l), VNum (NInt i) => {| score := NInt (l * i); rating := rating_of (l * i) |}
  | _, _ => {| score := NNaN; rating := js "critical" |}
  end.

(** [/Likelihood (?:remains (unlikely|possible|likely)|falls from (?:...) to
    (...))/] from one place on; the first name that fits. *)
Definition first_name (names : list string) (s : jstr) : option jstr :=
  js <$> List.find (fun name => startsWith s (js name)) names.
Definition after_text (prefix : string) (s : jstr) : option jstr :=
  if startsWith s (js prefix) then Some (drop (length (js prefix)) s) else None.
(** After [falls from]: a name, [ to ], a name. *)
Definition fall_to (names : list string) (s : jstr) : option jstr :=
  head (omap (fun name => rest ← after_text name s; rest ← after_text " to " rest; first_name names rest) names).
Definition stated (subject : string) (names : list string) (s : jstr) : option jstr :=
  rest ← after_text subject s;
  match (after_text " remains " rest ≫= first_name names) with
  | Some name => Some name
  | None => after_text " falls from " rest ≫= fall_to names
  end.
Definition LIKELIHOODS : list string := ["unlikely"; "possible"; "likely"].
Definition IMPACTS : list string := ["limited"; "serious"; "severe"; "critical"].
Definition RATINGS : list string := ["low"; "medium"; "high"; "critical"].

(** [/residual (?:risk )?(?:is|remains) (low|medium|high|critical)/i], in a
    text whose letters are folded. *)
Definition stated_rating (s : jstr) : option jstr :=
  rest ← after_text "residual " s;
  let rests := match after_text "risk " rest with Some r => [r; rest] | None => [rest] end in
  head (omap (fun rest => head (omap (fun verb => after_text verb rest ≫= first_name RATINGS) ["is "; "remains "])) rests).

(** [undefined] when the text does not say. *)
Definition or_undefined (s : option jstr) : jsval := match s with Some s => VStr s | None => VUndef end.

Section Model.
Context `{NumPrinter} `{UnicodeTables} `{Workspace} (root : jstr).

(** [RISK_VALUES.likelihood[likelihood]]: the key is the text of the value. *)
Definition expectedRisk (likelihood impact : jsval) : report (option Risk) :=
  likelihood ← as_text likelihood;
  impact ← as_text impact;
  let likelihoodValue := get RISK_LIKELIHOOD likelihood in
  let impactValue := get RISK_IMPACT impact in
  mret (if negb (truthy likelihoodValue) || negb (truthy impactValue) then None
        else Some (risk_of likelihoodValue impactValue)).

Definition validateRisk (risk : jsval) (path : jstr) : report () :=
  ok ← requireObject risk path;
  if negb ok then mret ()
  else
    expected ← expectedRisk (prop risk "likelihood") (prop risk "impact");
    match expected with
    | None => push "RISK_ENUM" path "has an invalid likelihood or impact"
    | Some e =>
        push_when (negb (strict_eq (prop risk "score") (VNum (score e))) || negb (strict_eq (prop risk "rating") (VStr (rating e))))
          "RISK_CALCULATION" path (js "must have score " ++ num_string (score e) ++ js " and rating " ++ rating e)
    end.

Definition contradiction (value : jsval) (said : option jstr) (what : string) (path : jstr) : report () :=
  if strict_eq (or_undefined said) value then mret ()
  else
    typed ← as_text value;
    push "RATIONALE_RISK_CONTRADICTION" path
      (js "states " ++ to_string (or_undefined said) ++ js " " ++ js what ++ js " but typed value is " ++ typed).

Definition validateRationaleAlignment (rationale : jstr) (risk : jsval) (path : jstr) : report () :=
  if negb (non_blank rationale) || negb (isObject risk) then mret ()
  else
    _ ← contradiction (prop risk "likelihood") (search (fun _ => stated "Likelihood" LIKELIHOODS) None rationale) "likelihood" path;
    _ ← contradiction (prop risk "impact") (search (fun _ => stated "Impact" IMPACTS) None rationale) "impact" path;
    match search (fun _ => stated_rating) None (fold_case rationale) with
    | Some residualRating => contradiction (prop risk "rating") (Some residualRating) "residual rating" path
    | None => mret ()
    end.

(** ** Texts *)

Fixpoint collectStrings (value : jsval) (path : jstr) : list (jstr * jstr) :=
  match value with
  | VStr s => [(s, path)]
  | VArr l =>
      (fix items (l : list jsval) (index : Z) : list (jstr * jstr) :=
         match l with [] => [] | entry :: l => collectStrings entry (at_label path index) ++ items l (index + 1) end) l 0
  | VObj fs =>
      (fix entries (fs : list (jstr * jsval)) : list (jstr * jstr) :=
         match fs with [] => [] | (key, entry) :: fs => collectStrings entry (dotted path key) ++ entries fs end) fs
  | _ => []
  end.

(** ** Evidence *)

(** [value === null || value === undefined] *)
Definition nullish (v : jsval) : bool := match v with VUndef | VNull => true | _ => false end.

Definition validateArtifact (required : bool) (artifact : jsval) (path : jstr) : report () :=
  if nullish artifact then push_when required "ARTIFACT_REQUIRED" path "requires a repository artifact"
  else validateRepositoryReference root true artifact path.

Definition validateExecution (execution : jsval) (path : jstr) (expectedResult : jsval) : report () :=
  ok ← requireObject execution path;
  if negb ok then mret ()
  else
    _ ← require_commit (prop execution "commit") (dotted path "commit") "EXECUTION_COMMIT" "EXECUTION_COMMIT_MISSING"
          "must be a 40-character lowercase commit";
    _ ← requireIsoDate (prop execution "executedAt") (dotted path "executedAt");
    _ ← requireString (prop execution "environment") (dotted path "environment");
    _ ← requireEnum (prop execution "result") ["passed"; "failed"] (dotted path "result");
    _ ← (if truthy expectedResult && negb (strict_eq (prop execution "result") expectedResult) then
           shown ← as_text expectedResult;
           push "EXECUTION_RESULT" (dotted path "result") (js "must match evidence status " ++ shown)
         else mret ());
    ok ← tested EVIDENCE_REFERENCE (prop execution "immutableReference");
    push_when (negb ok) "EXECUTION_REFERENCE" (dotted path "immutableReference")
      "must be a Trax OS Actions run/job, PR/review or commit reference".

Definition validateEvidence (byId : Entities) (evidence : jsval) (path : jstr) : report () :=
  let status := prop evidence "status" in
  _ ← requireEnumAs "EVIDENCE_KIND" (prop evidence "kind") ["automated"; "manual"] (dotted path "kind");
  _ ← requireEnumAs "EVIDENCE_SCOPE" (prop evidence "scope") ["design"; "control"; "compatibility"] (dotted path "scope");
  _ ← requireEnumAs "EVIDENCE_STATUS" status ["planned"; "available"; "passed"; "failed"] (dotted path "status");
  _ ← requireString (prop evidence "claim") (dotted path "claim");
  _ ← requireString (prop evidence "procedure") (dotted path "procedure");
  _ ← requireIdArray byId (prop evidence "coverageIds") None (dotted path "coverageIds");
  _ ← requireReference byId (prop evidence "ownerId") (Some "owners") (dotted path "ownerId");
  _ ← requireStringArray true None (prop evidence "limitations") (dotted path "limitations");
  _ ← (if defined (prop evidence "reopeningTriggers")
       then _ ← requireStringArray true None (prop evidence "reopeningTriggers") (dotted path "reopeningTriggers"); mret ()
       else mret ());
  _ ← requireNullableString (prop evidence "trackingIssue") (dotted path "trackingIssue");
  let relatedTrackingIssues := prop evidence "relatedTrackingIssues" in
  related ← requireStringArray false None (if nullish relatedTrackingIssues then VArr [] else relatedTrackingIssues)
              (dotted path "relatedTrackingIssues");
  let tracking := List.filter truthy (prop evidence "trackingIssue" :: (VStr <$> related)) in
  _ ← push_when (strict_eq status (VStr "planned") && bool_decide (tracking = [])) "PLANNED_TRACKING" path
        "planned evidence requires a tracking issue";
  _ ← check_each_at (fun index url =>
        ok ← tested ISSUE_URL url;
        push_when (negb ok) "TRACKING_URL" (at_label (dotted path "tracking") index) "must be a Trax OS issue URL") tracking;
  _ ← validateArtifact (is_one_of ["available"; "passed"; "failed"] status) (prop evidence "artifact") (dotted path "artifact");
  if is_one_of ["passed"; "failed"] status then validateExecution (prop evidence "execution") (dotted path "execution") status
  else push_when (negb (strict_eq (prop evidence "execution") VNull)) "FALSE_ATTESTATION" (dotted path "execution")
         "planned/available evidence execution must be null".

(** ** The register as a whole *)

Definition model_header (model : jsval) : report () :=
  _ ← check_each (fun field => _ ← requireString (prop model (js field)) (dotted "$" (js field)); mret ())
        ["schemaVersion"; "modelId"; "modelVersion"; "modelStatus"; "title"; "issue"; "overviewPath"];
  ok ← tested SEMVER (prop model "schemaVersion");
  _ ← push_when (negb ok) "SCHEMA_VERSION" "$.schemaVersion" "must be semantic version syntax";
  ok ← tested SEMVER (prop model "modelVersion");
  _ ← push_when (negb ok) "MODEL_VERSION" "$.modelVersion" "must be semantic version syntax";
  _ ← push_when (negb (strict_eq (prop model "modelId") (VStr "TM-PHASE0-001"))) "MODEL_ID" "$.modelId" "must be TM-PHASE0-001";
  _ ← requireEnumAs "MODEL_STATUS" (prop model "modelStatus") DELIVERY_STATUS "$.modelStatus";
  ok ← tested ISSUE_URL (prop model "issue");
  push_when (negb ok) "MODEL_ISSUE" "$.issue" "must be a Trax OS issue URL".

(** In a shallow clone a reference to the commit stands for the commit. *)
Definition baseline_commit (baseline : jsval) : report () :=
  let commit := prop baseline "commit" in
  let path := js "$.architectureBaseline.commit" in
  ok ← tested COMMIT commit;
  if negb ok then push "BASELINE_COMMIT" path "must be a 40-character lowercase commit"
  else
    exists_ ← repositoryCommitExists commit;
    if exists_ : bool then mret ()
    else if negb repositoryIsShallow then push "BASELINE_COMMIT_MISSING" path "must exist in a full repository clone"
    else
      commit ← as_text commit;
      let immutableReference := js "https://github.com/aXeTech-NL/Trax-OS/commit/" ++ commit in
      push_when (negb (existsb (fun reference => strict_eq (prop reference "kind") (VStr "issue-or-review") &&
                                                 strict_eq (prop reference "url") (VStr immutableReference))
                         (arrayOrEmpty (prop baseline "references"))))
        "BASELINE_COMMIT_REFERENCE" "$.architectureBaseline.references" (js "shallow validation requires " ++ immutableReference).

Definition architecture_baseline (model : jsval) : report () :=
  let baseline := prop model "architectureBaseline" in
  ok ← requireObject baseline "$.architectureBaseline";
  if negb ok then mret ()
  else
    _ ← baseline_commit baseline;
    _ ← requireIsoDate (prop baseline "reviewedAt") "$.architectureBaseline.reviewedAt";
    validateReferences root (prop baseline "references") "$.architectureBaseline.references".

(** [JSON.stringify(actual) !== JSON.stringify(expected)] of an object. *)
Definition same_rubric (actual : jsval) (expected : jsval) : bool := str_eqb (json_text actual) (json_text expected).

Fixpoint no_duplicates (l : list jsval) : bool :=
  match l with [] => true | x :: l => negb (existsb (same_value_zero x) l) && no_duplicates l end.

(** [expected] has no value twice. *)
Definition setEquals (values : jsval) (expected : list jsval) : bool :=
  match values with
  | VArr l => (length l =? length expected)%nat && no_duplicates l && forallb (fun v => existsb (same_value_zero v) expected) l
  | _ => false
  end.

Definition methodology_section (model : jsval) : report () :=
  let methodology := prop model "methodology" in
  ok ← requireObject methodology "$.methodology";
  if negb ok then mret ()
  else
    categories ← requireStringArray true None (prop methodology "categories") "$.methodology.categories";
    _ ← push_when (negb (setEquals (VArr (VStr <$> categories)) ((fun c => VStr (js c)) <$> METHODOLOGY_CATEGORIES)))
          "METHODOLOGY_CATEGORIES" "$.methodology.categories" "must declare the complete supported category set exactly once";
    _ ← check_each (fun '(name, expected) =>
          let path := dotted "$.methodology" (js name) in
          ok ← requireObject (prop methodology (js name)) path;
          push_when (ok && negb (same_rubric (prop methodology (js name)) (VObj expected))) "METHODOLOGY_RUBRIC" path
            "does not match the enforced rubric") RISK_VALUES;
    ok ← requireObject (prop methodology "ratingBands") "$.methodology.ratingBands";
    _ ← push_when (ok && negb (same_rubric (prop methodology "ratingBands") RATING_BANDS)) "METHODOLOGY_RUBRIC"
          "$.methodology.ratingBands" "does not match the enforced rating bands";
    _ ← requireString (prop methodology "note") "$.methodology.note";
    mret ().
End Model.
