(* ===== verification/ThreatRegister.v ===== *)
(** The entities of a threat register and their links:
    [scripts/check-threat-model.mjs], from the authors to the overview. *)
From S2P Require Export ThreatModel.
#[local] Open Scope Z_scope.

Definition includes_value (l : list jsval) (v : jsval) : bool := existsb (same_value_zero v) l.
Fixpoint set_of (l : list jsval) : list jsval :=
  match l with [] => [] | x :: l => if includes_value l x then set_of l else x :: set_of l end.

(** [entities[name]] *)
Definition entities (model : jsval) (name : string) : list jsval := List.filter isObject (arrayOrEmpty (prop model (js name))).
Definition ids_of (l : list jsval) : list jsval := (fun v => prop v "id") <$> l.
Definition list_prop (v : jsval) (k : jstr) : list jsval := arrayOrEmpty (prop v k).

Section Register.
Context `{NumPrinter} `{UnicodeTables} `{Workspace} (root : jstr).

(** [`$.${name}[${v.id}]`] *)
Definition entity_path (name : string) (v : jsval) : report jstr :=
  id ← as_text (prop v "id"); mret (js "$." ++ js name ++ 91%N :: id ++ [93%N]).

Definition string_field (v : jsval) (path : jstr) (k : string) : report () :=
  _ ← requireString (prop v (js k)) (dotted path (js k)); mret ().
Definition strings_field (v : jsval) (path : jstr) (k : string) : report () :=
  _ ← requireStringArray true None (prop v (js k)) (dotted path (js k)); mret ().

(** [if (v !== null && !r.test(v ?? "")) push(...)] *)
Definition null_or (r : jstr -> bool) (v : jsval) (code : string) (path : jstr) (message : string) : report () :=
  if strict_eq v VNull then mret () else ok ← tested r v; push_when (negb ok) code path message.

(** ** Authors and the closure policy *)

Definition check_author (index : Z) (author : jsval) (authorIds : list jsval) : report (list jsval) :=
  let path := at_label "$.authors" index in
  let id := prop author "id" in
  ok ← tested AUTHOR_ID id;
  authorIds ← (if negb ok then _ ← push "AUTHOR_ID" (dotted path "id") "must be a stable AUTH-* ID"; mret authorIds
               else if includes_value authorIds id then
                 shown ← as_text id; _ ← push "DUPLICATE_ID" (dotted path "id") (js "duplicates " ++ shown); mret authorIds
               else mret (id :: authorIds));
  _ ← requireEnumAs "AUTHOR_KIND" (prop author "kind") ["automation"; "human"] (dotted path "kind");
  _ ← string_field author path "role";
  _ ← (if strict_eq (prop author "kind") (VStr "human") then
         ok ← tested HANDLE (prop author "handle");
         push_when (negb ok) "AUTHOR_HANDLE" (dotted path "handle") "human author requires a GitHub handle"
       else push_when (negb (strict_eq (prop author "handle") VNull)) "AUTHOR_HANDLE" (dotted path "handle")
              "automation author handle must be null");
  mret authorIds.

Fixpoint check_authors (index : Z) (authors : list (option jsval)) (authorIds : list jsval) : report () :=
  match authors with
  | [] => mret ()
  | None :: authors => check_authors (index + 1) authors authorIds
  | Some author :: authors =>
      authorIds ← check_author index author authorIds; check_authors (index + 1) authors authorIds
  end.

Definition closure_policy (model : jsval) : report () :=
  let closurePolicy := prop model "closurePolicy" in
  ok ← requireObject closurePolicy "$.closurePolicy";
  if negb ok then mret ()
  else
    _ ← check_each (fun field => requireBoolean (prop closurePolicy (js field)) (dotted "$.closurePolicy" (js field)))
          ["requiredCodeownerReview"; "reviewerMustNotBeAuthor"; "explicitRiskAuthorityRequired";
           "futureImplementationEvidenceMayRemainPlanned"];
    string_field closurePolicy "$.closurePolicy" "note".

Definition require_all (required : list jstr) (present : list jsval) (code : string) (path : jstr) : report () :=
  check_each (fun id => push_when (negb (includes_value present (VStr id))) code path (js "missing " ++ id)) required.

(** ** The entities, one kind after the other *)

Section Entities.
Context (model : jsval) (byId : Entities).

Definition check_domain (domain : jsval) : report () :=
  path ← entity_path "domains" domain;
  _ ← string_field domain path "title";
  _ ← string_field domain path "description";
  _ ← requireEnum (prop domain "currentCapability") CAPABILITY (dotted path "currentCapability");
  _ ← requireReference byId (prop domain "ownerId") (Some "owners") (dotted path "ownerId");
  _ ← requireIdArray byId (prop domain "boundaryIds") (Some "boundaries") (dotted path "boundaryIds");
  _ ← strings_field domain path "assumptions";
  validateReferences root (prop domain "references") (dotted path "references").

Definition check_registered_owner (owner : jsval) : report () :=
  path ← entity_path "owners" owner;
  _ ← string_field owner path "role";
  _ ← strings_field owner path "accountabilities";
  _ ← requireEnum (prop owner "status") ["proposed"; "confirmed"] (dotted path "status");
  _ ← requireNullableString (prop owner "handle") (dotted path "handle");
  _ ← null_or HANDLE (prop owner "handle") "OWNER_HANDLE" (dotted path "handle") "must be null or a GitHub handle";
  _ ← requireBoolean (prop owner "riskAuthority") (dotted path "riskAuthority");
  if negb (strict_eq (prop owner "confirmationReference") VNull)
  then validateReference root (prop owner "confirmationReference") (dotted path "confirmationReference")
  else push_when (strict_eq (prop owner "status") (VStr "confirmed")) "OWNER_CONFIRMATION" (dotted path "confirmationReference")
         "confirmed owner requires a reference".

Definition check_flow (path : jstr) (index : Z) (flow : option jsval) : report () :=
  match flow with
  | None => mret ()
  | Some flow => check_each (string_field flow (at_label (dotted path "dataFlows") index)) ["direction"; "data"; "channel"; "authority"]
  end.

Definition check_boundary (boundary : jsval) : report () :=
  path ← entity_path "boundaries" boundary;
  _ ← requireReference byId (prop boundary "domainId") (Some "domains") (dotted path "domainId");
  _ ← string_field boundary path "title";
  _ ← string_field boundary path "description";
  _ ← requireEnum (prop boundary "currentCapability") CAPABILITY (dotted path "currentCapability");
  let expected := if is_one_of expectedPartial (prop boundary "id") then js "partial" else js "not-implemented" in
  _ ← push_when (negb (strict_eq (prop boundary "currentCapability") (VStr expected))) "CAPABILITY_OVERCLAIM"
        (dotted path "currentCapability") (js "must be " ++ expected ++ js " for the current repository baseline");
  zones ← requireStringArray true None (prop boundary "trustZones") (dotted path "trustZones");
  _ ← push_when (length zones <? 2)%nat "BOUNDARY_ZONES" (dotted path "trustZones") "requires at least two trust zones";
  _ ← strings_field boundary path "components";
  flows ← requireObjectArray true (prop boundary "dataFlows") (dotted path "dataFlows");
  _ ← check_each_at (check_flow path) flows;
  _ ← strings_field boundary path "assets";
  _ ← requireStringArray false None (prop boundary "assumptions") (dotted path "assumptions");
  _ ← requireIdArray byId (prop boundary "threatIds") (Some "threats") (dotted path "threatIds");
  _ ← requireIdArray byId (prop boundary "compatibilityIds") (Some "compatibility") (dotted path "compatibilityIds");
  validateReferences root (prop boundary "references") (dotted path "references").

(** The texts seen before, in this entity or an earlier one. *)
Fixpoint fresh_conditions (path : jstr) (seen conditions : list jstr) : report (list jstr) :=
  match conditions with
  | [] => mret seen
  | condition :: conditions =>
      _ ← push_when (includes seen condition) "BOILERPLATE_PRECONDITION" (dotted path "preconditions")
            "duplicates another threat precondition";
      fresh_conditions path (condition :: seen) conditions
  end.

(** Every piece of evidence covers the entity that relies on it. *)
Definition evidence_covers (path : jstr) (v : jsval) (evidenceIds : list jstr) : report () :=
  check_each (fun evidenceId =>
    if includes_value (arrayOrEmpty (entity_prop byId (VStr evidenceId) "coverageIds")) (prop v "id") then mret ()
    else
      id ← as_text (prop v "id");
      push "EVIDENCE_COVERAGE" (dotted path "evidenceIds") (evidenceId ++ js " does not cover " ++ id)) evidenceIds.

Definition check_threat (seen : list jstr) (threat : jsval) : report (list jstr) :=
  path ← entity_path "threats" threat;
  linkedBoundaries ← requireIdArray byId (prop threat "boundaryIds") (Some "boundaries") (dotted path "boundaryIds");
  _ ← check_each (fun boundaryId =>
        push_when (negb (includes_value (arrayOrEmpty (entity_prop byId (VStr boundaryId) "threatIds")) (prop threat "id")))
          "THREAT_BOUNDARY_MISMATCH" (dotted path "boundaryIds") (boundaryId ++ js " does not link back")) linkedBoundaries;
  _ ← string_field threat path "scenario";
  _ ← requireEnumAs "THREAT_CATEGORY" (prop threat "category") METHODOLOGY_CATEGORIES (dotted path "category");
  conditions ← requireStringArray true None (prop threat "preconditions") (dotted path "preconditions");
  seen ← fresh_conditions path seen conditions;
  _ ← strings_field threat path "affectedAssets";
  _ ← requireStringArray true (Some SECURITY_PROPERTIES) (prop threat "securityProperties") (dotted path "securityProperties");
  _ ← validateRisk (prop threat "inherentRisk") (dotted path "inherentRisk");
  _ ← requireIdArray byId (prop threat "mitigationIds") (Some "mitigations") (dotted path "mitigationIds");
  _ ← requireReference byId (prop threat "ownerId") (Some "owners") (dotted path "ownerId");
  evidenceIds ← requireIdArray byId (prop threat "evidenceIds") (Some "evidence") (dotted path "evidenceIds");
  _ ← evidence_covers path threat evidenceIds;
  _ ← requireReference byId (prop threat "residualRiskId") (Some "residualRisks") (dotted path "residualRiskId");
  _ ← validateReferences root (prop threat "references") (dotted path "references");
  mret seen.

Fixpoint check_threats (seen : list jstr) (threats : list jsval) : report () :=
  match threats with
  | [] => mret ()
  | threat :: threats => seen ← check_threat seen threat; check_threats seen threats
  end.

Definition relies_on (mitigation threat : jsval) : bool := includes_value (list_prop threat "mitigationIds") (prop mitigation "id").

(** Passed control evidence that covers the control and one of its threats or
    of their domains. *)
Definition applicable_passed (mitigation : jsval) (evidenceId : jstr) : bool :=
  let relatedThreats := List.filter (relies_on mitigation) (entities model "threats") in
  let relatedDomains := (fun id => entity_prop byId id "domainId") <$> (relatedThreats ≫= fun threat => list_prop threat "boundaryIds") in
  let evidence := VStr evidenceId in
  let coverage := arrayOrEmpty (entity_prop byId evidence "coverageIds") in
  strict_eq (entity_prop byId evidence "status") (VStr "passed") &&
  strict_eq (entity_prop byId evidence "scope") (VStr "control") &&
  includes_value coverage (prop mitigation "id") &&
  (existsb (fun threat => includes_value coverage (prop threat "id")) relatedThreats ||
   existsb (includes_value coverage) relatedDomains).

Definition check_mitigation (mitigation : jsval) : report () :=
  path ← entity_path "mitigations" mitigation;
  let status := prop mitigation "implementationStatus" in
  _ ← string_field mitigation path "title";
  _ ← string_field mitigation path "control";
  _ ← requireEnum (prop mitigation "controlType") ["preventive"; "detective"; "corrective"; "recovery"] (dotted path "controlType");
  _ ← requireEnum status DELIVERY_STATUS (dotted path "implementationStatus");
  _ ← requireReference byId (prop mitigation "ownerId") (Some "owners") (dotted path "ownerId");
  evidenceIds ← requireIdArray byId (prop mitigation "evidenceIds") (Some "evidence") (dotted path "evidenceIds");
  _ ← evidence_covers path mitigation evidenceIds;
  _ ← validateReferences root (prop mitigation "references") (dotted path "references");
  _ ← strings_field mitigation path "limitations";
  _ ← strings_field mitigation path "reopeningTriggers";
  _ ← push_when (strict_eq status (VStr "validated") && negb (existsb (applicable_passed mitigation) evidenceIds))
        "VALIDATED_WITHOUT_EVIDENCE" path "validated control requires applicable passed control evidence";
  push_when (strict_eq status (VStr "integrated") &&
             (negb (is_one_of CURRENT_INTEGRATED_CONTROLS (prop mitigation "id")) ||
              existsb (fun threat => existsb (fun id => negb (is_one_of expectedPartial id)) (list_prop threat "boundaryIds"))
                (List.filter (relies_on mitigation) (entities model "threats"))))
    "CONTROL_OVERCLAIM" (dotted path "implementationStatus")
    "only the four current Personal auth/access controls may be integrated".

Definition check_rationale (path : jstr) (rationales : list jstr) (risk : jsval) (rationale : jstr) : report (list jstr) :=
  let path := dotted path "rationale" in
  _ ← push_when ((str_length rationale <? 180) || negb (contains rationale "Likelihood") || negb (contains rationale "Impact"))
        "RESIDUAL_RATIONALE" path "must state remaining exposure and explain likelihood and impact";
  _ ← push_when (includes rationales rationale) "BOILERPLATE_RATIONALE" path "duplicates another residual rationale";
  _ ← validateRationaleAlignment rationale (prop risk "postControlRisk") path;
  mret (rationale :: rationales).

Definition ACCEPTANCE_FIELDS : list string := ["scope"; "statement"; "acceptedBy"; "acceptedAt"; "reviewId"; "reference"].

Definition check_acceptance (path : jstr) (risk : jsval) : report () :=
  let acceptance := prop risk "acceptance" in
  if strict_eq (prop risk "disposition") (VStr "accepted") then
    ok ← requireObject acceptance (dotted path "acceptance");
    if ok : bool then check_each (string_field acceptance (dotted path "acceptance")) ACCEPTANCE_FIELDS else mret ()
  else push_when (negb (strict_eq acceptance VNull)) "FALSE_RISK_ACCEPTANCE" (dotted path "acceptance")
         "non-accepted risk must have null acceptance".

Definition check_risk (rationales : list jstr) (risk : jsval) : report (list jstr) :=
  path ← entity_path "residualRisks" risk;
  _ ← requireReference byId (prop risk "threatId") (Some "threats") (dotted path "threatId");
  _ ← requireReference byId (prop risk "ownerId") (Some "owners") (dotted path "ownerId");
  _ ← validateRisk (prop risk "postControlRisk") (dotted path "postControlRisk");
  _ ← requireString (prop risk "rationale") (dotted path "rationale");
  rationales ← match prop risk "rationale" with
               | VStr s => if non_blank s then check_rationale path rationales risk s else mret rationales
               | _ => mret rationales
               end;
  _ ← requireStringArray false None (prop risk "affectedAssumptions") (dotted path "affectedAssumptions");
  _ ← requireEnum (prop risk "disposition") ["pending"; "accepted"; "rejected"; "mitigate-before-closure"] (dotted path "disposition");
  _ ← requireEnum (prop risk "acceptanceScope") ["phase-0-design"; "implemented-control"] (dotted path "acceptanceScope");
  _ ← strings_field risk path "reopeningTriggers";
  _ ← check_acceptance path risk;
  mret rationales.

Fixpoint check_risks (rationales : list jstr) (risks : list jsval) : report () :=
  match risks with
  | [] => mret ()
  | risk :: risks => rationales ← check_risk rationales risk; check_risks rationales risks
  end.

Definition check_compatibility (entry : jsval) : report () :=
  path ← entity_path "compatibility" entry;
  _ ← requireEnum (prop entry "target") REQUIRED_COMPATIBILITY (dotted path "target");
  _ ← string_field entry path "currentState";
  _ ← string_field entry path "impact";
  _ ← string_field entry path "migrationImpact";
  _ ← requireEnum (prop entry "status") DELIVERY_STATUS (dotted path "status");
  _ ← requireIdArray byId (prop entry "affectedBoundaryIds") (Some "boundaries") (dotted path "affectedBoundaryIds");
  validateReferences root (prop entry "references") (dotted path "references").

Definition REVIEW_TYPES : list string := ["architecture-security"; "privacy"; "residual-risk"].

Definition check_review (review : jsval) : report () :=
  path ← entity_path "reviews" review;
  _ ← requireStringArray true (Some REVIEW_TYPES) (prop review "reviewTypes") (dotted path "reviewTypes");
  _ ← requireEnum (prop review "status") ["pending"; "approved"; "changes-requested"] (dotted path "status");
  _ ← requireNullableString (prop review "reviewer") (dotted path "reviewer");
  _ ← null_or HANDLE (prop review "reviewer") "REVIEWER_HANDLE" (dotted path "reviewer") "must be null or a GitHub handle";
  _ ← check_each (fun k => requireNullableString (prop review (js k)) (dotted path (js k)))
        ["reviewedModelVersion"; "reviewedCommit"; "reviewedAt"; "immutableReference"];
  _ ← null_or SEMVER (prop review "reviewedModelVersion") "REVIEW_VERSION" (dotted path "reviewedModelVersion")
        "must be null or semantic version syntax";
  _ ← (if strict_eq (prop review "reviewedCommit") VNull then mret true
       else require_commit (prop review "reviewedCommit") (dotted path "reviewedCommit") "REVIEW_COMMIT" "REVIEW_COMMIT_MISSING"
              "must be null or 40 lowercase hex characters");
  _ ← (if strict_eq (prop review "reviewedAt") VNull then mret () else requireIsoDate (prop review "reviewedAt") (dotted path "reviewedAt"));
  _ ← null_or REVIEW_REFERENCE (prop review "immutableReference") "REVIEW_REFERENCE" (dotted path "immutableReference")
        "must be null or an immutable Trax OS pull-request review reference";
  _ ← string_field review path "artifactPath";
  _ ← resolveRegularFile root (prop review "artifactPath") (dotted path "artifactPath");
  covered ← requireStringArray false None (prop review "coveredResidualRiskIds") (dotted path "coveredResidualRiskIds");
  _ ← check_each_at (fun index id =>
        requireReference byId (VStr id) (Some "residualRisks") (at_label (dotted path "coveredResidualRiskIds") index)) covered;
  requireBoolean (prop review "riskAuthorityConfirmed") (dotted path "riskAuthorityConfirmed").

(** ** What refers back *)

Definition domain_links (domain : jsval) : report () :=
  check_each (fun id =>
    let owner := entity_prop byId id "domainId" in
    if strict_eq owner (prop domain "id") then mret ()
    else
      path ← entity_path "domains" domain;
      shown ← as_text id;
      other ← as_text owner;
      push "DOMAIN_BOUNDARY_MISMATCH" path (shown ++ js " belongs to " ++ other)) (list_prop domain "boundaryIds").

Definition boundary_links (boundary : jsval) : report () :=
  check_each (fun id =>
    if includes_value (arrayOrEmpty (entity_prop byId id "boundaryIds")) (prop boundary "id") then mret ()
    else
      path ← entity_path "boundaries" boundary;
      shown ← as_text id;
      push "BOUNDARY_THREAT_MISMATCH" path (shown ++ js " does not link back")) (list_prop boundary "threatIds").

Definition threat_links (threat : jsval) : report () :=
  let id := prop threat "residualRiskId" in
  if strict_eq (entity_prop byId id "threatId") (prop threat "id") then mret ()
  else
    path ← entity_path "threats" threat;
    shown ← as_text id;
    push "THREAT_RISK_MISMATCH" path (shown ++ js " does not link back").

(** The sets of [used], in the order they are looked through. *)
Definition props_of (name : string) (k : jstr) : list jsval := (fun v => prop v k) <$> entities model name.
Definition lists_of (name : string) (k : jstr) : list jsval := entities model name ≫= fun v => list_prop v k.
Definition used : list (string * list jsval) :=
  [("owners", ["domains"; "threats"; "mitigations"; "evidence"; "residualRisks"] ≫= fun name => props_of name "ownerId");
   ("boundaries", lists_of "domains" "boundaryIds");
   ("threats", lists_of "boundaries" "threatIds");
   ("mitigations", lists_of "threats" "mitigationIds");
   ("evidence", list_prop model "designEvidenceIds" ++ lists_of "threats" "evidenceIds" ++ lists_of "mitigations" "evidenceIds");
   ("residualRisks", props_of "threats" "residualRiskId");
   ("compatibility", lists_of "boundaries" "compatibilityIds")].

Definition check_orphans : report () :=
  check_each (fun '(name, referenced) =>
    check_each (fun item =>
      if includes_value referenced (prop item "id") then mret ()
      else path ← entity_path name item; push "ORPHAN_ID" path "is not referenced by the model") (entities model name)) used.

Definition check_entities : report () :=
  _ ← require_all REQUIRED_DOMAINS (ids_of (entities model "domains")) "REQUIRED_DOMAIN" "$.domains";
  _ ← require_all REQUIRED_BOUNDARIES (ids_of (entities model "boundaries")) "REQUIRED_BOUNDARY" "$.boundaries";
  _ ← check_each check_domain (entities model "domains");
  _ ← check_each check_registered_owner (entities model "owners");
  _ ← check_each check_boundary (entities model "boundaries");
  _ ← check_threats [] (entities model "threats");
  _ ← check_each check_mitigation (entities model "mitigations");
  _ ← check_each_at (fun index evidence => validateEvidence root byId evidence (at_label "$.evidence" index)) (entities model "evidence");
  _ ← check_risks [] (entities model "residualRisks");
  _ ← require_all (js <$> REQUIRED_COMPATIBILITY) (props_of "compatibility" "target") "REQUIRED_COMPATIBILITY" "$.compatibility";
  _ ← check_each check_compatibility (entities model "compatibility");
  _ ← check_each check_review (entities model "reviews");
  _ ← requireIdArray byId (prop model "designEvidenceIds") (Some "evidence") "$.designEvidenceIds";
  _ ← check_each domain_links (entities model "domains");
  _ ← check_each boundary_links (entities model "boundaries");
  _ ← check_each threat_links (entities model "threats");
  _ ← check_orphans;
  _ ← check_each (fun category =>
        push_when (negb (includes_value (props_of "threats" "category") (VStr (js category)))) "METHODOLOGY_COVERAGE" "$.threats"
          (js "no threat covers " ++ js category)) METHODOLOGY_CATEGORIES;
  check_each (fun '(value, path) => push_when (PLACEHOLDER value) "PLACEHOLDER" path "contains a placeholder") (collectStrings model "$").
End Entities.
End Register.
