(* ===== verification/ThreatClosure.v ===== *)
(** The closure of a threat register: [scripts/check-threat-model.mjs], the
    overview it is shown in, the approved review it is closed by, and the run
    of the whole check. *)
From S2P Require Export ThreatRegister.
#[local] Open Scope Z_scope.

(** ** The subject of a review *)

(** [delete v.k] *)
Definition without (ks : list string) (v : jsval) : jsval :=
  match v with VObj fs => VObj (List.filter (fun kv => negb (named_in ks kv.1)) fs) | _ => v end.
(** The entries of [v.k] where that is an array. *)
Definition map_entries (k : string) (f : jsval -> jsval) (v : jsval) : jsval :=
  match v with
  | VObj fs => VObj ((fun '(k', x) => (k', match x with VArr l => if str_eqb k' (js k) then VArr (f <$> l) else x | _ => x end)) <$> fs)
  | _ => v
  end.

Definition immutableDesignSubject (model : jsval) : jsval :=
  map_entries "residualRisks" (without ["disposition"; "acceptance"])
    (map_entries "evidence" (fun evidence =>
       if strict_eq (prop evidence "id") (VStr "EV-PHASE0-REVIEW") then without ["status"; "execution"] evidence else evidence)
       (map_entries "owners" (without ["status"; "handle"; "confirmationReference"; "riskAuthority"])
          (without ["modelStatus"; "reviews"] model))).

(** Fields by their keys, as [Object.keys(value).sort()] orders them. *)
Fixpoint insert_field {A} (kv : jstr * A) (l : list (jstr * A)) : list (jstr * A) :=
  match l with
  | [] => [kv]
  | kw :: l => if str_ltb kw.1 kv.1 then kw :: insert_field kv l else kv :: kw :: l
  end.
Definition sort_fields {A} (fs : list (jstr * A)) : list (jstr * A) := foldr insert_field [] fs.


Section Closure.
Context `{NumPrinter}.

(** [undefined], which no JSON text gives, is left out of an array. *)
Fixpoint stableJson (value : jsval) : jstr :=
  match value with
  | VArr l => 91%N :: commas ((fun v => if absent v then [] else stableJson v) <$> l) ++ [93%N]
  | VObj fs =>
      123%N :: commas ((fun '(k, t) => quote k ++ 58%N :: t) <$> sort_fields ((fun '(k, v) => (k, stableJson v)) <$> fs)) ++ [125%N]
  | _ => default (js "undefined") (stringify value)
  end.

Context `{UnicodeTables} `{Workspace} (root : jstr).

(** ** The overview *)

Definition backticks (s : jstr) : jstr := 96%N :: s ++ [96%N].
Definition text_in_backticks (v : jsval) : report jsval := s ← as_text v; mret (VStr (backticks s)).

Fixpoint each_value {A} (f : A -> report (list jsval)) (l : list A) : report (list jsval) :=
  match l with [] => mret [] | x :: l => vs ← f x; more ← each_value f l; mret (vs ++ more) end.

(** The fields of the row, each a list of texts. *)
Definition expectedOverviewLine (boundary threat risk : jsval) (byId : Entities) : report (list (string * list jsval)) :=
  let values v := match v with VArr l => l | _ => [v] end in
  capability ← text_in_backticks (prop boundary "currentCapability");
  threatId ← text_in_backticks (prop threat "id");
  controls ← each_value (fun id => shown ← text_in_backticks id; mret [shown; entity_prop byId id "control"])
               (list_prop threat "mitigationIds");
  evidence ← each_value (fun id =>
               shown ← text_in_backticks id;
               status ← as_text (entity_prop byId id "status");
               mret [shown; VStr (40%N :: status ++ [41%N])]) (list_prop threat "evidenceIds");
  riskId ← text_in_backticks (prop risk "id");
  mret [("title", values (prop boundary "title")); ("capability", [capability]); ("threatId", [threatId]);
        ("scenario", values (prop threat "scenario")); ("controls", controls); ("evidence", evidence); ("riskId", [riskId]);
        ("riskRating", values (prop (prop risk "postControlRisk") "rating")); ("riskDisposition", values (prop risk "disposition"))].

(** [token.replaceAll("|", "\\|")] *)
Definition escape_bars (s : jstr) : jstr := s ≫= fun c => if N.eqb c 124 then [92; 124]%N else [c].

Definition check_token (row path : jstr) (token : jsval) : report () :=
  if match token with VStr s => non_blank s && contains row (escape_bars s) | _ => false end then mret ()
  else shown ← as_text token; push "OVERVIEW_BOUNDARY_DRIFT" path (js "row is missing " ++ shown).

Definition overview_row (lines : list jstr) (byId : Entities) (boundary : jsval) (index : Z) (threatId : jsval) : report () :=
  let threat := default VUndef (entity byId threatId) in
  let risk := default VUndef (entity byId (prop threat "residualRiskId")) in
  if negb (isObject threat) || negb (isObject risk) then mret ()
  else
    path ← entity_path "boundaries" boundary;
    shown ← text_in_backticks (prop boundary "id");
    first ← (if index =? 0 then mret (js "| " ++ text_of shown ++ js " ")
             else id ← text_in_backticks (prop threat "id"); mret (js "| " ++ text_of id ++ js " |"));
    match List.find (fun line => startsWith line first) lines with
    | None =>
        push "OVERVIEW_BOUNDARY_DRIFT" (at_label (dotted path "threatIds") index)
          ((if index =? 0 then js "primary boundary" else js "additional threat") ++ js " row is missing")
    | Some row =>
        _ ← push_when ((0 <? index) && negb (contains row (text_of shown))) "OVERVIEW_BOUNDARY_DRIFT"
              (at_label (dotted path "threatIds") index) "additional threat row is not attached to this boundary";
        expected ← expectedOverviewLine boundary threat risk byId;
        check_each (fun '(name, values) =>
          if (0 <? index) && (String.eqb name "title" || String.eqb name "capability") then mret ()
          else check_each (check_token row (dotted path (js name))) values) expected
    end.

Definition overview_domain (content : jstr) (domain : jsval) : report () :=
  title ← as_text (prop domain "title");
  id ← as_text (prop domain "id");
  path ← entity_path "domains" domain;
  _ ← push_when (negb (contains content (js "### " ++ title ++ js " (" ++ backticks id ++ js ")"))) "OVERVIEW_DOMAIN_DRIFT" path
        "heading/title is missing or stale";
  capability ← as_text (prop domain "currentCapability");
  owner ← as_text (prop domain "ownerId");
  push_when (negb (contains content (js "Current capability: **" ++ capability ++ js "**. Accountable role: " ++ backticks owner ++ js ".")))
    "OVERVIEW_CAPABILITY_DRIFT" path "capability/owner is missing or stale".

Definition count_of (model : jsval) (name : string) : jstr := print_int (Z.of_nat (length (list_prop model (js name)))).
Definition overview_summary (model : jsval) : jstr :=
  count_of model "boundaries" ++ js " trust boundaries, " ++ count_of model "threats" ++ js " threats, " ++
  count_of model "mitigations" ++ js " controls and " ++ count_of model "residualRisks" ++ js " residual-risk records".

Definition validateOverviewParity (model : jsval) (byId : Entities) (overviewContent : option jstr) : report () :=
  path ← resolveRegularFile root (prop model "overviewPath") "$.overviewPath";
  content ← match overviewContent, path with
            | Some content, _ => mret (Some content)
            | None, Some file => content ← run (readFileSync file); mret (Some content)
            | None, None => mret None
            end;
  match content with
  | None => mret ()
  | Some content =>
      _ ← push_when (negb (contains content (overview_summary model))) "OVERVIEW_COUNT_DRIFT" "$.overviewPath"
            (js "must contain " ++ overview_summary model);
      let lines := split_lines content in
      _ ← check_each (overview_domain content) (entities model "domains");
      check_each (fun boundary => check_each_at (overview_row lines byId boundary) (list_prop boundary "threatIds")) (entities model "boundaries")
  end.

(** ** The approved review *)

(** [trimmed.split(/\s+/)] of a text that begins and ends with no space. *)
Fixpoint words (current s : jstr) : list jstr :=
  match s with
  | [] => [reverse current]
  | c :: s =>
      if is_space c then match current with [] => words [] s | _ => reverse current :: words [] s end
      else words (c :: current) s
  end.

Definition codeowners_of (content : jstr) : list jstr :=
  (trim <$> split_lines content) ≫= fun trimmed =>
    if negb (str_truthy trimmed) || startsWith trimmed "#" then [] else List.filter HANDLE (drop 1 (words [] trimmed)).
Definition currentCodeowners : report (list jstr) :=
  content ← run (readFileSync (resolve root ".github/CODEOWNERS")); mret (codeowners_of content).

(** [/\bPending\b|not review evidence|must not be marked passed/i] *)
Definition pending_language (content : jstr) : bool :=
  bool_decide (is_Some (search (fun before s =>
    if whole_word (js "pending") before s || startsWith s "not review evidence" || startsWith s "must not be marked passed"
    then Some () else None) None (fold_case content))).

(** [/^\s*Approved\b/m] *)
Definition says_approved (section : jstr) : bool :=
  bool_decide (is_Some (search (fun before s =>
    if match before with None => true | Some c => line_end c end &&
       startsWith (trimStart s) "Approved" && negb (word_at (drop (length (js "Approved")) (trimStart s) !! 0%nat))
    then Some () else None) None section)).

Definition review_tokens (review : jsval) : report (list jstr) :=
  reviewer ← as_text (prop review "reviewer");
  version ← as_text (prop review "reviewedModelVersion");
  commit ← as_text (prop review "reviewedCommit");
  reference ← as_text (prop review "immutableReference");
  mret [js "**Status:** Approved"; js "**Reviewer:** " ++ reviewer; js "**Model version:** " ++ version;
        js "**Reviewed commit:** " ++ commit; js "**Immutable review reference:** " ++ reference; js "**Risk authority:** Confirmed";
        js "I explicitly confirm that the reviewer is authorized to accept the listed Phase 0 residual risks.";
        js "## Review result"].

Definition validateApprovedReviewArtifact (review : jsval) (path : jstr) : report () :=
  let path := dotted path "artifactPath" in
  file ← resolveRegularFile root (prop review "artifactPath") path;
  match file with
  | None => mret ()
  | Some file =>
      content ← run (readFileSync file);
      _ ← push_when (pending_language content) "CLOSURE_ARTIFACT_PENDING" path
            "approved artifact still contains pending/not-evidence language";
      required ← review_tokens review;
      _ ← check_each (fun token => push_when (negb (contains content token)) "CLOSURE_ARTIFACT_BINDING" path
                               (js "approved artifact is missing " ++ token)) required;
      push_when (negb (says_approved (default [] (str_split content "## Review result" !! 1%nat)))) "CLOSURE_ARTIFACT_RESULT" path
        "review result must explicitly be Approved"
  end.

(** [git show commit:path], parsed. *)
Definition loadModelAtCommit (commit modelPath : jstr) : jstr + jsval :=
  match git_show (commit ++ 58%N :: modelPath) with
  | None => inl (js "reviewed commit does not contain the threat-model register")
  | Some stdout =>
      match parse_json stdout with
      | Some model => inr model
      | None => inl (js "reviewed commit contains an invalid threat-model JSON document")
      end
  end.

Definition check_snapshot (model review : jsval) (path : jstr) : report () :=
  let path := dotted path "reviewedCommit" in
  exists_ ← require_commit (prop review "reviewedCommit") path "CLOSURE_COMMIT" "CLOSURE_COMMIT_MISSING"
              "must be 40 lowercase hex characters";
  if negb exists_ then mret ()
  else
    commit ← as_text (prop review "reviewedCommit");
    match loadModelAtCommit commit "docs/security/phase-0-threat-model.json" with
    | inl error => push "CLOSURE_SNAPSHOT_MISSING" path error
    | inr reviewedSnapshot =>
        version ← run (field reviewedSnapshot "modelVersion");
        _ ← push_when (negb (strict_eq version (prop review "reviewedModelVersion"))) "CLOSURE_SNAPSHOT_VERSION" path
              "snapshot modelVersion does not match approved review";
        push_when (negb (str_eqb (stableJson (immutableDesignSubject reviewedSnapshot)) (stableJson (immutableDesignSubject model))))
          "CLOSURE_SNAPSHOT_DRIFT" path "current immutable design subject differs from the reviewed snapshot"
    end.

(** [for (const [field, value] of Object.entries(expected))] *)
Definition check_binding (code : string) (actual : jsval) (path : jstr) (expected : list (string * jsval)) : report () :=
  check_each (fun '(k, value) =>
    if strict_eq (prop actual (js k)) value then mret ()
    else shown ← as_text value; push code (dotted path (js k)) (js "must equal approved review value " ++ shown)) expected.

Definition accepted (risk : jsval) : bool :=
  strict_eq (prop risk "disposition") (VStr "accepted") && isObject (prop risk "acceptance").

Definition risk_binding (review risk : jsval) : report () :=
  path ← entity_path "residualRisks" risk;
  if negb (accepted risk) then mret ()
  else
    let acceptance := prop risk "acceptance" in
    _ ← check_binding "CLOSURE_RISK_BINDING" acceptance (dotted path "acceptance")
          [("scope", prop risk "acceptanceScope"); ("acceptedBy", prop review "reviewer"); ("acceptedAt", prop review "reviewedAt");
           ("reviewId", prop review "id"); ("reference", prop review "immutableReference")];
    string_field acceptance (dotted path "acceptance") "statement".

Definition MANUAL_PATH : jstr := "$.evidence[EV-PHASE0-REVIEW]".
Definition manual_coverage (model : jsval) : list jsval :=
  set_of (prop model "modelId" ::
          (["domains"; "owners"; "boundaries"; "threats"; "mitigations"; "evidence"; "residualRisks"; "compatibility"] ≫=
             fun name => ids_of (entities model name))).

Definition check_manual (model review : jsval) : report () :=
  let manual := default VUndef (List.find (fun evidence => strict_eq (prop evidence "id") (VStr "EV-PHASE0-REVIEW")) (entities model "evidence")) in
  if negb (strict_eq (prop manual "kind") (VStr "manual")) || negb (strict_eq (prop manual "status") (VStr "passed")) then
    push "CLOSURE_EVIDENCE" MANUAL_PATH "must be passed manual evidence"
  else
    _ ← push_when (negb (setEquals (prop manual "coverageIds") (manual_coverage model))) "CLOSURE_EVIDENCE_COVERAGE"
          (dotted MANUAL_PATH "coverageIds")
          "must exactly cover model, domains, owners, boundaries, threats, controls, evidence, residual risks and compatibility";
    _ ← push_when (negb (strict_eq (prop (prop manual "artifact") "path") (prop review "artifactPath"))) "CLOSURE_EVIDENCE_BINDING"
          (dotted (dotted MANUAL_PATH "artifact") "path") "must equal review artifactPath";
    check_binding "CLOSURE_EVIDENCE_BINDING" (prop manual "execution") (dotted MANUAL_PATH "execution")
      [("commit", prop review "reviewedCommit"); ("executedAt", prop review "reviewedAt");
       ("immutableReference", prop review "immutableReference"); ("result", VStr "passed")].

Definition human_handles (authors : list (option jsval)) : list jsval :=
  authors ≫= fun author =>
    match author with
    | Some a => if strict_eq (prop a "kind") (VStr "human") && negb (strict_eq (prop a "handle") VNull) then [prop a "handle"] else []
    | None => []
    end.

(** [v ?? []] *)
Definition nullish_empty (v : jsval) : jsval := if nullish v then VArr [] else v.

Definition check_approved_review (model : jsval) (authors : list (option jsval)) (review : jsval) : report () :=
  path ← entity_path "reviews" review;
  let reviewer := prop review "reviewer" in
  codeowners ← currentCodeowners;
  _ ← push_when (negb (member codeowners reviewer)) "CLOSURE_CODEOWNER" (dotted path "reviewer") "must be a current CODEOWNER";
  _ ← push_when (includes_value (human_handles authors) reviewer) "CLOSURE_SELF_REVIEW" (dotted path "reviewer")
        "reviewer cannot be a named human author";
  _ ← push_when (negb (strict_eq (prop review "riskAuthorityConfirmed") (VBool true))) "CLOSURE_AUTHORITY"
        (dotted path "riskAuthorityConfirmed") "must be exactly true";
  _ ← push_when (negb (strict_eq (prop review "reviewedModelVersion") (prop model "modelVersion"))) "CLOSURE_VERSION_BINDING"
        (dotted path "reviewedModelVersion") "must equal modelVersion";
  _ ← check_snapshot model review path;
  _ ← requireIsoDate (prop review "reviewedAt") (dotted path "reviewedAt");
  ok ← tested REVIEW_REFERENCE (prop review "immutableReference");
  _ ← push_when (negb ok) "CLOSURE_REFERENCE" (dotted path "immutableReference")
        "must be an immutable Trax OS pull-request review reference";
  _ ← push_when (negb (setEquals (nullish_empty (prop review "reviewTypes")) ((fun t => VStr (js t)) <$> REVIEW_TYPES)))
        "CLOSURE_REVIEW_TYPES" (dotted path "reviewTypes") "must exactly cover architecture-security, privacy and residual-risk";
  _ ← push_when (negb (setEquals (nullish_empty (prop review "coveredResidualRiskIds")) (set_of (ids_of (entities model "residualRisks")))))
        "CLOSURE_RISK_COVERAGE" (dotted path "coveredResidualRiskIds") "must exactly cover every residual risk once";
  _ ← validateApprovedReviewArtifact review path;
  _ ← check_each (risk_binding review) (entities model "residualRisks");
  check_manual model review.

Definition closure_owner (owner : jsval) : report () :=
  if strict_eq (prop owner "id") (VStr "OWN-REPOSITORY-REVIEW") then mret ()
  else
    ok ← (if strict_eq (prop owner "status") (VStr "confirmed")
          then ok ← tested HANDLE (prop owner "handle"); mret (ok && strict_eq (prop owner "riskAuthority") (VBool true))
          else mret false);
    if ok : bool then mret ()
    else path ← entity_path "owners" owner; push "CLOSURE_OWNER" path "requires confirmed named owner with riskAuthority === true".

Definition check_closure (model : jsval) (authors : list (option jsval)) : report () :=
  let status_is s v := strict_eq (prop v "status") (VStr s) in
  _ ← push_when (negb (strict_eq (prop model "modelStatus") (VStr "validated"))) "CLOSURE_STATUS" "$.modelStatus"
        "closure requires validated status";
  _ ← push_when (existsb (status_is "changes-requested") (entities model "reviews")) "CLOSURE_OPEN_FINDINGS" "$.reviews"
        "changes-requested review remains open";
  _ ← push_when (existsb (status_is "failed") (entities model "evidence")) "CLOSURE_FAILED_EVIDENCE" "$.evidence"
        "failed evidence remains open";
  _ ← check_each closure_owner (entities model "owners");
  _ ← check_each (fun risk =>
        if accepted risk then mret ()
        else path ← entity_path "residualRisks" risk; push "CLOSURE_RISK" path "must be explicitly accepted")
        (entities model "residualRisks");
  match List.filter (status_is "approved") (entities model "reviews") with
  | [review] => check_approved_review model authors review
  | _ => push "CLOSURE_REVIEW" "$.reviews" "closure requires exactly one approved review"
  end.

(** ** The run *)

Definition check_model (model : jsval) (closure : bool) (overviewContent : option jstr) : report () :=
  _ ← model_header model;
  _ ← architecture_baseline root model;
  _ ← methodology_section model;
  authors ← requireObjectArray true (prop model "authors") "$.authors";
  _ ← check_authors 0 authors [];
  _ ← closure_policy model;
  byId ← entityMap model;
  _ ← check_entities root model byId;
  _ ← validateOverviewParity model byId overviewContent;
  if closure then check_closure model authors else mret ().

Context `{Collation}.

Definition sort_key (d : Diagnostic) : jstr := diagnostic_path d ++ 58%N :: code d ++ 58%N :: message d.
Definition validateModel (model : jsval) (closure : bool) (overviewContent : option jstr) : script (list Diagnostic) :=
  if negb (isObject model) then
    Ok [{| code := js "REQUIRED_OBJECT"; diagnostic_path := js "$"; message := js "must be an object" |}]
  else
    match check_model model closure overviewContent with
    | Reported _ errors => Ok (sort_collated sort_key errors)
    | Stopped e => Throw e
    end.

Definition formatDiagnostics (errors : list Diagnostic) (source : jstr) : jstr :=
  join [10%N] ((fun d => source ++ js ": " ++ code d ++ js ": " ++ diagnostic_path d ++ js ": " ++ message d) <$> errors).

(** The exit code and what is on the console. *)
Definition runCli (cwd : jstr) (loadModel : jstr -> outcome jstr jsval) (args : list jstr) : script (Z * jstr) :=
  let closure := existsb (str_eqb "--closure") args in
  match List.filter (fun arg => negb (str_eqb arg "--closure")) args with
  | [positional] =>
      match loadModel (resolve cwd positional) with
      | Throw message => Ok (2, js "Unable to read threat model: " ++ message)
      | Ok model =>
          errors ← validateModel model closure None;
          match errors with
          | _ :: _ => Ok (1, formatDiagnostics errors positional)
          | [] =>
              id ← template (prop model "modelId");
              version ← template (prop model "modelVersion");
              Ok (0, js "Threat model " ++ id ++ js " " ++ version ++ js " is structurally complete" ++
                     (if closure then js " and closure-ready" else []) ++ js ".")
          end
      end
  | _ => Ok (2, js "Usage: node scripts/check-threat-model.mjs <register.json> [--closure]")
  end.
End Closure.
