(* ===== verification/ThreatModelSpec.v ===== *)
(** What a threat register that passes is: the checks of single values, the
    map of the entities, and the links between them. *)
From S2P Require Export ThreatClosure.
#[local] Open Scope Z_scope.

Lemma js_inj s s' : js s = js s' -> s = s'.
Proof.
  unfold js. intros H. assert (String.list_ascii_of_string s = String.list_ascii_of_string s') as E.
  { revert H. generalize (String.list_ascii_of_string s'). induction (String.list_ascii_of_string s) as [|a l IH]; intros [|b l']; try done.
    cbn. intros [= Hab Hl]. f_equal; [|by apply IH].
    by rewrite <- (Ascii.ascii_N_embedding a), <- (Ascii.ascii_N_embedding b), Hab. }
  rewrite <- (String.string_of_list_ascii_of_string s), E. apply String.string_of_list_ascii_of_string.
Qed.

(** ** Single values *)

Section Values.
Context `{NumPrinter}.

Lemma silent_object value path ok : silent (requireObject value path) ok <-> ok = true /\ isObject value = true.
Proof. unfold requireObject. destruct (isObject value); [rewrite silent_ret; naive_solver|]. split; [done|naive_solver]. Qed.

Lemma silent_string value path ok : silent (requireString value path) ok <-> ok = true /\ isNonEmptyString value = true.
Proof. unfold requireString. destruct (isNonEmptyString value); [rewrite silent_ret; naive_solver|]. split; [done|naive_solver]. Qed.

Lemma silent_array nonEmpty value path l : silent (requireArray nonEmpty value path) l ->
  value = VArr l /\ (nonEmpty = true -> l <> []).
Proof.
  unfold requireArray. destruct value; try (intros H'; inv_silent; done). intros H'; inv_silent. split; [done|].
  intros ->. cbn in *. by apply bool_decide_eq_false in H0.
Qed.

(** The entries of an array of texts that is accepted. *)
Definition texts (allowed : option (list string)) (value : jsval) (l : list jstr) : Prop :=
  value = VArr (VStr <$> l) /\ NoDup l /\
  Forall (fun s => non_blank s = true /\ match allowed with Some names => named_in names s = true | None => True end) l.

Lemma silent_entries allowed path index seen array u : silent (string_entries allowed path index seen array) u ->
  exists l, array = VStr <$> l /\ NoDup l /\ (forall s, s ∈ l -> s ∉ seen) /\
    Forall (fun s => non_blank s = true /\ match allowed with Some names => named_in names s = true | None => True end) l.
Proof.
  revert index seen. induction array as [|v array IH]; intros index seen Hs; cbn [string_entries] in Hs.
  - exists []. split_and!; [done|constructor| |constructor]. by intros s ?%elem_of_nil.
  - destruct v; try by inv_silent. destruct (non_blank s) eqn:Eb; [|solve [inv_silent]]. inv_silent.
    apply IH in H2 as (l & -> & Hd & Hn & Hf). exists (s :: l).
    assert (s ∉ seen) as Hseen. { intros Hin. unfold includes in H0. apply existsb_str_elem in Hin. congruence. }
    split_and!; [done| | |].
    + constructor; [|done]. intros Hin. apply (Hn s Hin). left.
    + intros s' [->|Hin]%elem_of_cons; [done|]. intros Hin'. apply (Hn s' Hin). by right.
    + constructor; [|done]. split; [done|]. destruct allowed as [names|]; [|done]. inv_silent. by apply negb_false_iff.
Qed.

Lemma texts_of_strings l : Forall (fun s => non_blank s = true) l -> texts_of (VStr <$> l) = l.
Proof. unfold texts_of. induction 1 as [|s l Hs Hl IH]; cbn; [done|]. rewrite Hs. cbn. by rewrite IH. Qed.

Lemma silent_strings nonEmpty allowed value path l : silent (requireStringArray nonEmpty allowed value path) l ->
  texts allowed value l /\ (nonEmpty = true -> l <> []).
Proof.
  unfold requireStringArray. intros Hs. inv_silent. apply silent_array in H0 as [-> Hne]. apply silent_entries in H1 as (l & -> & Hd & _ & Hf).
  rewrite texts_of_strings; [|by eapply Forall_impl; [done|]; intros s [? _]]. split; [done|]. intros E. specialize (Hne E). by destruct l.
Qed.

Lemma silent_objects nonEmpty value path l : silent (requireObjectArray nonEmpty value path) l ->
  exists vs, value = VArr vs /\ l = Some <$> vs /\ Forall (fun v => isObject v = true) vs /\ (nonEmpty = true -> vs <> []).
Proof.
  unfold requireObjectArray. intros Hs. inv_silent. apply silent_array in H0 as [-> Hne]. exists x.
  assert (Forall (fun v => isObject v = true) x) as Hf.
  { apply Forall_forall. intros v Hv. destruct (silent_check_each_at _ _ _ H1 v Hv) as [i Hi]. cbn in Hi. inv_silent. by apply negb_false_iff. }
  split_and!; [done| |done|done]. apply list_fmap_ext. intros i v Hi. rewrite Forall_lookup in Hf. by rewrite (Hf i v Hi).
Qed.

Lemma silent_reference byId id expected path u : silent (requireReference byId id expected path) u ->
  exists s e, id = VStr s /\ byId !! s = Some e /\ match expected with Some t => type e = js t | None => True end.
Proof.
  unfold requireReference. destruct id; try (intros Hs; by inv_silent).
  destruct (non_blank s); [|intros Hs; by inv_silent]. destruct (byId !! s) as [e|] eqn:E; [|intros Hs; by inv_silent].
  intros Hs. exists s, e. split_and!; [done|done|]. destruct expected; [|done]. inv_silent. by apply negb_false_iff, str_eqb_eq in Hs.
Qed.

Lemma silent_ids byId value expected path l : silent (requireIdArray byId value expected path) l ->
  value = VArr (VStr <$> l) /\ l <> [] /\ NoDup l /\
  forall s, s ∈ l -> exists e, byId !! s = Some e /\ match expected with Some t => type e = js t | None => True end.
Proof.
  unfold requireIdArray. intros Hs. inv_silent. apply silent_strings in H0 as [(-> & Hd & _) Hne].
  split_and!; [done|by apply Hne|done|]. intros s Hin. destruct (silent_check_each_at _ _ _ H1 s Hin) as [i Hi].
  apply silent_reference in Hi as (s' & e & [= <-] & He & Ht). eauto.
Qed.

Lemma silent_string_field v path k u : silent (string_field v path k) u -> isNonEmptyString (prop v (js k)) = true.
Proof. unfold string_field. intros Hs. inv_silent. by apply silent_string in H0 as [_ ?]. Qed.

Lemma silent_tested r v ok : silent (tested r v) ok ->
  exists s, template (if nullish v then VStr [] else v) = Ok s /\ ok = r s.
Proof. unfold tested, as_text. intros Hs. inv_silent. exists x. split; [|done]. by destruct v. Qed.
End Values.

(** ** The rubric *)

(** The score is the product of what the likelihood and the impact are worth,
    and the rating is the band of the score. *)
Definition by_rubric `{NumPrinter} (risk : jsval) : Prop :=
  exists likelihood impact l i, template (prop risk "likelihood") = Ok likelihood /\ template (prop risk "impact") = Ok impact /\
    own RISK_LIKELIHOOD likelihood = Some (VNum (NInt l)) /\ own RISK_IMPACT impact = Some (VNum (NInt i)) /\
    strict_eq (prop risk "score") (VNum (NInt (l * i))) = true /\ prop risk "rating" = VStr (rating_of (l * i)).

Section Rubric.
Context `{NumPrinter}.

(** What is no entry of a table comes from the prototype and is no number. *)
Lemma rubric_value fs k : (forall v, v ∈ fs.*2 -> exists z, v = VNum (NInt z)) ->
  (exists z, own fs k = Some (VNum (NInt z)) /\ get fs k = VNum (NInt z)) \/ (forall n, get fs k <> VNum n).
Proof.
  unfold get. intros Hf. destruct (own fs k) as [v|] eqn:Ek.
  - left. destruct (Hf v) as (z & ->); [|by exists z]. unfold own in Ek. apply fmap_Some in Ek as ([k' w] & Hw & ->).
    apply find_some in Hw as [Hw _]. apply list_elem_of_fmap. exists (k', w). split; [done|]. by apply list_elem_of_In.
  - right. intros n. unfold inherited. destruct (str_eqb k "__proto__"); [done|]. by destruct (existsb _ object_prototype).
Qed.

Lemma likelihood_value k :
  (exists z, own RISK_LIKELIHOOD k = Some (VNum (NInt z)) /\ get RISK_LIKELIHOOD k = VNum (NInt z)) \/ (forall n, get RISK_LIKELIHOOD k <> VNum n).
Proof. apply rubric_value. unfold RISK_LIKELIHOOD. cbn. set_solver. Qed.
Lemma impact_value k :
  (exists z, own RISK_IMPACT k = Some (VNum (NInt z)) /\ get RISK_IMPACT k = VNum (NInt z)) \/ (forall n, get RISK_IMPACT k <> VNum n).
Proof. apply rubric_value. unfold RISK_IMPACT. cbn. set_solver. Qed.

Lemma risk_of_text v w : (forall n, v <> VNum n) \/ (forall n, w <> VNum n) -> risk_of v w = {| score := NNaN; rating := js "critical" |}.
Proof.
  unfold risk_of. intros [Hv|Hw]; [destruct v; try done; by edestruct Hv|].
  destruct v as [| | |[]| | | |]; try done. destruct w; try done. by edestruct Hw.
Qed.

Lemma no_nan v : strict_eq v (VNum NNaN) <> true.
Proof. intros Hs. destruct v as [| | |n| | | |]; try discriminate Hs. destruct n as [| | | |[]]; discriminate Hs. Qed.
Lemma silent_risk risk path : silent (validateRisk risk path) () -> isObject risk = true /\ by_rubric risk.
Proof.
  unfold validateRisk, expectedRisk, as_text. intros Hs. inv_silent. apply silent_object in H0 as [-> Ho]. cbn [negb] in *. inv_silent.
  split; [done|]. rename x0 into likelihood, x1 into impact.
  destruct (truthy (get RISK_LIKELIHOOD likelihood)) eqn:El; [|by inv_silent]. destruct (truthy (get RISK_IMPACT impact)) eqn:Ei; [|by inv_silent].
  cbn [negb orb] in *. inv_silent. apply orb_false_iff in H1 as [Hscore%negb_false_iff Hrating%negb_false_iff]. apply strict_eq_str in Hrating.
  destruct (likelihood_value likelihood) as [(l & Hl & Gl)|Hl], (impact_value impact) as [(i & Hi & Gi)|Hi];
    try by (rewrite risk_of_text in Hscore by auto; apply no_nan in Hscore).
  rewrite Gl, Gi in *. by exists likelihood, impact, l, i.
Qed.
End Rubric.

(** ** The map of the entities *)

Lemma entities_spec model name v : v ∈ entities model name <-> v ∈ list_prop model (js name) /\ isObject v = true.
Proof. unfold entities, list_prop. apply elem_of_lfilter. Qed.

Section Entities.
Context `{NumPrinter}.

Lemma silent_add_entries name index array byId byId' : silent (add_entries name index array byId) byId' ->
  (forall s e, byId' !! s = Some e <->
     byId !! s = Some e \/ type e = js name /\ Some (value_of e) ∈ array /\ prop (value_of e) "id" = VStr s) /\
  (forall v, Some v ∈ array -> exists s, prop v "id" = VStr s /\ byId' !! s = Some {| type := js name; value_of := v |}).
Proof.
  revert index byId. induction array as [|[v|] array IH]; intros index byId Hs; cbn [add_entries] in Hs.
  - inv_silent. split; [|by intros v ?%elem_of_nil]. intros s e. setoid_rewrite elem_of_nil. naive_solver.
  - inv_silent. destruct (prop v "id") as [| | | |id| | |] eqn:Ev; try by inv_silent.
    destruct (non_blank id); cbn [negb] in H0; [|solve [inv_silent]]. destruct (id_pattern name id); cbn [negb] in H0; [|solve [inv_silent]].
    destruct (byId !! id) as [e|] eqn:Eb; [by inv_silent|]. inv_silent.
    apply IH in H1 as [Hl Ha]. split.
    + intros s e. rewrite Hl, elem_of_cons, lookup_insert_Some. split.
      * intros [[[<- <-]|[Hne Hb]]|(? & ? & ?)]; [right; cbn; auto|auto|right; auto].
      * intros [Hb|(Ht & [[= <-]|Hin] & Hp)]; [|left; left|auto].
        -- left. right. split; [|done]. intros ->. congruence.
        -- rewrite Ev in Hp. injection Hp as ->. split; [done|]. destruct e as [t w]; cbn in *; by rewrite Ht.
    + intros w [[= ->]|Hin]%elem_of_cons; [|by apply Ha]. exists id. split; [done|]. apply Hl. left. by rewrite lookup_insert_eq.
  - apply IH in Hs as [Hl Ha]. split.
    + intros s e. rewrite Hl, elem_of_cons. naive_solver.
    + intros v [?|Hin]%elem_of_cons; [done|by apply Ha].
Qed.

Lemma silent_add_arrays model names byId byId' : silent (add_arrays model names byId) byId' ->
  (forall s e, byId' !! s = Some e <->
     byId !! s = Some e \/ exists name, name ∈ names /\ type e = js name /\ value_of e ∈ entities model name /\ prop (value_of e) "id" = VStr s) /\
  (forall name v, name ∈ names -> v ∈ entities model name ->
     exists s, prop v "id" = VStr s /\ byId' !! s = Some {| type := js name; value_of := v |}) /\
  (forall name, name ∈ names -> list_prop model (js name) = entities model name).
Proof.
  revert byId. induction names as [|name names IH]; intros byId Hs; cbn [add_arrays] in Hs.
  - inv_silent. split_and!; [|by intros ? ? ?%elem_of_nil|by intros ? ?%elem_of_nil]. intros s e. setoid_rewrite elem_of_nil. naive_solver.
  - inv_silent. apply silent_objects in H0 as (vs & Ev & -> & Hf & _).
    assert (entities model name = vs) as He.
    { unfold entities. rewrite Ev. cbn [arrayOrEmpty]. clear -Hf. induction Hf as [|v vs Hv Hf IH]; cbn; [done|]. by rewrite Hv, IH. }
    apply silent_add_entries in H1 as [Hl Ha]. apply IH in H2 as (Hl' & Ha' & Hp).
    assert (forall v, Some v ∈ Some <$> vs <-> v ∈ entities model name) as Hin.
    { intros v. rewrite He. rewrite list_elem_of_fmap. naive_solver. }
    split_and!.
    + intros s e. rewrite Hl', Hl, Hin. setoid_rewrite elem_of_cons. naive_solver.
    + intros n v [->|Hn]%elem_of_cons Hv; [|by apply Ha']. destruct (Ha v) as (s & Hs & Hb); [by apply Hin|].
      exists s. split; [done|]. apply Hl'. by left.
    + intros n [->|Hn]%elem_of_cons; [|by apply Hp]. unfold list_prop. by rewrite Ev, He.
Qed.

(** The text is the id of an entity of that kind. *)
Definition named (model : jsval) (name : string) (s : jstr) (v : jsval) : Prop := v ∈ entities model name /\ prop v "id" = VStr s.

Lemma silent_entityMap model byId : silent (entityMap model) byId -> forall name, name ∈ ENTITY_ARRAYS ->
  (forall s e, byId !! s = Some e -> type e = js name -> named model name s (value_of e)) /\
  (forall v, v ∈ entities model name -> exists s, prop v "id" = VStr s /\ byId !! s = Some {| type := js name; value_of := v |}).
Proof.
  unfold entityMap. intros Hs name Hn. apply silent_add_arrays in Hs as (Hl & Ha & _). split; [|intros v Hv; by apply Ha].
  intros s e He Ht. apply Hl in He as [Hm|(n & _ & Hn' & Hv & Hi)].
  - assert (type e = js "model") as Hm'.
    { destruct (prop model "modelId") as [| | | |id| | |]; try by rewrite lookup_empty in Hm.
      destruct (non_blank id); [|by rewrite lookup_empty in Hm]. by apply lookup_singleton_Some in Hm as [_ <-]. }
    rewrite Ht in Hm'. apply js_inj in Hm' as ->. exfalso. clear -Hn. unfold ENTITY_ARRAYS in Hn. set_solver.
  - rewrite Ht in Hn'. by apply js_inj in Hn' as <-.
Qed.
End Entities.
