(* ===== verification/ThreatTrace.v ===== *)
(** A threat register that passes can be traced: its domains, boundaries,
    threats, controls, evidence and residual risks name one another both ways. *)
From S2P Require Export ThreatModelSpec.
#[local] Open Scope Z_scope.

Lemma same_value_text s v : same_value_zero (VStr s) v = true <-> v = VStr s.
Proof.
  destruct v; cbn; try (split; [discriminate|intros [=]]). rewrite str_eqb_eq. naive_solver.
Qed.
Lemma includes_str l s : includes_value l (VStr s) = true <-> VStr s ∈ l.
Proof. unfold includes_value. rewrite existsb_elem. setoid_rewrite same_value_text. naive_solver. Qed.

(** ** Links *)

(** [v.k] names, without repeating itself, at least one entity of the kind and
    nothing else. *)
Definition names_all (model v : jsval) (k : string) (name : string) : Prop :=
  exists l : list jstr, prop v (js k) = VArr (VStr <$> l) /\ l <> [] /\ NoDup l /\ forall s, s ∈ l -> exists w, named model name s w.
Definition names_one (model v : jsval) (k : string) (name : string) : Prop :=
  exists s w, prop v (js k) = VStr s /\ named model name s w.
(** [v.k] lists the id of [w]. *)
Definition lists (v : jsval) (k : string) (w : jsval) : Prop := prop w "id" ∈ list_prop v (js k).

Record traceable (model : jsval) : Prop := {
  ids_are_texts : forall name v, name ∈ ENTITY_ARRAYS -> v ∈ entities model name -> exists s, prop v "id" = VStr s;
  ids_are_unique : forall name name' s v v', name ∈ ENTITY_ARRAYS -> name' ∈ ENTITY_ARRAYS ->
    named model name s v -> named model name' s v' -> name = name' /\ v = v';
  domains_present : forall s, s ∈ REQUIRED_DOMAINS -> exists d, named model "domains" s d;
  boundaries_present : forall s, s ∈ REQUIRED_BOUNDARIES -> exists b, named model "boundaries" s b;
  domain_of_boundary : forall b, b ∈ entities model "boundaries" ->
    exists d, d ∈ entities model "domains" /\ lists d "boundaryIds" b /\ prop b "domainId" = prop d "id" /\
      forall d', d' ∈ entities model "domains" -> lists d' "boundaryIds" b -> d' = d;
  threats_of_boundary : forall b, b ∈ entities model "boundaries" -> names_all model b "threatIds" "threats";
  boundaries_of_threat : forall t, t ∈ entities model "threats" -> names_all model t "boundaryIds" "boundaries";
  linked_both_ways : forall b t, b ∈ entities model "boundaries" -> t ∈ entities model "threats" ->
    lists t "boundaryIds" b <-> lists b "threatIds" t;
  threat_has_controls : forall t, t ∈ entities model "threats" -> names_all model t "mitigationIds" "mitigations";
  control_has_threat : forall m, m ∈ entities model "mitigations" ->
    exists t, t ∈ entities model "threats" /\ lists t "mitigationIds" m;
  evidence_named : forall name v, name ∈ ["threats"; "mitigations"] -> v ∈ entities model name -> names_all model v "evidenceIds" "evidence";
  evidence_covering : forall name v e, name ∈ ["threats"; "mitigations"] -> v ∈ entities model name ->
    e ∈ entities model "evidence" -> lists v "evidenceIds" e -> lists e "coverageIds" v;
  risk_of_threat : forall t, t ∈ entities model "threats" ->
    exists r, r ∈ entities model "residualRisks" /\ prop t "residualRiskId" = prop r "id" /\ prop r "threatId" = prop t "id";
  threat_of_risk : forall r, r ∈ entities model "residualRisks" ->
    exists t, t ∈ entities model "threats" /\ prop r "threatId" = prop t "id" /\ prop t "residualRiskId" = prop r "id";
  owned : forall name v, name ∈ ["domains"; "threats"; "mitigations"; "evidence"; "residualRisks"] -> v ∈ entities model name ->
    names_one model v "ownerId" "owners";
}.

Lemma names_all_elem model v k name id : names_all model v k name -> id ∈ list_prop v (js k) ->
  exists s w, id = VStr s /\ named model name s w.
Proof.
  intros (l & He & _ & _ & Hall) Hid. unfold list_prop in Hid. rewrite He in Hid. apply list_elem_of_fmap in Hid as (s & -> & Hs).
  destruct (Hall s Hs) as [w Hw]. eauto.
Qed.
Lemma names_all_some model v k name : names_all model v k name -> exists s w, VStr s ∈ list_prop v (js k) /\ named model name s w.
Proof.
  intros (l & He & Hne & _ & Hall). destruct l as [|s l]; [done|]. destruct (Hall s) as [w Hw]; [left|]. exists s, w. split; [|done].
  unfold list_prop. rewrite He. left.
Qed.

(** ** What each check gives *)

Section Trace.
Context `{NumPrinter} `{UnicodeTables} `{Workspace} (root : jstr) (model : jsval) (byId : Entities).
Context (Hmap : silent (entityMap model) byId) (Hchecks : silent (check_entities root model byId) ()).

Lemma ids_texts name v : name ∈ ENTITY_ARRAYS -> v ∈ entities model name ->
  exists s, prop v "id" = VStr s /\ byId !! s = Some {| type := js name; value_of := v |}.
Proof. intros Hn Hv. destruct (silent_entityMap model byId Hmap name Hn) as [_ Ha]. auto. Qed.

Lemma lookup_named name s e : name ∈ ENTITY_ARRAYS -> byId !! s = Some e -> type e = js name -> named model name s (value_of e).
Proof. intros Hn He Ht. destruct (silent_entityMap model byId Hmap name Hn) as [Hl _]. eauto. Qed.

Lemma named_lookup name s v : name ∈ ENTITY_ARRAYS -> named model name s v -> byId !! s = Some {| type := js name; value_of := v |}.
Proof. intros Hn [Hv Hs]. destruct (ids_texts name v Hn Hv) as (s' & Hs' & Hb). rewrite Hs in Hs'. by injection Hs' as <-. Qed.

Lemma named_entity name s v : name ∈ ENTITY_ARRAYS -> named model name s v -> entity byId (VStr s) = Some v.
Proof. intros Hn Hv. cbn. by rewrite (named_lookup name s v Hn Hv). Qed.

Lemma silent_names name v k path l : name ∈ ENTITY_ARRAYS ->
  silent (requireIdArray byId (prop v (js k)) (Some name) path) l -> names_all model v k name.
Proof.
  intros Hn (He & Hne & Hd & Hl)%silent_ids. exists l. split_and!; [done..|].
  intros s Hs. destruct (Hl s Hs) as (e & Hb & Ht). eexists. by eapply lookup_named.
Qed.
Lemma silent_names_one name v k path u : name ∈ ENTITY_ARRAYS ->
  silent (requireReference byId (prop v (js k)) (Some name) path) u -> names_one model v k name.
Proof. intros Hn (s & e & He & Hb & Ht)%silent_reference. exists s. eexists. split; [done|]. by eapply lookup_named. Qed.

(** An id array's texts are what [arrayOrEmpty] reads. *)
Lemma silent_ids_list v k expected path l :
  silent (requireIdArray byId (prop v (js k)) expected path) l -> list_prop v (js k) = VStr <$> l.
Proof. intros (He & _)%silent_ids. unfold list_prop. by rewrite He. Qed.

Lemma entity_prop_named name s v k : name ∈ ENTITY_ARRAYS -> named model name s v -> entity_prop byId (VStr s) k = prop v k.
Proof. intros Hn Hv. unfold entity_prop. by rewrite (named_entity name s v). Qed.

Lemma unique_entities name name' s v v' : name ∈ ENTITY_ARRAYS -> name' ∈ ENTITY_ARRAYS ->
  named model name s v -> named model name' s v' -> name = name' /\ v = v'.
Proof.
  intros Hn Hn' Hv%named_lookup Hv'%named_lookup; [|done..]. rewrite Hv in Hv'. injection Hv' as Ht ->. by apply js_inj in Ht as ->.
Qed.

Lemma silent_required required present code path u : silent (require_all required present code path) u ->
  forall s, s ∈ required -> VStr s ∈ present.
Proof.
  unfold require_all. rewrite silent_check_each. intros Hs s Hin. apply Hs in Hin. inv_silent.
  apply negb_false_iff in Hin. by apply includes_str.
Qed.

Lemma silent_check_threats seen threats u : silent (check_threats root byId seen threats) u ->
  forall t, t ∈ threats -> exists before after, silent (check_threat root byId before t) after.
Proof.
  revert seen. induction threats as [|t threats IH]; intros seen Hs t' Ht; [by apply elem_of_nil in Ht|].
  cbn [check_threats] in Hs. inv_silent. apply elem_of_cons in Ht as [->|Ht]; [by eexists _, _|]. by eapply IH.
Qed.

Lemma silent_check_risks rationales risks u : silent (check_risks byId rationales risks) u ->
  forall r, r ∈ risks -> exists before after, silent (check_risk byId before r) after.
Proof.
  revert rationales. induction risks as [|r risks IH]; intros rationales Hs r' Hr; [by apply elem_of_nil in Hr|].
  cbn [check_risks] in Hs. inv_silent. apply elem_of_cons in Hr as [->|Hr]; [by eexists _, _|]. by eapply IH.
Qed.

(** The checks of the entities, one kind after the other. *)
Ltac of_each f :=
  pose proof Hchecks as Hc; unfold check_entities in Hc; inv_silent;
  match goal with Hf : silent (check_each f _) _ |- _ => exact (proj1 (silent_check_each _ _ _) Hf) end.

Lemma domains_checked : forall d, d ∈ entities model "domains" -> silent (check_domain root byId d) ().
Proof. of_each (check_domain root byId). Qed.
Lemma boundaries_checked : forall b, b ∈ entities model "boundaries" -> silent (check_boundary root byId b) ().
Proof. of_each (check_boundary root byId). Qed.
Lemma mitigations_checked : forall m, m ∈ entities model "mitigations" -> silent (check_mitigation root model byId m) ().
Proof. of_each (check_mitigation root model byId). Qed.
Lemma domain_links_checked : forall d, d ∈ entities model "domains" -> silent (domain_links byId d) ().
Proof. of_each (domain_links byId). Qed.
Lemma boundary_links_checked : forall b, b ∈ entities model "boundaries" -> silent (boundary_links byId b) ().
Proof. of_each (boundary_links byId). Qed.
Lemma threat_links_checked : forall t, t ∈ entities model "threats" -> silent (threat_links byId t) ().
Proof. of_each (threat_links byId). Qed.
Lemma reviews_checked : forall r, r ∈ entities model "reviews" -> silent (check_review root byId r) ().
Proof. of_each (check_review root byId). Qed.
Lemma threats_checked : forall t, t ∈ entities model "threats" -> exists before after, silent (check_threat root byId before t) after.
Proof. pose proof Hchecks as Hc. unfold check_entities in Hc. inv_silent. by eapply silent_check_threats. Qed.
Lemma risks_checked : forall r, r ∈ entities model "residualRisks" -> exists before after, silent (check_risk byId before r) after.
Proof. pose proof Hchecks as Hc. unfold check_entities in Hc. inv_silent. by eapply silent_check_risks. Qed.
Lemma evidence_checked : forall e, e ∈ entities model "evidence" -> exists path, silent (validateEvidence root byId e path) ().
Proof.
  pose proof Hchecks as Hc. unfold check_entities in Hc. inv_silent. intros e He.
  match goal with Hf : silent (check_each_at _ (entities model "evidence")) _ |- _ => destruct (silent_check_each_at _ _ _ Hf e He) as [i Hi] end.
  eauto.
Qed.
Lemma id_text name v : name ∈ ENTITY_ARRAYS -> v ∈ entities model name -> exists s, prop v "id" = VStr s /\ named model name s v.
Proof. intros Hn Hv. destruct (ids_texts name v Hn Hv) as (s & Hs & _). by exists s. Qed.

Lemma no_orphans name referenced : name ∈ ENTITY_ARRAYS -> (name, referenced) ∈ used model ->
  forall v, v ∈ entities model name -> prop v "id" ∈ referenced.
Proof.
  intros Hn Hu v Hv. pose proof Hchecks as Hc. unfold check_entities in Hc. inv_silent.
  match goal with Hf : silent (check_orphans model) _ |- _ => rename Hf into Ho end.
  pose proof (proj1 (silent_check_each _ _ _) (proj1 (silent_check_each _ _ _) Ho _ Hu) v Hv) as Hi. cbn beta in Hi.
  destruct (id_text name v Hn Hv) as (s & Hs & _). rewrite Hs in *.
  destruct (includes_value referenced (VStr s)) eqn:E; [by apply includes_str|by inv_silent].
Qed.

(** ** Domains and boundaries *)

Ltac names := repeat match goal with Hc : silent _ _ |- _ => progress inv_silent end;
  first [eapply silent_names; [in_list|eassumption] | eapply silent_names_one; [in_list|eassumption]].

Lemma domain_names d : d ∈ entities model "domains" -> names_all model d "boundaryIds" "boundaries".
Proof. intros Hc%domains_checked. unfold check_domain in Hc. names. Qed.
Lemma boundary_names b : b ∈ entities model "boundaries" -> names_all model b "threatIds" "threats".
Proof. intros Hc%boundaries_checked. unfold check_boundary in Hc. names. Qed.
Lemma threat_names k name t : (k, name) ∈ [("boundaryIds", "boundaries"); ("mitigationIds", "mitigations"); ("evidenceIds", "evidence")] ->
  t ∈ entities model "threats" -> names_all model t k name.
Proof.
  intros Hk (before & after & Hc)%threats_checked. unfold check_threat in Hc.
  repeat (apply elem_of_cons in Hk as [[= -> ->]|Hk]; [by names|]). by apply elem_of_nil in Hk.
Qed.
Lemma mitigation_names m : m ∈ entities model "mitigations" -> names_all model m "evidenceIds" "evidence".
Proof. intros Hc%mitigations_checked. unfold check_mitigation in Hc. names. Qed.
Lemma threat_risk t : t ∈ entities model "threats" -> names_one model t "residualRiskId" "residualRisks".
Proof. intros (before & after & Hc)%threats_checked. unfold check_threat in Hc. names. Qed.
Lemma owner_names name v : name ∈ ["domains"; "threats"; "mitigations"; "evidence"; "residualRisks"] ->
  v ∈ entities model name -> names_one model v "ownerId" "owners".
Proof.
  intros Hn Hv. repeat (apply elem_of_cons in Hn as [->|Hn]).
  - apply domains_checked in Hv. unfold check_domain in Hv. names.
  - apply threats_checked in Hv as (? & ? & Hv). unfold check_threat in Hv. names.
  - apply mitigations_checked in Hv. unfold check_mitigation in Hv. names.
  - apply evidence_checked in Hv as (? & Hv). unfold validateEvidence in Hv. names.
  - apply risks_checked in Hv as (? & ? & Hv). unfold check_risk in Hv. names.
  - by apply elem_of_nil in Hn.
Qed.

(** ** Links back *)

Lemma boundary_of_domain d b : d ∈ entities model "domains" -> b ∈ entities model "boundaries" ->
  lists d "boundaryIds" b -> prop b "domainId" = prop d "id".
Proof.
  intros Hd Hb Hl. destruct (id_text "boundaries" b) as (s & Hs & Hnb); [in_list|done|]. destruct (id_text "domains" d) as (ds & Hds & _); [in_list|done|].
  pose proof (domain_links_checked d Hd) as Hc. unfold domain_links in Hc. unfold lists in Hl. rewrite Hs in Hl.
  pose proof (proj1 (silent_check_each _ _ _) Hc _ Hl) as Hi. cbn beta zeta in Hi.
  rewrite (entity_prop_named "boundaries" s b) in Hi; [|in_list|done]. rewrite Hds in *.
  destruct (strict_eq (prop b "domainId") (VStr ds)) eqn:E; [by apply strict_eq_str|by inv_silent].
Qed.

Lemma linked_back b t : b ∈ entities model "boundaries" -> t ∈ entities model "threats" ->
  lists b "threatIds" t -> lists t "boundaryIds" b.
Proof.
  intros Hb Ht Hl. destruct (id_text "boundaries" b) as (s & Hs & _); [in_list|done|]. destruct (id_text "threats" t) as (ts & Hts & Hnt); [in_list|done|].
  pose proof (boundary_links_checked b Hb) as Hc. unfold boundary_links in Hc. unfold lists in *. rewrite Hts in Hl. rewrite Hs.
  pose proof (proj1 (silent_check_each _ _ _) Hc _ Hl) as Hi. cbn beta zeta in Hi.
  rewrite (entity_prop_named "threats" ts t), Hs in Hi; [|in_list|done].
  destruct (includes_value _ (VStr s)) eqn:E; [by apply includes_str|by inv_silent].
Qed.

(** The ids that are checked one by one are the entries of the list. *)
Lemma linked_forth b t : b ∈ entities model "boundaries" -> t ∈ entities model "threats" ->
  lists t "boundaryIds" b -> lists b "threatIds" t.
Proof.
  intros Hb Ht Hl. destruct (id_text "boundaries" b) as (s & Hs & Hnb); [in_list|done|]. destruct (id_text "threats" t) as (ts & Hts & _); [in_list|done|].
  destruct (threats_checked t Ht) as (before & after & Hc). unfold check_threat in Hc. inv_silent. unfold lists in *. rewrite Hs in Hl. rewrite Hts.
  match goal with Hf : silent (requireIdArray _ (prop t (js "boundaryIds")) _ _) _ |- _ => apply silent_ids_list in Hf; rewrite Hf in Hl end.
  match goal with Hg : silent (check_each _ _) _ |- _ => pose proof (proj1 (silent_check_each _ _ _) Hg s) as Hi end.
  apply list_elem_of_fmap in Hl as (s' & [= <-] & Hl). specialize (Hi Hl). cbn beta in Hi. inv_silent. apply negb_false_iff in Hi.
  rewrite (entity_prop_named "boundaries" s b), Hts in Hi; [|in_list|done]. by apply includes_str.
Qed.

Lemma covers path v ids name l e : name ∈ ["threats"; "mitigations"] -> v ∈ entities model name -> e ∈ entities model "evidence" ->
  silent (requireIdArray byId (prop v "evidenceIds") (Some "evidence") ids) l -> silent (evidence_covers byId path v l) () ->
  lists v "evidenceIds" e -> lists e "coverageIds" v.
Proof.
  intros Hn Hv He Hl Hc Hin. assert (name ∈ ENTITY_ARRAYS) as Hna by (unfold ENTITY_ARRAYS; clear -Hn; set_solver).
  destruct (id_text name v Hna Hv) as (s & Hs & _). destruct (id_text "evidence" e) as (es & Hes & Hne); [in_list|done|].
  unfold lists in *. rewrite Hes in Hin. rewrite Hs. apply silent_ids_list in Hl. rewrite Hl in Hin.
  apply list_elem_of_fmap in Hin as (es' & [= <-] & Hin). unfold evidence_covers in Hc.
  pose proof (proj1 (silent_check_each _ _ _) Hc es Hin) as Hi. cbn beta in Hi.
  rewrite (entity_prop_named "evidence" es e), Hs in Hi; [|in_list|done].
  destruct (includes_value _ (VStr s)) eqn:E; [by apply includes_str|by inv_silent].
Qed.

Lemma evidence_covered name v e : name ∈ ["threats"; "mitigations"] -> v ∈ entities model name -> e ∈ entities model "evidence" ->
  lists v "evidenceIds" e -> lists e "coverageIds" v.
Proof.
  intros Hn Hv He. pose proof Hn as Hn'. repeat (apply elem_of_cons in Hn as [->|Hn]).
  - destruct (threats_checked v Hv) as (? & ? & Hc). unfold check_threat in Hc. inv_silent. by eapply covers.
  - pose proof (mitigations_checked v Hv) as Hc. unfold check_mitigation in Hc. inv_silent. by eapply covers.
  - by apply elem_of_nil in Hn.
Qed.

Lemma risk_back t r : t ∈ entities model "threats" -> r ∈ entities model "residualRisks" ->
  prop t "residualRiskId" = prop r "id" -> prop r "threatId" = prop t "id".
Proof.
  intros Ht Hr He. destruct (id_text "threats" t) as (ts & Hts & _); [in_list|done|]. destruct (id_text "residualRisks" r) as (rs & Hrs & Hnr); [in_list|done|].
  pose proof (threat_links_checked t Ht) as Hc. unfold threat_links in Hc. cbv zeta in Hc.
  rewrite He, Hrs, (entity_prop_named "residualRisks" rs r) in Hc; [|in_list|done]. rewrite Hts in *.
  destruct (strict_eq (prop r "threatId") (VStr ts)) eqn:E; [by apply strict_eq_str|by inv_silent].
Qed.

Lemma domain_unique b d d' : b ∈ entities model "boundaries" -> d ∈ entities model "domains" -> d' ∈ entities model "domains" ->
  lists d "boundaryIds" b -> lists d' "boundaryIds" b -> d' = d.
Proof.
  intros Hb Hd Hd' Hl Hl'. apply (boundary_of_domain d b Hd Hb) in Hl. apply (boundary_of_domain d' b Hd' Hb) in Hl'.
  destruct (id_text "domains" d) as (s & Hs & Hn); [in_list|done|]. destruct (id_text "domains" d') as (s' & Hs' & Hn'); [in_list|done|].
  rewrite Hl, Hs, Hs' in Hl'. injection Hl' as ->. edestruct (unique_entities "domains" "domains") as [_ E]; [in_list..|exact Hn|exact Hn'|done].
Qed.

Lemma used_by name v referrer k : name ∈ ENTITY_ARRAYS -> (name, lists_of model referrer k) ∈ used model -> v ∈ entities model name ->
  exists w, w ∈ entities model referrer /\ prop v "id" ∈ list_prop w k.
Proof.
  intros Hn Hu Hv. pose proof (no_orphans name _ Hn Hu v Hv) as Hi. unfold lists_of in Hi.
  apply list_elem_of_bind in Hi as (w & Hi & Hw). eauto.
Qed.

Lemma required_named (required : list jstr) (present : list jsval) name : present = ids_of (entities model name) ->
  (forall s, s ∈ required -> VStr s ∈ present) -> forall s : jstr, s ∈ required -> exists v, named model name s v.
Proof.
  intros -> Hr s Hs. apply Hr in Hs. unfold ids_of in Hs. apply list_elem_of_fmap in Hs as (v & Hv & Hin). by exists v.
Qed.

Lemma register_traceable : traceable model.
Proof.
  constructor.
  - intros name v Hn Hv. destruct (id_text name v Hn Hv) as (s & Hs & _). eauto.
  - intros. by eapply unique_entities.
  - pose proof Hchecks as Hc. unfold check_entities in Hc. inv_silent. eapply required_named; [done|]. by eapply silent_required.
  - pose proof Hchecks as Hc. unfold check_entities in Hc. inv_silent. eapply required_named; [done|]. by eapply silent_required.
  - intros b Hb. destruct (used_by "boundaries" b "domains" "boundaryIds") as (d & Hd & Hl); [in_list|in_list|done|].
    exists d. split_and!; [done|done|by apply boundary_of_domain|]. intros. by eapply domain_unique.
  - apply boundary_names.
  - intros t Ht. by apply threat_names; [in_list|].
  - intros b t Hb Ht. split; [by apply linked_forth|by apply linked_back].
  - intros t Ht. by apply threat_names; [in_list|].
  - intros m Hm. by apply (used_by "mitigations" m "threats" "mitigationIds"); [in_list|in_list|].
  - intros name v Hn Hv. repeat (apply elem_of_cons in Hn as [->|Hn]); [apply threat_names; [in_list|done]|by apply mitigation_names|by apply elem_of_nil in Hn].
  - intros. by eapply evidence_covered.
  - intros t Ht. destruct (threat_risk t Ht) as (s & r & Hs & Hr & Hi). exists r. rewrite Hs, Hi. split_and!; [done|done|].
    apply (risk_back t r); [done|done|by rewrite Hs].
  - intros r Hr. pose proof (no_orphans "residualRisks" (props_of model "threats" "residualRiskId") ltac:(in_list) ltac:(in_list) r Hr) as Hi.
    unfold props_of in Hi. apply list_elem_of_fmap in Hi as (t & Hi & Ht). exists t. split_and!; [done|by apply risk_back|done].
  - apply owner_names.
Qed.
End Trace.
