(* ===== verification/ThreatClosureSpec.v ===== *)
(** What closing a threat register means: an approval by a code owner who is
    no author, bound to the design as it was reviewed and to every risk. *)
From S2P Require Export ThreatTrace.
#[local] Open Scope Z_scope.

(** ** Equal up to the order of keys *)

Inductive same_value : jsval -> jsval -> Prop :=
| same_leaf v : same_value v v
| same_items l m : Forall2 same_value l m -> same_value (VArr l) (VArr m)
| same_fields fs gs hs : Forall2 (fun kv kw => kv.1 = kw.1 /\ same_value kv.2 kw.2) fs gs -> gs ≡ₚ hs -> same_value (VObj fs) (VObj hs).

Lemma insert_field_perm {A} (kv : jstr * A) l : insert_field kv l ≡ₚ kv :: l.
Proof. induction l as [|kw l IH]; cbn; [done|]. destruct (str_ltb _ _); [|done]. rewrite IH. constructor. Qed.
Lemma sort_fields_perm {A} (l : list (jstr * A)) : sort_fields l ≡ₚ l.
Proof. induction l as [|kv l IH]; cbn; [done|]. by rewrite insert_field_perm, IH. Qed.

(** Sorting looks at the keys only. *)
Lemma insert_field_map {A B} (f : A -> B) kv l :
  insert_field (kv.1, f kv.2) ((fun kw => (kw.1, f kw.2)) <$> l) = (fun kw => (kw.1, f kw.2)) <$> insert_field kv l.
Proof. induction l as [|kw l IH]; cbn; [done|]. destruct (str_ltb _ _); cbn; [by rewrite <- IH|done]. Qed.
Lemma sort_fields_map {A B} (f : A -> B) l :
  sort_fields ((fun kv => (kv.1, f kv.2)) <$> l) = (fun kv => (kv.1, f kv.2)) <$> sort_fields l.
Proof. induction l as [|kv l IH]; cbn; [done|]. unfold sort_fields in IH. rewrite IH. apply insert_field_map. Qed.

(** The value with all its fields in order. *)
Fixpoint canonical (v : jsval) : jsval :=
  match v with
  | VArr l => VArr (canonical <$> l)
  | VObj fs => VObj (sort_fields ((fun kv => (kv.1, canonical kv.2)) <$> fs))
  | _ => v
  end.

Lemma Permutation_fmap_inv {A B} (f : A -> B) l m : f <$> l ≡ₚ f <$> m -> exists k, f <$> l = f <$> k /\ m ≡ₚ k.
Proof.
  intros Hp. destruct (Permutation_map_inv f m Hp) as (k & He & Hk). exists k. by split.
Qed.

Lemma canonical_same a b : canonical a = canonical b -> same_value a b.
Proof.
  revert b. induction a as [| | | | |l IH|fs IH|] using jsval_induct; intros c E; destruct c as [| | | | |m|gs|]; try discriminate E;
    try solve [cbn in E; first [rewrite E|idtac]; apply same_leaf].
  - constructor. cbn in E. injection E as E. revert m E. induction IH as [|x l Hx Hl IHl]; intros [|y m] E; try discriminate E; constructor.
    + cbn in E. injection E as E _. by apply Hx.
    + cbn in E. injection E as _ E. by apply IHl.
  - cbn in E. injection E as E.
    assert ((fun kv => (kv.1, canonical kv.2)) <$> fs ≡ₚ (fun kv => (kv.1, canonical kv.2)) <$> gs) as Hp.
    { by rewrite <- (sort_fields_perm (_ <$> fs)), E, sort_fields_perm. }
    apply Permutation_fmap_inv in Hp as (hs & He & Hp).
    apply (same_fields fs hs gs); [|done]. clear Hp E gs. revert hs He.
    induction IH as [|[k x] fs Hx Hl IHl]; intros [|[k' y] hs] He; try discriminate He; constructor.
    + cbn in He. injection He as -> E _. split; [done|]. by apply Hx.
    + cbn in He. injection He as _ _ He. by apply IHl.
Qed.

Section Stable.
Context `{NumPrinter}.

Lemma canonical_plain v : plain_json v -> plain_json (canonical v).
Proof.
  induction v as [| | | | |l IH|fs IH|] using jsval_induct; intros Hp; cbn [canonical]; try done; inversion_clear Hp as [| | | |? Hl|? Hf].
  - constructor. intros w (x & -> & Hx)%list_elem_of_fmap. rewrite Forall_forall in IH. by apply IH, Hl.
  - constructor. intros k w Hw. rewrite sort_fields_perm in Hw. apply list_elem_of_fmap in Hw as ([k' x] & [= -> ->] & Hx).
    rewrite Forall_forall in IH. apply (IH _ Hx). cbn. eauto.
Qed.

(** It is the JSON text of the value with its fields in order. *)
Lemma stableJson_text v : plain_json v -> stableJson v = json_text (canonical v).
Proof.
  induction v as [| | | | |l IH|fs IH|] using jsval_induct; intros Hp; try done; try (by inversion Hp).
  - inversion_clear Hp as [| | | |? Hl|]. cbn. do 3 f_equal. rewrite <- list_fmap_compose. rewrite Forall_forall in IH.
    apply list_fmap_ext. intros i x Hx%list_elem_of_lookup_2. cbn. rewrite (IH x Hx) by auto.
    destruct (Hl x Hx); done.
  - inversion_clear Hp as [| | | | |? Hf]. cbn [canonical]. rewrite json_text_obj.
    + cbn [stableJson]. do 3 f_equal. rewrite Forall_forall in IH.
      assert ((fun '(k, v) => (k, stableJson v)) <$> fs =
              (fun kw => (kw.1, json_text kw.2)) <$> ((fun kv => (kv.1, canonical kv.2)) <$> fs)) as ->.
      { rewrite <- list_fmap_compose. apply list_fmap_ext. intros i [k x] Hx%list_elem_of_lookup_2. cbn. f_equal.
        apply (IH _ Hx). cbn. eauto. }
      rewrite sort_fields_map, <- list_fmap_compose. apply list_fmap_ext. by intros i [k x] _.
    + intros k w Hw. rewrite sort_fields_perm in Hw. apply list_elem_of_fmap in Hw as ([k' x] & [= -> ->] & Hx).
      apply canonical_plain. cbn. eauto.
Qed.

Lemma stableJson_same a b : plain_json a -> plain_json b -> stableJson a = stableJson b -> same_value a b.
Proof.
  intros Ha Hb E. apply canonical_same. rewrite !stableJson_text in E by done.
  by apply json_text_inj in E; [|apply canonical_plain..].
Qed.
End Stable.

(** ** The subject of a review *)

Lemma without_plain ks v : plain_json v -> plain_json (without ks v).
Proof. destruct 1; constructor; eauto. intros k v Hin. apply elem_of_lfilter in Hin as [Hin _]. eauto. Qed.
Lemma map_entries_plain k f v : (forall x, plain_json x -> plain_json (f x)) -> plain_json v -> plain_json (map_entries k f v).
Proof.
  intros Hf. destruct 1 as [| | | | |fs Hp]; try by constructor. constructor. intros k' w Hw.
  apply list_elem_of_fmap in Hw as ([k'' x] & [= -> ->] & Hx). apply Hp in Hx as Hx'.
  destruct x; try done. destruct (str_eqb k'' k); [|done]. constructor. intros y (z & -> & Hz)%list_elem_of_fmap.
  apply Hf. inversion_clear Hx'. eauto.
Qed.
Lemma subject_plain v : plain_json v -> plain_json (immutableDesignSubject v).
Proof.
  intros Hv. unfold immutableDesignSubject. apply map_entries_plain; [intros; by apply without_plain|].
  apply map_entries_plain; [intros x Hx; destruct (strict_eq _ _); [by apply without_plain|done]|].
  apply map_entries_plain; [intros; by apply without_plain|]. by apply without_plain.
Qed.

(** ** Sets and comparisons *)

Lemma strict_eq_true v : strict_eq v (VBool true) = true -> v = VBool true.
Proof. destruct v as [| |b| | | | |]; cbn; try done. by destruct b. Qed.
Lemma strict_eq_text v w : isNonEmptyString v = true -> strict_eq v w = true -> v = w.
Proof. destruct v; try done. intros _. destruct w; cbn; try done. by intros ->%str_eqb_eq. Qed.
#[export] Instance VStr_inj : Inj (=) (=) VStr.
Proof. by intros s t [= ->]. Qed.
Lemma same_value_str_l v s : same_value_zero v (VStr s) = true -> v = VStr s.
Proof. destruct v as [| | |n|t| | |]; cbn; try done; [by destruct n|]. by intros ->%str_eqb_eq. Qed.
Lemma set_of_in l v : v ∈ set_of l -> v ∈ l.
Proof. induction l as [|y l IH]; cbn; [done|]. destruct (includes_value l y); rewrite ?elem_of_cons; naive_solver. Qed.
Lemma set_of_sub l v : includes_value (set_of l) v = true -> includes_value l v = true.
Proof.
  unfold includes_value. rewrite !existsb_elem. intros (x & Hx & E). exists x. split; [by apply set_of_in|done]. Qed.
Lemma set_of_mem l s : VStr s ∈ l -> VStr s ∈ set_of l.
Proof.
  induction l as [|y l IH]; cbn; [done|]. intros [<-|Hs]%elem_of_cons.
  - destruct (includes_value l (VStr s)) eqn:E; [apply IH, includes_str, E|left].
  - destruct (includes_value l y); [auto|right; auto].
Qed.

(** The values are exactly those texts, each once. *)
Definition exactly (values : jsval) (expected : list jsval) : Prop :=
  exists l, values = VArr (VStr <$> l) /\ NoDup l /\ forall s, s ∈ l <-> VStr s ∈ expected.

Lemma all_texts (l : list jsval) : (forall v, v ∈ l -> exists s, v = VStr s) -> exists l', l = VStr <$> l'.
Proof.
  induction l as [|v l IH]; intros Hl; [by exists []|]. destruct (Hl v) as [s ->]; [left|]. destruct IH as [l' ->].
  - intros w Hw. apply Hl. by right.
  - by exists (s :: l').
Qed.
Lemma no_duplicates_texts l : no_duplicates (VStr <$> l) = true -> NoDup l.
Proof.
  induction l as [|s l IH]; cbn; [constructor|]. intros [Hs%negb_true_iff Hl]%andb_true_iff. constructor; [|auto]. intros Hin.
  apply not_true_iff_false in Hs. apply Hs, (includes_str (VStr <$> l)), list_elem_of_fmap. eauto.
Qed.
Lemma set_of_texts l : NoDup (set_of (VStr <$> l)).
Proof.
  induction l as [|s l IH]; cbn; [constructor|]. destruct (includes_value (VStr <$> l) (VStr s)) eqn:E; [done|]. constructor; [|done].
  intros Hin. apply includes_str, set_of_sub in Hin. congruence.
Qed.

Lemma set_exactly values expected : (forall v, v ∈ expected -> exists s, v = VStr s) ->
  setEquals values (set_of expected) = true -> exactly values expected.
Proof.
  intros (e & ->)%all_texts. unfold setEquals. destruct values as [| | | | |l| |]; try done.
  intros [[Hl%Nat.eqb_eq Hd]%andb_true_iff Hi]%andb_true_iff. rewrite forallb_forall in Hi.
  assert (forall v, v ∈ l -> v ∈ set_of (VStr <$> e)) as Hsub.
  { intros v Hv%list_elem_of_In%Hi. apply existsb_elem in Hv as (w & Hw & Hs). pose proof Hw as Hw'.
    apply set_of_in in Hw as (s & -> & Hs')%list_elem_of_fmap. by apply same_value_str_l in Hs as ->. }
  destruct (all_texts l) as [l' ->].
  { intros v Hv%Hsub%set_of_in. apply list_elem_of_fmap in Hv as (s & -> & _). eauto. }
  exists l'. pose proof (no_duplicates_texts l' Hd) as Hnd. split_and!; [done|done|].
  assert (VStr <$> l' ≡ₚ set_of (VStr <$> e)) as Hp.
  { apply submseteq_length_Permutation; [|lia]. apply NoDup_submseteq; [|done]. by apply (NoDup_fmap_2 VStr). }
  intros s. rewrite <- (list_elem_of_fmap_inj VStr l' s), Hp. split; [apply set_of_in|apply set_of_mem].
Qed.

(** ** A register that is closed *)

Section Closed.
Context `{NumPrinter} `{UnicodeTables} `{Workspace} `{Collation} (root : jstr).

(** The snapshot git has of the register at the reviewed commit. *)
Definition reviewed_snapshot (review snapshot : jsval) : Prop :=
  exists commit stdout, template (prop review "reviewedCommit") = Ok commit /\ COMMIT commit = true /\
    cat_file (commit ++ js "^{commit}") = true /\
    git_show (commit ++ js ":docs/security/phase-0-threat-model.json") = Some stdout /\ parse_json stdout = Some snapshot.

Record closed (model review : jsval) : Prop := {
  status_validated : prop model "modelStatus" = VStr "validated";
  review_approved : review ∈ entities model "reviews" /\ prop review "status" = VStr "approved";
  only_approval : forall r, r ∈ entities model "reviews" -> prop r "status" = VStr "approved" -> r = review;
  nothing_open : forall r, r ∈ entities model "reviews" -> prop r "status" <> VStr "changes-requested";
  nothing_failed : forall e, e ∈ entities model "evidence" -> prop e "status" <> VStr "failed";
  reviewed_by_owner : exists reviewer content, prop review "reviewer" = VStr reviewer /\
    readFileSync (resolve root ".github/CODEOWNERS") = Ok content /\ reviewer ∈ codeowners_of content;
  reviewed_by_other : forall author, author ∈ list_prop model "authors" ->
    prop author "kind" = VStr "human" -> prop author "handle" <> prop review "reviewer";
  with_authority : prop review "riskAuthorityConfirmed" = VBool true;
  of_this_design : exists snapshot, reviewed_snapshot review snapshot /\
    prop snapshot "modelVersion" = prop model "modelVersion" /\
    (plain_json snapshot -> plain_json model -> same_value (immutableDesignSubject snapshot) (immutableDesignSubject model));
  owners_confirmed : forall o, o ∈ entities model "owners" -> prop o "id" <> VStr "OWN-REPOSITORY-REVIEW" ->
    prop o "status" = VStr "confirmed" /\ prop o "riskAuthority" = VBool true /\
    exists handle, template (prop o "handle") = Ok handle /\ HANDLE handle = true;
  risks_accepted : forall r, r ∈ entities model "residualRisks" ->
    prop r "disposition" = VStr "accepted" /\ isObject (prop r "acceptance") = true /\
    forall k v, (k, v) ∈ [("scope", prop r "acceptanceScope"); ("acceptedBy", prop review "reviewer"); ("acceptedAt", prop review "reviewedAt");
                       ("reviewId", prop review "id"); ("reference", prop review "immutableReference")] ->
      prop (prop r "acceptance") (js k) = v;
  risks_covered : exactly (prop review "coveredResidualRiskIds") (ids_of (entities model "residualRisks"));
  review_evidence : exists e, e ∈ entities model "evidence" /\ prop e "id" = VStr "EV-PHASE0-REVIEW" /\
    prop e "kind" = VStr "manual" /\ prop e "status" = VStr "passed" /\
    forall name v, name ∈ ["domains"; "owners"; "boundaries"; "threats"; "mitigations"; "evidence"; "residualRisks"; "compatibility"] ->
      v ∈ entities model name -> lists e "coverageIds" v;
}.

(** ** The run *)

Lemma validate_silent model closure overview : validateModel root model closure overview = Ok [] ->
  isObject model = true /\ silent (check_model root model closure overview) ().
Proof.
  unfold validateModel. destruct (isObject model); [|done]. destruct (check_model _ _ _ _) as [[] errors|] eqn:E; [|done].
  intros [= Hs]. split; [done|]. pose proof (sort_collated_perm sort_key errors) as Hp. rewrite Hs in Hp.
  by apply Permutation_nil in Hp as ->.
Qed.

Lemma validate_parts model closure overview : validateModel root model closure overview = Ok [] ->
  exists byId authors, silent (entityMap model) byId /\ silent (check_entities root model byId) () /\
    silent (requireObjectArray true (prop model "authors") "$.authors") authors /\ silent (model_header model) () /\
    (closure = true -> silent (check_closure root model authors) ()).
Proof.
  intros (_ & Hc)%validate_silent. unfold check_model in Hc. inv_silent. eexists _, _. split_and!; [eassumption..|]. by intros ->.
Qed.

(** C16: in a register that passes validation every link leads somewhere and
    back: boundaries lie in one domain, boundaries and threats list each
    other, threats and residual risks are paired one to one, every threat has
    a control and every control a threat, the evidence they rely on covers
    them, and all of them have an owner of the register. *)
Theorem validated_register_traceable model closure overview :
  validateModel root model closure overview = Ok [] -> traceable model.
Proof. intros (byId & authors & Hm & Hc & _)%validate_parts. by eapply register_traceable. Qed.

(** Every risk of a register that passes is rated by the rubric. *)
Theorem validated_risks_rated model closure overview : validateModel root model closure overview = Ok [] ->
  (forall t, t ∈ entities model "threats" -> by_rubric (prop t "inherentRisk")) /\
  (forall r, r ∈ entities model "residualRisks" -> by_rubric (prop r "postControlRisk")).
Proof.
  intros (byId & authors & Hm & Hc & _)%validate_parts. split; intros v Hv.
  - destruct (threats_checked root model byId Hc v Hv) as (? & ? & Hi). unfold check_threat in Hi. inv_silent. by eapply silent_risk.
  - destruct (risks_checked root model byId Hc v Hv) as (? & ? & Hi). unfold check_risk in Hi. inv_silent. by eapply silent_risk.
Qed.

Section Review.
Context (model : jsval) (authors : list (option jsval)) (byId : Entities).
Context (Hmap : silent (entityMap model) byId) (Hchecks : silent (check_entities root model byId) ()).
Context (Hauthors : silent (requireObjectArray true (prop model "authors") "$.authors") authors).
Context (Hheader : silent (model_header model) ()).
Context (Hclosure : silent (check_closure root model authors) ()).

Lemma one_approved : exists review,
  List.filter (fun v => strict_eq (prop v "status") (VStr "approved")) (entities model "reviews") = [review] /\
  silent (check_approved_review root model authors review) ().
Proof.
  pose proof Hclosure as Hc. unfold check_closure in Hc. cbv zeta in Hc. inv_silent.
  destruct (List.filter _ (entities model "reviews")) as [|review [|]]; [by inv_silent| |by inv_silent]. by exists review.
Qed.

Lemma no_status s name : existsb (fun v => strict_eq (prop v "status") (VStr s)) (entities model name) = false ->
  forall v, v ∈ entities model name -> prop v "status" <> VStr s.
Proof. intros Hn v Hv Hs. apply not_true_iff_false in Hn. apply Hn, existsb_elem. exists v. split; [done|]. by apply strict_eq_str. Qed.

Lemma closure_statuses : prop model "modelStatus" = VStr "validated" /\
  (forall r, r ∈ entities model "reviews" -> prop r "status" <> VStr "changes-requested") /\
  (forall e, e ∈ entities model "evidence" -> prop e "status" <> VStr "failed").
Proof.
  pose proof Hclosure as Hc. unfold check_closure in Hc. cbv zeta in Hc. inv_silent.
  split_and!; [by apply strict_eq_str, negb_false_iff|by apply no_status..].
Qed.

Lemma closure_owners o : o ∈ entities model "owners" -> prop o "id" <> VStr "OWN-REPOSITORY-REVIEW" ->
  prop o "status" = VStr "confirmed" /\ prop o "riskAuthority" = VBool true /\
  exists handle, template (prop o "handle") = Ok handle /\ HANDLE handle = true.
Proof.
  intros Ho Hid. pose proof Hclosure as Hc. unfold check_closure in Hc. cbv zeta in Hc. inv_silent.
  match goal with Hf : silent (check_each closure_owner _) _ |- _ => pose proof (proj1 (silent_check_each _ _ _) Hf o Ho) as Hi end.
  unfold closure_owner in Hi. destruct (strict_eq (prop o "id") _) eqn:E; [by apply strict_eq_str in E|]. inv_silent.
  destruct x; [|by inv_silent]. destruct (strict_eq (prop o "status") _) eqn:Es; inv_silent; [|done]. apply strict_eq_str in Es.
  match goal with Hb : _ && _ = true |- _ => apply andb_true_iff in Hb as [-> Hr]; apply strict_eq_true in Hr end.
  match goal with Hf : silent (tested _ _) _ |- _ => apply silent_tested in Hf as (handle & Ht & Hh) end.
  split_and!; [done|done|]. exists handle. split; [|done]. destruct (prop o "handle"); try done; injection Ht as <-; discriminate Hh.
Qed.

Lemma silent_binding code actual path expected u : silent (check_binding code actual path expected) u ->
  forall k v, (k, v) ∈ expected -> strict_eq (prop actual (js k)) v = true.
Proof.
  unfold check_binding. intros Hs k v Hin. pose proof (proj1 (silent_check_each _ _ _) Hs (k, v) Hin) as Hi. cbn beta iota in Hi.
  destruct (strict_eq _ _); [done|by inv_silent].
Qed.

Lemma risk_accepted review r : silent (check_approved_review root model authors review) () -> r ∈ entities model "residualRisks" ->
  prop r "disposition" = VStr "accepted" /\ isObject (prop r "acceptance") = true /\
  forall k v, (k, v) ∈ [("scope", prop r "acceptanceScope"); ("acceptedBy", prop review "reviewer"); ("acceptedAt", prop review "reviewedAt");
                     ("reviewId", prop review "id"); ("reference", prop review "immutableReference")] ->
    prop (prop r "acceptance") (js k) = v.
Proof.
  intros Hrev Hr. pose proof Hclosure as Hc. unfold check_closure in Hc. cbv zeta in Hc. inv_silent.
  match goal with Hf : silent (check_each _ (entities model "residualRisks")) _ |- _ => pose proof (proj1 (silent_check_each _ _ _) Hf r Hr) as Hi end.
  cbn beta in Hi. destruct (accepted r) eqn:Ea; [|by inv_silent]. clear Hi. pose proof Ea as [Hd Ho]%andb_true_iff. apply strict_eq_str in Hd.
  split_and!; [done|done|]. unfold check_approved_review in Hrev. cbv zeta in Hrev. inv_silent.
  match goal with Hf : silent (check_each (risk_binding review) _) _ |- _ => pose proof (proj1 (silent_check_each _ _ _) Hf r Hr) as Hi end.
  unfold risk_binding in Hi. inv_silent. rewrite Ea in *. cbn [negb] in *. cbv zeta in *. inv_silent.
  intros k v Hk.
  match goal with Hf : silent (check_binding _ _ _ _) _ |- _ => pose proof (silent_binding _ _ _ _ _ Hf k v Hk) as He end.
  apply strict_eq_text; [|done]. destruct (risks_checked root model byId Hchecks r Hr) as (? & ? & Hc'). unfold check_risk in Hc'. inv_silent.
  match goal with Hf : silent (check_acceptance _ _) _ |- _ => unfold check_acceptance in Hf; rewrite (proj2 (strict_eq_str _ _) Hd) in Hf; cbv zeta in Hf end.
  inv_silent. match goal with Hf : silent (requireObject _ _) _ |- _ => apply silent_object in Hf as [-> _] end.
  match goal with Hf : silent (check_each (string_field _ _) ACCEPTANCE_FIELDS) _ |- _ => pose proof (proj1 (silent_check_each _ _ _) Hf k) as Hs end.
  eapply silent_string_field, Hs. clear -Hk. unfold ACCEPTANCE_FIELDS. set_solver.
Qed.

(** A pattern that no empty text matches is tested on a text that is there. *)
Lemma template_there (r : jstr -> bool) v s : r [] = false -> template (if nullish v then VStr [] else v) = Ok s -> r s = true -> template v = Ok s.
Proof. intros Hr Ht Hs. destruct v; try done; injection Ht as <-; congruence. Qed.

Lemma silent_commit commit path syntax missing message ok : silent (require_commit commit path syntax missing message) ok ->
  ok = true /\ exists s, template commit = Ok s /\ COMMIT s = true /\ cat_file (s ++ js "^{commit}") = true.
Proof.
  unfold require_commit. intros Hs. inv_silent.
  match goal with Hf : silent (tested _ _) _ |- _ => apply silent_tested in Hf as (s & Ht & ->) end.
  destruct (COMMIT s) eqn:Ec; cbn [negb] in *; [|by inv_silent]. inv_silent. pose proof (template_there COMMIT commit s eq_refl Ht Ec) as Hc.
  unfold repositoryCommitExists, commit_text, as_text in *. inv_silent.
  match goal with Hf : template match commit with _ => _ end = Ok ?t |- _ => assert (t = s) as -> by (destruct commit; cbn in *; congruence) end.
  rewrite Ec in *. cbn [andb] in *. destruct (cat_file _) eqn:Ecat; cbn [negb] in *; inv_silent. split; [done|]. by exists s.
Qed.

Lemma model_version_text : exists s, prop model "modelVersion" = VStr s.
Proof.
  pose proof Hheader as Hh. unfold model_header in Hh. inv_silent.
  match goal with Hf : silent (check_each _ _) _ |- _ => pose proof (proj1 (silent_check_each _ _ _) Hf "modelVersion" ltac:(in_list)) as Hi end.
  cbn beta in Hi. inv_silent. match goal with Hf : silent (requireString _ _) _ |- _ => apply silent_string in Hf as [_ Hv] end.
  destruct (prop model "modelVersion"); try done. eauto.
Qed.

Lemma snapshot_of_design review path : silent (check_snapshot model review path) () ->
  strict_eq (prop review "reviewedModelVersion") (prop model "modelVersion") = true ->
  exists snapshot, reviewed_snapshot review snapshot /\ prop snapshot "modelVersion" = prop model "modelVersion" /\
    stableJson (immutableDesignSubject snapshot) = stableJson (immutableDesignSubject model).
Proof.
  intros Hs Hv. destruct model_version_text as [v Ev]. rewrite Ev in Hv. apply strict_eq_str in Hv. unfold check_snapshot in Hs. inv_silent.
  match goal with Hf : silent (require_commit _ _ _ _ _) _ |- _ => apply silent_commit in Hf as (-> & s & Ht & Hc & Hcat) end.
  cbn [negb] in *. unfold as_text in *. inv_silent. rewrite Ht in *. simplify_eq. unfold loadModelAtCommit in *.
  destruct (git_show _) as [stdout|] eqn:Eg; [|by inv_silent]. destruct (parse_json stdout) as [snapshot|] eqn:Ep; [|by inv_silent].
  inv_silent. exists snapshot. split; [by exists x, stdout|].
  match goal with Hf : negb (strict_eq _ _) = false |- _ => apply negb_false_iff in Hf; rewrite Hv in Hf; apply strict_eq_str in Hf as -> end.
  match goal with Hf : negb _ = false |- _ => apply negb_false_iff, str_eqb_eq in Hf; split; [|exact Hf] end.
  rewrite Ev. destruct snapshot; cbn in *; congruence.
Qed.

Lemma review_manual review : silent (check_manual model review) () ->
  exists e, e ∈ entities model "evidence" /\ prop e "id" = VStr "EV-PHASE0-REVIEW" /\ prop e "kind" = VStr "manual" /\
    prop e "status" = VStr "passed" /\ setEquals (prop e "coverageIds") (manual_coverage model) = true.
Proof.
  unfold check_manual. cbv zeta. intros Hc. destruct (List.find _ (entities model "evidence")) as [e|] eqn:E; cbv beta in Hc.
  - apply find_some in E as [Hin Hid%strict_eq_str]. exists e.
    change (default VUndef (Some e)) with e in Hc. destruct (strict_eq (prop e "kind") _) eqn:Ek; cbn [negb orb] in Hc; [|by inv_silent].
    destruct (strict_eq (prop e "status") _) eqn:Es; cbn [negb orb] in Hc; [|by inv_silent]. inv_silent.
    split_and!; [by apply list_elem_of_In|done|by apply strict_eq_str|by apply strict_eq_str|by apply negb_false_iff].
  - cbn in Hc. by inv_silent.
Qed.

Lemma ids_exactly name values : name ∈ ENTITY_ARRAYS -> setEquals values (set_of (ids_of (entities model name))) = true ->
  exactly values (ids_of (entities model name)).
Proof.
  intros Hn. apply set_exactly. intros v Hv. unfold ids_of in Hv. apply list_elem_of_fmap in Hv as (w & -> & Hw).
  destruct (ids_texts model byId Hmap name w Hn Hw) as (s & Hs & _). eauto.
Qed.

Lemma manual_covers e : setEquals (prop e "coverageIds") (manual_coverage model) = true ->
  forall name v, name ∈ ["domains"; "owners"; "boundaries"; "threats"; "mitigations"; "evidence"; "residualRisks"; "compatibility"] ->
    v ∈ entities model name -> lists e "coverageIds" v.
Proof.
  intros He name v Hn Hv. apply set_exactly in He as (l & He & _ & Hl).
  - unfold lists, list_prop. rewrite He. cbn [arrayOrEmpty].
    destruct (ids_texts model byId Hmap name v) as (s & Hs & _); [clear -Hn; unfold ENTITY_ARRAYS; set_solver|done|].
    rewrite Hs. apply list_elem_of_fmap. exists s. split; [done|]. apply Hl. right. apply list_elem_of_bind. exists name.
    split; [|done]. unfold ids_of. apply list_elem_of_fmap. by exists v.
  - intros w [->|Hw]%elem_of_cons.
    + pose proof Hheader as Hh. unfold model_header in Hh. inv_silent.
      match goal with Hf : negb (strict_eq (prop model (js "modelId")) _) = false |- _ => apply negb_false_iff, strict_eq_str in Hf; eauto end.
    + apply list_elem_of_bind in Hw as (n & Hw & Hn'). unfold ids_of in Hw. apply list_elem_of_fmap in Hw as (u & -> & Hu).
      destruct (ids_texts model byId Hmap n u) as (s & Hs & _); [clear -Hn'; unfold ENTITY_ARRAYS; set_solver|done|]. eauto.
Qed.

Section Approved.
Context (review : jsval) (Hin : review ∈ entities model "reviews").
Context (Hreview : silent (check_approved_review root model authors review) ()).

(** The parts of the check of the approved review. *)
Ltac of_review := pose proof Hreview as Hrev; unfold check_approved_review in Hrev; cbv zeta in Hrev; inv_silent.

Lemma reviewer_owner : exists reviewer content, prop review "reviewer" = VStr reviewer /\
  readFileSync (resolve root ".github/CODEOWNERS") = Ok content /\ reviewer ∈ codeowners_of content.
Proof.
  of_review. match goal with Hf : silent (currentCodeowners root) _ |- _ => unfold currentCodeowners in Hf end. inv_silent.
  match goal with Hf : negb (member _ _) = false |- _ => apply negb_false_iff in Hf; unfold member in Hf; rename Hf into Hm end.
  destruct (prop review "reviewer") as [| | | |reviewer| | |]; try done. apply existsb_str_elem in Hm. eauto.
Qed.

Lemma reviewer_other author : author ∈ list_prop model "authors" -> prop author "kind" = VStr "human" ->
  prop author "handle" <> prop review "reviewer".
Proof.
  intros Ha Hk He. destruct reviewer_owner as (reviewer & _ & Hr & _). of_review.
  match goal with Hf : includes_value (human_handles authors) _ = false |- _ => apply not_true_iff_false in Hf; apply Hf end.
  rewrite Hr in *. apply includes_str. pose proof Hauthors as (vs & Ev & -> & Hf & _)%silent_objects. unfold human_handles.
  apply list_elem_of_bind. exists (Some author). rewrite (proj2 (strict_eq_str _ _) Hk), He. split; [left|].
  apply list_elem_of_fmap. exists author. split; [done|]. unfold list_prop in Ha. by rewrite Ev in Ha.
Qed.

Lemma review_authority : prop review "riskAuthorityConfirmed" = VBool true.
Proof.
  of_review. match goal with Hf : negb (strict_eq _ (VBool true)) = false |- _ => by apply negb_false_iff, strict_eq_true in Hf end.
Qed.

Lemma review_design : exists snapshot, reviewed_snapshot review snapshot /\ prop snapshot "modelVersion" = prop model "modelVersion" /\
  (plain_json snapshot -> plain_json model -> same_value (immutableDesignSubject snapshot) (immutableDesignSubject model)).
Proof.
  of_review. match goal with Hf : silent (check_snapshot _ _ _) _ |- _ => apply snapshot_of_design in Hf as (snapshot & Hs & Hv & He) end.
  - exists snapshot. split_and!; [done|done|]. intros Hp Hp'. by apply stableJson_same; [apply subject_plain..|].
  - by match goal with Hf : negb (strict_eq (prop review (js "reviewedModelVersion")) _) = false |- _ => apply negb_false_iff in Hf end.
Qed.

Lemma review_risks : exactly (prop review "coveredResidualRiskIds") (ids_of (entities model "residualRisks")).
Proof.
  of_review. pose proof (reviews_checked root model byId Hchecks review Hin) as Hc. unfold check_review in Hc. inv_silent.
  match goal with Hf : silent (requireStringArray false None (prop review (js "coveredResidualRiskIds")) _) _ |- _ =>
    apply silent_strings in Hf as [(He & _) _] end.
  match goal with Hf : negb (setEquals (nullish_empty (prop review (js "coveredResidualRiskIds"))) _) = false |- _ =>
    apply negb_false_iff in Hf; rewrite He in *; apply ids_exactly; [in_list|exact Hf] end.
Qed.

Lemma evidence_of_review : exists e, e ∈ entities model "evidence" /\ prop e "id" = VStr "EV-PHASE0-REVIEW" /\
  prop e "kind" = VStr "manual" /\ prop e "status" = VStr "passed" /\
  forall name v, name ∈ ["domains"; "owners"; "boundaries"; "threats"; "mitigations"; "evidence"; "residualRisks"; "compatibility"] ->
    v ∈ entities model name -> lists e "coverageIds" v.
Proof.
  of_review. match goal with Hf : silent (check_manual _ _) _ |- _ => apply review_manual in Hf as (e & He & Hid & Hk & Hs & Hc) end.
  exists e. split_and!; [done..|]. by apply manual_covers.
Qed.
End Approved.

Lemma closed_by_review : exists review, closed model review.
Proof.
  destruct one_approved as (review & Hone & Hrev). exists review.
  assert (forall r, r ∈ entities model "reviews" /\ prop r "status" = VStr "approved" <-> r = review) as Hr.
  { intros r. pose proof (elem_of_lfilter (fun v => strict_eq (prop v "status") (VStr "approved")) (entities model "reviews") r) as Hf.
    by rewrite Hone, list_elem_of_singleton, strict_eq_str in Hf. }
  destruct (proj2 (Hr review) eq_refl) as [Hin Ha]. destruct closure_statuses as (Hs & Hopen & Hfail).
  constructor; [done|done| |done|done|by apply reviewer_owner|by apply reviewer_other|by apply review_authority|by apply review_design| | | |].
  - intros r H3 H4. by apply Hr.
  - apply closure_owners.
  - intros r H3. by apply risk_accepted.
  - by apply review_risks.
  - by apply (evidence_of_review review).
Qed.
End Review.

(** C15: a register that passes for closure has exactly one approved review,
    by a code owner who is no human author and has confirmed the authority;
    git holds the register of the reviewed commit, with the same version and
    the same design; every residual risk is accepted with the values of that
    review and covered by it, every owner is confirmed, the review's evidence
    covers every entity, and nothing failed or is still open. *)
Theorem closure_means_approved model overview :
  validateModel root model true overview = Ok [] -> exists review, closed model review.
Proof.
  intros (byId & authors & Hm & Hc & Ha & Hh & Hcl)%validate_parts. eapply closed_by_review; [exact Hm|done..|by apply Hcl].
Qed.
End Closed.

(** The tables of the rubric are read by the text of a value: a list with one
    name passes for the name. *)
Example likelihood_list : validateRisk (H := fun _ => [])
  (VObj [(js "likelihood", VArr [VStr "likely"]); (js "impact", VStr "critical"); (js "score", VNum (NInt 12)); (js "rating", VStr "critical")])
  "risk" = Reported () [].
Proof. vm_compute. reflexivity. Qed.
