(* ===== verification/ThreatSample.v ===== *)
(** A threat register that is closed, in a repository that holds the files it
    names: the witnesses of the theorems about the check. *)
From S2P Require Export ThreatClosureSpec.
#[local] Open Scope Z_scope.

Module ThreatSample.

#[export] Instance no_numbers : NumPrinter := fun _ => [].
#[export] Instance ascii_tables : UnicodeTables := {| lowercase := toLowerCase; letter_or_number := is_alnum |}.
#[export] Instance by_units : Collation := fun a b => negb (str_ltb b a).

(** ** The register: every boundary has one threat, and that one risk *)

Definition Str (s : string) : jsval := VStr s.
Definition texts_list (l : list string) : jsval := VArr (Str <$> l).
Definition obj (l : list (string * jsval)) : jsval := VObj ((fun kv => (js kv.1, kv.2)) <$> l).

Definition commit : string := "0123456789abcdef0123456789abcdef01234567".
Definition review_url : string := "https://github.com/aXeTech-NL/Trax-OS/pull/1#pullrequestreview-2".
Definition tracked : jsval :=
  obj [("kind", Str "issue-or-review"); ("url", Str "https://github.com/aXeTech-NL/Trax-OS/issues/1")].
Definition references : jsval := VArr [tracked].
Definition unique_text (before id after : string) : jsval := VStr (js before ++ js id ++ js after).

(** The numbered names: the domain, and what follows the prefix of an id. *)
Definition numbered_names : list (string * jstr) :=
  [("IDENTITY", 5%nat); ("ACCESS", 5%nat); ("NATIVE", 5%nat); ("SYNC", 5%nat); ("DOCUMENTS", 6%nat); ("ATLAS-MCP", 8%nat);
   ("SELF-HOSTING", 9%nat)] ≫= fun '(domain, n) => (fun id => (domain, drop 3 id)) <$> ids domain n.
Definition prefixed (prefix : string) (name : jstr) : jstr := js prefix ++ name.

Definition domain_value (domain : string) : jsval :=
  obj [("id", VStr (prefixed "DOM-" domain)); ("title", Str domain); ("description", Str "a domain"); ("currentCapability", Str "partial");
       ("ownerId", Str "OWN-SECURITY"); ("assumptions", texts_list ["the host is patched"]); ("references", references);
       ("boundaryIds", VArr (omap (fun '(d, name) => if String.eqb d domain then Some (VStr (prefixed "TB-" name)) else None) numbered_names))].

Definition compatibility_ids : list jstr := (fun i => js "COMPAT-" ++ print_int (Z.of_nat i)) <$> seq 1 9.

Definition capability_of (name : jstr) : string :=
  if is_one_of expectedPartial (VStr (prefixed "TB-" name)) then "partial" else "not-implemented".
Definition boundary_value (domain : string) (name : jstr) : jsval :=
  obj [("id", VStr (prefixed "TB-" name)); ("domainId", VStr (prefixed "DOM-" domain)); ("title", VStr (js "Boundary " ++ name));
       ("description", Str "a boundary"); ("currentCapability", Str (capability_of name)); ("trustZones", texts_list ["client"; "server"]);
       ("components", texts_list ["web"]); ("dataFlows", VArr [obj [("direction", Str "in"); ("data", Str "a request"); ("channel", Str "https"); ("authority", Str "session")]]);
       ("assets", texts_list ["journeys"]); ("assumptions", VArr []); ("threatIds", VArr [VStr (prefixed "TH-" name)]);
       ("compatibilityIds", VArr (VStr <$> compatibility_ids)); ("references", references)].

Definition risk_value (approved : bool) (name : jstr) : jsval :=
  obj [("id", VStr (prefixed "RR-" name)); ("threatId", VStr (prefixed "TH-" name)); ("ownerId", Str "OWN-SECURITY");
       ("postControlRisk", obj [("likelihood", Str "possible"); ("impact", Str "serious"); ("score", VNum (NInt 4)); ("rating", Str "medium")]);
       ("rationale", VStr (js "Likelihood remains possible, since the control is designed and not yet in place where " ++ name ++
          js " is crossed, and nothing else stands in the way of a determined intruder. Impact remains serious, since what is kept there belongs to a traveller."));
       ("affectedAssumptions", VArr []); ("disposition", Str (if approved then "accepted" else "pending")); ("acceptanceScope", Str "phase-0-design");
       ("reopeningTriggers", texts_list ["the control changes"]);
       ("acceptance", if approved then
          obj [("scope", Str "phase-0-design"); ("statement", Str "accepted as it is"); ("acceptedBy", Str "@lead"); ("acceptedAt", Str "2026-08-03");
               ("reviewId", Str "REV-PHASE0-001"); ("reference", Str review_url)] else VNull)].

Definition threat_value (index : nat) (name : jstr) : jsval :=
  obj [("id", VStr (prefixed "TH-" name)); ("boundaryIds", VArr [VStr (prefixed "TB-" name)]); ("scenario", VStr (js "Someone crosses " ++ name));
       ("category", Str (default "privacy" (METHODOLOGY_CATEGORIES !! (index mod 9)%nat))); ("preconditions", VArr [VStr (js "a session at " ++ name)]);
       ("affectedAssets", texts_list ["journeys"]); ("securityProperties", texts_list ["integrity"; "privacy"]);
       ("inherentRisk", obj [("likelihood", Str "likely"); ("impact", Str "critical"); ("score", VNum (NInt 12)); ("rating", Str "critical")]);
       ("mitigationIds", texts_list ["MIT-SYNC-001"]); ("ownerId", Str "OWN-SECURITY"); ("evidenceIds", texts_list ["EV-PHASE0-REVIEW"]);
       ("residualRiskId", VStr (prefixed "RR-" name)); ("references", references)].

Definition mitigation_value : jsval :=
  obj [("id", Str "MIT-SYNC-001"); ("title", Str "Guards"); ("control", Str "A guard at every boundary"); ("controlType", Str "preventive");
       ("implementationStatus", Str "designed"); ("ownerId", Str "OWN-SECURITY"); ("evidenceIds", texts_list ["EV-PHASE0-REVIEW"]);
       ("references", references); ("limitations", texts_list ["not built yet"]); ("reopeningTriggers", texts_list ["the control changes"])].

Definition all_ids : list jstr :=
  js "TM-PHASE0-001" :: REQUIRED_DOMAINS ++ [js "OWN-SECURITY"] ++
  (["TB-"; "TH-"; "RR-"] ≫= fun prefix => (fun '(_, name) => prefixed prefix name) <$> numbered_names) ++
  [js "MIT-SYNC-001"; js "EV-PHASE0-REVIEW"] ++ compatibility_ids.

Definition evidence_value (approved : bool) : jsval :=
  obj [("id", Str "EV-PHASE0-REVIEW"); ("kind", Str "manual"); ("scope", Str "design"); ("status", Str (if approved then "passed" else "planned"));
       ("claim", Str "the design was reviewed"); ("procedure", Str "read it"); ("coverageIds", VArr (VStr <$> all_ids)); ("ownerId", Str "OWN-SECURITY");
       ("limitations", texts_list ["a reading only"]); ("trackingIssue", Str "https://github.com/aXeTech-NL/Trax-OS/issues/2");
       ("artifact", obj [("kind", Str "repository"); ("path", Str "docs/review.md"); ("selector", Str "## Review result")]);
       ("execution", if approved then
          obj [("commit", Str commit); ("executedAt", Str "2026-08-03"); ("environment", Str "a desk"); ("result", Str "passed");
               ("immutableReference", Str review_url)] else VNull)].

Definition compatibility_value (id : jstr) (target : string) : jsval :=
  obj [("id", VStr id); ("target", Str target); ("currentState", Str "absent"); ("impact", Str "none"); ("migrationImpact", Str "none");
       ("status", Str "designed"); ("affectedBoundaryIds", texts_list ["TB-SYNC-001"]); ("references", references)].

Definition owner_value (approved : bool) : jsval :=
  obj [("id", Str "OWN-SECURITY"); ("role", Str "security lead"); ("accountabilities", texts_list ["the register"]);
       ("status", Str (if approved then "confirmed" else "proposed")); ("handle", if approved then Str "@lead" else VNull);
       ("riskAuthority", VBool approved); ("confirmationReference", if approved then tracked else VNull)].

Definition review_value (approved : bool) : jsval :=
  obj [("id", Str "REV-PHASE0-001"); ("reviewTypes", texts_list REVIEW_TYPES); ("status", Str (if approved then "approved" else "pending"));
       ("reviewer", if approved then Str "@lead" else VNull); ("reviewedModelVersion", if approved then Str "1.0.0" else VNull);
       ("reviewedCommit", if approved then Str commit else VNull); ("reviewedAt", if approved then Str "2026-08-03" else VNull);
       ("immutableReference", if approved then Str review_url else VNull); ("artifactPath", Str "docs/review.md");
       ("coveredResidualRiskIds", VArr (if approved then (fun '(_, name) => VStr (prefixed "RR-" name)) <$> numbered_names else []));
       ("riskAuthorityConfirmed", VBool approved)].

Definition methodology_value : jsval :=
  obj [("categories", texts_list METHODOLOGY_CATEGORIES); ("likelihood", VObj RISK_LIKELIHOOD); ("impact", VObj RISK_IMPACT);
       ("ratingBands", RATING_BANDS); ("note", Str "the rubric")].

(** Before the review and after it. *)
Definition sample_register (approved : bool) : jsval :=
  obj [("schemaVersion", Str "1.0.0"); ("modelId", Str "TM-PHASE0-001"); ("modelVersion", Str "1.0.0");
       ("modelStatus", Str (if approved then "validated" else "designed")); ("title", Str "Threats");
       ("issue", Str "https://github.com/aXeTech-NL/Trax-OS/issues/1"); ("overviewPath", Str "docs/overview.md");
       ("architectureBaseline", obj [("commit", Str commit); ("reviewedAt", Str "2026-08-01"); ("references", references)]);
       ("methodology", methodology_value);
       ("authors", VArr [obj [("id", Str "AUTH-BOT"); ("kind", Str "automation"); ("role", Str "writer"); ("handle", VNull)];
                         obj [("id", Str "AUTH-WRITER"); ("kind", Str "human"); ("role", Str "writer"); ("handle", Str "@writer")]]);
       ("closurePolicy", obj [("requiredCodeownerReview", VBool true); ("reviewerMustNotBeAuthor", VBool true);
                              ("explicitRiskAuthorityRequired", VBool true); ("futureImplementationEvidenceMayRemainPlanned", VBool true); ("note", Str "strict")]);
       ("domains", VArr (domain_value <$> DOMAIN_SUFFIXES)); ("owners", VArr [owner_value approved]);
       ("boundaries", VArr ((fun '(domain, name) => boundary_value domain name) <$> numbered_names));
       ("threats", VArr (imap (fun index '(_, name) => threat_value index name) numbered_names));
       ("mitigations", VArr [mitigation_value]); ("evidence", VArr [evidence_value approved]);
       ("residualRisks", VArr ((fun '(_, name) => risk_value approved name) <$> numbered_names));
       ("compatibility", VArr (zip_with compatibility_value compatibility_ids REQUIRED_COMPATIBILITY));
       ("reviews", VArr [review_value approved]); ("designEvidenceIds", texts_list ["EV-PHASE0-REVIEW"])].

(** ** The repository *)

Definition tick (s : jstr) : jstr := backticks s.
Definition overview_line (name : jstr) : jstr :=
  js "| " ++ tick (prefixed "TB-" name) ++ js " Boundary " ++ name ++ js " | " ++ tick (capability_of name) ++ js " | " ++ tick (prefixed "TH-" name) ++
  js " Someone crosses " ++ name ++ js " | " ++ tick "MIT-SYNC-001" ++ js " A guard at every boundary | " ++
  tick "EV-PHASE0-REVIEW" ++ js " (passed) | " ++ tick (prefixed "RR-" name) ++ js " medium accepted |".
Definition overview : jstr :=
  join [10%N] (js "43 trust boundaries, 43 threats, 1 controls and 43 residual-risk records" ::
    (DOMAIN_SUFFIXES ≫= fun domain =>
       [js "### " ++ js domain ++ js " (" ++ tick (prefixed "DOM-" domain) ++ js ")";
        js "Current capability: **partial**. Accountable role: " ++ tick "OWN-SECURITY" ++ js "."]) ++
    ((fun '(_, name) => overview_line name) <$> numbered_names)).
Definition review_text : jstr :=
  join [10%N] [js "# Review"; js "**Status:** Approved"; js "**Reviewer:** @lead"; js "**Model version:** 1.0.0";
               js "**Reviewed commit:** " ++ js commit; js "**Immutable review reference:** " ++ js review_url; js "**Risk authority:** Confirmed";
               js "I explicitly confirm that the reviewer is authorized to accept the listed Phase 0 residual risks.";
               js "## Review result"; []; js "Approved, for the three kinds of review."].

#[export] Instance workspace : Workspace := {|
  realpathSync := Some;
  isFile := fun _ => Ok true;
  readFileSync := fun path =>
    Ok (if str_eqb path "/repo/docs/overview.md" then overview
        else if str_eqb path "/repo/docs/review.md" then review_text
        else join [10%N] [js "# owners"; js "* @lead"]);
  cat_file := fun name => str_eqb name (js commit ++ js "^{commit}");
  is_shallow := None;
  git_show := fun _ => Some (js "the register");
  parse_json := fun _ => Some (sample_register false);
|}.
End ThreatSample.

Module ThreatWitnesses.
Import ThreatSample.

Lemma closure_means_approved_witness : exists review, closed (js "/repo") (sample_register true) review.
Proof. apply (closure_means_approved (js "/repo") (sample_register true) None). vm_compute. reflexivity. Defined.

Lemma validated_register_traceable_witness : traceable (sample_register true) /\ length (entities (sample_register true) "threats") = 43%nat.
Proof.
  split; [|reflexivity]. apply (validated_register_traceable (js "/repo") (sample_register true) true None). vm_compute. reflexivity.
Defined.

(** Before the review the same register is not closed, and the check says what
    is missing. *)
Example register_before_review :
  match validateModel (js "/repo") (sample_register false) true (Some overview) with
  | Ok errors => existsb (fun d => str_eqb (code d) "CLOSURE_REVIEW") errors
  | Throw _ => false
  end = true.
Proof. vm_compute. reflexivity. Qed.
End ThreatWitnesses.
