(* ===== verification/Domain.v ===== *)
(** The Journey domain: [apps/web/src/features/journeys/domain.ts].
    Data types, form validation, the read helpers of the pages, and
    [parseJourneyData], the run-time check of a whole [JourneyData]. *)
From S2P Require Export JsValue.

(** ** Data *)

Inductive JourneyStatus := planning | active | completed | archived.
Inductive PackingCategory := documents | clothing | toiletries | electronics | other.

#[export] Instance JourneyStatus_eq_dec : EqDecision JourneyStatus.
Proof. solve_decision. Defined.
#[export] Instance PackingCategory_eq_dec : EqDecision PackingCategory.
Proof. solve_decision. Defined.

Definition status_string (s : JourneyStatus) : jstr :=
  match s with
  | planning => "planning" | active => "active"
  | completed => "completed" | archived => "archived"
  end.
Definition category_string (c : PackingCategory) : jstr :=
  match c with
  | documents => "documents" | clothing => "clothing" | toiletries => "toiletries"
  | electronics => "electronics" | other => "other"
  end.

Record Journey := mkJourney {
  journey_id : jstr;
  journey_name : jstr;
  journey_startDate : option jstr;
  journey_endDate : option jstr;
  journey_status : JourneyStatus;
  journey_recordVersion : Z;
  journey_createdAt : jstr;
  journey_updatedAt : jstr;
}.

(** The two members of the [JourneySegment] union: the fields a [stay] and a
    [move] do not share; the tag is the constructor. *)
Inductive SegmentDetail :=
| StaySegment (placeName : jstr)
| MoveSegment (originName destinationName transportMode : jstr).

Record JourneySegment := mkSegment {
  segment_id : jstr;
  segment_journeyId : jstr;
  segment_position : Z;
  segment_startDate : option jstr;
  segment_endDate : option jstr;
  segment_notes : jstr;
  segment_recordVersion : Z;
  segment_createdAt : jstr;
  segment_updatedAt : jstr;
  segment_detail : SegmentDetail;
}.

Record PackingItem := mkPackingItem {
  item_id : jstr;
  item_journeyId : jstr;
  item_label : jstr;
  item_category : PackingCategory;
  item_quantity : jsnum;
  item_packedQuantity : jsnum;
  item_essential : bool;
  item_recordVersion : Z;
  item_createdAt : jstr;
  item_updatedAt : jstr;
}.

(** [schemaVersion] has the literal type [1], so it carries no information. *)
Record JourneyData := mkData {
  journeys : list Journey;
  segments : list JourneySegment;
  packingItems : list PackingItem;
}.

Definition EMPTY_JOURNEY_DATA : JourneyData := mkData [] [] [].

Record JourneyInput := mkJourneyInput {
  ji_name : jstr;
  ji_startDate : jstr;
  ji_endDate : jstr;
}.

Inductive SegmentInput :=
| StayInput (placeName startDate endDate notes : jstr)
| MoveInput (originName destinationName transportMode startDate endDate notes : jstr).

Definition si_startDate (i : SegmentInput) : jstr :=
  match i with StayInput _ s _ _ => s | MoveInput _ _ _ s _ _ => s end.
Definition si_endDate (i : SegmentInput) : jstr :=
  match i with StayInput _ _ e _ => e | MoveInput _ _ _ _ e _ => e end.
Definition si_notes (i : SegmentInput) : jstr :=
  match i with StayInput _ _ _ n => n | MoveInput _ _ _ _ _ n => n end.

Record PackingInput := mkPackingInput {
  pi_label : jstr;
  pi_category : PackingCategory;
  pi_quantity : jsnum;
  pi_essential : bool;
}.

Inductive ValidationErrorCode :=
| name_required | date_order | place_required | route_required
| packing_label_required | quantity_invalid.

#[export] Instance ValidationErrorCode_eq_dec : EqDecision ValidationErrorCode.
Proof. solve_decision. Defined.

(** ** Form validation *)

(** [if (b) errors.push(e)] *)
Definition push_if {A} (b : bool) (e : A) : list A := if b then [e] else [].

(** [value.trim().length === 0] *)
Definition blank (s : jstr) : bool := str_length (trim s) =? 0.

(** [start && end && end < start] *)
Definition dates_out_of_order (startDate endDate : jstr) : bool :=
  str_truthy startDate && str_truthy endDate && str_ltb endDate startDate.

Definition validateJourney (input : JourneyInput) : list ValidationErrorCode :=
  push_if (blank (ji_name input)) name_required
  ++ push_if (dates_out_of_order (ji_startDate input) (ji_endDate input)) date_order.

Definition validateSegment (input : SegmentInput) : list ValidationErrorCode :=
  push_if (dates_out_of_order (si_startDate input) (si_endDate input)) date_order
  ++ push_if (match input with StayInput place _ _ _ => blank place | _ => false end) place_required
  ++ push_if (match input with
              | MoveInput origin destination _ _ _ _ => blank origin || blank destination
              | _ => false end) route_required.

Definition validatePacking (input : PackingInput) : list ValidationErrorCode :=
  push_if (blank (pi_label input)) packing_label_required
  ++ push_if (negb (isInteger (pi_quantity input))
              || num_ltb (pi_quantity input) (NInt 1)
              || num_gtb (pi_quantity input) (NInt 99)) quantity_invalid.

(** ** Reading the data *)

Definition segmentsForJourney (data : JourneyData) (journeyId : jstr) : list JourneySegment :=
  sort_by segment_position
    (List.filter (fun s => str_eqb (segment_journeyId s) journeyId) (segments data)).

Definition packingForJourney (data : JourneyData) (journeyId : jstr) : list PackingItem :=
  List.filter (fun i => str_eqb (item_journeyId i) journeyId) (packingItems data).

Record Progress := mkProgress { packed : jsnum; total : jsnum }.
Definition packingProgress (items : list PackingItem) : Progress :=
  fold_left (fun p i => mkProgress (num_add (packed p) (item_packedQuantity i))
                                   (num_add (total p) (item_quantity i)))
    items (mkProgress (NInt 0) (NInt 0)).

(** ** [parseJourneyData] *)

Inductive LocalDataError := invalid_local_data.
Abbreviation parsed := (outcome LocalDataError).

(** [if (!b) invalidLocalData()] *)
Definition require (b : bool) : parsed () := throw_if (negb b) invalid_local_data.
Definition record_of (v : jsval) : parsed (list (jstr * jsval)) :=
  match as_record v with Some fs => Ok fs | None => Throw invalid_local_data end.
Definition array_of (v : jsval) : parsed (list jsval) :=
  match v with VArr l => Ok l | _ => Throw invalid_local_data end.

Definition JOURNEY_STATUSES : list jstr :=
  status_string <$> [planning; active; completed; archived].
Definition PACKING_CATEGORIES : list jstr :=
  category_string <$> [documents; clothing; toiletries; electronics; other].

(** [LOCAL_DATE = /^\d{4}-\d{2}-\d{2}$/] *)
Definition LOCAL_DATE : list (N -> bool) :=
  let d := is_digit in let dash := N.eqb 45 in
  [d; d; d; d; dash; d; d; dash; d; d].

Definition nonEmptyString (v : jsval) : bool :=
  match v with VStr s => 0 <? str_length (trim s) | _ => false end.
Definition nullableDate (v : jsval) : bool :=
  match v with VNull => true | VStr s => match_classes LOCAL_DATE s | _ => false end.
Definition positiveVersion (v : jsval) : bool :=
  match v with VNum n => isInteger n && num_leb (NInt 1) n | _ => false end.
Definition isoTimestamp `{DateParser} (v : jsval) : bool :=
  match v with
  | VStr s => bool_decide (is_Some (date_parse s)) && str_includes s 84
  | _ => false
  end.
Definition member_string (v : jsval) (set : list jstr) : bool :=
  match v with VStr s => existsb (str_eqb s) set | _ => false end.
Definition is_boolean (v : jsval) : bool := match v with VBool _ => true | _ => false end.
Definition is_stringv (v : jsval) : bool := match v with VStr _ => true | _ => false end.

(** The text of a string value; only read where it is known to be one. *)
Definition text (v : jsval) : jstr := match v with VStr s => s | _ => [] end.

(** [(x.startDate && x.endDate && x.endDate < x.startDate)] *)
Definition dates_reversed (fs : list (jstr * jsval)) : bool :=
  truthy (get fs "startDate") && truthy (get fs "endDate")
  && str_ltb (text (get fs "endDate")) (text (get fs "startDate")).

(** An integral number between two bounds. *)
Definition integer_in (v : jsval) (lo : jsnum) (hi : option jsnum) : bool :=
  match v with
  | VNum n => isInteger n && negb (num_ltb n lo)
              && match hi with Some h => negb (num_gtb n h) | None => true end
  | _ => false
  end.

Section Parse.
Context `{DateParser}.

(** The checks of one element of [value.journeys]. *)
Definition journey_ok (journeyIds : gset jstr) (journey : list (jstr * jsval)) : bool :=
  nonEmptyString (get journey "id")
  && negb (bool_decide (text (get journey "id") ∈ journeyIds))
  && nonEmptyString (get journey "name")
  && member_string (get journey "status") JOURNEY_STATUSES
  && nullableDate (get journey "startDate")
  && nullableDate (get journey "endDate")
  && negb (dates_reversed journey)
  && positiveVersion (get journey "recordVersion")
  && isoTimestamp (get journey "createdAt")
  && isoTimestamp (get journey "updatedAt").

Fixpoint parse_journeys (journeyIds : gset jstr) (l : list jsval) : parsed (gset jstr) :=
  match l with
  | [] => Ok journeyIds
  | v :: l =>
      journey ← record_of v;
      _ ← require (journey_ok journeyIds journey);
      parse_journeys ({[text (get journey "id")]} ∪ journeyIds) l
  end.

Definition segment_ok (journeyIds segmentIds : gset jstr) (segment : list (jstr * jsval)) : bool :=
  nonEmptyString (get segment "id")
  && negb (bool_decide (text (get segment "id") ∈ segmentIds))
  && nonEmptyString (get segment "journeyId")
  && bool_decide (text (get segment "journeyId") ∈ journeyIds)
  && integer_in (get segment "position") (NInt 0) None
  && nullableDate (get segment "startDate")
  && nullableDate (get segment "endDate")
  && negb (dates_reversed segment)
  && is_stringv (get segment "notes")
  && positiveVersion (get segment "recordVersion")
  && isoTimestamp (get segment "createdAt")
  && isoTimestamp (get segment "updatedAt").

Definition segment_kind_ok (segment : list (jstr * jsval)) : bool :=
  if strict_eq (get segment "kind") (VStr "stay") then
    nonEmptyString (get segment "placeName")
  else if strict_eq (get segment "kind") (VStr "move") then
    nonEmptyString (get segment "originName")
    && nonEmptyString (get segment "destinationName")
    && is_stringv (get segment "transportMode")
  else false.

(** [segment.position] as a member of a [Set<number>]. *)
Definition position_of (segment : list (jstr * jsval)) : Z :=
  match get segment "position" with VNum n => default 0 (num_int n) | _ => 0 end.

Fixpoint parse_segments (journeyIds segmentIds : gset jstr)
    (positionsByJourney : gmap jstr (gset Z)) (l : list jsval) : parsed () :=
  match l with
  | [] => Ok ()
  | v :: l =>
      segment ← record_of v;
      _ ← require (segment_ok journeyIds segmentIds segment);
      _ ← require (segment_kind_ok segment);
      let jid := text (get segment "journeyId") in
      let positions := default ∅ (positionsByJourney !! jid) in
      _ ← require (negb (bool_decide (position_of segment ∈ positions)));
      parse_segments journeyIds ({[text (get segment "id")]} ∪ segmentIds)
        (<[jid := {[position_of segment]} ∪ positions]> positionsByJourney) l
  end.

(** [item.packedQuantity > item.quantity] *)
Definition overpacked (item : list (jstr * jsval)) : bool :=
  match get item "packedQuantity", get item "quantity" with
  | VNum p, VNum q => num_gtb p q
  | _, _ => false
  end.

Definition packing_ok (journeyIds packingIds : gset jstr) (item : list (jstr * jsval)) : bool :=
  nonEmptyString (get item "id")
  && negb (bool_decide (text (get item "id") ∈ packingIds))
  && nonEmptyString (get item "journeyId")
  && bool_decide (text (get item "journeyId") ∈ journeyIds)
  && nonEmptyString (get item "label")
  && member_string (get item "category") PACKING_CATEGORIES
  && integer_in (get item "quantity") (NInt 1) (Some (NInt 99))
  && integer_in (get item "packedQuantity") (NInt 0) None
  && negb (overpacked item)
  && is_boolean (get item "essential")
  && positiveVersion (get item "recordVersion")
  && isoTimestamp (get item "createdAt")
  && isoTimestamp (get item "updatedAt").

Fixpoint parse_packing (journeyIds packingIds : gset jstr) (l : list jsval) : parsed () :=
  match l with
  | [] => Ok ()
  | v :: l =>
      item ← record_of v;
      _ ← require (packing_ok journeyIds packingIds item);
      parse_packing journeyIds ({[text (get item "id")]} ∪ packingIds) l
  end.

(** Returns the (cloned) value it was given, or throws. *)
Definition parseJourneyData (value : jsval) : parsed jsval :=
  fs ← record_of value;
  _ ← require (strict_eq (get fs "schemaVersion") (VNum (NInt 1)));
  js ← array_of (get fs "journeys");
  ss ← array_of (get fs "segments");
  ps ← array_of (get fs "packingItems");
  journeyIds ← parse_journeys ∅ js;
  _ ← parse_segments journeyIds ∅ ∅ ss;
  _ ← parse_packing journeyIds ∅ ps;
  mret value.
End Parse.
