(* ===== verification/Repositories.v ===== *)
(** The repositories of the web application: the interfaces of
    [apps/web/src/repositories/], the in-memory adapters, and the HTTP adapters
    for authentication and instance information.  The HTTP adapters are
    written against [TraxClient], what they use of the API client; the API
    client is an instance of it. *)
From S2P Require Export ApiClientSpec Domain.

(** ** What the adapters use of the API client *)

Class TraxClient (C : Type) := {
  client_request : jstr -> jsval -> C -> outcome ClientError jsval * C;
  client_commandVersion : jstr -> C -> outcome ClientError jsnum * C;
}.

(** What it promises: a result is one the contract declares. *)
Definition declared_result `{DateParser} `{NumPrinter} (op : jstr) (v : jsval) : Prop :=
  exists o status, declared op o /\
    ((status, None) ∈ responses o /\ v = VNull \/
     exists schema, (status, Some schema) ∈ responses o /\ admits response_mode schema v).
Class TraxClientLaws (C : Type) `{TraxClient C} `{DateParser} `{NumPrinter} : Prop :=
  client_declares : forall op input c v c',
    client_request op input c = (Ok v, c') -> declared_result op v.

Section ApiInstance.
Context `{DateParser} `{NumPrinter} {W : Type} {net : Network W}.
Context (baseUrl : jstr) (csrfTokenProvider : W -> jstr).

Definition api_client : TraxClient (@ClientState W) := {|
  client_request := request baseUrl csrfTokenProvider;
  client_commandVersion := commandVersion baseUrl csrfTokenProvider;
|}.

Lemma api_client_laws : TraxClientLaws (H := api_client) (@ClientState W).
Proof.
  intros op input st v st' Hreq. destruct (request_ok _ _ _ _ _ _ _ Hreq) as (o & req & w & r & Hd & _ & Hr).
  destruct Hr as [_ [(Hin & _ & ->)|(schema & Hin & _ & _ & Ha)]]; exists o; eexists; split; eauto.
Qed.
End ApiInstance.

(** ** Repository interfaces *)

Inductive Locale := en | nl.
#[export] Instance Locale_eq_dec : EqDecision Locale.
Proof. solve_decision. Defined.

Inductive RepositoryErrorCode := authentication_required | version_conflict | network_error | server_error.
Inductive RepoError :=
| RepositoryError (code : RepositoryErrorCode) (message : jstr)
| OtherError (e : ClientError).

(** [JourneyRepository]: asynchronous methods on the state of an adapter. *)
Class JourneyRepository (R : Type) := {
  load : R -> outcome RepoError JourneyData * R;
  save : JourneyData -> R -> outcome RepoError JourneyData * R;
  loadLocale : R -> option Locale * R;
  saveLocale : Locale -> R -> R;
}.

Record AuthUser := { user_id : jstr; user_email : jstr; user_displayName : jstr; user_workspaceId : jstr }.
Record RegisterInput := { register_email : jstr; register_password : jstr; register_displayName : jstr }.
Record LoginInput := { login_email : jstr; login_password : jstr }.
Class AuthRepository (E R : Type) := {
  session : R -> outcome E (option AuthUser) * R;
  register : RegisterInput -> R -> outcome E AuthUser * R;
  login : LoginInput -> R -> outcome E AuthUser * R;
  logout : R -> outcome E () * R;
}.

(** ** In-memory adapters *)

Record InMemoryJourneys := { memory_data : JourneyData; memory_locale : option Locale }.
Definition new_in_memory (data : JourneyData) (locale : option Locale) : InMemoryJourneys :=
  {| memory_data := data; memory_locale := locale |}.
#[export] Instance InMemoryJourneyRepository : JourneyRepository InMemoryJourneys := {|
  load r := (Ok (memory_data r), r);
  save data r := (Ok data, {| memory_data := data; memory_locale := memory_locale r |});
  loadLocale r := (memory_locale r, r);
  saveLocale locale r := {| memory_data := memory_data r; memory_locale := Some locale |};
|}.

Definition USER : AuthUser :=
  {| user_id := "user-1"; user_email := "owner@example.com"; user_displayName := "Owner";
     user_workspaceId := "workspace-1" |}.
#[export] Instance InMemoryAuthRepository : AuthRepository Empty_set (option AuthUser) := {|
  session u := (Ok u, u);
  register input _ :=
    let u := {| user_id := user_id USER; user_email := register_email input;
                user_displayName := register_displayName input; user_workspaceId := user_workspaceId USER |} in
    (Ok u, Some u);
  login input _ :=
    let u := {| user_id := user_id USER; user_email := login_email input;
                user_displayName := user_displayName USER; user_workspaceId := user_workspaceId USER |} in
    (Ok u, Some u);
  logout _ := (Ok (), None);
|}.

(** ** HTTP authentication *)

(** [new Error(message)], or an error passed on. *)
Inductive AuthError := PlainError (message : jstr) | PassedOn (e : ClientError).

Definition auth_error (error : ClientError) : AuthError :=
  match error with
  | ApiError e => PlainError (if str_eqb (error_code e) "invalid_credentials" then error_code e
                              else if str_truthy (error_code e) then error_code e else "server_error")
  | e => PassedOn e
  end.

(** [value.user.id] and so on, of a validated response. *)
Definition string_prop (v : jsval) (k : jstr) : jstr := default [] (as_string (prop v k)).
Definition userFrom (value : jsval) : AuthUser :=
  let user := prop value "user" in
  {| user_id := string_prop user "id"; user_email := string_prop user "email";
     user_displayName := string_prop user "display_name";
     user_workspaceId := string_prop user "workspace_id" |}.

Section HttpAuth.
Context {C : Type} `{TraxClient C}.

(** [try { return f(await client.request(op, input)) } catch (e) { throw h(e) }] *)
Definition auth_call {A} (op : jstr) (input : jsval) (f : jsval -> A) (c : C) : outcome AuthError A * C :=
  match client_request op input c with
  | (Ok v, c) => (Ok (f v), c)
  | (Throw e, c) => (Throw (auth_error e), c)
  end.

Definition http_session (c : C) : outcome AuthError (option AuthUser) * C :=
  match client_request "session_route_api_v1_auth_session_get" (VObj []) c with
  | (Ok v, c) => (Ok (Some (userFrom v)), c)
  | (Throw e, c) =>
      match e with
      | ApiError a => if decide (error_status a = Some 401) then (Ok None, c) else (Throw (auth_error e), c)
      | _ => (Throw (auth_error e), c)
      end
  end.
Definition http_register (input : RegisterInput) : C -> outcome AuthError AuthUser * C :=
  auth_call "register_route_api_v1_auth_register_post"
    (VObj [(js "body", VObj [(js "email", VStr (register_email input));
                             (js "password", VStr (register_password input));
                             (js "display_name", VStr (register_displayName input))])]) userFrom.
Definition http_login (input : LoginInput) : C -> outcome AuthError AuthUser * C :=
  auth_call "login_route_api_v1_auth_login_post"
    (VObj [(js "body", VObj [(js "email", VStr (login_email input));
                             (js "password", VStr (login_password input))])]) userFrom.
Definition http_logout : C -> outcome AuthError () * C :=
  auth_call "logout_route_api_v1_auth_logout_post" (VObj []) (fun _ => ()).

#[export] Instance HttpAuthRepository : AuthRepository AuthError C := {|
  session := http_session; register := http_register; login := http_login; logout := http_logout |}.

(** ** Instance information *)

Record CapabilityInfo := { capability_key : jstr; capability_status : jstr }.
Record InstanceInfo := {
  application : jstr;
  instance_version : jstr;
  instance_apiVersion : jstr;
  capabilities : list CapabilityInfo;
}.
Inductive InstanceError :=
| InstanceRepositoryError (message code : jstr) (requestId : option jstr)
| InstancePassedOn (e : ClientError).

Definition instance_error (e : ClientError) : InstanceError :=
  match e with
  | ApiError a =>
      InstanceRepositoryError
        (match error_kind a with
         | kind_network => "The Trax OS API could not be reached."
         | kind_api => error_message a
         | _ => "The Trax OS API returned an invalid response."
         end) (error_code a) (error_requestId a)
  | e => InstancePassedOn e
  end.

Definition array_prop (v : jsval) (k : jstr) : list jsval :=
  match prop v k with VArr l => l | _ => [] end.

(** Both requests of [Promise.all] are made; the first failure is the one
    that is thrown. *)
Definition getInstance (c : C) : outcome InstanceError InstanceInfo * C :=
  let '(version, c) := client_request "version_api_v1_version_get" (VObj []) c in
  let '(caps, c) := client_request "capabilities_api_v1_capabilities_get" (VObj []) c in
  match version, caps with
  | Throw e, _ | _, Throw e => (Throw (instance_error e), c)
  | Ok version, Ok caps =>
      (Ok {| application := string_prop version "application";
             instance_version := string_prop version "version";
             instance_apiVersion := string_prop version "api_version";
             capabilities :=
               (fun v => {| capability_key := string_prop v "key";
                            capability_status := string_prop v "status" |})
               <$> array_prop caps "capabilities" |}, c)
  end.
End HttpAuth.
