(* ===== verification/HttpJourneyRepository.v ===== *)
(** The HTTP Journey repository:
    [apps/web/src/adapters/http-journey-repository.ts].  [load] reads the rows
    of the API into a [JourneyData]; [save] compares the data with what was
    last loaded and sends the difference, request by request. *)
From S2P Require Export Repositories.

(** ** Reading rows *)

Abbreviation row_read := (outcome RepoError).
Definition invalid_row {A} : row_read A := Throw (RepositoryError server_error "invalid_response").

Definition required (value : jsval) (keys : list string) : row_read (list (jstr * jsval)) :=
  match as_record value with
  | Some fs => if existsb (fun key => negb (has_property fs (js key))) keys then invalid_row else Ok fs
  | None => invalid_row
  end.
Definition string_of (value : jsval) : row_read jstr :=
  match value with VStr s => Ok s | _ => invalid_row end.
Definition nullable (value : jsval) : row_read (option jstr) :=
  match value with VNull => Ok None | v => Some <$> string_of v end.
Definition integer (value : jsval) : row_read jsnum :=
  match value with VNum n => if isInteger n then Ok n else invalid_row | _ => invalid_row end.
Definition boolean (value : jsval) : row_read bool :=
  match value with VBool b => Ok b | _ => invalid_row end.
Definition one_of {A} (text : A -> jstr) (all : list A) (value : jsval) : row_read A :=
  match value with
  | VStr s => match List.find (fun a => str_eqb (text a) s) all with Some a => Ok a | None => invalid_row end
  | _ => invalid_row
  end.
Definition status : jsval -> row_read JourneyStatus :=
  one_of status_string [planning; active; completed; archived].
Definition category : jsval -> row_read PackingCategory :=
  one_of category_string [documents; clothing; toiletries; electronics; other].

(** An integral number as the whole number the domain stores. *)
Definition whole (n : jsnum) : Z := default 0 (num_int n).

Definition journeyFrom (value : jsval) : row_read Journey :=
  row ← required value ["id"; "name"; "status"; "record_version"; "created_at"; "updated_at"]%string;
  id ← string_of (get row "id");
  name ← string_of (get row "name");
  startDate ← nullable (get row "start_date");
  endDate ← nullable (get row "end_date");
  st ← status (get row "status");
  version ← integer (get row "record_version");
  created ← string_of (get row "created_at");
  updated ← string_of (get row "updated_at");
  mret (mkJourney id name startDate endDate st (whole version) created updated).

Definition segmentFrom (value : jsval) : row_read JourneySegment :=
  row ← required value ["id"; "journey_id"; "kind"; "position"; "record_version"; "created_at";
                        "updated_at"; "notes"]%string;
  id ← string_of (get row "id");
  journeyId ← string_of (get row "journey_id");
  position ← integer (get row "position");
  startDate ← nullable (get row "start_date");
  endDate ← nullable (get row "end_date");
  notes ← string_of (get row "notes");
  version ← integer (get row "record_version");
  created ← string_of (get row "created_at");
  updated ← string_of (get row "updated_at");
  detail ← (if strict_eq (get row "kind") (VStr "stay") then
              place ← string_of (get row "place_name"); mret (StaySegment place)
            else
              origin ← string_of (get row "origin_name");
              destination ← string_of (get row "destination_name");
              mode ← string_of (get row "transport_mode");
              mret (MoveSegment origin destination mode));
  mret (mkSegment id journeyId (whole position) startDate endDate notes (whole version)
          created updated detail).

Definition packingFrom (value : jsval) : row_read PackingItem :=
  row ← required value ["id"; "journey_id"; "label"; "category"; "quantity"; "packed_quantity";
                        "essential"; "record_version"; "created_at"; "updated_at"]%string;
  id ← string_of (get row "id");
  journeyId ← string_of (get row "journey_id");
  label ← string_of (get row "label");
  cat ← category (get row "category");
  quantity ← integer (get row "quantity");
  packedQuantity ← integer (get row "packed_quantity");
  essential ← boolean (get row "essential");
  version ← integer (get row "record_version");
  created ← string_of (get row "created_at");
  updated ← string_of (get row "updated_at");
  mret (mkPackingItem id journeyId label cat quantity packedQuantity essential (whole version)
          created updated).

(** ** Request bodies *)

Definition opt_str (o : option jstr) : jsval := match o with Some s => VStr s | None => VNull end.
Definition id_field (includeId : bool) (id : jstr) : list (jstr * jsval) :=
  if includeId then [(js "id", VStr id)] else [].

Definition journeyBody (value : Journey) (includeId : bool) : list (jstr * jsval) :=
  id_field includeId (journey_id value)
  ++ [(js "name", VStr (journey_name value));
      (js "start_date", opt_str (journey_startDate value));
      (js "end_date", opt_str (journey_endDate value))].

Definition segmentBody (value : JourneySegment) (includeId : bool) : list (jstr * jsval) :=
  let stay f := match segment_detail value with StaySegment p => f p | _ => VNull end in
  let move f := match segment_detail value with MoveSegment o d m => f o d m | _ => VNull end in
  id_field includeId (segment_id value)
  ++ [(js "kind", VStr (match segment_detail value with StaySegment _ => "stay" | _ => "move" end));
      (js "start_date", opt_str (segment_startDate value));
      (js "end_date", opt_str (segment_endDate value));
      (js "notes", VStr (segment_notes value));
      (js "place_name", stay VStr);
      (js "origin_name", move (fun o _ _ => VStr o));
      (js "destination_name", move (fun _ d _ => VStr d));
      (js "transport_mode", match segment_detail value with
                            | MoveSegment _ _ m => VStr m | _ => VStr "" end)].

Definition packingBody (value : PackingItem) (includeId : bool) : list (jstr * jsval) :=
  id_field includeId (item_id value)
  ++ [(js "label", VStr (item_label value));
      (js "category", VStr (category_string (item_category value)));
      (js "quantity", VNum (item_quantity value));
      (js "essential", VBool (item_essential value))].

Definition opt_str_eqb (a b : option jstr) : bool := bool_decide (a = b).

Definition journeyChanged (a b : Journey) : bool :=
  negb (str_eqb (journey_name a) (journey_name b))
  || negb (opt_str_eqb (journey_startDate a) (journey_startDate b))
  || negb (opt_str_eqb (journey_endDate a) (journey_endDate b))
  || negb (bool_decide (journey_status a = journey_status b)).

Section Changed.
Context `{NumPrinter}.
Definition segmentChanged (a b : JourneySegment) : bool :=
  negb (opt_str_eqb (stringify (VObj (segmentBody a false))) (stringify (VObj (segmentBody b false)))).
Definition packingDefinitionChanged (a b : PackingItem) : bool :=
  negb (opt_str_eqb (stringify (VObj (packingBody a false))) (stringify (VObj (packingBody b false)))).
End Changed.

(** The first segment that is not where it was, for the reorder request:
    [after.find((item, index) => before[index]?.id !== item.id && ...)]. *)
Definition byPosition (l : list JourneySegment) : list JourneySegment := sort_by segment_position l.

Fixpoint first_moved (previous before after : list JourneySegment) : option JourneySegment :=
  match after with
  | [] => None
  | item :: after =>
      if negb (match before with old :: _ => str_eqb (segment_id old) (segment_id item) | [] => false end)
         && existsb (fun old => str_eqb (segment_id old) (segment_id item)) previous
      then Some item
      else first_moved previous (tail before) after
  end.

(** ** The repository *)

Section Repository.
Context `{NumPrinter} {C : Type} `{TraxClient C}.

Record PendingUpdate := { pending_commandId : jstr; pending_signature : jstr }.

(** The private fields, the client, the successive values of [commandId()]
    and [localStorage]. *)
Record RepoState := mkRepo {
  repo_current : JourneyData;
  repo_pending : gmap jstr PendingUpdate;
  repo_client : C;
  repo_ids : nat -> jstr;
  repo_calls : nat;
  repo_storage : gmap jstr jstr;
}.

Definition with_current (r : RepoState) d :=
  mkRepo d (repo_pending r) (repo_client r) (repo_ids r) (repo_calls r) (repo_storage r).
Definition with_pending (r : RepoState) p :=
  mkRepo (repo_current r) p (repo_client r) (repo_ids r) (repo_calls r) (repo_storage r).
Definition with_client (r : RepoState) c :=
  mkRepo (repo_current r) (repo_pending r) c (repo_ids r) (repo_calls r) (repo_storage r).

(** Code inside [repositoryCall]: it may throw what the client throws or a
    [RepositoryError] of its own; what it did to the state stays. *)
Definition Repo (A : Type) : Type := RepoState -> outcome RepoError A * RepoState.
#[export] Instance repo_ret : MRet Repo := fun A a r => (Ok a, r).
#[export] Instance repo_bind : MBind Repo := fun A B f m r =>
  match m r with (Ok a, r) => f a r | (Throw e, r) => (Throw e, r) end.
Definition repo_lift {A} (o : outcome RepoError A) : Repo A := fun r => (o, r).
Definition repo_get : Repo RepoState := fun r => (Ok r, r).

Definition call (op : jstr) (input : jsval) : Repo jsval := fun r =>
  let '(res, c) := client_request op input (repo_client r) in
  (try_catch res (fun e => Throw (OtherError e)), with_client r c).
Definition call_version (commandType : jstr) : Repo jsnum := fun r =>
  let '(res, c) := client_commandVersion commandType (repo_client r) in
  (try_catch res (fun e => Throw (OtherError e)), with_client r c).

(** [for (const x of l) await f(x)] *)
Fixpoint each {A} (f : A -> Repo ()) (l : list A) : Repo () :=
  match l with
  | [] => mret ()
  | x :: l => _ ← f x; each f l
  end.

(** [Promise.all(l.map(f))]: every call is made; the first failure is thrown. *)
Fixpoint all_of {A B} (f : A -> Repo B) (l : list A) : Repo (list B) := fun r =>
  match l with
  | [] => (Ok [], r)
  | x :: l =>
      let '(y, r) := f x r in
      let '(ys, r) := all_of f l r in
      (y ← y; ys ← ys; Ok (y :: ys), r)
  end.

(** Lines 287-303. *)
Definition repository_error (e : RepoError) : RepoError :=
  match e with
  | OtherError (ApiError a) =>
      if decide (error_kind a = kind_network) then RepositoryError network_error "Network unavailable"
      else if decide (error_status a = Some 401) then RepositoryError authentication_required (error_code a)
      else if decide (error_status a = Some 409) then RepositoryError version_conflict (error_code a)
      else RepositoryError server_error
             (if decide (error_kind a = kind_contract) then js "invalid_response" else error_code a)
  | e => e
  end.
Definition repositoryCall {A} (m : Repo A) : Repo A := fun r =>
  match m r with
  | (Ok a, r) => (Ok a, r)
  | (Throw e, r) => (Throw (repository_error e), r)
  end.

(** [.items.map(f)] of a validated list response. *)
Definition rows {A} (f : jsval -> row_read A) (response : jsval) : Repo (list A) :=
  repo_lift (mapM f (match prop response "items" with VArr l => l | _ => [] end)).

Definition path_of (kvs : list (string * jstr)) : jstr * jsval :=
  (js "path", VObj ((fun kv => (js kv.1, VStr kv.2)) <$> kvs)).
Definition body_of (fs : list (jstr * jsval)) : jstr * jsval := (js "body", VObj fs).
Definition expected (version : Z) : jstr * jsval := (js "expected_record_version", VNum (NInt version)).

Definition load_details (journey : Journey) : Repo (list JourneySegment * list PackingItem) := fun r =>
  let input := VObj [path_of [("journey_id"%string, journey_id journey)]] in
  let '(segmentData, r) := call "list_segments_api_v1_journeys__journey_id__segments_get" input r in
  let '(packingData, r) := call "list_packing_api_v1_journeys__journey_id__packing_get" input r in
  (sd ← repo_lift segmentData;
   pd ← repo_lift packingData;
   ss ← rows segmentFrom sd;
   ps ← rows packingFrom pd;
   mret (ss, ps)) r.

(** [this.current = data; this.pendingJourneyUpdates.clear(); return data] *)
Definition commit_load (data : JourneyData) : Repo JourneyData := fun r =>
  (Ok data, with_pending (with_current r data) ∅).

Definition http_load : Repo JourneyData :=
  repositoryCall (
    response ← call "list_journeys_api_v1_journeys_get" (VObj []);
    loaded ← rows journeyFrom response;
    details ← all_of load_details loaded;
    commit_load (mkData loaded (details ≫= fst) (details ≫= snd))).

(** Lines 80-109: the update command of one Journey, with the command id of
    an earlier attempt when it was the same command. *)
Definition update_payload (old journey : Journey) : list (jstr * jsval) :=
  [(js "journey_id", VStr (journey_id journey))] ++ journeyBody journey false
  ++ [(js "status", VStr (status_string (journey_status journey)));
      expected (journey_recordVersion old)].
Definition update_signature (version : jsnum) (payload : list (jstr * jsval)) : jstr :=
  default [] (stringify (VObj [(js "command_type", VStr "journey.update");
                               (js "command_version", VNum version); (js "payload", VObj payload)])).

Definition command_id_for (journeyId signature : jstr) : Repo jstr := fun r =>
  let '(commandId, r) :=
    match repo_pending r !! journeyId with
    | Some p => if str_eqb (pending_signature p) signature then (pending_commandId p, r)
                else (repo_ids r (repo_calls r),
                      mkRepo (repo_current r) (repo_pending r) (repo_client r) (repo_ids r)
                        (S (repo_calls r)) (repo_storage r))
    | None => (repo_ids r (repo_calls r),
               mkRepo (repo_current r) (repo_pending r) (repo_client r) (repo_ids r)
                 (S (repo_calls r)) (repo_storage r))
    end in
  (Ok commandId,
   with_pending r (<[journeyId := {| pending_commandId := commandId; pending_signature := signature |}]>
     (repo_pending r))).

Definition update_journey (old journey : Journey) : Repo () :=
  version ← call_version "journey.update";
  let payload := update_payload old journey in
  commandId ← command_id_for (journey_id journey) (update_signature version payload);
  _ ← call "canonical_update_journey_api_v1_commands_journey_update_post"
        (VObj [body_of [(js "command_id", VStr commandId); (js "command_type", VStr "journey.update");
                        (js "command_version", VNum version); (js "payload", VObj payload)]]);
  mret ().

Definition save_journey (previous : JourneyData) (journey : Journey) : Repo () :=
  match List.find (fun item => str_eqb (journey_id item) (journey_id journey)) (journeys previous) with
  | None => _ ← call "create_journey_api_v1_journeys_post" (VObj [body_of (journeyBody journey true)]); mret ()
  | Some old => if journeyChanged old journey then update_journey old journey else mret ()
  end.

Definition save_segment (previous : JourneyData) (segment : JourneySegment) : Repo () :=
  match List.find (fun item => str_eqb (segment_id item) (segment_id segment)) (segments previous) with
  | None =>
      _ ← call "create_segment_api_v1_journeys__journey_id__segments_post"
            (VObj [path_of [("journey_id"%string, segment_journeyId segment)];
                   body_of (segmentBody segment true)]); mret ()
  | Some old =>
      if segmentChanged old segment then
        _ ← call "update_segment_api_v1_journeys__journey_id__segments__segment_id__put"
              (VObj [path_of [("journey_id"%string, segment_journeyId segment);
                              ("segment_id"%string, segment_id segment)];
                     body_of (segmentBody segment false ++ [expected (segment_recordVersion old)])]); mret ()
      else mret ()
  end.

Definition reorder_journey (previous next : JourneyData) (journey : Journey) : Repo () :=
  let before := byPosition (List.filter (fun s => str_eqb (segment_journeyId s) (journey_id journey)) (segments previous)) in
  let after := byPosition (List.filter (fun s => str_eqb (segment_journeyId s) (journey_id journey)) (segments next)) in
  match first_moved (segments previous) before after with
  | None => mret ()
  | Some moved =>
      let old := List.find (fun item => str_eqb (segment_id item) (segment_id moved)) (segments previous) in
      _ ← call "reorder_segment_api_v1_journeys__journey_id__segments__segment_id__reorder_post"
            (VObj [path_of [("journey_id"%string, journey_id journey); ("segment_id"%string, segment_id moved)];
                   body_of [expected (default 0 (segment_recordVersion <$> old));
                            (js "new_position", VNum (NInt
                               (findIndex (fun item => str_eqb (segment_id item) (segment_id moved)) after)))]]);
      mret ()
  end.

Definition save_item (previous : JourneyData) (item : PackingItem) : Repo () :=
  let path2 := path_of [("journey_id"%string, item_journeyId item); ("item_id"%string, item_id item)] in
  match List.find (fun candidate => str_eqb (item_id candidate) (item_id item)) (packingItems previous) with
  | None =>
      _ ← call "create_packing_api_v1_journeys__journey_id__packing_post"
            (VObj [path_of [("journey_id"%string, item_journeyId item)]; body_of (packingBody item true)]); mret ()
  | Some old =>
      if packingDefinitionChanged old item then
        _ ← call "update_packing_api_v1_journeys__journey_id__packing__item_id__put"
              (VObj [path2; body_of (packingBody item false ++ [expected (item_recordVersion old)])]); mret ()
      else if negb (num_eqb (item_packedQuantity old) (item_packedQuantity item)) then
        _ ← call "update_packing_progress_api_v1_journeys__journey_id__packing__item_id__progress_put"
              (VObj [path2; body_of [expected (item_recordVersion old);
                                     (js "packed_quantity", VNum (item_packedQuantity item))]]); mret ()
      else mret ()
  end.

(** The elements of [previous] without a namesake in [next]. *)
Definition gone {A} (id : A -> jstr) (previous next : list A) : list A :=
  List.filter (fun item => negb (existsb (fun candidate => str_eqb (id candidate) (id item)) next)) previous.
Definition living (next : JourneyData) (journeyId : jstr) : bool :=
  bool_decide (journeyId ∈ journey_id <$> journeys next).

Definition http_save (next : JourneyData) : Repo JourneyData :=
  repositoryCall (
    r ← repo_get;
    let previous := repo_current r in
    _ ← each (fun journey =>
          _ ← call "delete_journey_api_v1_journeys__journey_id__delete"
                (VObj [path_of [("journey_id"%string, journey_id journey)]]); mret ())
        (gone journey_id (journeys previous) (journeys next));
    _ ← each (save_journey previous) (journeys next);
    _ ← each (fun segment =>
          _ ← call "delete_segment_api_v1_journeys__journey_id__segments__segment_id__delete"
                (VObj [path_of [("journey_id"%string, segment_journeyId segment);
                                ("segment_id"%string, segment_id segment)]]); mret ())
        (List.filter (fun item => living next (segment_journeyId item))
           (gone segment_id (segments previous) (segments next)));
    _ ← each (save_segment previous) (segments next);
    _ ← each (reorder_journey previous next) (journeys next);
    _ ← each (fun item =>
          _ ← call "delete_packing_api_v1_journeys__journey_id__packing__item_id__delete"
                (VObj [path_of [("journey_id"%string, item_journeyId item);
                                ("item_id"%string, item_id item)]]); mret ())
        (List.filter (fun item => living next (item_journeyId item))
           (gone item_id (packingItems previous) (packingItems next)));
    _ ← each (save_item previous) (packingItems next);
    http_load).

Definition LOCALE_KEY : jstr := "trax.locale.v1".
Definition locale_string (l : Locale) : jstr := match l with en => "en" | nl => "nl" end.
Definition http_loadLocale (r : RepoState) : option Locale * RepoState :=
  (match repo_storage r !! LOCALE_KEY with
   | Some v => if str_eqb v "en" then Some en else if str_eqb v "nl" then Some nl else None
   | None => None
   end, r).
Definition http_saveLocale (l : Locale) (r : RepoState) : RepoState :=
  mkRepo (repo_current r) (repo_pending r) (repo_client r) (repo_ids r) (repo_calls r)
    (<[LOCALE_KEY := locale_string l]> (repo_storage r)).

#[export] Instance HttpJourneyRepository : JourneyRepository RepoState := {|
  load := http_load; save := http_save; loadLocale := http_loadLocale; saveLocale := http_saveLocale |}.
End Repository.
