(* ===== verification/JourneyService.v ===== *)
(** The Journey service: [apps/web/src/features/journeys/journey-service.ts].
    Every exported operation, from the current [JourneyData] to the next one,
    with the calls it makes to the [Runtime] in the order it makes them. *)
From S2P Require Export Domain.

(** ** Errors and the runtime *)

Inductive OperationErrorCode := journey_not_found | item_not_found.
Inductive ServiceError :=
| JourneyValidationError (codes : list ValidationErrorCode)
| JourneyOperationError (code : OperationErrorCode).

(** [runtime.id()] and [runtime.now()]: the values successive calls return
    and how many calls have been made. *)
Record Runtime := mkRuntime {
  id_value : nat -> jstr;
  now_value : nat -> jstr;
  id_calls : nat;
  now_calls : nat;
}.

(** An operation reads the runtime and may throw. *)
Definition Svc (A : Type) : Type := Runtime -> outcome ServiceError (A * Runtime).

#[export] Instance svc_ret : MRet Svc := fun A a rt => Ok (a, rt).
#[export] Instance svc_bind : MBind Svc := fun A B f m rt =>
  match m rt with Ok (a, rt) => f a rt | Throw e => Throw e end.

#[export] Instance svc_fmap : FMap Svc := fun A B f m rt =>
  match m rt with Ok (a, rt) => Ok (f a, rt) | Throw e => Throw e end.

Definition svc_throw {A} (e : ServiceError) : Svc A := fun _ => Throw e.
Definition runtime_id : Svc jstr := fun rt =>
  Ok (id_value rt (id_calls rt),
      mkRuntime (id_value rt) (now_value rt) (S (id_calls rt)) (now_calls rt)).
Definition runtime_now : Svc jstr := fun rt =>
  Ok (now_value rt (now_calls rt),
      mkRuntime (id_value rt) (now_value rt) (id_calls rt) (S (now_calls rt))).

(** ** Guards *)

Definition assertValid (codes : list ValidationErrorCode) : Svc () :=
  match codes with [] => mret () | _ => svc_throw (JourneyValidationError codes) end.
Definition assertJourneyExists (data : JourneyData) (journeyId : jstr) : Svc () :=
  if existsb (fun j => str_eqb (journey_id j) journeyId) (journeys data) then mret ()
  else svc_throw (JourneyOperationError journey_not_found).
Definition assertOwnedItem (owned : bool) : Svc () :=
  if owned then mret () else svc_throw (JourneyOperationError item_not_found).

(** ** Helpers *)

(** [value || null] on a string *)
Definition or_null (s : jstr) : option jstr := if str_truthy s then Some s else None.
(** [value ?? call()] *)
Definition or_call {A} (o : option A) (call : Svc A) : Svc A :=
  match o with Some a => mret a | None => call end.
(** A truthy optional id, as in [segmentId ? ... : undefined]. *)
Definition given (id : option jstr) : option jstr :=
  match id with Some s => or_null s | None => None end.

Definition with_journeys (d : JourneyData) js := mkData js (segments d) (packingItems d).
Definition with_segments (d : JourneyData) ss := mkData (journeys d) ss (packingItems d).
Definition with_packing (d : JourneyData) ps := mkData (journeys d) (segments d) ps.

Definition touch (j : Journey) (now : jstr) : Journey :=
  mkJourney (journey_id j) (journey_name j) (journey_startDate j) (journey_endDate j)
    (journey_status j) (journey_recordVersion j) (journey_createdAt j) now.

(** [journeys.map(j => j.id === journeyId ? f(j, runtime.now()) : j)] *)
Definition map_journey (journeyId : jstr) (f : Journey -> jstr -> Journey)
    (js : list Journey) : Svc (list Journey) :=
  mapM (fun j => if str_eqb (journey_id j) journeyId
                 then now ← runtime_now; mret (f j now)
                 else mret j) js.

Definition touchJourney (data : JourneyData) (journeyId : jstr) : Svc JourneyData :=
  js ← map_journey journeyId touch (journeys data);
  mret (with_journeys data js).

Definition with_position (s : JourneySegment) (p : Z) : JourneySegment :=
  mkSegment (segment_id s) (segment_journeyId s) p (segment_startDate s) (segment_endDate s)
    (segment_notes s) (segment_recordVersion s) (segment_createdAt s) (segment_updatedAt s)
    (segment_detail s).

(** [new Map(list.map((segment, index) => [segment.id, index]))]: a later
    entry replaces an earlier one with the same key. *)
Definition index_map (l : list JourneySegment) : gmap jstr Z :=
  fold_left (fun m kv => <[fst kv := snd kv]> m)
    (imap (fun i s => (segment_id s, Z.of_nat i)) l) ∅.

(** [list.map(s => ({...s, position: positions.get(s.id) ?? s.position}))] *)
Definition reposition (positions : gmap jstr Z) (l : list JourneySegment) : list JourneySegment :=
  (fun s => with_position s (default (segment_position s) (positions !! segment_id s))) <$> l.

(** ** Operations *)

Definition createJourney (data : JourneyData) (input : JourneyInput)
    : Svc (JourneyData * Journey) :=
  _ ← assertValid (validateJourney input);
  timestamp ← runtime_now;
  id ← runtime_id;
  let journey := mkJourney id (trim (ji_name input)) (or_null (ji_startDate input))
                   (or_null (ji_endDate input)) planning 1 timestamp timestamp in
  mret (with_journeys data (journeys data ++ [journey]), journey).

Definition updateJourney (data : JourneyData) (journeyId : jstr) (input : JourneyInput)
    : Svc JourneyData :=
  _ ← assertJourneyExists data journeyId;
  _ ← assertValid (validateJourney input);
  js ← map_journey journeyId (fun j now =>
         mkJourney (journey_id j) (trim (ji_name input)) (or_null (ji_startDate input))
           (or_null (ji_endDate input)) (journey_status j) (journey_recordVersion j)
           (journey_createdAt j) now) (journeys data);
  mret (with_journeys data js).

Definition setJourneyStatus (data : JourneyData) (journeyId : jstr) (status : JourneyStatus)
    : Svc JourneyData :=
  _ ← assertJourneyExists data journeyId;
  js ← map_journey journeyId (fun j now =>
         mkJourney (journey_id j) (journey_name j) (journey_startDate j) (journey_endDate j)
           status (journey_recordVersion j) (journey_createdAt j) now) (journeys data);
  mret (with_journeys data js).

Definition deleteJourney (data : JourneyData) (journeyId : jstr) : Svc JourneyData :=
  _ ← assertJourneyExists data journeyId;
  mret (mkData
    (List.filter (fun j => negb (str_eqb (journey_id j) journeyId)) (journeys data))
    (List.filter (fun s => negb (str_eqb (segment_journeyId s) journeyId)) (segments data))
    (List.filter (fun i => negb (str_eqb (item_journeyId i) journeyId)) (packingItems data))).

Definition owns_segment (journeyId segmentId : jstr) (s : JourneySegment) : bool :=
  str_eqb (segment_id s) segmentId && str_eqb (segment_journeyId s) journeyId.

Definition segment_detail_of (input : SegmentInput) : SegmentDetail :=
  match input with
  | StayInput place _ _ _ => StaySegment (trim place)
  | MoveInput origin destination mode _ _ _ =>
      MoveSegment (trim origin) (trim destination) (trim mode)
  end.

Definition saveSegment (data : JourneyData) (journeyId : jstr) (input : SegmentInput)
    (segmentId : option jstr) : Svc JourneyData :=
  _ ← assertJourneyExists data journeyId;
  _ ← assertValid (validateSegment input);
  let existing := sid ← given segmentId;
                  List.find (owns_segment journeyId sid) (segments data) in
  _ ← assertOwnedItem (match given segmentId, existing with
                       | Some _, None => false | _, _ => true end);
  let position := default (Z.of_nat (length (segmentsForJourney data journeyId)))
                    (segment_position <$> existing) in
  timestamp ← runtime_now;
  id ← or_call (segment_id <$> existing) runtime_id;
  let segment := mkSegment id journeyId position
                   (or_null (si_startDate input)) (or_null (si_endDate input))
                   (trim (si_notes input)) (default 1 (segment_recordVersion <$> existing))
                   (default timestamp (segment_createdAt <$> existing)) timestamp
                   (segment_detail_of input) in
  let segments' := match existing with
                   | Some e => (fun s => if str_eqb (segment_id s) (segment_id e)
                                         then segment else s) <$> segments data
                   | None => segments data ++ [segment]
                   end in
  touchJourney (with_segments data segments') journeyId.

Definition deleteSegment (data : JourneyData) (journeyId segmentId : jstr) : Svc JourneyData :=
  _ ← assertJourneyExists data journeyId;
  _ ← assertOwnedItem (existsb (owns_segment journeyId segmentId) (segments data));
  let remaining := List.filter (fun s => negb (str_eqb (segment_id s) segmentId)) (segments data) in
  let ordered := sort_by segment_position
                   (List.filter (fun s => str_eqb (segment_journeyId s) journeyId) remaining) in
  touchJourney (with_segments data (reposition (index_map ordered) remaining)) journeyId.

Definition moveSegment (data : JourneyData) (journeyId segmentId : jstr) (direction : Z)
    : Svc JourneyData :=
  _ ← assertJourneyExists data journeyId;
  let ordered := segmentsForJourney data journeyId in
  let index := findIndex (fun s => str_eqb (segment_id s) segmentId) ordered in
  _ ← assertOwnedItem (negb (index <? 0));
  let target := index + direction in
  if (target <? 0) || (Z.of_nat (length ordered) <=? target) then mret data
  else
    match at_index ordered index, at_index ordered target with
    | Some current, Some destination =>
        let reordered := set_index (set_index ordered index destination) target current in
        touchJourney (with_segments data (reposition (index_map reordered) (segments data)))
          journeyId
    | _, _ => mret data
    end.

Definition owns_item (journeyId itemId : jstr) (i : PackingItem) : bool :=
  str_eqb (item_id i) itemId && str_eqb (item_journeyId i) journeyId.

Definition savePackingItem (data : JourneyData) (journeyId : jstr) (input : PackingInput)
    (itemId : option jstr) : Svc JourneyData :=
  _ ← assertJourneyExists data journeyId;
  _ ← assertValid (validatePacking input);
  let existing := iid ← given itemId;
                  List.find (owns_item journeyId iid) (packingItems data) in
  _ ← assertOwnedItem (match given itemId, existing with
                       | Some _, None => false | _, _ => true end);
  id ← or_call (item_id <$> existing) runtime_id;
  createdAt ← or_call (item_createdAt <$> existing) runtime_now;
  updatedAt ← runtime_now;
  let item := mkPackingItem id journeyId (trim (pi_label input)) (pi_category input)
                (pi_quantity input)
                (num_min (default (NInt 0) (item_packedQuantity <$> existing)) (pi_quantity input))
                (pi_essential input) (default 1 (item_recordVersion <$> existing))
                createdAt updatedAt in
  let packingItems' := match existing with
                       | Some e => (fun i => if str_eqb (item_id i) (item_id e)
                                             then item else i) <$> packingItems data
                       | None => packingItems data ++ [item]
                       end in
  touchJourney (with_packing data packingItems') journeyId.

Definition with_packedQuantity (i : PackingItem) (p : jsnum) : PackingItem :=
  mkPackingItem (item_id i) (item_journeyId i) (item_label i) (item_category i)
    (item_quantity i) p (item_essential i) (item_recordVersion i)
    (item_createdAt i) (item_updatedAt i).

Definition setPackedQuantity (data : JourneyData) (journeyId itemId : jstr)
    (packedQuantity : jsnum) : Svc JourneyData :=
  _ ← assertJourneyExists data journeyId;
  _ ← assertOwnedItem (existsb (owns_item journeyId itemId) (packingItems data));
  touchJourney (with_packing data
    ((fun i => if str_eqb (item_id i) itemId
               then with_packedQuantity i
                      (num_max (NInt 0) (num_min (item_quantity i) packedQuantity))
               else i) <$> packingItems data)) journeyId.

Definition deletePackingItem (data : JourneyData) (journeyId itemId : jstr) : Svc JourneyData :=
  _ ← assertJourneyExists data journeyId;
  _ ← assertOwnedItem (existsb (owns_item journeyId itemId) (packingItems data));
  touchJourney (with_packing data
    (List.filter (fun i => negb (str_eqb (item_id i) itemId)) (packingItems data))) journeyId.

Definition journeyPacking (data : JourneyData) (journeyId : jstr) : list PackingItem :=
  packingForJourney data journeyId.
