(* ===== verification/DomainSpec.v ===== *)
(** What [parseJourneyData] accepts.  [well_formed] states the intended
    invariant of a [JourneyData]; [encode_data] is the JavaScript value such a
    datum is; [read_data] is the reading behind the cast
    [structuredClone(value) as unknown as JourneyData]. *)
From S2P Require Export Domain.

(** ** The invariant *)

Definition nonblank (s : jstr) : Prop := str_length (trim s) <> 0.
Definition date_ok (o : option jstr) : Prop :=
  match o with Some s => match_classes LOCAL_DATE s = true | None => True end.
Definition dates_ordered (a b : option jstr) : Prop :=
  match a, b with Some s, Some e => str_ltb e s = false | _, _ => True end.
Definition detail_ok (d : SegmentDetail) : Prop :=
  match d with
  | StaySegment place => nonblank place
  | MoveSegment origin destination _ => nonblank origin /\ nonblank destination
  end.
(** An integral number in [lo..hi]. *)
Definition between (n : jsnum) (lo hi : Z) : Prop :=
  exists z, num_int n = Some z /\ lo <= z <= hi.
Definition item_num (n : jsnum) : Z := default 0 (num_int n).

Section WellFormed.
Context `{DateParser}.

Definition stamp_ok (s : jstr) : Prop := isoTimestamp (VStr s) = true.

Record journey_wf (j : Journey) : Prop := {
  jw_id : nonblank (journey_id j);
  jw_name : nonblank (journey_name j);
  jw_start : date_ok (journey_startDate j);
  jw_end : date_ok (journey_endDate j);
  jw_dates : dates_ordered (journey_startDate j) (journey_endDate j);
  jw_version : 1 <= journey_recordVersion j;
  jw_created : stamp_ok (journey_createdAt j);
  jw_updated : stamp_ok (journey_updatedAt j);
}.

Record segment_wf (s : JourneySegment) : Prop := {
  sw_id : nonblank (segment_id s);
  sw_journey : nonblank (segment_journeyId s);
  sw_position : 0 <= segment_position s;
  sw_start : date_ok (segment_startDate s);
  sw_end : date_ok (segment_endDate s);
  sw_dates : dates_ordered (segment_startDate s) (segment_endDate s);
  sw_version : 1 <= segment_recordVersion s;
  sw_created : stamp_ok (segment_createdAt s);
  sw_updated : stamp_ok (segment_updatedAt s);
  sw_detail : detail_ok (segment_detail s);
}.

Record item_wf (i : PackingItem) : Prop := {
  iw_id : nonblank (item_id i);
  iw_journey : nonblank (item_journeyId i);
  iw_label : nonblank (item_label i);
  iw_quantity : between (item_quantity i) 1 99;
  iw_packed : between (item_packedQuantity i) 0 (item_num (item_quantity i));
  iw_version : 1 <= item_recordVersion i;
  iw_created : stamp_ok (item_createdAt i);
  iw_updated : stamp_ok (item_updatedAt i);
}.

Definition slot (s : JourneySegment) : jstr * Z := (segment_journeyId s, segment_position s).

Record well_formed (d : JourneyData) : Prop := {
  wf_journeys : Forall journey_wf (journeys d);
  wf_journey_ids : NoDup (journey_id <$> journeys d);
  wf_segments : Forall segment_wf (segments d);
  wf_segment_ids : NoDup (segment_id <$> segments d);
  wf_segment_owner : Forall (fun s => segment_journeyId s ∈ journey_id <$> journeys d) (segments d);
  wf_positions : NoDup (slot <$> segments d);
  wf_items : Forall item_wf (packingItems d);
  wf_item_ids : NoDup (item_id <$> packingItems d);
  wf_item_owner : Forall (fun i => item_journeyId i ∈ journey_id <$> journeys d) (packingItems d);
}.
End WellFormed.

(** ** Values *)

Definition encode_opt (o : option jstr) : jsval :=
  match o with Some s => VStr s | None => VNull end.

Definition encode_journey (j : Journey) : list (jstr * jsval) :=
  [(js "id", VStr (journey_id j)); (js "name", VStr (journey_name j));
   (js "startDate", encode_opt (journey_startDate j));
   (js "endDate", encode_opt (journey_endDate j));
   (js "status", VStr (status_string (journey_status j)));
   (js "recordVersion", VNum (NInt (journey_recordVersion j)));
   (js "createdAt", VStr (journey_createdAt j)); (js "updatedAt", VStr (journey_updatedAt j))].

Definition encode_detail (d : SegmentDetail) : list (jstr * jsval) :=
  match d with
  | StaySegment place => [(js "kind", VStr "stay"); (js "placeName", VStr place)]
  | MoveSegment origin destination mode =>
      [(js "kind", VStr "move"); (js "originName", VStr origin);
       (js "destinationName", VStr destination); (js "transportMode", VStr mode)]
  end.

Definition encode_segment (s : JourneySegment) : list (jstr * jsval) :=
  [(js "id", VStr (segment_id s)); (js "journeyId", VStr (segment_journeyId s));
   (js "position", VNum (NInt (segment_position s)));
   (js "startDate", encode_opt (segment_startDate s));
   (js "endDate", encode_opt (segment_endDate s)); (js "notes", VStr (segment_notes s));
   (js "recordVersion", VNum (NInt (segment_recordVersion s)));
   (js "createdAt", VStr (segment_createdAt s)); (js "updatedAt", VStr (segment_updatedAt s))]
  ++ encode_detail (segment_detail s).

Definition encode_item (i : PackingItem) : list (jstr * jsval) :=
  [(js "id", VStr (item_id i)); (js "journeyId", VStr (item_journeyId i));
   (js "label", VStr (item_label i)); (js "category", VStr (category_string (item_category i)));
   (js "quantity", VNum (item_quantity i)); (js "packedQuantity", VNum (item_packedQuantity i));
   (js "essential", VBool (item_essential i));
   (js "recordVersion", VNum (NInt (item_recordVersion i)));
   (js "createdAt", VStr (item_createdAt i)); (js "updatedAt", VStr (item_updatedAt i))].

Definition encode_data (d : JourneyData) : jsval :=
  VObj [(js "schemaVersion", VNum (NInt 1));
        (js "journeys", VArr (map (fun j => VObj (encode_journey j)) (journeys d)));
        (js "segments", VArr (map (fun s => VObj (encode_segment s)) (segments d)));
        (js "packingItems", VArr (map (fun i => VObj (encode_item i)) (packingItems d)))].

(** ** Reflection of the field checks *)

Lemma nonEmptyString_iff s : nonEmptyString (VStr s) = true <-> nonblank s.
Proof. unfold nonEmptyString, nonblank, str_length. lia. Qed.

Lemma nullableDate_iff o : nullableDate (encode_opt o) = true <-> date_ok o.
Proof. by destruct o. Qed.

Lemma match_LOCAL_DATE_truthy s : match_classes LOCAL_DATE s = true -> str_truthy s = true.
Proof. by destruct s. Qed.

Lemma dates_reversed_iff fs a b :
  get fs "startDate" = encode_opt a -> get fs "endDate" = encode_opt b ->
  date_ok a -> date_ok b ->
  dates_reversed fs = false <-> dates_ordered a b.
Proof.
  unfold dates_reversed. intros -> -> Ha Hb.
  destruct a as [a|], b as [b|]; cbn in *; rewrite ?andb_false_r; try done.
  by rewrite (match_LOCAL_DATE_truthy _ Ha), (match_LOCAL_DATE_truthy _ Hb).
Qed.

Lemma positiveVersion_iff z : positiveVersion (VNum (NInt z)) = true <-> 1 <= z.
Proof. cbn. unfold num_leb. cbn. zcmp; split; intros; try done; lia. Qed.

Lemma num_int_cases n :
  (exists z, num_int n = Some z /\ isInteger n = true /\
     (forall lo, num_ltb n (NInt lo) = (z <? lo)) /\ (forall hi, num_gtb n (NInt hi) = (hi <? z))) \/
  (num_int n = None /\ isInteger n = false).
Proof.
  unfold num_gtb, num_ltb.
  destruct n as [z| | | |]; cbn; auto; left; [exists z | exists 0]; (split; [done|]);
    (split; [done|]); split; intros; zcmp; lia.
Qed.

Lemma integer_in_iff n lo hi :
  integer_in (VNum n) (NInt lo) (NInt <$> hi) = true <->
  exists z, num_int n = Some z /\ lo <= z /\ match hi with Some h => z <= h | None => True end.
Proof.
  unfold integer_in.
  destruct (num_int_cases n) as [(z & -> & -> & Hlt & Hgt)|[-> ->]].
  - rewrite Hlt. destruct hi as [h|]; cbn; [rewrite Hgt|];
      (split; [intros; exists z; split_and!; try done; lia | intros (? & [= <-] & ?); lia]).
  - cbn. split; [done|]. by intros (? & ? & _).
Qed.

Lemma member_status s : member_string (VStr (status_string s)) JOURNEY_STATUSES = true.
Proof. by destruct s. Qed.
Lemma member_category c : member_string (VStr (category_string c)) PACKING_CATEGORIES = true.
Proof. by destruct c. Qed.

Lemma require_ok b u : require b = Ok u <-> b = true.
Proof. unfold require. rewrite throw_if_Ok. by destruct b. Qed.

(** Split a conjunction of boolean checks into propositions. *)
Ltac split_bool := rewrite ?andb_true_iff, ?negb_true_iff, ?bool_decide_eq_true, ?bool_decide_eq_false.

(** Open an existential about the integer a number denotes. *)
Ltac destruct_ex :=
  repeat match goal with
  | H : exists z : Z, _ |- _ => destruct H as (? & ? & ? & ?)
  | H : Some _ = Some _ |- _ => injection H as <-
  end.

Section Encode.
Context `{DateParser}.

Lemma journey_ok_encode ids j :
  journey_ok ids (encode_journey j) = true <-> journey_wf j /\ journey_id j ∉ ids.
Proof.
  unfold journey_ok. split_bool.
  enough (Hd : date_ok (journey_startDate j) -> date_ok (journey_endDate j) ->
    (dates_reversed (encode_journey j) = false <->
     dates_ordered (journey_startDate j) (journey_endDate j))).
  { unfold encode_journey at 1 2 3 4 5 6 8 9 10. get_lit.
    rewrite !nonEmptyString_iff, member_status, !nullableDate_iff, positiveVersion_iff.
    cbn [text]. split.
    - intros (((((((((? & ?) & ?) & ?) & ?) & ?) & ?) & ?) & ?) & ?). split; [|done].
      constructor; try done. by apply Hd.
    - intros [[] ?]. repeat split; try done. by apply Hd. }
  apply dates_reversed_iff; by get_lit.
Qed.

Lemma segment_ok_encode jids ids s :
  (segment_ok jids ids (encode_segment s) && segment_kind_ok (encode_segment s)) = true <->
  segment_wf s /\ (segment_id s ∉ ids) /\ (segment_journeyId s ∈ jids).
Proof.
  unfold segment_ok. split_bool.
  enough (Hd : date_ok (segment_startDate s) -> date_ok (segment_endDate s) ->
    (dates_reversed (encode_segment s) = false <->
     dates_ordered (segment_startDate s) (segment_endDate s))).
  { assert (segment_kind_ok (encode_segment s) = true <-> detail_ok (segment_detail s)) as ->.
    { unfold segment_kind_ok, encode_segment. destruct (segment_detail s); cbn [encode_detail app];
        get_lit; eval_strict_eq; rewrite ?andb_true_iff, ?nonEmptyString_iff; cbn; tauto. }
    unfold encode_segment at 1 2 3 4 5 6 7 9 10 11 12. cbn [app]. get_lit.
    rewrite !nonEmptyString_iff, !nullableDate_iff, positiveVersion_iff, (integer_in_iff _ _ None).
    cbn [text num_int]. split.
    - intros ?. destruct_and!. destruct_ex.
      split; [|done]. constructor; try done. by apply Hd.
    - intros [[] [? ?]]. repeat split; try done; [eauto|]. by apply Hd. }
  apply dates_reversed_iff; by cbn [encode_segment app]; get_lit.
Qed.

Lemma packing_ok_encode jids ids i :
  packing_ok jids ids (encode_item i) = true <->
  item_wf i /\ (item_id i ∉ ids) /\ (item_journeyId i ∈ jids).
Proof.
  unfold packing_ok, overpacked, encode_item. get_lit. split_bool.
  rewrite !nonEmptyString_iff, member_category, positiveVersion_iff,
    (integer_in_iff _ _ None), (integer_in_iff _ _ (Some 99)).
  cbn [text is_boolean]. split.
  - intros ?. destruct_and!.
    match goal with H : exists z, num_int (item_quantity _) = _ /\ _ |- _ =>
      destruct H as (q & Hq & ? & ?) end.
    match goal with H : exists z, num_int (item_packedQuantity _) = _ /\ _ |- _ =>
      destruct H as (p & Hp & ? & _) end.
    match goal with H : num_gtb _ _ = _ |- _ => rename H into Hov end.
    split; [|done]. constructor; try done; unfold between, item_num; rewrite ?Hq; cbn; [eauto|].
    exists p. split; [done|]. split; [done|].
    destruct (num_int_cases (item_quantity i)) as [(?&Hq'&_&_&_)|[]]; [|congruence].
    rewrite Hq in Hq'. injection Hq' as <-.
    unfold num_gtb, num_ltb in Hov.
    destruct (item_quantity i), (item_packedQuantity i); try done; cbn in *;
      repeat match goal with Hx : Some _ = Some _ |- _ => injection Hx as <- end;
      revert Hov; zcmp; intros; try done; lia.
  - intros [[? ? ? (q & Hq & ?) (p & Hp & Hpq) ? ? ?] [? ?]].
    unfold item_num in Hpq. rewrite Hq in Hpq. cbn in Hpq.
    repeat split; try done.
    + exists q. split_and!; try done; lia.
    + exists p. split_and!; try done; lia.
    + unfold num_gtb, num_ltb.
      destruct (item_quantity i), (item_packedQuantity i); try done; cbn in *;
      repeat match goal with Hx : Some _ = Some _ |- _ => injection Hx as <- end;
      zcmp; try done; lia.
Qed.
End Encode.

Lemma status_string_inj a b : status_string a = status_string b -> a = b.
Proof. by destruct a, b. Qed.

Section Accept.
Context `{DateParser}.

Lemma parse_journeys_encode js ids ids' :
  parse_journeys ids (map (fun j => VObj (encode_journey j)) js) = Ok ids' <->
  Forall journey_wf js /\ NoDup (journey_id <$> js) /\
  (forall j, j ∈ js -> journey_id j ∉ ids) /\
  ids' = list_to_set (journey_id <$> js) ∪ ids.
Proof.
  revert ids. induction js as [|j js IH]; intros ids; cbn [map parse_journeys].
  - split.
    + intros [= <-]. split_and!; try constructor; [by intros ? ?%elem_of_nil|set_solver].
    + intros (_ & _ & _ & ->). f_equal. set_solver.
  - cbn [record_of as_record mbind outcome_bind].
    rewrite bind_Ok. setoid_rewrite require_ok.
    transitivity (journey_ok ids (encode_journey j) = true /\
      parse_journeys ({[journey_id j]} ∪ ids) (map (fun j => VObj (encode_journey j)) js) = Ok ids').
    { replace (text (get (encode_journey j) "id")) with (journey_id j)
        by (unfold encode_journey; by get_lit).
      split; [intros ([] & ? & ?)|intros [? ?]; exists ()]; done. }
    rewrite IH, journey_ok_encode. cbn [fmap list_fmap]. rewrite Forall_cons, NoDup_cons.
    setoid_rewrite elem_of_cons. setoid_rewrite list_elem_of_fmap.
    split.
    + intros [[? ?] (? & ? & Hd & ->)]. split_and!; try done.
      * intros (k & Heq & Hk). specialize (Hd k Hk). set_solver.
      * intros k [->|Hk]; [done|]. specialize (Hd k Hk). set_solver.
      * cbn. set_solver.
    + intros ([? ?] & [Hn ?] & Hd & ->). split_and!; auto.
      * intros k Hk. rewrite elem_of_union, elem_of_singleton. intros [He|?]; [|by eapply Hd; eauto].
        apply Hn. eauto.
      * cbn. set_solver.
Qed.

Lemma parse_packing_encode jids its ids :
  parse_packing jids ids (map (fun i => VObj (encode_item i)) its) = Ok () <->
  Forall item_wf its /\ NoDup (item_id <$> its) /\
  (forall i, i ∈ its -> item_id i ∉ ids) /\ Forall (fun i => item_journeyId i ∈ jids) its.
Proof.
  revert ids. induction its as [|i its IH]; intros ids; cbn [map parse_packing].
  - split; [|done]. intros _. split_and!; try constructor. by intros ? ?%elem_of_nil.
  - cbn [record_of as_record mbind outcome_bind].
    rewrite bind_Ok. setoid_rewrite require_ok.
    transitivity (packing_ok jids ids (encode_item i) = true /\
      parse_packing jids ({[item_id i]} ∪ ids) (map (fun i => VObj (encode_item i)) its) = Ok ()).
    { replace (text (get (encode_item i) "id")) with (item_id i)
        by (unfold encode_item; by get_lit).
      split; [intros ([] & ? & ?)|intros [? ?]; exists ()]; done. }
    rewrite IH, packing_ok_encode. cbn [fmap list_fmap]. rewrite !Forall_cons, NoDup_cons.
    setoid_rewrite elem_of_cons. setoid_rewrite list_elem_of_fmap.
    split.
    + intros [(? & ? & ?) (? & ? & Hd & ?)]. split_and!; try done.
      * intros (k & Heq & Hk). specialize (Hd k Hk). set_solver.
      * intros k [->|Hk]; [done|]. specialize (Hd k Hk). set_solver.
    + intros ([? ?] & [Hn ?] & Hd & [? ?]). split_and!; auto.
      intros k Hk. rewrite elem_of_union, elem_of_singleton. intros [He|?]; [|by eapply Hd; eauto].
      apply Hn. eauto.
Qed.

Lemma parse_segments_encode jids ss ids taken :
  parse_segments jids ids taken (map (fun s => VObj (encode_segment s)) ss) = Ok () <->
  Forall segment_wf ss /\ NoDup (segment_id <$> ss) /\
  (forall s, s ∈ ss -> segment_id s ∉ ids) /\
  Forall (fun s => segment_journeyId s ∈ jids) ss /\
  NoDup (slot <$> ss) /\
  (forall s, s ∈ ss -> segment_position s ∉ default ∅ (taken !! segment_journeyId s)).
Proof.
  revert ids taken. induction ss as [|s ss IH]; intros ids taken; cbn [map parse_segments].
  - split; [|done]. intros _. split_and!; try constructor; by intros ? ?%elem_of_nil.
  - cbn [record_of as_record mbind outcome_bind].
    replace (text (get (encode_segment s) "id")) with (segment_id s) by (cbn [encode_segment app]; by get_lit).
    replace (text (get (encode_segment s) "journeyId")) with (segment_journeyId s)
      by (cbn [encode_segment app]; by get_lit).
    replace (position_of (encode_segment s)) with (segment_position s)
      by (unfold position_of; cbn [encode_segment app]; by get_lit).
    set (old := default ∅ (taken !! segment_journeyId s)).
    transitivity ((segment_ok jids ids (encode_segment s) && segment_kind_ok (encode_segment s)) = true /\
      segment_position s ∉ old /\
      parse_segments jids ({[segment_id s]} ∪ ids)
        (<[segment_journeyId s := {[segment_position s]} ∪ old]> taken)
        (map (fun s => VObj (encode_segment s)) ss) = Ok ()).
    { rewrite andb_true_iff, bind_Ok. setoid_rewrite require_ok. split.
      - intros (_ & ? & H1). apply bind_Ok in H1 as (_ & ?%require_ok & H1).
        apply bind_Ok in H1 as (_ & Hb%require_ok & H1).
        split_and!; try done. by apply negb_true_iff, bool_decide_eq_false in Hb.
      - intros ([? Hk] & ? & ?). exists (). split; [done|]. rewrite Hk. cbn.
        by rewrite bool_decide_false. }
    rewrite IH, segment_ok_encode. cbn [fmap list_fmap].
    rewrite !Forall_cons, !NoDup_cons.
    setoid_rewrite elem_of_cons. setoid_rewrite list_elem_of_fmap.
    split.
    + intros [(? & ? & ?) (? & ? & ? & Hd & ? & ? & Hp)]. split_and!; try done.
      * intros (k & Heq & Hk). specialize (Hd k Hk). set_solver.
      * intros k [->|Hk]; [done|]. specialize (Hd k Hk). set_solver.
      * intros (k & Heq & Hk). injection Heq as Hj Hpos. specialize (Hp k Hk).
        rewrite <- Hj, lookup_insert_eq in Hp. set_solver.
      * intros k [->|Hk]; [done|]. specialize (Hp k Hk).
        destruct (decide (segment_journeyId s = segment_journeyId k)) as [E|E].
        -- rewrite <- E in Hp |- *. rewrite lookup_insert_eq in Hp. set_solver.
        -- by rewrite lookup_insert_ne in Hp.
    + intros ([? ?] & [Hn ?] & Hd & [? ?] & [Hs ?] & Hp). split_and!; auto.
      * intros k Hk. rewrite elem_of_union, elem_of_singleton. intros [He|?]; [|by eapply Hd; eauto].
        apply Hn. eauto.
      * intros k Hk. destruct (decide (segment_journeyId s = segment_journeyId k)) as [E|E].
        -- rewrite <- E, lookup_insert_eq. cbn. rewrite elem_of_union, elem_of_singleton.
           intros [He|Hin]; [|by apply (Hp k); [auto|rewrite <- E]].
           apply Hs. exists k. split; [|done]. unfold slot. congruence.
        -- rewrite lookup_insert_ne by done. auto.
Qed.

(** The whole value: exactly the well-formed data are accepted. *)
Lemma parse_encode_iff d :
  parseJourneyData (encode_data d) = Ok (encode_data d) <-> well_formed d.
Proof.
  unfold parseJourneyData, encode_data. cbn [record_of as_record mbind outcome_bind].
  get_lit. eval_strict_eq. cbn [require negb throw_if array_of mbind outcome_bind].
  rewrite bind_Ok. split.
  - intros (jids & Hj & H1). apply parse_journeys_encode in Hj as (? & ? & _ & ->).
    apply bind_Ok in H1 as ([] & Hs & H1). apply bind_Ok in H1 as ([] & Hp & _).
    apply parse_segments_encode in Hs as (? & ? & _ & Ho & ? & _).
    apply parse_packing_encode in Hp as (? & ? & _ & Hi).
    rewrite union_empty_r_L in Ho, Hi.
    constructor; try done; (eapply Forall_impl; [first [exact Ho|exact Hi]|]); cbn; intros x;
      by rewrite elem_of_list_to_set.
  - intros []. exists (list_to_set (journey_id <$> journeys d)). rewrite parse_journeys_encode. split.
    { split_and!; try done; set_solver. }
    rewrite (proj2 (parse_segments_encode _ _ _ _)); cbn [mbind outcome_bind].
    + rewrite (proj2 (parse_packing_encode _ _ _)); [done|].
      split_and!; try done. eapply Forall_impl; [exact wf_item_owner0|].
      cbn. intros x. by rewrite elem_of_list_to_set.
    + split_and!; try done. eapply Forall_impl; [exact wf_segment_owner0|].
      cbn. intros x. by rewrite elem_of_list_to_set.
Qed.
End Accept.
