(* ===== verification/Timeline.v ===== *)
(** Timeline positions.  A Journey's segments carry positions [0..n-1]; the
    service renumbers them through an id-to-index map.  This file shows what
    that renumbering does: the reordered list is what the pages then read,
    and the other Journeys keep their timelines. *)
From S2P Require Export JourneyService DomainSpec.

(** ** The segments of one Journey *)

Definition of_journey (jid : jstr) (l : list JourneySegment) : list JourneySegment :=
  List.filter (fun s => str_eqb (segment_journeyId s) jid) l.

(** The positions a Journey uses, from the (Journey, position) pairs. *)
Definition slots_of (jid : jstr) (l : list (jstr * Z)) : list Z :=
  snd <$> List.filter (fun p => str_eqb (p.1) jid) l.

(** Positions are [0..n-1] in every Journey. *)
Definition dense_slots (l : list (jstr * Z)) : Prop :=
  forall jid, slots_of jid l ≡ₚ seqZ 0 (Z.of_nat (length (slots_of jid l))).
Definition dense (d : JourneyData) : Prop := dense_slots (slot <$> segments d).

Lemma slots_of_segments jid l :
  slots_of jid (slot <$> l) = segment_position <$> of_journey jid l.
Proof.
  unfold slots_of, of_journey. induction l as [|s l IH]; cbn; [done|].
  case_match; cbn; by rewrite IH.
Qed.

Lemma slots_of_app jid l1 l2 : slots_of jid (l1 ++ l2) = slots_of jid l1 ++ slots_of jid l2.
Proof. unfold slots_of. by rewrite List.filter_app, fmap_app. Qed.

Lemma slots_of_single jid j p : slots_of jid [(j, p)] = if str_eqb j jid then [p] else [].
Proof. unfold slots_of. cbn. by case_match. Qed.

(** Dense timelines never use a position twice. *)
Lemma dense_NoDup l : dense_slots l -> NoDup l.
Proof.
  intros Hd. assert (forall jid, NoDup (slots_of jid l)) as Hnd.
  { intros jid. rewrite (Hd jid). apply NoDup_seqZ. }
  clear Hd. induction l as [|[j p] l IH]; [constructor|]. apply NoDup_cons. split.
  - intros Hin. specialize (Hnd j). unfold slots_of in Hnd. cbn in Hnd.
    rewrite str_eqb_refl in Hnd. cbn in Hnd. apply NoDup_cons in Hnd as [Hn _]. apply Hn.
    apply list_elem_of_fmap. exists (j, p). split; [done|].
    apply elem_of_lfilter. by rewrite str_eqb_refl.
  - apply IH. intros jid. specialize (Hnd jid). unfold slots_of in *. cbn in Hnd.
    destruct (str_eqb j jid); [by apply NoDup_cons in Hnd as [_ ?]|done].
Qed.

Lemma dense_append l jid :
  dense_slots l -> dense_slots (l ++ [(jid, Z.of_nat (length (slots_of jid l)))]).
Proof.
  intros Hd j. rewrite slots_of_app, slots_of_single.
  destruct (str_eqb jid j) eqn:E; rewrite ?app_nil_r; [|apply Hd].
  apply str_eqb_eq in E as <-. rewrite length_app, Nat.add_comm. cbn [length Nat.add].
  rewrite seqZ_S. by apply Permutation_app; [apply Hd|].
Qed.

Lemma segmentsForJourney_perm d jid : segmentsForJourney d jid ≡ₚ of_journey jid (segments d).
Proof. apply sort_by_perm. Qed.

Lemma segmentsForJourney_length d jid :
  length (segmentsForJourney d jid) = length (slots_of jid (slot <$> segments d)).
Proof.
  rewrite slots_of_segments, length_fmap. apply Permutation_length, segmentsForJourney_perm.
Qed.

(** ** Renumbering *)

Lemma fold_insert_lookup (kvs : list (jstr * Z)) (m : gmap jstr Z) k :
  NoDup (kvs.*1) ->
  (forall v, (k, v) ∈ kvs -> fold_left (fun m kv => <[kv.1 := kv.2]> m) kvs m !! k = Some v) /\
  (k ∉ kvs.*1 -> fold_left (fun m kv => <[kv.1 := kv.2]> m) kvs m !! k = m !! k).
Proof.
  revert m. induction kvs as [|[k0 v0] kvs IH]; intros m Hnd; cbn.
  - split; [by intros v ?%elem_of_nil|done].
  - cbn in Hnd. apply NoDup_cons in Hnd as [Hn Hnd]. specialize (IH (<[k0:=v0]> m) Hnd) as [IH1 IH2].
    split.
    + intros v [[= -> ->]|Hin]%elem_of_cons; [|by apply IH1].
      rewrite IH2 by done. apply lookup_insert_eq.
    + intros Hk. apply not_elem_of_cons in Hk as [Hne Hk]. rewrite IH2 by done.
      by apply lookup_insert_ne.
Qed.

Lemma index_map_keys l :
  (imap (fun i s => (segment_id s, Z.of_nat i)) l).*1 = segment_id <$> l.
Proof. rewrite fmap_imap. cbn. apply list_eq. intros i. rewrite list_lookup_imap, list_lookup_fmap. done. Qed.

Lemma index_map_Some l i s :
  NoDup (segment_id <$> l) -> l !! i = Some s -> index_map l !! segment_id s = Some (Z.of_nat i).
Proof.
  intros Hnd Hi. apply fold_insert_lookup; [by rewrite index_map_keys|].
  apply list_elem_of_lookup. exists i. by rewrite list_lookup_imap, Hi.
Qed.

Lemma index_map_None l k :
  NoDup (segment_id <$> l) -> k ∉ segment_id <$> l -> index_map l !! k = None.
Proof.
  intros Hnd Hk. unfold index_map.
  rewrite (proj2 (fold_insert_lookup _ _ _ ltac:(by rewrite index_map_keys))); [done|].
  by rewrite index_map_keys.
Qed.

Definition renumber (l : list JourneySegment) : list JourneySegment :=
  imap (fun i s => with_position s (Z.of_nat i)) l.

Lemma with_position_id s : with_position s (segment_position s) = s.
Proof. by destruct s. Qed.

Section Reposition.
Context (l l' : list JourneySegment) (jid : jstr).
Context (Hids : NoDup (segment_id <$> l)) (Hp : l' ≡ₚ of_journey jid l).

#[local] Abbreviation renumbered := (reposition (index_map l') l).

Lemma reordered_ids : NoDup (segment_id <$> l').
Proof. rewrite Hp. by apply NoDup_fmap_lfilter. Qed.

Lemma reposition_ids : segment_id <$> renumbered = segment_id <$> l.
Proof. unfold reposition. by rewrite <- list_fmap_compose. Qed.

Lemma renumber_map :
  (fun s => with_position s (default (segment_position s) (index_map l' !! segment_id s))) <$> l'
  = renumber l'.
Proof.
  apply list_eq. intros i. unfold renumber. rewrite list_lookup_imap.
  rewrite list_lookup_fmap.
  destruct (l' !! i) as [s|] eqn:E; cbn; [|done].
  by rewrite (index_map_Some _ _ _ reordered_ids E).
Qed.

Lemma reposition_same : of_journey jid renumbered ≡ₚ renumber l'.
Proof.
  unfold of_journey, reposition. rewrite lfilter_fmap. cbn [segment_journeyId with_position].
  fold (of_journey jid l). by rewrite <- renumber_map, Hp.
Qed.

Lemma reposition_other j : j <> jid -> of_journey j renumbered = of_journey j l.
Proof.
  intros Hj. unfold of_journey, reposition. rewrite lfilter_fmap.
  cbn [segment_journeyId with_position]. fold (of_journey j l).
  etrans; [|apply list_fmap_id]. apply list_fmap_ext. intros i s Hs%list_elem_of_lookup_2.
  apply elem_of_lfilter in Hs as [Hs Hsj%str_eqb_eq].
  rewrite index_map_None; [apply with_position_id|apply reordered_ids|].
  rewrite list_elem_of_fmap. intros (t & Heq & Ht). rewrite Hp in Ht.
  apply elem_of_lfilter in Ht as [Ht Htj%str_eqb_eq].
  assert (s = t) by (by eapply NoDup_fmap_inj). congruence.
Qed.

Lemma renumber_positions l0 : segment_position <$> renumber l0 = seqZ 0 (Z.of_nat (length l0)).
Proof.
  apply list_eq. intros i. unfold renumber. rewrite fmap_imap, list_lookup_imap. cbn.
  destruct (l0 !! i) as [s|] eqn:E; cbn.
  - apply lookup_lt_Some in E. rewrite lookup_seqZ_lt by lia. done.
  - apply lookup_ge_None in E. by rewrite lookup_seqZ_ge by lia.
Qed.

(** Renumbering one Journey keeps every timeline dense when only that
    Journey's own timeline may have had gaps. *)
Lemma reposition_dense :
  (forall j, j <> jid -> segment_position <$> of_journey j l ≡ₚ
                         seqZ 0 (Z.of_nat (length (of_journey j l)))) ->
  dense_slots (slot <$> renumbered).
Proof.
  intros Ho j. rewrite slots_of_segments, length_fmap. destruct (decide (j = jid)) as [->|Hj].
  - rewrite reposition_same, renumber_positions. unfold renumber. by rewrite length_imap.
  - rewrite reposition_other by done. apply Ho; done.
Qed.

Lemma renumber_sorted l0 : StronglySorted (fun a b => segment_position a < segment_position b) (renumber l0).
Proof.
  apply StronglySorted_lookup_intro. intros i j x y Hij. unfold renumber.
  rewrite !list_lookup_imap. intros Hx Hy.
  destruct (l0 !! i); [|done]. destruct (l0 !! j); [|done].
  injection Hx as <-. injection Hy as <-. cbn. lia.
Qed.
End Reposition.
