(* ===== verification/JourneyServiceSpec.v ===== *)
(** Correctness of the Journey service.  [valid] is the invariant of a
    [JourneyData]: well formed, with dense timelines.  Every operation that
    returns keeps it, so everything a session can reach from
    [EMPTY_JOURNEY_DATA] is accepted by [parseJourneyData]. *)
From S2P Require Export Timeline.

(** ** Running the service monad *)

Lemma svc_bind_ok {A B} (m : Svc A) (f : A -> Svc B) rt y rt' :
  (m ≫= f) rt = Ok (y, rt') <-> exists a rt1, m rt = Ok (a, rt1) /\ f a rt1 = Ok (y, rt').
Proof.
  unfold mbind, svc_bind. destruct (m rt) as [[a rt1]|e]; split.
  - eauto.
  - by intros (? & ? & [= <- <-] & ?).
  - done.
  - by intros (? & ? & ? & _).
Qed.

Lemma svc_bind_run {A B} (m : Svc A) (f : A -> Svc B) rt :
  (m ≫= f) rt = match m rt with Ok (a, rt1) => f a rt1 | Throw e => Throw e end.
Proof. reflexivity. Qed.

Lemma assertCodes_ok codes rt u rt' :
  assertValid codes rt = Ok (u, rt') <-> codes = [] /\ rt' = rt.
Proof.
  destruct codes, u; cbn; unfold mret, svc_ret, svc_throw; split;
    [by intros [= <-] | by intros [_ ->] | done | by intros [? _]].
Qed.
Lemma assertOwnedItem_ok b rt u rt' :
  assertOwnedItem b rt = Ok (u, rt') <-> b = true /\ rt' = rt.
Proof.
  destruct b, u; cbn; unfold mret, svc_ret, svc_throw; split;
    [by intros [= <-] | by intros [_ ->] | done | by intros [? _]].
Qed.
Lemma assertJourneyExists_ok d jid rt u rt' :
  assertJourneyExists d jid rt = Ok (u, rt') <-> jid ∈ journey_id <$> journeys d /\ rt' = rt.
Proof.
  unfold assertJourneyExists.
  assert (jid ∈ journey_id <$> journeys d <->
          existsb (fun j => str_eqb (journey_id j) jid) (journeys d) = true) as ->.
  { rewrite existsb_elem, list_elem_of_fmap. setoid_rewrite str_eqb_eq. naive_solver. }
  destruct (existsb _ _), u; unfold mret, svc_ret, svc_throw; split;
    [by intros [= <-] | by intros [_ ->] | done | by intros [? _]].
Qed.

(** The streams of a runtime never change; ids are only ever consumed. *)
Definition advances (rt rt' : Runtime) : Prop :=
  id_value rt' = id_value rt /\ now_value rt' = now_value rt /\ (id_calls rt <= id_calls rt')%nat.

Lemma advances_refl rt : advances rt rt.
Proof. by split_and!. Qed.
Lemma advances_trans a b c : advances a b -> advances b c -> advances a c.
Proof. intros (E1 & E2 & ?) (E3 & E4 & ?). split_and!; [congruence|congruence|lia]. Qed.

Lemma runtime_now_ok rt t rt' :
  runtime_now rt = Ok (t, rt') -> (exists n, t = now_value rt n) /\ advances rt rt' /\ id_calls rt' = id_calls rt.
Proof. intros [= <- <-]. split_and!; [eauto|by split_and!; cbn; try lia|done]. Qed.

Lemma runtime_id_ok rt i rt' :
  runtime_id rt = Ok (i, rt') -> i = id_value rt (id_calls rt) /\ advances rt rt' /\ id_calls rt' = S (id_calls rt).
Proof. intros [= <- <-]. split_and!; [done|by split_and!; cbn; try lia|done]. Qed.

(** [new] is [old] after [f], stamped with some time of the runtime. *)
Definition stamped (rt : Runtime) (jid : jstr) (f : Journey -> jstr -> Journey) (old new : Journey) : Prop :=
  if str_eqb (journey_id old) jid then exists n, new = f old (now_value rt n) else new = old.

Lemma map_journey_ok jid f js rt js' rt' :
  map_journey jid f js rt = Ok (js', rt') ->
  Forall2 (stamped rt jid f) js js' /\ advances rt rt' /\ id_calls rt' = id_calls rt.
Proof.
  unfold map_journey. revert rt js'. induction js as [|j js IH]; intros rt js'; cbn [mapM].
  - intros [= <- <-]. split; [constructor|]. split; [apply advances_refl|done].
  - intros (j' & rt1 & Hj & (js1 & rt2 & Hjs & [= <- <-])%svc_bind_ok)%svc_bind_ok.
    apply IH in Hjs as (Hjs & Ha & Hi).
    assert (stamped rt jid f j j' /\ advances rt rt1 /\ id_calls rt1 = id_calls rt) as (Hst & Ha1 & Hi1).
    { unfold stamped. destruct (str_eqb (journey_id j) jid).
      - apply svc_bind_ok in Hj as (t & rt3 & Ht & [= <- <-]).
        apply runtime_now_ok in Ht as ([n ->] & ? & ?). eauto.
      - injection Hj as <- <-. split_and!; [done|apply advances_refl|done]. }
    split_and!; [|by eapply advances_trans|congruence].
    constructor; [done|]. eapply Forall2_impl; [exact Hjs|].
    unfold stamped. destruct Ha1 as (_ & -> & _). done.
Qed.

Lemma map_journey_total jid f js rt : exists js' rt', map_journey jid f js rt = Ok (js', rt').
Proof.
  unfold map_journey. revert rt. induction js as [|j js IH]; intros rt; cbn [mapM]; [by eexists _, _|].
  assert (exists j' rt1, (if str_eqb (journey_id j) jid then now ← runtime_now; mret (f j now)
                          else mret j) rt = Ok (j', rt1)) as (j' & rt1 & E)
    by (destruct (str_eqb (journey_id j) jid); by eexists _, _).
  destruct (IH rt1) as (js' & rt2 & E'). exists (j' :: js'), rt2.
  rewrite svc_bind_run, E, svc_bind_run, E'. done.
Qed.

Lemma stamped_ids rt jid f js js' :
  (forall j t, journey_id (f j t) = journey_id j) ->
  Forall2 (stamped rt jid f) js js' -> journey_id <$> js' = journey_id <$> js.
Proof.
  intros Hf. induction 1 as [|j j' js js' Hj _ IH]; cbn; [done|]. f_equal; [|done].
  revert Hj. unfold stamped. case_match; [intros [n ->]; apply Hf|by intros ->].
Qed.

Lemma stamped_wf `{DateParser} rt jid f js js' :
  (forall j n, journey_wf j -> journey_wf (f j (now_value rt n))) ->
  Forall2 (stamped rt jid f) js js' -> Forall journey_wf js -> Forall journey_wf js'.
Proof.
  intros Hf. induction 1 as [|j j' js js' Hj _ IH]; [done|].
  rewrite !Forall_cons. intros [? ?]. split; [|auto].
  revert Hj. unfold stamped. case_match; [intros [n ->]; auto|by intros ->].
Qed.

(** ** Validation, as propositions *)

Lemma push_if_nil {A} b (e : A) : push_if b e = [] <-> b = false.
Proof. by destruct b. Qed.

Definition date_input_ok (s : jstr) : Prop := s = [] \/ match_classes LOCAL_DATE s = true.

Lemma date_ok_or_null s : date_input_ok s -> date_ok (or_null s).
Proof. unfold or_null. intros [->|H]; [done|]. by destruct (str_truthy s). Qed.
Lemma date_ok_given s : date_ok (or_null s) -> date_input_ok s.
Proof. unfold or_null, date_input_ok. destruct s; [by left|by right]. Qed.

Lemma dates_ordered_or_null a b :
  dates_out_of_order a b = false -> dates_ordered (or_null a) (or_null b).
Proof. unfold dates_out_of_order, or_null. by destruct (str_truthy a), (str_truthy b). Qed.

Lemma blank_false s : blank s = false <-> nonblank s.
Proof. unfold blank, nonblank. lia. Qed.

Lemma nonblank_trim s : nonblank (trim s) <-> nonblank s.
Proof. unfold nonblank. by rewrite trim_idem. Qed.

Lemma validateJourney_nil i :
  validateJourney i = [] <->
  nonblank (ji_name i) /\ dates_out_of_order (ji_startDate i) (ji_endDate i) = false.
Proof. unfold validateJourney. rewrite app_nil, !push_if_nil. by rewrite blank_false. Qed.

Lemma validateSegment_nil i :
  validateSegment i = [] <->
  dates_out_of_order (si_startDate i) (si_endDate i) = false /\ detail_ok (segment_detail_of i).
Proof.
  unfold validateSegment. rewrite !app_nil, !push_if_nil.
  destruct i; cbn; rewrite ?orb_false_iff, !blank_false, !nonblank_trim; tauto.
Qed.

Lemma validatePacking_nil i :
  validatePacking i = [] <-> nonblank (pi_label i) /\ between (pi_quantity i) 1 99.
Proof.
  unfold validatePacking, between. rewrite app_nil, !push_if_nil, blank_false, !orb_false_iff.
  destruct (num_int_cases (pi_quantity i)) as [(z & -> & -> & Hlt & Hgt)|[-> ->]].
  - rewrite Hlt, Hgt. cbn. split.
    + intros (? & (_ & ?) & ?). split; [done|]. exists z. split; [done|lia].
    + intros (? & ? & [= <-] & ?). split_and!; lia || done.
  - cbn. split; [by intros (_ & (? & _) & _)|by intros (_ & ? & ? & _)].
Qed.

(** ** The clamp of packed quantities *)

Lemma num_min_int a b x y :
  num_int a = Some x -> num_int b = Some y -> num_int (num_min a b) = Some (Z.min x y).
Proof.
  unfold num_min. destruct a, b; cbn; intros [= <-] [= <-]; zcmp; cbn; f_equal; lia.
Qed.
Lemma num_max_int a b x y :
  num_int a = Some x -> num_int b = Some y -> num_int (num_max a b) = Some (Z.max x y).
Proof.
  unfold num_max. destruct a, b; cbn; intros [= <-] [= <-]; zcmp; cbn; f_equal; lia.
Qed.

Lemma clamp_between q p z :
  num_int q = Some z -> 0 <= z -> isInteger p = true ->
  between (num_max (NInt 0) (num_min q p)) 0 z.
Proof.
  intros Hq Hz Hp. destruct (num_int_cases p) as [(y & Hy & _)|[_ ?]]; [|congruence].
  unfold between. rewrite (num_max_int _ _ 0 (Z.min z y)); [|done|by apply num_min_int].
  eexists; split; [done|lia].
Qed.

(** ** The invariant *)

Section Invariant.
Context `{DateParser}.

Record valid (d : JourneyData) : Prop := { valid_wf : well_formed d; valid_dense : dense d }.

Definition good_stamps (rt : Runtime) : Prop := forall n, stamp_ok (now_value rt n).

Lemma valid_with_journeys d js :
  valid d -> Forall journey_wf js -> NoDup (journey_id <$> js) ->
  (forall i, i ∈ journey_id <$> journeys d -> i ∈ journey_id <$> js) ->
  valid (with_journeys d js).
Proof.
  intros [[] ?] ? ? Hsub. split; [|done].
  constructor; try done; cbn; (eapply Forall_impl; [eassumption|]); cbn; auto.
Qed.

Lemma valid_with_segments d ss :
  valid d -> Forall segment_wf ss -> NoDup (segment_id <$> ss) ->
  Forall (fun s => segment_journeyId s ∈ journey_id <$> journeys d) ss ->
  dense_slots (slot <$> ss) -> valid (with_segments d ss).
Proof. intros [[] ?] ? ? ? Hd. split; [|done]. constructor; try done. by apply dense_NoDup. Qed.

Lemma valid_with_packing d ps :
  valid d -> Forall item_wf ps -> NoDup (item_id <$> ps) ->
  Forall (fun i => item_journeyId i ∈ journey_id <$> journeys d) ps -> valid (with_packing d ps).
Proof. intros [[] ?] ? ? ?. by split. Qed.

Lemma touch_wf j n rt : good_stamps rt -> journey_wf j -> journey_wf (touch j (now_value rt n)).
Proof. intros Hg []. constructor; try done. apply Hg. Qed.

(** [touchJourney] only changes the time stamp of one Journey. *)
Lemma touchJourney_ok d jid rt d' rt' :
  touchJourney d jid rt = Ok (d', rt') ->
  (exists js, d' = with_journeys d js /\ Forall2 (stamped rt jid touch) (journeys d) js) /\
  journey_id <$> journeys d' = journey_id <$> journeys d /\
  segments d' = segments d /\ packingItems d' = packingItems d /\
  advances rt rt' /\ id_calls rt' = id_calls rt.
Proof.
  unfold touchJourney. intros (js & rt1 & Hjs & [= <- <-])%svc_bind_ok.
  apply map_journey_ok in Hjs as (Hst & Ha & Hi). split_and!; try done; [eauto|].
  cbn. by eapply stamped_ids; [|exact Hst].
Qed.

Lemma touchJourney_valid d jid rt d' rt' :
  good_stamps rt -> valid d -> touchJourney d jid rt = Ok (d', rt') -> valid d'.
Proof.
  intros Hg Hv Ht. apply touchJourney_ok in Ht as ((js & -> & Hst) & Hids & _).
  cbn in Hids. apply valid_with_journeys; [done| | |].
  - eapply stamped_wf; [|exact Hst|apply Hv]. intros. by apply touch_wf.
  - rewrite Hids. apply Hv.
  - by rewrite Hids.
Qed.

Lemma touchJourney_total d jid rt : exists d' rt', touchJourney d jid rt = Ok (d', rt').
Proof.
  unfold touchJourney. destruct (map_journey_total jid touch (journeys d) rt) as (js & rt' & E).
  rewrite svc_bind_run, E. by eexists _, _.
Qed.

Definition all_ids (d : JourneyData) : list jstr :=
  (journey_id <$> journeys d) ++ (segment_id <$> segments d) ++ (item_id <$> packingItems d).

(** The ids still to come are usable: not blank and not taken. *)
Definition fresh (rt : Runtime) (d : JourneyData) : Prop :=
  forall n, (id_calls rt <= n)%nat -> nonblank (id_value rt n) /\ id_value rt n ∉ all_ids d.

(** [d'] has no ids but those of [d] and those the operation drew. *)
Definition grows (rt rt' : Runtime) (d d' : JourneyData) : Prop :=
  advances rt rt' /\
  forall i, i ∈ all_ids d' ->
    i ∈ all_ids d \/ exists n, (id_calls rt <= n < id_calls rt')%nat /\ i = id_value rt n.

Lemma grows_sub rt rt' d d' :
  advances rt rt' -> (forall i, i ∈ all_ids d' -> i ∈ all_ids d) -> grows rt rt' d d'.
Proof. intros ? Hs. split; [done|]. auto. Qed.

Lemma fresh_grows rt rt' d d' :
  (forall m n, id_value rt m = id_value rt n -> m = n) ->
  fresh rt d -> grows rt rt' d d' -> fresh rt' d'.
Proof.
  intros Hinj Hf [(Hv & _ & Hle) Hg] n Hn. rewrite Hv.
  destruct (Hf n) as [Hb Hni]; [lia|]. split; [done|].
  intros Hin. destruct (Hg _ Hin) as [?|(m & Hm & Heq)]; [done|].
  apply Hinj in Heq. lia.
Qed.

Lemma elem_of_all_ids d i :
  i ∈ all_ids d <->
  i ∈ journey_id <$> journeys d \/ i ∈ segment_id <$> segments d \/ i ∈ item_id <$> packingItems d.
Proof. unfold all_ids. by rewrite !elem_of_app. Qed.

Lemma touch_grows d jid rt d' rt' : touchJourney d jid rt = Ok (d', rt') -> grows rt rt' d d'.
Proof.
  intros (_ & Hj & Hs & Hp & ? & _)%touchJourney_ok. apply grows_sub; [done|].
  intros i. rewrite !elem_of_all_ids, Hj, Hs, Hp. done.
Qed.

Lemma grows_trans rt rt1 rt2 d d1 d2 : grows rt rt1 d d1 -> grows rt1 rt2 d1 d2 -> grows rt rt2 d d2.
Proof.
  intros [Ha1 H1] [Ha2 H2]. split; [by eapply advances_trans|].
  destruct Ha1 as (E & _ & ?), Ha2 as (_ & _ & ?).
  intros i Hi. destruct (H2 i Hi) as [?|(n & ? & ->)].
  - destruct (H1 i) as [?|(n & ? & ->)]; [done|auto|]. right. exists n. split; [lia|done].
  - right. exists n. split; [lia|]. by rewrite E.
Qed.

Lemma owner_nonblank d jid :
  well_formed d -> jid ∈ journey_id <$> journeys d -> nonblank jid.
Proof.
  intros [Hj _ _ _ _ _ _ _ _] (j & -> & Hin)%list_elem_of_fmap.
  rewrite Forall_forall in Hj. by apply Hj.
Qed.

(** *** Journeys *)

Lemma createJourney_ok d input rt d' j rt' :
  date_input_ok (ji_startDate input) -> date_input_ok (ji_endDate input) ->
  good_stamps rt -> fresh rt d -> valid d ->
  createJourney d input rt = Ok ((d', j), rt') -> valid d' /\ grows rt rt' d d'.
Proof.
  intros Hsd Hed Hg Hf Hv. unfold createJourney.
  intros (_ & ? & [Hval ->]%assertCodes_ok & H1)%svc_bind_ok.
  apply svc_bind_ok in H1 as (t & rt1 & ([n ->] & Ha1 & Hi1)%runtime_now_ok & H1).
  apply svc_bind_ok in H1 as (i & rt2 & (-> & Ha2 & Hi2)%runtime_id_ok & [= <- <- <-]).
  apply validateJourney_nil in Hval as [Hname Hdates].
  assert (id_value rt1 (id_calls rt1) = id_value rt (id_calls rt)) as ->
    by (rewrite Hi1; by destruct Ha1 as (-> & _)).
  destruct (Hf (id_calls rt)) as [Hb Hn]; [done|].
  rewrite elem_of_all_ids in Hn.
  split.
  - apply valid_with_journeys; [done| | |].
    + apply Forall_app. split; [apply Hv|]. constructor; [|done].
      constructor; try apply Hg; try done.
      * by apply nonblank_trim.
      * by apply date_ok_or_null.
      * by apply date_ok_or_null.
      * by apply dates_ordered_or_null.
    + rewrite fmap_app. apply NoDup_app. split_and!; [apply Hv| |apply NoDup_singleton].
      cbn. set_solver.
    + intros k Hk. rewrite fmap_app. set_solver.
  - split; [by eapply advances_trans|]. intros k. rewrite !elem_of_all_ids. cbn.
    rewrite fmap_app, elem_of_app. cbn. rewrite list_elem_of_singleton.
    intros [[?| ->]|?]; [auto| |auto].
    right. exists (id_calls rt). split; [lia|done].
Qed.

Lemma map_journey_valid d jid f rt js rt' :
  good_stamps rt -> valid d -> (forall j t, journey_id (f j t) = journey_id j) ->
  (forall j n, journey_wf j -> journey_wf (f j (now_value rt n))) ->
  map_journey jid f (journeys d) rt = Ok (js, rt') ->
  valid (with_journeys d js) /\ grows rt rt' d (with_journeys d js).
Proof.
  intros Hg Hv Hid Hwf (Hst & Ha & _)%map_journey_ok.
  pose proof (stamped_ids _ _ _ _ _ Hid Hst) as Hids. split.
  - apply valid_with_journeys; [done| | |].
    + eapply stamped_wf; [exact Hwf|exact Hst|apply Hv].
    + rewrite Hids. apply Hv.
    + by rewrite Hids.
  - apply grows_sub; [done|]. intros i. rewrite !elem_of_all_ids. cbn. by rewrite Hids.
Qed.

Lemma updateJourney_ok d jid input rt d' rt' :
  date_input_ok (ji_startDate input) -> date_input_ok (ji_endDate input) ->
  good_stamps rt -> valid d ->
  updateJourney d jid input rt = Ok (d', rt') -> valid d' /\ grows rt rt' d d'.
Proof.
  intros Hsd Hed Hg Hv. unfold updateJourney.
  intros (_ & ? & [_ ->]%assertJourneyExists_ok & H1)%svc_bind_ok.
  apply svc_bind_ok in H1 as (_ & ? & [Hval ->]%assertCodes_ok & H1).
  apply svc_bind_ok in H1 as (js & rt1 & Hm & [= <- <-]).
  apply validateJourney_nil in Hval as [Hname Hdates].
  eapply map_journey_valid in Hm; try done.
  intros j n []. constructor; try done; cbn.
  - by apply nonblank_trim.
  - by apply date_ok_or_null.
  - by apply date_ok_or_null.
  - by apply dates_ordered_or_null.
  - apply Hg.
Qed.

Lemma setJourneyStatus_ok d jid status rt d' rt' :
  good_stamps rt -> valid d ->
  setJourneyStatus d jid status rt = Ok (d', rt') -> valid d' /\ grows rt rt' d d'.
Proof.
  intros Hg Hv. unfold setJourneyStatus.
  intros (_ & ? & [_ ->]%assertJourneyExists_ok & H1)%svc_bind_ok.
  apply svc_bind_ok in H1 as (js & rt1 & Hm & [= <- <-]).
  eapply map_journey_valid in Hm; try done.
  intros j n []. constructor; try done. apply Hg.
Qed.

Lemma filter_slots (f : jstr -> bool) (l : list JourneySegment) :
  dense_slots (slot <$> l) ->
  dense_slots (slot <$> List.filter (fun s => f (segment_journeyId s)) l).
Proof.
  intros Hd jid. specialize (Hd jid). revert Hd. rewrite !slots_of_segments.
  unfold of_journey. intros Hd.
  assert (List.filter (fun s => str_eqb (segment_journeyId s) jid)
            (List.filter (fun s => f (segment_journeyId s)) l) =
          if f jid then List.filter (fun s => str_eqb (segment_journeyId s) jid) l else []) as ->.
  { clear Hd. induction l as [|s l IH]; cbn; [by destruct (f jid)|].
    destruct (str_eqb (segment_journeyId s) jid) eqn:E.
    - apply str_eqb_eq in E. rewrite E. destruct (f jid) eqn:F; cbn; [|done].
      rewrite E, str_eqb_refl. by f_equal.
    - destruct (f (segment_journeyId s)); cbn; [by rewrite E|done]. }
  by destruct (f jid).
Qed.

Lemma deleteJourney_ok d jid rt d' rt' :
  valid d -> deleteJourney d jid rt = Ok (d', rt') -> valid d' /\ grows rt rt' d d'.
Proof.
  intros [[] Hd]. unfold deleteJourney.
  intros (_ & ? & [_ ->]%assertJourneyExists_ok & [= <- <-])%svc_bind_ok.
  assert (forall i, i <> jid -> i ∈ journey_id <$> journeys d ->
    i ∈ journey_id <$> List.filter (fun j => negb (str_eqb (journey_id j) jid)) (journeys d)) as Hkeep.
  { intros i Hi (j & -> & Hj)%list_elem_of_fmap. apply list_elem_of_fmap. exists j. split; [done|].
    apply elem_of_lfilter. split; [done|]. by apply negb_true_iff, str_eqb_neq. }
  split; [split; [|apply (filter_slots (fun k => negb (str_eqb k jid))); done]|].
  - constructor; cbn; try (by apply Forall_lfilter); try (by apply NoDup_fmap_lfilter).
    + rewrite Forall_forall in wf_segment_owner |- *.
      intros s [Hs Hne%negb_true_iff%str_eqb_neq]%elem_of_lfilter. auto.
    + rewrite Forall_forall in wf_item_owner |- *.
      intros s [Hs Hne%negb_true_iff%str_eqb_neq]%elem_of_lfilter. auto.
  - apply grows_sub; [apply advances_refl|].
    intros i. rewrite !elem_of_all_ids, !list_elem_of_fmap. setoid_rewrite elem_of_lfilter. naive_solver.
Qed.

(** *** Segments *)

Lemma given_existing {A} (find : jstr -> option A) (id : option jstr) (x : A) :
  (sid ← given id; find sid) = Some x -> exists sid, given id = Some sid /\ find sid = Some x.
Proof. destruct (given id) as [sid|]; cbn; [eauto|done]. Qed.

Lemma owns_segment_iff jid sid s :
  owns_segment jid sid s = true <-> segment_id s = sid /\ segment_journeyId s = jid.
Proof. unfold owns_segment. by rewrite andb_true_iff, !str_eqb_eq. Qed.

Lemma or_call_id {A} (o : option A) (g : A -> jstr) rt i rt' :
  or_call (g <$> o) runtime_id rt = Ok (i, rt') ->
  advances rt rt' /\
  match o with Some e => i = g e /\ rt' = rt
             | None => i = id_value rt (id_calls rt) /\ id_calls rt' = S (id_calls rt) end.
Proof.
  destruct o; cbn.
  - intros [= <- <-]. split; [apply advances_refl|done].
  - intros (-> & ? & ?)%runtime_id_ok. done.
Qed.

Lemma saveSegment_ok d jid input sid rt d' rt' :
  date_input_ok (si_startDate input) -> date_input_ok (si_endDate input) ->
  good_stamps rt -> fresh rt d -> valid d ->
  saveSegment d jid input sid rt = Ok (d', rt') -> valid d' /\ grows rt rt' d d'.
Proof.
  intros Hsd Hed Hg Hf Hv. unfold saveSegment.
  intros (_ & ? & [Hj ->]%assertJourneyExists_ok & H1)%svc_bind_ok.
  apply svc_bind_ok in H1 as (_ & ? & [Hval ->]%assertCodes_ok & H1).
  apply validateSegment_nil in Hval as [Hdates Hdetail].
  set (existing := sid0 ← given sid; List.find (owns_segment jid sid0) (segments d)) in *.
  apply svc_bind_ok in H1 as (_ & ? & [_ ->]%assertOwnedItem_ok & H1).
  apply svc_bind_ok in H1 as (t & rt1 & ([n ->] & Ha1 & Hi1)%runtime_now_ok & H1).
  apply svc_bind_ok in H1 as (i & rt2 & (Ha2 & Hid)%or_call_id & Ht).
  pose proof (owner_nonblank _ _ (valid_wf _ Hv) Hj) as Hjb.
  assert (good_stamps rt2) as Hg2.
  { intros m. destruct Ha1 as (_ & E1 & _), Ha2 as (_ & E2 & _). rewrite E2, E1. apply Hg. }
  pose proof (valid_wf _ Hv) as Hwf. pose proof (wf_segments _ Hwf) as Hsegs.
  destruct existing as [e|] eqn:Hex; cbn [fmap option_fmap default] in Ht, Hid.
  - destruct Hid as [-> ->].
    apply given_existing in Hex as (sid' & _ & [He Hown]%find_Some_elem).
    apply owns_segment_iff in Hown as [_ Hown].
    assert (segment_wf e) as Hewf by (rewrite Forall_forall in Hsegs; auto).
    match type of Ht with touchJourney ?x _ _ = _ => enough (valid x /\ grows rt rt1 d x) as [Hx Hgx] end.
    { split; [by eapply touchJourney_valid|]. eapply grows_trans; [exact Hgx|by eapply touch_grows]. }
    assert (forall x, x ∈ segments d -> str_eqb (segment_id x) (segment_id e) = true -> x = e) as Heq.
    { intros x Hx Hxe%str_eqb_eq. eapply NoDup_fmap_inj; [apply Hwf|done..]. }
    split.
    + apply valid_with_segments; [done| | | |].
      * apply Forall_fmap_if; [|done]. intros x _ _ _. destruct Hewf.
        constructor; try done; cbn; [by apply date_ok_or_null|by apply date_ok_or_null|
          by apply dates_ordered_or_null|apply Hg].
      * rewrite fmap_replace; [apply Hwf|]. intros x _ Hxe%str_eqb_eq. done.
      * apply Forall_fmap_if; [done|apply Hwf].
      * rewrite fmap_replace; [apply Hv|]. intros x Hx Hxe. by rewrite (Heq x Hx Hxe), <- Hown.
    + apply grows_sub; [done|]. intros k. rewrite !elem_of_all_ids. cbn.
      rewrite fmap_replace; [done|]. intros x _ Hxe%str_eqb_eq. done.
  - destruct Hid as [-> Hi2].
    assert (id_value rt1 (id_calls rt1) = id_value rt (id_calls rt)) as E
      by (rewrite Hi1; by destruct Ha1 as (-> & _)).
    rewrite E in Ht.
    destruct (Hf (id_calls rt)) as [Hb Hn]; [done|]. rewrite elem_of_all_ids in Hn.
    match type of Ht with touchJourney ?x _ _ = _ => enough (valid x /\ grows rt rt2 d x) as [Hx Hgx] end.
    { split; [by eapply touchJourney_valid|]. eapply grows_trans; [exact Hgx|by eapply touch_grows]. }
    split.
    + apply valid_with_segments; [done| | | |].
      * apply Forall_app. split; [done|]. constructor; [|done].
        constructor; try done; cbn; try apply Hg; try lia;
          [by apply date_ok_or_null|by apply date_ok_or_null|by apply dates_ordered_or_null].
      * rewrite fmap_app. apply NoDup_app. split_and!; [apply Hwf| |apply NoDup_singleton].
        cbn. set_solver.
      * apply Forall_app. split; [apply Hwf|]. by constructor.
      * rewrite fmap_app, segmentsForJourney_length. apply dense_append. apply Hv.
    + split; [by eapply advances_trans|]. intros k. rewrite !elem_of_all_ids. cbn.
      rewrite fmap_app, elem_of_app. cbn. rewrite list_elem_of_singleton.
      intros [?|[[?| ->]|?]]; auto. right. exists (id_calls rt). split; [lia|done].
Qed.

(** Renumbering through [index_map] keeps the invariant. *)
Lemma reposition_valid d ss l' jid :
  valid d -> (forall s, s ∈ ss -> s ∈ segments d) -> NoDup (segment_id <$> ss) ->
  l' ≡ₚ of_journey jid ss ->
  (forall j, j <> jid -> of_journey j ss = of_journey j (segments d)) ->
  valid (with_segments d (reposition (index_map l') ss)).
Proof.
  intros Hv Hsub Hnd Hp Ho. pose proof (valid_wf _ Hv) as Hwf.
  pose proof (wf_segments _ Hwf) as Hsegs. pose proof (wf_segment_owner _ Hwf) as Hown.
  rewrite Forall_forall in Hsegs, Hown.
  apply valid_with_segments; [done| | | |].
  - apply Forall_fmap, Forall_forall. intros s Hs. destruct (Hsegs s (Hsub s Hs)).
    constructor; try done. cbn. destruct (index_map l' !! segment_id s) as [p|] eqn:E; [cbn|done].
    assert (segment_id s ∈ segment_id <$> l') as Hin.
    { apply dec_stable. intros Hn. rewrite index_map_None in E; [done| |done].
      rewrite Hp. by apply NoDup_fmap_lfilter. }
    apply list_elem_of_fmap in Hin as (t & Heq & [i Hi]%list_elem_of_lookup).
    rewrite Heq in E. erewrite index_map_Some in E; [|rewrite Hp; by apply NoDup_fmap_lfilter|done].
    injection E as <-. lia.
  - by rewrite reposition_ids.
  - apply Forall_fmap, Forall_forall. intros s Hs. cbn. auto.
  - eapply reposition_dense; [done|exact Hp|].
    intros j Hj. rewrite (Ho j Hj).
    pose proof (valid_dense _ Hv j) as Hd. by rewrite slots_of_segments, length_fmap in Hd.
Qed.

Lemma reposition_grows d ss l' rt :
  (forall s, s ∈ ss -> s ∈ segments d) ->
  grows rt rt d (with_segments d (reposition (index_map l') ss)).
Proof.
  intros Hsub. apply grows_sub; [apply advances_refl|]. intros i.
  rewrite !elem_of_all_ids. cbn. rewrite reposition_ids, !list_elem_of_fmap. naive_solver.
Qed.

Lemma deleteSegment_ok d jid sid rt d' rt' :
  good_stamps rt -> valid d ->
  deleteSegment d jid sid rt = Ok (d', rt') -> valid d' /\ grows rt rt' d d'.
Proof.
  intros Hg Hv. pose proof (valid_wf _ Hv) as Hwf. unfold deleteSegment.
  intros (_ & ? & [_ ->]%assertJourneyExists_ok & H1)%svc_bind_ok.
  apply svc_bind_ok in H1 as (_ & ? & [Hown ->]%assertOwnedItem_ok & Ht).
  apply existsb_elem in Hown as (e & He & [Hid Hje]%owns_segment_iff).
  match type of Ht with touchJourney ?x _ _ = _ => enough (valid x /\ grows rt rt d x) as [Hx Hgx] end.
  { split; [by eapply touchJourney_valid|]. eapply grows_trans; [exact Hgx|by eapply touch_grows]. }
  split.
  - eapply reposition_valid; [done| | |apply sort_by_perm|].
    + intros s [? _]%elem_of_lfilter. done.
    + apply NoDup_fmap_lfilter, Hwf.
    + intros j Hj. unfold of_journey.
      pose proof (wf_segment_ids _ Hwf) as Hids. clear -He Hid Hje Hj Hids.
      induction (segments d) as [|s l IH]; cbn; [done|].
      cbn in Hids. apply NoDup_cons in Hids as [Hn Hids]. apply elem_of_cons in He as [->|He].
      * rewrite Hid, str_eqb_refl. cbn.
        destruct (str_eqb (segment_journeyId s) j) eqn:E; [apply str_eqb_eq in E; congruence|].
        f_equal. clear IH. induction l as [|t l IH]; cbn; [done|].
        cbn in Hn, Hids. apply not_elem_of_cons in Hn as [Hne Hn]. apply NoDup_cons in Hids as [_ Hids].
        destruct (str_eqb (segment_id t) sid) eqn:E2; [apply str_eqb_eq in E2; congruence|].
        cbn. by rewrite IH.
      * assert (str_eqb (segment_id s) sid = false) as ->.
        { apply str_eqb_neq. intros Heq. apply Hn. apply list_elem_of_fmap. exists e. by split; [congruence|]. }
        cbn. by rewrite IH.
  - apply reposition_grows. intros s [? _]%elem_of_lfilter. done.
Qed.

Lemma moveSegment_ok d jid sid dir rt d' rt' :
  good_stamps rt -> valid d ->
  moveSegment d jid sid dir rt = Ok (d', rt') -> valid d' /\ grows rt rt' d d'.
Proof.
  intros Hg Hv. unfold moveSegment.
  intros (_ & ? & [_ ->]%assertJourneyExists_ok & H1)%svc_bind_ok.
  apply svc_bind_ok in H1 as (_ & ? & [_ ->]%assertOwnedItem_ok & H1).
  assert (valid d /\ grows rt rt d d) as Hsame by (split; [done|apply grows_sub; [apply advances_refl|done]]).
  destruct (_ || _) eqn:Hout in H1; [by injection H1 as <- <-|].
  destruct (at_index _ _) as [cur|] eqn:Hc in H1; [|by injection H1 as <- <-].
  destruct (at_index _ _) as [dst|] eqn:Ht in H1; [|by injection H1 as <- <-].
  match type of H1 with touchJourney ?x _ _ = _ => enough (valid x /\ grows rt rt d x) as [Hx Hgx] end.
  { split; [by eapply touchJourney_valid|]. eapply grows_trans; [exact Hgx|by eapply touch_grows]. }
  split; [|by apply reposition_grows].
  eapply reposition_valid; [done|done|apply Hv| |done].
  rewrite <- segmentsForJourney_perm. by apply set_index_swap.
Qed.

(** *** Packing items *)

Lemma owns_item_iff jid iid i :
  owns_item jid iid i = true <-> item_id i = iid /\ item_journeyId i = jid.
Proof. unfold owns_item. by rewrite andb_true_iff, !str_eqb_eq. Qed.

Lemma or_call_now {A} (o : option A) (g : A -> jstr) rt t rt' :
  or_call (g <$> o) runtime_now rt = Ok (t, rt') ->
  advances rt rt' /\ id_calls rt' = id_calls rt /\
  match o with Some e => t = g e | None => exists n, t = now_value rt n end.
Proof.
  destruct o; cbn.
  - intros [= <- <-]. split; [apply advances_refl|done].
  - intros (? & ? & ?)%runtime_now_ok. done.
Qed.

Lemma packed_between q z p :
  num_int q = Some z -> 1 <= z -> (exists x, num_int p = Some x /\ 0 <= x) ->
  between (num_min p q) 0 z.
Proof.
  intros Hq Hz (x & Hx & ?). unfold between. rewrite (num_min_int _ _ _ _ Hx Hq).
  eexists. split; [done|lia].
Qed.

Lemma savePackingItem_ok d jid input iid rt d' rt' :
  good_stamps rt -> fresh rt d -> valid d ->
  savePackingItem d jid input iid rt = Ok (d', rt') -> valid d' /\ grows rt rt' d d'.
Proof.
  intros Hg Hf Hv. pose proof (valid_wf _ Hv) as Hwf. pose proof (wf_items _ Hwf) as Hitems.
  unfold savePackingItem.
  intros (_ & ? & [Hj ->]%assertJourneyExists_ok & H1)%svc_bind_ok.
  apply svc_bind_ok in H1 as (_ & ? & [Hval ->]%assertCodes_ok & H1).
  apply validatePacking_nil in Hval as [Hlabel (q & Hq & Hq1 & Hq2)].
  set (existing := iid0 ← given iid; List.find (owns_item jid iid0) (packingItems d)) in *.
  apply svc_bind_ok in H1 as (_ & ? & [_ ->]%assertOwnedItem_ok & H1).
  apply svc_bind_ok in H1 as (i & rt1 & (Ha1 & Hid)%or_call_id & H1).
  apply svc_bind_ok in H1 as (c & rt2 & (Ha2 & Hi2 & Hc)%or_call_now & H1).
  apply svc_bind_ok in H1 as (u & rt3 & ([n ->] & Ha3 & Hi3)%runtime_now_ok & Ht).
  pose proof (owner_nonblank _ _ Hwf Hj) as Hjb.
  assert (advances rt rt3) as Ha by (eapply advances_trans; [exact Ha1|by eapply advances_trans]).
  assert (forall m, stamp_ok (now_value rt1 m)) as Hg1 by (intros m; destruct Ha1 as (_ & -> & _); apply Hg).
  assert (forall m, stamp_ok (now_value rt2 m)) as Hg2 by (intros m; destruct Ha2 as (_ & -> & _); apply Hg1).
  assert (good_stamps rt3) as Hg3 by (intros m; destruct Ha3 as (_ & -> & _); apply Hg2).
  destruct existing as [e|] eqn:Hex; cbn [fmap option_fmap default] in Ht, Hid, Hc.
  - destruct Hid as [-> ->]. subst c.
    apply given_existing in Hex as (iid' & _ & [He Hown]%find_Some_elem).
    assert (item_wf e) as Hewf by (rewrite Forall_forall in Hitems; auto).
    match type of Ht with touchJourney ?x _ _ = _ => enough (valid x /\ grows rt rt3 d x) as [Hx Hgx] end.
    { split; [by eapply touchJourney_valid|]. eapply grows_trans; [exact Hgx|by eapply touch_grows]. }
    split.
    + apply valid_with_packing; [done| | |].
      * apply Forall_fmap_if; [|done]. intros x _ _ _. destruct Hewf as [? ? ? ? (y & Hy & ?) ? ? ?].
        constructor; try done; cbn; [by apply nonblank_trim|by exists q| |apply Hg2].
        unfold item_num. rewrite Hq. cbn. apply packed_between; [done|done|].
        exists y. split; [done|lia].
      * rewrite fmap_replace; [apply Hwf|]. intros x _ Hxe%str_eqb_eq. done.
      * apply Forall_fmap_if; [done|apply Hwf].
    + apply grows_sub; [done|]. intros k. rewrite !elem_of_all_ids. cbn.
      rewrite fmap_replace; [done|]. intros x _ Hxe%str_eqb_eq. done.
  - destruct Hid as [-> Hi1]. destruct Hc as [m ->].
    destruct (Hf (id_calls rt)) as [Hb Hn]; [done|]. rewrite elem_of_all_ids in Hn.
    match type of Ht with touchJourney ?x _ _ = _ => enough (valid x /\ grows rt rt3 d x) as [Hx Hgx] end.
    { split; [by eapply touchJourney_valid|]. eapply grows_trans; [exact Hgx|by eapply touch_grows]. }
    split.
    + apply valid_with_packing; [done| | |].
      * apply Forall_app. split; [done|]. constructor; [|done].
        constructor; try done; cbn;
          [by apply nonblank_trim|by exists q| |apply Hg1|apply Hg2].
        unfold item_num. rewrite Hq. cbn. apply packed_between; [done|done|]. by exists 0.
      * rewrite fmap_app. apply NoDup_app. split_and!; [apply Hwf| |apply NoDup_singleton].
        cbn. set_solver.
      * apply Forall_app. split; [apply Hwf|]. by constructor.
    + split; [done|]. intros k. rewrite !elem_of_all_ids. cbn.
      rewrite fmap_app, elem_of_app. cbn. rewrite list_elem_of_singleton.
      intros [?|[?|[?| ->]]]; auto. right. exists (id_calls rt). split; [lia|done].
Qed.

Lemma setPackedQuantity_ok d jid iid p rt d' rt' :
  isInteger p = true -> good_stamps rt -> valid d ->
  setPackedQuantity d jid iid p rt = Ok (d', rt') -> valid d' /\ grows rt rt' d d'.
Proof.
  intros Hp Hg Hv. pose proof (valid_wf _ Hv) as Hwf. unfold setPackedQuantity.
  intros (_ & ? & [_ ->]%assertJourneyExists_ok & H1)%svc_bind_ok.
  apply svc_bind_ok in H1 as (_ & ? & [_ ->]%assertOwnedItem_ok & Ht).
  match type of Ht with touchJourney (with_packing _ ?ps) _ _ = _ =>
    assert (item_id <$> ps = item_id <$> packingItems d) as Hids;
    [|enough (valid (with_packing d ps) /\ grows rt rt d (with_packing d ps)) as [Hx Hgx]] end.
  - rewrite <- list_fmap_compose. apply list_fmap_ext. intros k x _. cbn. by case_match.
  - split; [by eapply touchJourney_valid|]. eapply grows_trans; [exact Hgx|by eapply touch_grows].
  - split.
    + apply valid_with_packing; [done| |by rewrite Hids; apply Hwf|].
      * apply Forall_fmap_if; [|apply Hwf]. intros x _ _ [? ? ? (z & Hz & ?) ? ? ? ?].
        constructor; try done; cbn; [by exists z|]. unfold item_num. rewrite Hz. cbn.
        apply clamp_between; [done|lia|done].
      * apply Forall_fmap_if; [done|apply Hwf].
    + apply grows_sub; [apply advances_refl|]. intros k. rewrite !elem_of_all_ids. cbn. by rewrite Hids.
Qed.

Lemma deletePackingItem_ok d jid iid rt d' rt' :
  good_stamps rt -> valid d ->
  deletePackingItem d jid iid rt = Ok (d', rt') -> valid d' /\ grows rt rt' d d'.
Proof.
  intros Hg Hv. pose proof (valid_wf _ Hv) as Hwf. unfold deletePackingItem.
  intros (_ & ? & [_ ->]%assertJourneyExists_ok & H1)%svc_bind_ok.
  apply svc_bind_ok in H1 as (_ & ? & [_ ->]%assertOwnedItem_ok & Ht).
  match type of Ht with touchJourney ?x _ _ = _ => enough (valid x /\ grows rt rt d x) as [Hx Hgx] end.
  { split; [by eapply touchJourney_valid|]. eapply grows_trans; [exact Hgx|by eapply touch_grows]. }
  split.
  - apply valid_with_packing; [done| | |]; [apply Forall_lfilter|apply NoDup_fmap_lfilter|apply Forall_lfilter];
      apply Hwf.
  - apply grows_sub; [apply advances_refl|]. intros k. rewrite !elem_of_all_ids. cbn.
    rewrite !list_elem_of_fmap. setoid_rewrite elem_of_lfilter. naive_solver.
Qed.
End Invariant.

(** ** Sessions: any sequence of operations *)

Inductive op :=
| CreateJourney (input : JourneyInput)
| UpdateJourney (jid : jstr) (input : JourneyInput)
| SetJourneyStatus (jid : jstr) (status : JourneyStatus)
| DeleteJourney (jid : jstr)
| SaveSegment (jid : jstr) (input : SegmentInput) (sid : option jstr)
| DeleteSegment (jid sid : jstr)
| MoveSegmentOp (jid sid : jstr) (direction : Z)
| SavePackingItem (jid : jstr) (input : PackingInput) (iid : option jstr)
| SetPackedQuantity (jid iid : jstr) (p : jsnum)
| DeletePackingItem (jid iid : jstr).

Definition run_op (d : JourneyData) (o : op) : Svc JourneyData :=
  match o with
  | CreateJourney input => fst <$> createJourney d input
  | UpdateJourney jid input => updateJourney d jid input
  | SetJourneyStatus jid status => setJourneyStatus d jid status
  | DeleteJourney jid => deleteJourney d jid
  | SaveSegment jid input sid => saveSegment d jid input sid
  | DeleteSegment jid sid => deleteSegment d jid sid
  | MoveSegmentOp jid sid direction => moveSegment d jid sid direction
  | SavePackingItem jid input iid => savePackingItem d jid input iid
  | SetPackedQuantity jid iid p => setPackedQuantity d jid iid p
  | DeletePackingItem jid iid => deletePackingItem d jid iid
  end.

(** The date fields of an input: each is empty or a [yyyy-mm-dd] date.
    [validateJourney] and [validateSegment] do not check this. *)
Definition op_dates_ok (o : op) : Prop :=
  match o with
  | CreateJourney i | UpdateJourney _ i =>
      date_input_ok (ji_startDate i) /\ date_input_ok (ji_endDate i)
  | SaveSegment _ i _ => date_input_ok (si_startDate i) /\ date_input_ok (si_endDate i)
  | _ => True
  end.

(** The packed count that is set is an integer. *)
Definition op_count_ok (o : op) : Prop :=
  match o with SetPackedQuantity _ _ p => isInteger p = true | _ => True end.

(** What a page holds after a list of operations: a throwing one leaves the
    data as it was. *)
Definition page_step (s : JourneyData * Runtime) (o : op) : JourneyData * Runtime :=
  match run_op (s.1) o (s.2) with Ok s' => s' | Throw _ => s end.
Definition page_after (s : JourneyData * Runtime) (os : list op) : JourneyData * Runtime :=
  foldl page_step s os.
