(* ===== verification/JourneySession.v ===== *)
(** Sessions and reordering.  Whatever sequence of operations a page runs
    from [EMPTY_JOURNEY_DATA], the data it holds is accepted by
    [parseJourneyData]; and what each reordering operation does to the
    timelines the pages read, position by position. *)
From S2P Require Export JourneyServiceSpec.

(** ** Timelines of dense data *)

Lemma sorted_positions l :
  StronglySorted (fun a b => segment_position a < segment_position b) l ->
  StronglySorted Z.lt (segment_position <$> l).
Proof.
  induction 1 as [|s l Hs IH Hf]; cbn; constructor; [done|]. by rewrite Forall_fmap.
Qed.

Lemma seqZ_sorted i n : StronglySorted Z.lt (seqZ i n).
Proof.
  apply StronglySorted_lookup_intro. intros a b x y Hab [-> ?]%lookup_seqZ [-> ?]%lookup_seqZ. lia.
Qed.

(** The timeline of a Journey in dense data shows positions [0, 1, ...]. *)
Lemma dense_positions d jid :
  dense d ->
  segment_position <$> segmentsForJourney d jid = seqZ 0 (Z.of_nat (length (segmentsForJourney d jid))).
Proof.
  intros Hd. specialize (Hd jid). rewrite slots_of_segments, length_fmap in Hd.
  rewrite <- (Permutation_length (segmentsForJourney_perm d jid)) in Hd.
  assert (AntiSymm (=) Z.lt) by (intros ???; lia).
  apply (StronglySorted_unique Z.lt).
  - apply sorted_positions, sorted_strict; [|apply sort_by_sorted].
    rewrite segmentsForJourney_perm, Hd. apply NoDup_seqZ.
  - apply seqZ_sorted.
  - etrans; [apply fmap_Permutation, segmentsForJourney_perm|exact Hd].
Qed.

Lemma dense_position_lookup d jid i s :
  dense d -> segmentsForJourney d jid !! i = Some s -> segment_position s = Z.of_nat i.
Proof.
  intros Hd Hi. pose proof (dense_positions d jid Hd) as Hp.
  assert ((segment_position <$> segmentsForJourney d jid) !! i = Some (segment_position s)) as H
    by by rewrite list_lookup_fmap, Hi.
  rewrite Hp in H. apply lookup_seqZ in H. lia.
Qed.

Lemma segmentsForJourney_NoDup d jid :
  NoDup (segment_id <$> segments d) -> NoDup (segment_id <$> segmentsForJourney d jid).
Proof. intros. rewrite segmentsForJourney_perm. by apply NoDup_fmap_lfilter. Qed.

(** [findIndex] by id finds the position of the segment. *)
Lemma findIndex_id (l : list JourneySegment) i s :
  NoDup (segment_id <$> l) -> l !! i = Some s ->
  findIndex (fun x => str_eqb (segment_id x) (segment_id s)) l = Z.of_nat i.
Proof.
  intros Hnd Hi.
  destruct (findIndex_spec (fun x => str_eqb (segment_id x) (segment_id s)) l)
    as [[_ Hf]|(k & y & -> & Hk & Hy%str_eqb_eq)].
  - rewrite Forall_forall in Hf. apply list_elem_of_lookup_2 in Hi. apply Hf in Hi.
    by rewrite str_eqb_refl in Hi.
  - f_equal. eapply (NoDup_lookup (segment_id <$> l)); [done| |];
      rewrite list_lookup_fmap; [by rewrite Hk|by rewrite Hi; cbn; f_equal].
Qed.

(** Renumbering a rearrangement of one timeline is what the pages then
    read, and the other timelines are as before. *)
Lemma reposition_timeline d ss l' jid :
  NoDup (segment_id <$> ss) -> l' ≡ₚ of_journey jid ss ->
  segmentsForJourney (with_segments d (reposition (index_map l') ss)) jid = renumber l' /\
  forall j, j <> jid ->
    segmentsForJourney (with_segments d (reposition (index_map l') ss)) j =
    segmentsForJourney (with_segments d ss) j.
Proof.
  intros Hnd Hp. split.
  - apply sort_by_unique; [|apply renumber_sorted]. symmetry. by apply reposition_same.
  - intros j Hj. unfold segmentsForJourney. cbn. f_equal. by eapply reposition_other.
Qed.

(** The timestamp that ends an operation leaves the timelines alone. *)
Lemma touchJourney_timeline d jid rt d' rt' j :
  touchJourney d jid rt = Ok (d', rt') -> segmentsForJourney d' j = segmentsForJourney d j.
Proof. intros (_ & _ & Hs & _)%touchJourney_ok. unfold segmentsForJourney. by rewrite Hs. Qed.

(** ** [moveSegment] *)

(** Exchange the elements at [i] and [j]. *)
Definition swap_at {A} (i j : nat) (l : list A) : list A :=
  match l !! i, l !! j with
  | Some x, Some y => <[j := x]> (<[i := y]> l)
  | _, _ => l
  end.

Lemma swap_at_lookup {A} (l : list A) i j x y k :
  l !! i = Some x -> l !! j = Some y ->
  swap_at i j l !! k = if decide (k = j) then Some x else if decide (k = i) then Some y else l !! k.
Proof.
  intros Hi Hj. unfold swap_at. rewrite Hi, Hj.
  pose proof (lookup_lt_Some _ _ _ Hi). pose proof (lookup_lt_Some _ _ _ Hj).
  destruct (decide (k = j)) as [->|].
  - apply list_lookup_insert_eq. by rewrite length_insert.
  - rewrite list_lookup_insert_ne by done. destruct (decide (k = i)) as [->|].
    + by apply list_lookup_insert_eq.
    + by apply list_lookup_insert_ne.
Qed.

Lemma swap_at_involutive {A} (l : list A) i j x y :
  l !! i = Some x -> l !! j = Some y -> swap_at j i (swap_at i j l) = l.
Proof.
  intros Hi Hj. apply list_eq. intros k.
  rewrite (swap_at_lookup (swap_at i j l) j i x y).
  - rewrite (swap_at_lookup l i j x y k) by done. by repeat case_decide; subst.
  - rewrite (swap_at_lookup l i j x y) by done. by case_decide.
  - rewrite (swap_at_lookup l i j x y) by done. case_decide; [congruence|]. by case_decide.
Qed.

Lemma swap_at_perm {A} (l : list A) i j : swap_at i j l ≡ₚ l.
Proof.
  unfold swap_at. destruct (l !! i) eqn:Hi, (l !! j) eqn:Hj; try done.
  by apply Permutation_insert_swap.
Qed.

(** The call inside the bounds: what it computes and that it returns. *)
Lemma moveSegment_run d jid s dir rt i t y :
  NoDup (segment_id <$> segments d) -> jid ∈ journey_id <$> journeys d ->
  segmentsForJourney d jid !! i = Some s -> segmentsForJourney d jid !! t = Some y ->
  Z.of_nat t = Z.of_nat i + dir ->
  moveSegment d jid (segment_id s) dir rt =
  touchJourney (with_segments d
    (reposition (index_map (swap_at i t (segmentsForJourney d jid))) (segments d))) jid rt.
Proof.
  intros Hnd Hj Hi Ht Hdir. unfold moveSegment.
  rewrite svc_bind_run, (proj2 (assertJourneyExists_ok d jid rt () rt)) by done.
  rewrite (findIndex_id _ _ _ (segmentsForJourney_NoDup _ _ Hnd) Hi), svc_bind_run.
  replace (Z.of_nat i <? 0) with false by lia.
  rewrite <- Hdir. cbn [negb assertOwnedItem mret svc_ret].
  pose proof (lookup_lt_Some _ _ _ Ht) as Hlt.
  replace (_ || _) with false by lia.
  rewrite !at_index_nat, Hi, Ht, !set_index_nat. unfold swap_at. by rewrite Hi, Ht.
Qed.

Lemma index_map_ids l l' : segment_id <$> l = segment_id <$> l' -> index_map l = index_map l'.
Proof.
  intros H. unfold index_map. f_equal. apply list_eq. intros i. rewrite !list_lookup_imap.
  apply (f_equal (fun x => x !! i)) in H. rewrite !list_lookup_fmap in H.
  destruct (l !! i), (l' !! i); cbn in *; congruence.
Qed.

(** Renumbering a second time by the original order undoes the first. *)
Lemma reposition_inverse d l1 l2 jid :
  NoDup (segment_id <$> segments d) -> dense d -> l1 ≡ₚ segmentsForJourney d jid ->
  segment_id <$> l2 = segment_id <$> segmentsForJourney d jid ->
  reposition (index_map l2) (reposition (index_map l1) (segments d)) = segments d.
Proof.
  intros Hnd Hd Hp H2. rewrite (index_map_ids _ _ H2). unfold reposition.
  rewrite <- list_fmap_compose. etrans; [|apply list_fmap_id]. apply list_fmap_ext.
  intros k s Hs%list_elem_of_lookup_2. cbn [compose with_position segment_id segment_position].
  pose proof (segmentsForJourney_NoDup d jid Hnd) as Hnd'.
  destruct (decide (segment_journeyId s = jid)) as [Hj|Hj].
  - assert (s ∈ segmentsForJourney d jid) as [i Hi]%list_elem_of_lookup.
    { rewrite segmentsForJourney_perm. apply elem_of_lfilter. split; [done|]. by apply str_eqb_eq. }
    rewrite (index_map_Some _ i s Hnd' Hi). cbn. rewrite <- (dense_position_lookup _ _ _ _ Hd Hi).
    by destruct s.
  - assert (segment_id s ∉ segment_id <$> segmentsForJourney d jid) as Hn.
    { rewrite list_elem_of_fmap. intros (t & Heq & Ht). rewrite segmentsForJourney_perm in Ht.
      apply elem_of_lfilter in Ht as [Ht Htj%str_eqb_eq].
      assert (s = t) by (by eapply (NoDup_fmap_inj segment_id (segments d))). congruence. }
    rewrite !index_map_None by (rewrite ?Hp; done). by destruct s.
Qed.

(** The data [moveSegment] leaves: the timelines, and nothing else changed
    but the Journey's time stamp. *)
Lemma moveSegment_effect `{DateParser} d jid s dir rt i t y :
  valid d -> jid ∈ journey_id <$> journeys d ->
  segmentsForJourney d jid !! i = Some s -> segmentsForJourney d jid !! t = Some y ->
  Z.of_nat t = Z.of_nat i + dir ->
  exists d' rt', moveSegment d jid (segment_id s) dir rt = Ok (d', rt') /\
    segments d' = reposition (index_map (swap_at i t (segmentsForJourney d jid))) (segments d) /\
    journey_id <$> journeys d' = journey_id <$> journeys d /\ packingItems d' = packingItems d /\
    segmentsForJourney d' jid = renumber (swap_at i t (segmentsForJourney d jid)) /\
    forall j, j <> jid -> segmentsForJourney d' j = segmentsForJourney d j.
Proof.
  intros Hv Hj Hi Ht Hdir.
  rewrite (moveSegment_run d jid s dir rt i t y) by (done || apply Hv).
  match goal with |- context [touchJourney ?x _ _] =>
    destruct (touchJourney_total x jid rt) as (d' & rt' & E) end.
  exists d', rt'. pose proof E as (_ & ? & ? & ? & _)%touchJourney_ok.
  destruct (reposition_timeline d (segments d) (swap_at i t (segmentsForJourney d jid)) jid)
    as [Hsame Ho]; [apply Hv|by rewrite swap_at_perm, segmentsForJourney_perm|].
  split_and!; try done.
  - by rewrite (touchJourney_timeline _ _ _ _ _ _ E).
  - intros j Hne. rewrite (touchJourney_timeline _ _ _ _ _ _ E). by apply Ho.
Qed.

Lemma renumber_ids l : segment_id <$> renumber l = segment_id <$> l.
Proof.
  apply list_eq. intros i. unfold renumber. rewrite list_lookup_fmap, list_lookup_imap, list_lookup_fmap.
  by destruct (l !! i).
Qed.

Lemma swap_at_fmap {A B} (f : A -> B) i j (l : list A) : f <$> swap_at i j l = swap_at i j (f <$> l).
Proof.
  unfold swap_at. rewrite !list_lookup_fmap.
  destruct (l !! i), (l !! j); cbn; by rewrite ?list_fmap_insert.
Qed.

(** ** [deleteSegment] *)

Lemma lfilter_sorted {A} (R : A -> A -> Prop) (f : A -> bool) l :
  StronglySorted R l -> StronglySorted R (List.filter f l).
Proof.
  induction 1 as [|x l Hs IH Hf]; cbn; [constructor|]. case_match; [|done].
  constructor; [done|]. by apply Forall_lfilter.
Qed.

Lemma lfilter_comm {A} (f g : A -> bool) l :
  List.filter f (List.filter g l) = List.filter g (List.filter f l).
Proof. induction l; cbn; [done|]. repeat (case_match; cbn); congruence. Qed.

Lemma dense_sorted d jid :
  dense d -> StronglySorted (fun a b => segment_position a < segment_position b) (segmentsForJourney d jid).
Proof.
  intros Hd. apply sorted_strict; [|apply sort_by_sorted].
  rewrite dense_positions by done. apply NoDup_seqZ.
Qed.

(** Removing a segment before sorting or after is the same. *)
Lemma remaining_ordered d jid (f : JourneySegment -> bool) :
  dense d ->
  sort_by segment_position (of_journey jid (List.filter f (segments d))) =
  List.filter f (segmentsForJourney d jid).
Proof.
  intros Hd. apply sort_by_unique; [|by apply lfilter_sorted, dense_sorted].
  rewrite segmentsForJourney_perm. unfold of_journey. by rewrite lfilter_comm.
Qed.

Lemma deleteSegment_effect `{DateParser} d jid sid rt :
  valid d -> jid ∈ journey_id <$> journeys d ->
  existsb (owns_segment jid sid) (segments d) = true ->
  exists d' rt', deleteSegment d jid sid rt = Ok (d', rt') /\
    segmentsForJourney d' jid =
      renumber (List.filter (fun s => negb (str_eqb (segment_id s) sid)) (segmentsForJourney d jid)) /\
    forall j, j <> jid -> segmentsForJourney d' j = segmentsForJourney d j.
Proof.
  intros Hv Hj Hown. unfold deleteSegment.
  rewrite svc_bind_run, (proj2 (assertJourneyExists_ok d jid rt () rt)) by done.
  rewrite svc_bind_run, Hown. cbn [assertOwnedItem mret svc_ret].
  set (f := fun s => negb (str_eqb (segment_id s) sid)).
  match goal with |- context [touchJourney ?x _ _] =>
    destruct (touchJourney_total x jid rt) as (d' & rt' & E) end.
  exists d', rt'. split; [done|].
  fold (of_journey jid (List.filter f (segments d))) in E.
  destruct (reposition_timeline d (List.filter f (segments d))
    (sort_by segment_position (of_journey jid (List.filter f (segments d)))) jid) as [Hsame Ho];
    [apply NoDup_fmap_lfilter, Hv|apply sort_by_perm|].
  split.
  - rewrite (touchJourney_timeline _ _ _ _ _ _ E), Hsame. by rewrite remaining_ordered by apply Hv.
  - intros j Hne. rewrite (touchJourney_timeline _ _ _ _ _ _ E), Ho by done.
    unfold segmentsForJourney at 1. cbn [segments with_segments].
    fold (of_journey j (List.filter f (segments d))). rewrite remaining_ordered by apply Hv.
    apply existsb_elem in Hown as (e & He & [Hid Hje]%owns_segment_iff).
    rewrite (lfilter_ext _ (fun _ => true)); [by induction (segmentsForJourney d j); cbn; f_equal|].
    intros s Hs. rewrite segmentsForJourney_perm in Hs. apply elem_of_lfilter in Hs as [Hs Hsj%str_eqb_eq].
    apply negb_true_iff, str_eqb_neq. intros Heq.
    assert (s = e) by (eapply (NoDup_fmap_inj segment_id (segments d)); [apply Hv|done|done|congruence]).
    congruence.
Qed.

(** ** Sessions *)

Section Sessions.
Context `{DateParser}.

Lemma run_op_ok d o rt d' rt' :
  op_dates_ok o -> op_count_ok o -> good_stamps rt -> fresh rt d -> valid d ->
  run_op d o rt = Ok (d', rt') -> valid d' /\ grows rt rt' d d'.
Proof.
  intros Hin Hc Hg Hf Hv. destruct o; cbn in *.
  - unfold fmap, svc_fmap. destruct (createJourney d input rt) as [[[dj j] rt1]|] eqn:E; [|done].
    intros [= <- <-]. destruct Hin. by eapply createJourney_ok.
  - destruct Hin. by eapply updateJourney_ok.
  - by eapply setJourneyStatus_ok.
  - by eapply deleteJourney_ok.
  - destruct Hin. by eapply saveSegment_ok.
  - by eapply deleteSegment_ok.
  - by eapply moveSegment_ok.
  - by eapply savePackingItem_ok.
  - by eapply setPackedQuantity_ok.
  - by eapply deletePackingItem_ok.
Qed.

Lemma assertValid_run codes rt :
  assertValid codes rt =
  match codes with [] => Ok ((), rt) | _ => Throw (JourneyValidationError codes) end.
Proof. by destruct codes. Qed.

(** *** What is saved has well-formed dates only if the input had *)

Lemma updateJourney_saved d jid input rt d' rt' :
  updateJourney d jid input rt = Ok (d', rt') ->
  exists j, j ∈ journeys d' /\ journey_startDate j = or_null (ji_startDate input) /\
    journey_endDate j = or_null (ji_endDate input).
Proof.
  unfold updateJourney.
  intros (_ & ? & [(j & -> & Hj)%list_elem_of_fmap ->]%assertJourneyExists_ok & H1)%svc_bind_ok.
  apply svc_bind_ok in H1 as (_ & ? & [_ ->]%assertCodes_ok & H1).
  apply svc_bind_ok in H1 as (js & rt1 & (Hst & _)%map_journey_ok & [= <- <-]).
  apply list_elem_of_lookup in Hj as [n Hn].
  destruct (Forall2_lookup_l _ _ _ _ _ Hst Hn) as (j' & Hj' & Hs).
  unfold stamped in Hs. rewrite str_eqb_refl in Hs. destruct Hs as [m ->].
  eexists. split; [by eapply list_elem_of_lookup_2|done].
Qed.

Lemma saveSegment_saved d jid input sid rt d' rt' :
  saveSegment d jid input sid rt = Ok (d', rt') ->
  exists s, s ∈ segments d' /\ segment_startDate s = or_null (si_startDate input) /\
    segment_endDate s = or_null (si_endDate input).
Proof.
  unfold saveSegment.
  intros (_ & ? & _ & H1)%svc_bind_ok. apply svc_bind_ok in H1 as (_ & ? & _ & H1).
  set (existing := sid0 ← given sid; List.find (owns_segment jid sid0) (segments d)) in *.
  apply svc_bind_ok in H1 as (_ & ? & _ & H1). apply svc_bind_ok in H1 as (t & ? & _ & H1).
  apply svc_bind_ok in H1 as (i & ? & (_ & Hid)%or_call_id & (_ & _ & -> & _)%touchJourney_ok).
  cbn [segments with_segments]. destruct existing as [e|] eqn:Hex; cbn [fmap option_fmap option_map] in *.
  - apply given_existing in Hex as (_ & _ & [He _]%find_Some_elem).
    eexists. split; [apply list_elem_of_fmap; exists e; split; [|exact He]|].
    + by rewrite str_eqb_refl.
    + done.
  - eexists. split; [apply elem_of_app; right; apply list_elem_of_here|done].
Qed.

Lemma run_op_dates d o rt d' rt' :
  well_formed d' -> run_op d o rt = Ok (d', rt') -> op_dates_ok o.
Proof.
  intros Hwf. pose proof (wf_journeys _ Hwf) as Hjs. pose proof (wf_segments _ Hwf) as Hss.
  rewrite Forall_forall in Hjs. rewrite Forall_forall in Hss. destruct o; cbn; try done.
  - unfold fmap, svc_fmap, createJourney. rewrite svc_bind_run, assertValid_run.
    destruct (validateJourney input); [|done]. intros [= <- <-].
    cbn in Hjs. ospecialize (Hjs _ _); [apply elem_of_app; right; apply list_elem_of_here|].
    destruct Hjs. split; by apply date_ok_given.
  - intros (j & Hj & Hs & He)%updateJourney_saved. destruct (Hjs j Hj).
    split; apply date_ok_given; congruence.
  - intros (s & Hs & Hst & He)%saveSegment_saved. destruct (Hss s Hs).
    split; apply date_ok_given; congruence.
Qed.

(** A runtime whose clock writes timestamps and whose ids are distinct,
    not blank, and never reuse one that is already in the data. *)
Record sound_runtime (rt : Runtime) (d : JourneyData) : Prop := {
  sound_stamps : good_stamps rt;
  sound_distinct : forall m n, id_value rt m = id_value rt n -> m = n;
  sound_fresh : fresh rt d;
}.

Lemma page_step_ok s o :
  op_dates_ok o -> op_count_ok o -> sound_runtime (s.2) (s.1) -> valid (s.1) ->
  sound_runtime ((page_step s o).2) ((page_step s o).1) /\ valid ((page_step s o).1).
Proof.
  unfold page_step. intros Hd Hc Hrt Hv. destruct (run_op _ _ _) as [[d' rt']|e] eqn:Hrun; [|done].
  cbn. destruct Hrt.
  apply run_op_ok in Hrun as [Hv' Hgr]; [|done..]. split; [|done].
  pose proof (fresh_grows _ _ _ _ sound_distinct0 sound_fresh0 Hgr).
  destruct Hgr as [(E1 & E2 & _) _]. split; [|by rewrite E1|done].
  intros n. rewrite E2. apply sound_stamps0.
Qed.

Lemma page_after_ok os s :
  Forall op_dates_ok os -> Forall op_count_ok os -> sound_runtime (s.2) (s.1) -> valid (s.1) ->
  valid ((page_after s os).1).
Proof.
  intros Hd. revert s. induction Hd as [|o os Ho _ IH]; intros s; [done|].
  intros [Hc Hcs]%Forall_cons Hrt Hv. cbn. destruct (page_step_ok s o) as [? ?]; [done..|]. by apply IH.
Qed.

Lemma valid_empty : valid EMPTY_JOURNEY_DATA.
Proof. split; [constructor; constructor|]. intros jid. done. Qed.
End Sessions.

(** ** When an operation throws, and with what *)

Definition op_journey (o : op) : option jstr :=
  match o with
  | CreateJourney _ => None
  | UpdateJourney jid _ | SetJourneyStatus jid _ | DeleteJourney jid | SaveSegment jid _ _
  | DeleteSegment jid _ | MoveSegmentOp jid _ _ | SavePackingItem jid _ _
  | SetPackedQuantity jid _ _ | DeletePackingItem jid _ => Some jid
  end.

Definition op_codes (o : op) : list ValidationErrorCode :=
  match o with
  | CreateJourney i | UpdateJourney _ i => validateJourney i
  | SaveSegment _ i _ => validateSegment i
  | SavePackingItem _ i _ => validatePacking i
  | _ => []
  end.

Definition has_segment (d : JourneyData) (jid sid : jstr) : bool :=
  existsb (owns_segment jid sid) (segments d).
Definition has_item (d : JourneyData) (jid iid : jstr) : bool :=
  existsb (owns_item jid iid) (packingItems d).

(** The item the operation names belongs to the Journey it names. *)
Definition op_item_owned (d : JourneyData) (o : op) : bool :=
  match o with
  | SaveSegment jid _ (Some sid) => negb (str_truthy sid) || has_segment d jid sid
  | SavePackingItem jid _ (Some iid) => negb (str_truthy iid) || has_item d jid iid
  | DeleteSegment jid sid | MoveSegmentOp jid sid _ => has_segment d jid sid
  | SetPackedQuantity jid iid _ | DeletePackingItem jid iid => has_item d jid iid
  | _ => true
  end.

Definition journey_exists (d : JourneyData) (jid : jstr) : bool :=
  existsb (fun j => str_eqb (journey_id j) jid) (journeys d).

(** The first of the three reasons, in this order, or none. *)
Definition refusal (d : JourneyData) (o : op) : option ServiceError :=
  if match op_journey o with Some jid => negb (journey_exists d jid) | None => false end
  then Some (JourneyOperationError journey_not_found)
  else match op_codes o with
       | [] => if op_item_owned d o then None else Some (JourneyOperationError item_not_found)
       | codes => Some (JourneyValidationError codes)
       end.

Lemma find_existsb {A} (f : A -> bool) l :
  existsb f l = match List.find f l with Some _ => true | None => false end.
Proof. induction l as [|x l IH]; cbn; [done|]. by destruct (f x). Qed.

Lemma existsb_perm {A} (f : A -> bool) l l' : l ≡ₚ l' -> existsb f l = existsb f l'.
Proof.
  intros Hp. apply eq_true_iff_eq. rewrite !existsb_elem. by setoid_rewrite Hp.
Qed.

Lemma found_in_timeline d jid sid :
  negb (findIndex (fun s => str_eqb (segment_id s) sid) (segmentsForJourney d jid) <? 0) =
  has_segment d jid sid.
Proof.
  assert (has_segment d jid sid =
          existsb (fun s => str_eqb (segment_id s) sid) (segmentsForJourney d jid)) as ->.
  { rewrite (existsb_perm _ _ _ (segmentsForJourney_perm d jid)). unfold has_segment, of_journey.
    induction (segments d) as [|s l IH]; cbn; [done|]. unfold owns_segment at 1.
    destruct (str_eqb (segment_journeyId s) jid); cbn; by rewrite ?andb_true_r, ?andb_false_r, IH. }
  induction (segmentsForJourney d jid) as [|s l IH]; cbn; [done|].
  destruct (str_eqb (segment_id s) sid); cbn; [done|]. rewrite <- IH.
  destruct (findIndex _ l <? 0) eqn:E; [done|]. lia.
Qed.

Lemma assertJourneyExists_run d jid rt :
  assertJourneyExists d jid rt =
  if journey_exists d jid then Ok ((), rt) else Throw (JourneyOperationError journey_not_found).
Proof. unfold assertJourneyExists, journey_exists. by destruct (existsb _ _). Qed.

Lemma assertOwnedItem_run b rt :
  assertOwnedItem b rt = if b then Ok ((), rt) else Throw (JourneyOperationError item_not_found).
Proof. by destruct b. Qed.

Lemma given_owned {A} (find : jstr -> option A) (owns : jstr -> bool) (id : option jstr) :
  (forall i, owns i = match find i with Some _ => true | None => false end) ->
  match given id, (i ← given id; find i) with Some _, None => false | _, _ => true end =
  match id with Some i => negb (str_truthy i) || owns i | None => true end.
Proof.
  intros Ho. destruct id as [i|]; cbn; [|done]. unfold or_null. destruct (str_truthy i); cbn; [|done].
  rewrite Ho. by destruct (find i).
Qed.

(** A guard either throws its error or is passed over. *)
Ltac run_guards :=
  repeat (rewrite svc_bind_run;
          first [ rewrite assertJourneyExists_run | rewrite assertValid_run
                | rewrite assertOwnedItem_run ];
          cbn [op_item_owned op_codes op_journey]).

Definition returns {A} (r : outcome ServiceError A) : Prop := exists a, r = Ok a.

Lemma returns_touch d jid rt : returns (touchJourney d jid rt).
Proof. destruct (touchJourney_total d jid rt) as (? & ? & ->). by eexists. Qed.

Lemma returns_map jid f js rt (k : list Journey -> JourneyData) :
  returns ((js' ← map_journey jid f js; mret (k js')) rt).
Proof.
  destruct (map_journey_total jid f js rt) as (js' & rt' & E).
  rewrite svc_bind_run, E. by eexists.
Qed.

Lemma returns_bind {A B} (m : Svc A) (k : A -> Svc B) rt :
  (exists a rt1, m rt = Ok (a, rt1)) -> (forall a rt1, returns (k a rt1)) -> returns ((m ≫= k) rt).
Proof. intros (a & rt1 & E) Hk. rewrite svc_bind_run, E. apply Hk. Qed.

Lemma or_call_total {A} (o : option A) (m : Svc A) rt :
  (exists a rt1, m rt = Ok (a, rt1)) -> exists a rt1, or_call o m rt = Ok (a, rt1).
Proof. destruct o; cbn; eauto. Qed.

(** What an operation answers, in terms of [refusal]. *)
Lemma run_op_refusal d o rt :
  match refusal d o with
  | Some e => run_op d o rt = Throw e
  | None => returns (run_op d o rt)
  end.
Proof.
  unfold refusal. destruct o; cbn [op_journey op_codes op_item_owned run_op].
  - unfold fmap, svc_fmap, createJourney. rewrite svc_bind_run, assertValid_run.
    destruct (validateJourney input); [by eexists|done].
  - unfold updateJourney. run_guards. destruct (journey_exists d jid); cbn [negb]; [|done].
    destruct (validateJourney input); [apply returns_map|done].
  - unfold setJourneyStatus. run_guards. destruct (journey_exists d jid); cbn [negb]; [|done].
    apply returns_map.
  - unfold deleteJourney. run_guards. destruct (journey_exists d jid); cbn [negb]; [by eexists|done].
  - unfold saveSegment. run_guards. destruct (journey_exists d jid); cbn [negb]; [|done].
    run_guards. destruct (validateSegment input); [|done]. run_guards.
    rewrite (given_owned _ (has_segment d jid)) by (intros; apply find_existsb).
    destruct sid as [sid|]; [destruct (_ || _); [|done]|].
    all: apply returns_bind; [by eexists _, _|]; intros; apply returns_bind;
      [apply or_call_total; by eexists _, _|intros; apply returns_touch].
  - unfold deleteSegment. run_guards. destruct (journey_exists d jid); cbn [negb]; [|done].
    fold (has_segment d jid sid). destruct (has_segment d jid sid); [apply returns_touch|done].
  - unfold moveSegment. run_guards. destruct (journey_exists d jid); cbn [negb]; [|done].
    rewrite svc_bind_run, assertOwnedItem_run, found_in_timeline.
    destruct (has_segment d jid sid); [|done].
    repeat case_match; first [apply returns_touch|by eexists].
  - unfold savePackingItem. run_guards. destruct (journey_exists d jid); cbn [negb]; [|done].
    run_guards. destruct (validatePacking input); [|done]. run_guards.
    rewrite (given_owned _ (has_item d jid)) by (intros; apply find_existsb).
    destruct iid as [iid|]; [destruct (_ || _); [|done]|].
    all: apply returns_bind; [apply or_call_total; by eexists _, _|]; intros; apply returns_bind;
      [apply or_call_total; by eexists _, _|]; intros; apply returns_bind;
      [by eexists _, _|intros; apply returns_touch].
  - unfold setPackedQuantity. run_guards. destruct (journey_exists d jid); cbn [negb]; [|done].
    fold (has_item d jid iid). destruct (has_item d jid iid); [apply returns_touch|done].
  - unfold deletePackingItem. run_guards. destruct (journey_exists d jid); cbn [negb]; [|done].
    fold (has_item d jid iid). destruct (has_item d jid iid); [apply returns_touch|done].
Qed.

(** ** A concrete page *)

Module Sample.
(** The timestamps [toISOString] prints. *)
Definition ISO_TIMESTAMP : list (N -> bool) :=
  let d := is_digit in
  LOCAL_DATE ++ [N.eqb 84; d; d; N.eqb 58; d; d; N.eqb 58; d; d; N.eqb 46; d; d; d; N.eqb 90]%N.
Definition iso_date_parse : DateParser :=
  fun s => if match_classes ISO_TIMESTAMP s then Some 0 else None.

Definition clock : jstr := "2026-05-01T10:00:00.000Z".
(** Ids "i", "ii", "iii", ...: distinct and not blank. *)
Definition ids (n : nat) : jstr := replicate (S n) 105%N.
Definition runtime : Runtime := mkRuntime ids (fun _ => clock) 0 0.

Lemma ids_nonblank n : nonblank (ids n).
Proof.
  unfold nonblank, str_length, trim. rewrite (trimStart_id (ids n)); [|by intros c s' [= <- _]].
  rewrite length_reverse, trimStart_id.
  - unfold ids. by rewrite length_reverse, length_replicate.
  - unfold ids. rewrite reverse_replicate. by intros c s' [= <- _].
Qed.
Lemma ids_distinct m n : ids m = ids n -> m = n.
Proof. intros H%(f_equal length). unfold ids in H. rewrite !length_replicate in H. lia. Qed.

Definition stay (id jid : string) (p : Z) : JourneySegment :=
  mkSegment id jid p None None "" 1 clock clock (StaySegment "Lisbon").
Definition journey (id : string) : Journey :=
  mkJourney id "Trip" None None planning 1 clock clock.
Definition socks : PackingItem :=
  mkPackingItem "p" "a" "Socks" clothing (NInt 4) (NInt 1) true 1 clock clock.
Definition data : JourneyData :=
  mkData [journey "a"; journey "b"] [stay "x" "a" 0; stay "y" "b" 0; stay "z" "a" 1; stay "w" "a" 2] [socks].

#[local] Existing Instance iso_date_parse.
Lemma data_valid : valid data.
Proof.
  split; [apply parse_encode_iff; vm_compute; reflexivity|].
  intros jid. unfold data, slots_of. cbn.
  destruct (str_eqb "a" jid) eqn:Ea, (str_eqb "b" jid) eqn:Eb; cbn; try done.
  apply str_eqb_eq in Ea as <-. apply str_eqb_eq in Eb. discriminate Eb.
Qed.

Lemma runtime_sound d : (forall n, ids n ∉ all_ids d) -> sound_runtime runtime d.
Proof.
  intros Hd. split; [by intros n|apply ids_distinct|]. intros n _. split; [apply ids_nonblank|apply Hd].
Qed.
End Sample.

(** ** Properties *)

Section Properties.
Context `{DateParser}.

(** C37: [parseJourneyData] accepts the value of a [JourneyData] exactly when
    that datum is well formed: unique ids, existing owners, distinct
    positions, ordered dates, quantities in range. *)
Theorem parseJourneyData_accepts d :
  parseJourneyData (encode_data d) = Ok (encode_data d) <-> well_formed d.
Proof. apply parse_encode_iff. Qed.

(** C8: whatever operations a page runs, starting from
    [EMPTY_JOURNEY_DATA], returning or throwing, the data it holds is accepted
    by [parseJourneyData] and every timeline carries the positions 0..n-1.
    The conditions: each date field the forms hand over is empty or a
    [yyyy-mm-dd] date (the validation does not check that, see
    [operation_keeps_valid]), each packed count that is set is an integer, the
    clock writes ISO timestamps, and the ids drawn are distinct, not blank and
    not taken. *)
Theorem session_parses rt os :
  Forall op_dates_ok os -> Forall op_count_ok os -> sound_runtime rt EMPTY_JOURNEY_DATA ->
  let d := (page_after (EMPTY_JOURNEY_DATA, rt) os).1 in
  parseJourneyData (encode_data d) = Ok (encode_data d) /\ dense d.
Proof.
  intros Hd Hc Hrt. destruct (page_after_ok os (EMPTY_JOURNEY_DATA, rt)) as [Hwf Hdense];
    [done..|apply valid_empty|]. split; [by apply parse_encode_iff|done].
Qed.

(** C5: an operation that returns keeps the invariant [valid] exactly when
    each date field of its input is empty or a [yyyy-mm-dd] date: with such
    dates the result is valid and its ids are ids the data had or ids drawn
    from the runtime; with any other date that passes the form's validation
    the operation returns data that [parseJourneyData] refuses.  The
    conditions: the data was valid, a packed count that is set is an integer,
    the clock writes ISO timestamps, and the ids still to be drawn are not
    blank and not taken. *)
Theorem operation_keeps_valid d o rt d' rt' :
  op_count_ok o -> good_stamps rt -> fresh rt d -> valid d ->
  run_op d o rt = Ok (d', rt') ->
  (op_dates_ok o -> valid d' /\ grows rt rt' d d') /\
  (~ op_dates_ok o -> parseJourneyData (encode_data d') <> Ok (encode_data d')).
Proof.
  intros Hc Hg Hf Hv Hrun. split; [intros Hd; by apply (run_op_ok d o)|].
  intros Hd Hwf%parse_encode_iff. by apply Hd, (run_op_dates d o rt d' rt').
Qed.

(** C38: an operation throws exactly when it is refused, with the first of
    the three reasons: unknown Journey, failed validation, foreign item;
    otherwise it returns. *)
Theorem operation_throws d o rt e :
  (run_op d o rt = Throw e <-> refusal d o = Some e) /\
  (refusal d o = None <-> returns (run_op d o rt)).
Proof.
  pose proof (run_op_refusal d o rt) as Hr. destruct (refusal d o) as [e'|].
  - rewrite Hr. split; [naive_solver|]. split; [done|]. by intros [? ?].
  - split; [|done]. destruct Hr as [a ->]. done.
Qed.

(** moving a segment by one place exchanges it with its neighbour in the
    Journey's timeline, renumbers that timeline 0..n-1, and leaves the
    timelines of the other Journeys as they were. *)
Theorem moveSegment_swaps d jid s dir rt i t y :
  valid d -> jid ∈ journey_id <$> journeys d ->
  segmentsForJourney d jid !! i = Some s -> segmentsForJourney d jid !! t = Some y ->
  Z.of_nat t = Z.of_nat i + dir ->
  exists d' rt', moveSegment d jid (segment_id s) dir rt = Ok (d', rt') /\
    segmentsForJourney d' jid = renumber (swap_at i t (segmentsForJourney d jid)) /\
    (forall j, j <> jid -> segmentsForJourney d' j = segmentsForJourney d j) /\
    packingItems d' = packingItems d.
Proof.
  intros Hv Hj Hi Ht Hdir.
  destruct (moveSegment_effect d jid s dir rt i t y) as (d' & rt' & ? & _ & _ & ? & ? & ?); [done..|].
  by exists d', rt'.
Qed.

(** Moving a segment one place and back restores every segment of the
    data exactly, positions included. *)
Theorem moveSegment_back d jid s dir rt i t y :
  good_stamps rt -> valid d -> jid ∈ journey_id <$> journeys d ->
  segmentsForJourney d jid !! i = Some s -> segmentsForJourney d jid !! t = Some y ->
  Z.of_nat t = Z.of_nat i + dir ->
  exists d1 rt1 d2 rt2,
    moveSegment d jid (segment_id s) dir rt = Ok (d1, rt1) /\
    moveSegment d1 jid (segment_id s) (- dir) rt1 = Ok (d2, rt2) /\
    segments d2 = segments d.
Proof.
  intros Hg Hv Hj Hi Ht Hdir.
  destruct (moveSegment_effect d jid s dir rt i t y) as (d1 & rt1 & E1 & Hs1 & Hj1 & _ & Ht1 & _); [done..|].
  pose proof (moveSegment_ok _ _ _ _ _ _ _ Hg Hv E1) as [Hv1 _].
  assert (forall k, segmentsForJourney d1 jid !! k =
    (fun x => with_position x (Z.of_nat k)) <$> swap_at i t (segmentsForJourney d jid) !! k) as Hk
    by (intros k; rewrite Ht1; apply list_lookup_imap).
  setoid_rewrite (swap_at_lookup _ _ _ _ _ _ Hi Ht) in Hk.
  destruct (moveSegment_effect d1 jid (with_position s (Z.of_nat t)) (- dir) rt1 t i
    (with_position (if decide (i = t) then s else y) (Z.of_nat i)))
    as (d2 & rt2 & E2 & Hs2 & _).
  - done.
  - by rewrite Hj1.
  - rewrite Hk. by case_decide.
  - rewrite Hk. case_decide; [done|]. by case_decide.
  - lia.
  - exists d1, rt1, d2, rt2. split_and!; [done|exact E2|].
    rewrite Hs2, Hs1. eapply (reposition_inverse _ _ _ jid).
    + apply Hv.
    + apply Hv.
    + apply swap_at_perm.
    + rewrite Ht1, swap_at_fmap, renumber_ids, swap_at_fmap.
      eapply swap_at_involutive; by rewrite list_lookup_fmap, ?Hi, ?Ht.
Qed.

(** A move past either end of the timeline returns the data as it is
    and takes nothing from the runtime. *)
Theorem moveSegment_edge d jid s dir rt i :
  NoDup (segment_id <$> segments d) -> jid ∈ journey_id <$> journeys d ->
  segmentsForJourney d jid !! i = Some s ->
  segmentsForJourney d jid !! Z.to_nat (Z.of_nat i + dir) = None \/ Z.of_nat i + dir < 0 ->
  moveSegment d jid (segment_id s) dir rt = Ok (d, rt).
Proof.
  intros Hnd Hj Hi Hout. unfold moveSegment.
  rewrite svc_bind_run, (proj2 (assertJourneyExists_ok d jid rt () rt)) by done.
  rewrite (findIndex_id _ _ _ (segmentsForJourney_NoDup _ _ Hnd) Hi), svc_bind_run.
  replace (Z.of_nat i <? 0) with false by lia. cbn [negb assertOwnedItem mret svc_ret].
  rewrite lookup_ge_None in Hout. by replace (_ || _) with true by lia.
Qed.

(** deleting a segment removes it from its Journey's timeline, closes
    the gap by renumbering 0..n-1 in the same order, and leaves the
    timelines of the other Journeys as they were. *)
Theorem deleteSegment_closes_gap d jid sid rt :
  valid d -> jid ∈ journey_id <$> journeys d -> has_segment d jid sid = true ->
  exists d' rt', deleteSegment d jid sid rt = Ok (d', rt') /\
    segmentsForJourney d' jid =
      renumber (List.filter (fun s => negb (str_eqb (segment_id s) sid)) (segmentsForJourney d jid)) /\
    forall j, j <> jid -> segmentsForJourney d' j = segmentsForJourney d j.
Proof. apply deleteSegment_effect. Qed.

(** deleting a Journey removes its segments and packing items with it
    and nothing that belongs to another Journey. *)
Theorem deleteJourney_cascades d jid rt :
  jid ∈ journey_id <$> journeys d ->
  exists d', deleteJourney d jid rt = Ok (d', rt) /\
    (forall j, j ∈ journeys d' <-> j ∈ journeys d /\ journey_id j <> jid) /\
    segmentsForJourney d' jid = [] /\ packingForJourney d' jid = [] /\
    forall k, k <> jid ->
      segmentsForJourney d' k = segmentsForJourney d k /\
      packingForJourney d' k = packingForJourney d k.
Proof.
  intros Hj. unfold deleteJourney.
  rewrite svc_bind_run, (proj2 (assertJourneyExists_ok d jid rt () rt)) by done.
  eexists. split; [reflexivity|]. split.
  { intros j. cbn. by rewrite elem_of_lfilter, negb_true_iff, str_eqb_neq. }
  assert (forall {A} (own : A -> jstr) l k,
    List.filter (fun x => str_eqb (own x) k) (List.filter (fun x => negb (str_eqb (own x) jid)) l) =
    if decide (k = jid) then [] else List.filter (fun x => str_eqb (own x) k) l) as Hf.
  { intros A own l k. induction l as [|x l IH]; cbn; [by case_decide|].
    destruct (str_eqb (own x) jid) eqn:E; cbn; rewrite ?IH.
    - apply str_eqb_eq in E as ->. case_decide; [done|].
      destruct (str_eqb jid k) eqn:E; [apply str_eqb_eq in E; congruence|done].
    - case_decide; [subst; by rewrite E|]. done. }
  unfold segmentsForJourney, packingForJourney. cbn. setoid_rewrite Hf.
  rewrite !decide_True by done. split_and!; [done|done|]. intros k Hk. by rewrite !decide_False.
Qed.

(** the packed count of an item is what was asked for, held between 0
    and the item's quantity. *)
Theorem setPackedQuantity_clamps d jid iid p z rt :
  valid d -> jid ∈ journey_id <$> journeys d -> has_item d jid iid = true -> num_int p = Some z ->
  exists d' rt', setPackedQuantity d jid iid p rt = Ok (d', rt') /\
    Forall2 (fun i i' => if str_eqb (item_id i) iid
        then exists q, num_int (item_packedQuantity i') = Some q /\
             q = Z.max 0 (Z.min (item_num (item_quantity i)) z) /\
             i' = with_packedQuantity i (item_packedQuantity i')
        else i' = i) (packingItems d) (packingItems d').
Proof.
  intros Hv Hj Hi Hp. unfold setPackedQuantity. run_guards.
  assert (journey_exists d jid = true) as ->.
  { unfold journey_exists. apply existsb_elem. apply list_elem_of_fmap in Hj as (j & -> & ?).
    exists j. by rewrite str_eqb_refl. }
  run_guards. fold (has_item d jid iid). rewrite Hi.
  match goal with |- context [touchJourney ?x _ _] =>
    destruct (touchJourney_total x jid rt) as (d' & rt' & E) end.
  exists d', rt'. split; [done|]. apply touchJourney_ok in E as (_ & _ & _ & -> & _).
  cbn. pose proof (wf_items _ (valid_wf _ Hv)) as Hw.
  induction Hw as [|i l Hiw _ IH]; cbn; constructor; [|done].
  destruct (str_eqb (item_id i) iid); [|done].
  destruct Hiw as [_ _ _ (q & Hq & _) _ _ _ _]. eexists. split_and!; [|reflexivity|done].
  cbn. unfold item_num. rewrite Hq. cbn. apply num_max_int; [done|]. by apply num_min_int.
Qed.
End Properties.

(** ** Witnesses *)

Module Witnesses.
Import Sample.
#[local] Existing Instance iso_date_parse.

Definition trip_input : JourneyInput := mkJourneyInput " Portugal " "2026-05-01" "2026-05-09".
Definition hotel_input : SegmentInput := StayInput "Lisbon" "2026-05-01" "" "".

Definition sample_visit : list op :=
  [CreateJourney trip_input; DeleteJourney "none"; SaveSegment "i" hotel_input None].

Lemma session_parses_witness :
  let d := (page_after (EMPTY_JOURNEY_DATA, runtime) sample_visit).1 in
  length (segments d) = 1%nat /\
  parseJourneyData (encode_data d) = Ok (encode_data d) /\ dense d.
Proof.
  split; [vm_compute; reflexivity|]. apply (session_parses runtime sample_visit).
  - repeat constructor; cbn; (right; reflexivity) || (left; reflexivity).
  - by repeat constructor.
  - apply runtime_sound. intros n ?%elem_of_nil. done.
Defined.

Lemma ids_not_in_data n : ids n ∉ all_ids data.
Proof.
  cbn.
  repeat (apply not_elem_of_cons; split; [discriminate|]). apply not_elem_of_nil.
Qed.

Lemma operation_keeps_valid_witness :
  exists d' rt', run_op data (DeleteSegment "a" "x") runtime = Ok (d', rt') /\
    valid d' /\ grows runtime rt' data d'.
Proof.
  eexists _, _. split; [vm_compute; reflexivity|].
  apply (operation_keeps_valid data (DeleteSegment "a" "x") runtime); [done|by intros n| | |vm_compute; reflexivity|done].
  - intros n _. split; [apply ids_nonblank|apply ids_not_in_data].
  - apply data_valid.
Defined.

(** A date with a five-digit year, which a date field of a browser can hand
    over, passes the validation and is saved; reading the data back fails. *)
Definition far_input : JourneyInput := mkJourneyInput "Far" "12026-05-01" "".
Example malformed_date_saved :
  match run_op data (CreateJourney far_input) runtime with
  | Ok (d', _) => is_ok (parseJourneyData (encode_data d')) = false
  | Throw _ => False
  end.
Proof. vm_compute. reflexivity. Qed.

Lemma in_data : js "a" ∈ journey_id <$> journeys data.
Proof. apply list_elem_of_here. Qed.

Lemma moveSegment_swaps_witness :
  exists d' rt', moveSegment data "a" "z" 1 runtime = Ok (d', rt') /\
    segmentsForJourney d' "a" = [stay "x" "a" 0; stay "w" "a" 1; stay "z" "a" 2] /\
    segmentsForJourney d' "b" = [stay "y" "b" 0].
Proof.
  destruct (moveSegment_swaps data "a" (stay "z" "a" 1) 1 runtime 1 2 (stay "w" "a" 2))
    as (d' & rt' & E & Ha & Hb & _);
    [apply data_valid|apply in_data|vm_compute; reflexivity..|].
  exists d', rt'. split; [exact E|]. split; [rewrite Ha; vm_compute; reflexivity|].
  rewrite Hb by discriminate. vm_compute; reflexivity.
Defined.

Lemma moveSegment_back_witness :
  exists d1 rt1 d2 rt2,
    moveSegment data "a" "x" 1 runtime = Ok (d1, rt1) /\
    moveSegment d1 "a" "x" (-1) rt1 = Ok (d2, rt2) /\ segments d2 = segments data.
Proof.
  apply (moveSegment_back data "a" (stay "x" "a" 0) 1 runtime 0 1 (stay "z" "a" 1));
    [by intros n|apply data_valid|apply in_data|vm_compute; reflexivity..].
Defined.

Lemma moveSegment_edge_witness : moveSegment data "a" "x" (-1) runtime = Ok (data, runtime).
Proof.
  apply (moveSegment_edge data "a" (stay "x" "a" 0) (-1) runtime 0);
    [apply data_valid|apply in_data|reflexivity|right; reflexivity].
Defined.

Lemma deleteSegment_closes_gap_witness :
  exists d' rt', deleteSegment data "a" "z" runtime = Ok (d', rt') /\
    segmentsForJourney d' "a" = [stay "x" "a" 0; stay "w" "a" 1] /\
    segmentsForJourney d' "b" = [stay "y" "b" 0].
Proof.
  destruct (deleteSegment_closes_gap data "a" "z" runtime) as (d' & rt' & E & Ha & Hb);
    [apply data_valid|apply in_data|reflexivity|].
  exists d', rt'. split; [exact E|]. split; [rewrite Ha; vm_compute; reflexivity|].
  rewrite Hb by discriminate. vm_compute; reflexivity.
Defined.

Lemma deleteJourney_cascades_witness :
  exists d', deleteJourney data "a" runtime = Ok (d', runtime) /\
    segmentsForJourney d' "a" = [] /\ segmentsForJourney d' "b" = [stay "y" "b" 0].
Proof.
  destruct (deleteJourney_cascades data "a" runtime in_data) as (d' & E & _ & Ha & _ & Hb).
  exists d'. split; [exact E|]. split; [exact Ha|].
  destruct (Hb "b") as [-> _]; [discriminate|]. vm_compute; reflexivity.
Defined.

Lemma setPackedQuantity_clamps_witness :
  exists d' rt', setPackedQuantity data "a" "p" (NInt 9) runtime = Ok (d', rt') /\
    packingItems d' = [with_packedQuantity socks (NInt 4)].
Proof.
  destruct (setPackedQuantity_clamps data "a" "p" (NInt 9) 9 runtime) as (d' & rt' & E & Hf);
    [apply data_valid|apply in_data|vm_compute; reflexivity..|].
  exists d', rt'. split; [exact E|]. injection E as <- _. reflexivity.
Defined.
End Witnesses.
