(* ===== verification/HttpJourneySpec.v ===== *)
(** What the HTTP Journey repository sends.  Saving data that has not changed
    only loads; saving the result of an operation sends the requests that
    operation stands for and no other; a command id is never sent with two
    different commands; and how a call ends. *)
From S2P Require Export HttpJourneyRepository JourneySession.

(** ** Running repository code *)

Section Running.
Context `{NumPrinter} {C : Type} `{TraxClient C}.
#[local] Abbreviation Repo := (HttpJourneyRepository.Repo (C := C)).

Lemma repo_bind_run {A B} (m : Repo A) (f : A -> Repo B) r :
  (m ≫= f) r = (match m r with (Ok a, r') => f a r' | (Throw e, r') => (Throw e, r') end : outcome RepoError B * RepoState).
Proof. done. Qed.

Lemma repo_bind_ext {B} (m : Repo ()) (f g : () -> Repo B) r :
  (forall r', f () r' = g () r') -> (m ≫= f) r = (m ≫= g) r.
Proof. intros Hfg. rewrite !repo_bind_run. by destruct (m r) as [[[]|e] r']. Qed.

(** Code that does nothing and returns. *)
Definition idle (m : Repo ()) : Prop := forall r, m r = (Ok (), r).

Lemma idle_bind {A} (m : Repo ()) (k : () -> Repo A) r : idle m -> (m ≫= k) r = k () r.
Proof. intros Hm. by rewrite repo_bind_run, Hm. Qed.

Lemma each_idle {A} (f : A -> Repo ()) l : (forall x, x ∈ l -> idle (f x)) -> idle (each f l).
Proof.
  induction l as [|x l IH]; intros Hf r; cbn; [done|].
  rewrite idle_bind by (apply Hf, list_elem_of_here). apply IH. intros y Hy. by apply Hf, list_elem_of_further.
Qed.

(** A loop of which one turn acts. *)
Lemma each_only {A} (key : A -> jstr) (f : A -> Repo ()) l x r :
  NoDup (key <$> l) -> x ∈ l -> (forall y, y ∈ l -> key y <> key x -> idle (f y)) -> each f l r = f x r.
Proof.
  revert r. induction l as [|y l IH]; intros r; [by intros _ ?%elem_of_nil|].
  cbn. rewrite NoDup_cons, elem_of_cons. intros [Hy Hnd] [->|Hx] Hf; rewrite repo_bind_run.
  - destruct (f y r) as [[[]|e] r1]; [|done].
    apply each_idle. intros z Hz. apply Hf; [by apply list_elem_of_further|].
    intros Heq. apply Hy. rewrite <- Heq. by apply list_elem_of_fmap_2.
  - rewrite (Hf y (list_elem_of_here _ _)); [|intros Heq; apply Hy; rewrite Heq; by apply list_elem_of_fmap_2].
    apply IH; [done..|]. intros z Hz. by apply Hf, list_elem_of_further.
Qed.

Lemma find_by_id {A} (id : A -> jstr) l x i :
  NoDup (id <$> l) -> x ∈ l -> id x = i -> List.find (fun a => str_eqb (id a) i) l = Some x.
Proof.
  intros Hnd Hx <-. induction l as [|y l IH]; [by apply elem_of_nil in Hx|]. cbn in Hnd |- *.
  apply NoDup_cons in Hnd as [Hy Hnd]. apply elem_of_cons in Hx as [->|Hx]; [by rewrite str_eqb_refl|].
  destruct (str_eqb (id y) (id x)) eqn:E; [|auto]. apply str_eqb_eq in E. destruct Hy. rewrite E.
  by apply list_elem_of_fmap_2.
Qed.

Lemma gone_iff {A} (id : A -> jstr) previous next x :
  x ∈ gone id previous next <-> x ∈ previous /\ id x ∉ id <$> next.
Proof.
  unfold gone. rewrite elem_of_lfilter, negb_true_iff, existsb_false, list_elem_of_fmap.
  setoid_rewrite str_eqb_neq. naive_solver.
Qed.

Lemma gone_nil {A} (id : A -> jstr) previous next :
  (forall x, x ∈ previous -> id x ∈ id <$> next) -> gone id previous next = [].
Proof.
  intros Hs. destruct (gone id previous next) as [|x l] eqn:E; [done|].
  assert (x ∈ gone id previous next) as Hx by (rewrite E; apply list_elem_of_here).
  apply gone_iff in Hx as [Hx Hn]. by apply Hs in Hx.
Qed.

(** ** Items that need no request *)

Lemma journeyChanged_false a b :
  journeyChanged a b = false <->
  journey_name a = journey_name b /\ journey_startDate a = journey_startDate b /\
  journey_endDate a = journey_endDate b /\ journey_status a = journey_status b.
Proof.
  unfold journeyChanged, opt_str_eqb.
  rewrite !orb_false_iff, !negb_false_iff, !bool_decide_eq_true, str_eqb_eq. tauto.
Qed.

Lemma save_journey_idle d old j :
  NoDup (journey_id <$> journeys d) -> old ∈ journeys d -> journey_id old = journey_id j ->
  journeyChanged old j = false -> idle (save_journey d j).
Proof. intros Hnd Ho Hid Hc r. unfold save_journey. by rewrite (find_by_id _ _ old), Hc. Qed.

(** The fields of a segment a request carries. *)
Definition same_segment (a b : JourneySegment) : Prop :=
  segment_id a = segment_id b /\ segmentBody a false = segmentBody b false.

Lemma save_segment_idle d old s :
  NoDup (segment_id <$> segments d) -> old ∈ segments d -> same_segment old s -> idle (save_segment d s).
Proof.
  intros Hnd Ho [Hid Hb] r. unfold save_segment, segmentChanged, opt_str_eqb.
  by rewrite (find_by_id _ _ old), Hb, bool_decide_eq_true_2.
Qed.

Lemma save_item_idle d i :
  NoDup (item_id <$> packingItems d) -> i ∈ packingItems d -> num_int (item_packedQuantity i) <> None ->
  idle (save_item d i).
Proof.
  intros Hnd Hi Hp r. unfold save_item, packingDefinitionChanged, opt_str_eqb.
  rewrite (find_by_id _ _ i), bool_decide_eq_true_2 by done. cbn [negb].
  unfold num_eqb, num_cmp. destruct (item_packedQuantity i); try done; cbn; by rewrite ?Z.compare_refl.
Qed.

(** ** The reorder request *)

Lemma first_moved_prefix previous before after :
  segment_id <$> after `prefix_of` segment_id <$> before -> first_moved previous before after = None.
Proof.
  revert before. induction after as [|x after IH]; intros [|y before] [k Heq]; try done.
  injection Heq as Hid Heq. cbn. rewrite Hid, str_eqb_refl. cbn. apply IH. by exists k.
Qed.

Lemma first_moved_same previous before after :
  segment_id <$> before = segment_id <$> after -> first_moved previous before after = None.
Proof. intros Heq. apply first_moved_prefix. by rewrite Heq. Qed.

Lemma first_moved_at previous l l' b x a :
  segment_id <$> l = segment_id <$> l' ->
  segment_id x ∈ segment_id <$> previous -> segment_id x ∉ segment_id <$> take 1 b ->
  first_moved previous (l ++ b) (l' ++ x :: a) = Some x.
Proof.
  revert l. induction l' as [|y l' IH]; intros [|z l] Heq Hx Hb; try done.
  - cbn. assert (existsb (fun old => str_eqb (segment_id old) (segment_id x)) previous = true) as ->.
    { apply list_elem_of_fmap in Hx as (s & Hs & Hin). apply existsb_elem. exists s. split; [done|].
      by apply str_eqb_eq. }
    destruct b as [|w b]; [done|]. cbn in Hb. destruct (str_eqb (segment_id w) (segment_id x)) eqn:E; [|done].
    apply str_eqb_eq in E. rewrite E in Hb. by destruct Hb; apply list_elem_of_here.
  - injection Heq as Hid Heq. cbn. rewrite Hid, str_eqb_refl. cbn. by apply IH.
Qed.

Definition REORDER : jstr := "reorder_segment_api_v1_journeys__journey_id__segments__segment_id__reorder_post".
Definition reorder_input (jid sid : jstr) (version position : Z) : jsval :=
  VObj [path_of [("journey_id"%string, jid); ("segment_id"%string, sid)];
        body_of [expected version; (js "new_position", VNum (NInt position))]].

Lemma reorder_idle d next j :
  segment_id <$> segmentsForJourney d (journey_id j) = segment_id <$> segmentsForJourney next (journey_id j) ->
  idle (reorder_journey d next j).
Proof.
  intros Heq r. unfold reorder_journey.
  change (first_moved _ _ _) with
    (first_moved (segments d) (segmentsForJourney d (journey_id j)) (segmentsForJourney next (journey_id j))).
  by rewrite first_moved_same.
Qed.

(** The first segment that moved is sent with its place in the new timeline. *)
Lemma reorder_run d next j l b l' x a old :
  NoDup (segment_id <$> segments d) -> NoDup (segment_id <$> segments next) ->
  segmentsForJourney d (journey_id j) = l ++ b -> segmentsForJourney next (journey_id j) = l' ++ x :: a ->
  segment_id <$> l = segment_id <$> l' -> segment_id x ∉ segment_id <$> take 1 b ->
  old ∈ segments d -> segment_id old = segment_id x ->
  forall r, reorder_journey d next j r =
    (_ ← call REORDER (reorder_input (journey_id j) (segment_id x) (segment_recordVersion old)
                         (Z.of_nat (length l))); mret ()) r.
Proof.
  intros Hnd Hnd' Hb Ha Heq Hx Ho Hid r. unfold reorder_journey.
  change (byPosition (List.filter _ (segments d))) with (segmentsForJourney d (journey_id j)).
  change (byPosition (List.filter _ (segments next))) with (segmentsForJourney next (journey_id j)).
  rewrite Hb, Ha, (first_moved_at _ l l' b x a);
    [|done|rewrite <- Hid; by apply list_elem_of_fmap_2|done].
  rewrite (find_by_id _ _ old) by done. rewrite (findIndex_id _ (length l)).
  - done.
  - rewrite <- Ha. by apply segmentsForJourney_NoDup.
  - assert (length l = length l') as -> by (apply (f_equal length) in Heq; by rewrite !length_fmap in Heq).
    by apply list_lookup_middle.
Qed.
End Running.

(** ** Saving, stage by stage *)

Section Saving.
Context `{DateParser} `{NumPrinter} {C : Type} `{TraxClient C}.
#[local] Abbreviation RepoState := (HttpJourneyRepository.RepoState (C := C)).
#[local] Abbreviation Repo := (HttpJourneyRepository.Repo (C := C)).
#[local] Abbreviation call := (HttpJourneyRepository.call (C := C)).
#[local] Abbreviation http_load := (HttpJourneyRepository.http_load (C := C)).

Lemma repository_error_idem e : repository_error (repository_error e) = repository_error e.
Proof. destruct e as [|[a| | |]]; try done. cbn. by repeat case_decide. Qed.

Lemma repositoryCall_idem {A} (m : Repo A) r : repositoryCall (repositoryCall m) r = repositoryCall m r.
Proof. unfold repositoryCall. destruct (m r) as [[a|e] r']; [done|]. by rewrite repository_error_idem. Qed.

Lemma repositoryCall_ext {A} (m m' : Repo A) r : m r = m' r -> repositoryCall m r = repositoryCall m' r.
Proof. unfold repositoryCall. by intros ->. Qed.

Lemma http_load_call r : http_load r = repositoryCall http_load r.
Proof. unfold HttpJourneyRepository.http_load. by rewrite repositoryCall_idem. Qed.

(** What every operation on the route keeps of the rest of the data. *)
Record only_route (d next : JourneyData) : Prop := {
  route_journeys : Forall2 (fun old j => journey_id old = journey_id j /\ journeyChanged old j = false)
                     (journeys d) (journeys next);
  route_items : packingItems next = packingItems d;
  route_segments : forall s, s ∈ segments next -> exists old, old ∈ segments d /\ same_segment old s;
}.

Lemma only_route_ids d next : only_route d next -> journey_id <$> journeys next = journey_id <$> journeys d.
Proof.
  intros [Hj _ _]. induction Hj as [|a b l l' [Hid _] _ IH]; cbn; [done|]. by rewrite Hid, IH.
Qed.

Definition delete_segment_of (s : JourneySegment) : Repo () :=
  _ ← call "delete_segment_api_v1_journeys__journey_id__segments__segment_id__delete"
        (VObj [path_of [("journey_id"%string, segment_journeyId s); ("segment_id"%string, segment_id s)]]);
  mret ().

(** Then the save is the deletions and reorderings of the route, and a load. *)
Lemma save_route d next r :
  well_formed d -> repo_current r = d -> only_route d next ->
  http_save next r =
  repositoryCall (
    _ ← each delete_segment_of (gone segment_id (segments d) (segments next));
    _ ← each (reorder_journey d next) (journeys next);
    http_load) r.
Proof.
  intros Hw Hr Ho. pose proof (only_route_ids _ _ Ho) as Hids. destruct Ho as [Hj Hi Hs].
  unfold http_save. apply repositoryCall_ext. rewrite repo_bind_run. cbn [repo_get]. rewrite Hr. cbv zeta.
  rewrite (gone_nil journey_id) by (intros x Hx; rewrite Hids; by apply list_elem_of_fmap_2).
  rewrite idle_bind by (by intros ?).
  rewrite idle_bind.
  2: { apply each_idle. intros j Hin. apply list_elem_of_lookup in Hin as [k Hk].
       destruct (Forall2_lookup_r _ _ _ _ _ Hj Hk) as (old & Hold & Hid & Hc).
       apply (save_journey_idle d old); [apply Hw|by eapply list_elem_of_lookup_2|done|done]. }
  rewrite (lfilter_ext _ (fun _ => true) (gone segment_id _ _)).
  2: { intros s [Hin _]%gone_iff. apply bool_decide_eq_true. rewrite Hids.
       pose proof (wf_segment_owner _ Hw) as Hf. rewrite Forall_forall in Hf. by apply Hf. }
  assert (forall {A} (l : list A), List.filter (fun _ => true) l = l) as Htrue
    by (intros A l; induction l; cbn; congruence).
  rewrite Htrue. apply repo_bind_ext. intros r1.
  rewrite idle_bind.
  2: { apply each_idle. intros s Hin. destruct (Hs s Hin) as (old & Hold & Hsame).
       by apply (save_segment_idle d old); [apply Hw| |]. }
  apply repo_bind_ext. intros r2.
  rewrite (gone_nil item_id) by (intros x Hx; rewrite Hi; by apply list_elem_of_fmap_2).
  rewrite idle_bind by (by intros ?). rewrite idle_bind; [done|].
  apply each_idle. intros i Hin. rewrite Hi in Hin. apply save_item_idle; [apply Hw|done|].
  pose proof (wf_items _ Hw) as Hf. rewrite Forall_forall in Hf.
  destruct (iw_packed _ (Hf i Hin)) as (z & Hz & _). by rewrite Hz.
Qed.

Lemma only_route_refl d : only_route d d.
Proof.
  split; [|done|intros s Hs; by exists s].
  apply Forall_Forall2_diag, Forall_forall. intros j _. split; [done|]. by apply journeyChanged_false.
Qed.

(** Operations on the route end in [touchJourney]. *)
Lemma only_route_touch d ss jid rt d' rt' :
  touchJourney (with_segments d ss) jid rt = Ok (d', rt') ->
  (forall s, s ∈ ss -> exists old, old ∈ segments d /\ same_segment old s) -> only_route d d'.
Proof.
  intros ((js & -> & Hjs) & _ & _ & _)%touchJourney_ok Hs. split; cbn; [|done|done].
  eapply Forall2_impl; [exact Hjs|]. intros a b Hab. unfold stamped in Hab.
  case_match; [destruct Hab as [n ->]|subst b]; (split; [done|]; by apply journeyChanged_false).
Qed.

Lemma reposition_all_ids m ss : segment_id <$> reposition m ss = segment_id <$> ss.
Proof. unfold reposition. by rewrite <- list_fmap_compose. Qed.

Lemma reposition_same_segment m ss s :
  s ∈ reposition m ss -> exists old, old ∈ ss /\ same_segment old s.
Proof. intros (old & -> & Hold)%list_elem_of_fmap. by exists old. Qed.

(** Every timeline but one is left as it was: one reorder request at most. *)
Lemma reorder_one d next jid r :
  NoDup (journey_id <$> journeys d) -> only_route d next -> jid ∈ journey_id <$> journeys d ->
  (forall j, j <> jid -> segmentsForJourney next j = segmentsForJourney d j) ->
  exists j, journey_id j = jid /\
    each (reorder_journey d next) (journeys next) r = reorder_journey d next j r.
Proof.
  intros Hnd Ho Hj Hsame. pose proof (only_route_ids _ _ Ho) as Hids. rewrite <- Hids in Hj, Hnd.
  apply list_elem_of_fmap in Hj as (j & -> & Hj). exists j. split; [done|].
  apply (each_only journey_id); [done..|]. intros y Hy Hne. apply reorder_idle. by rewrite Hsame.
Qed.

(** ** The reorder request, as the API carries it out *)

(** [ids.remove(id); ids.insert(new_position, id)] *)
Definition move_to (x : jstr) (p : nat) (l : list jstr) : list jstr :=
  let rest := List.filter (fun y => negb (str_eqb y x)) l in take p rest ++ x :: drop p rest.

Lemma filter_other (x : jstr) l : x ∉ l -> List.filter (fun y => negb (str_eqb y x)) l = l.
Proof.
  intros Hx. rewrite (lfilter_ext _ (fun _ => true)); [by induction l; cbn; f_equal; set_solver|].
  intros y Hy. apply negb_true_iff, str_eqb_neq. by intros ->.
Qed.

Lemma move_to_back x y l r :
  NoDup (l ++ x :: y :: r) -> move_to y (length l) (l ++ x :: y :: r) = l ++ y :: x :: r.
Proof.
  intros Hnd. apply NoDup_app in Hnd as (_ & Hl & [Hx [Hy _]%NoDup_cons]%NoDup_cons).
  unfold move_to. rewrite List.filter_app. cbn. rewrite str_eqb_refl. cbn.
  assert (str_eqb x y = false) as -> by (apply str_eqb_neq; set_solver). cbn.
  rewrite !filter_other by set_solver. by rewrite take_app_length, drop_app_length.
Qed.

Lemma two_at {A} (T : list A) i s y :
  T !! i = Some s -> T !! S i = Some y -> T = take i T ++ s :: y :: drop (S (S i)) T.
Proof. intros Hs Hy. by rewrite <- (take_drop_middle _ _ _ Hs) at 1; rewrite (drop_S _ _ _ Hy). Qed.

Lemma swap_adjacent {A} (l : list A) x y r :
  swap_at (length l) (S (length l)) (l ++ x :: y :: r) = l ++ y :: x :: r /\
  swap_at (S (length l)) (length l) (l ++ x :: y :: r) = l ++ y :: x :: r.
Proof.
  assert ((l ++ x :: y :: r) !! length l = Some x) as Hx by by apply list_lookup_middle.
  assert ((l ++ x :: y :: r) !! S (length l) = Some y) as Hy
    by (rewrite lookup_app_r, Nat.sub_succ_l, Nat.sub_diag by lia; done).
  unfold swap_at. rewrite Hx, Hy.
  assert (forall a b, (l ++ a :: b :: r) = (l ++ [a]) ++ b :: r) as Hsplit
    by (intros; by rewrite <- app_assoc).
  assert (forall a b c, <[length l := c]> (l ++ a :: b :: r) = l ++ c :: b :: r) as Hat.
  { intros a b c. replace (length l) with (length l + 0)%nat by lia. by rewrite insert_app_r. }
  assert (forall a b c, <[S (length l) := c]> (l ++ a :: b :: r) = l ++ a :: c :: r) as Hnext.
  { intros a b c. replace (S (length l)) with (length l + 1)%nat by lia. by rewrite insert_app_r. }
  by rewrite !Hat, !Hnext, !Hat.
Qed.

(** The renumbered timeline, cut at its [i]-th segment. *)
Lemma renumber_cut l x a :
  exists l' x' a', renumber (l ++ x :: a) = l' ++ x' :: a' /\ segment_id <$> l = segment_id <$> l' /\
    segment_id x' = segment_id x.
Proof.
  pose proof (renumber_ids (l ++ x :: a)) as Hids. set (R := renumber (l ++ x :: a)) in *.
  assert ((segment_id <$> R) !! length l = Some (segment_id x)) as Hl
    by (rewrite Hids, list_lookup_fmap, list_lookup_middle by done; done).
  rewrite list_lookup_fmap in Hl. destruct (R !! length l) as [x'|] eqn:Ex; [|done]. injection Hl as Hx.
  exists (take (length l) R), x', (drop (S (length l)) R). split_and!; [|..|done].
  - by rewrite take_drop_middle.
  - rewrite fmap_take, Hids, fmap_app. by rewrite take_app_length' by by rewrite length_fmap.
Qed.

Lemma deleteSegment_segments d jid sid rt d' rt' :
  deleteSegment d jid sid rt = Ok (d', rt') ->
  exists m, let remaining := List.filter (fun s => negb (str_eqb (segment_id s) sid)) (segments d) in
    segments d' = reposition m remaining /\ only_route d d'.
Proof.
  unfold deleteSegment. intros (u1 & rt1 & _ & (u2 & rt2 & _ & Ht)%svc_bind_ok)%svc_bind_ok.
  eexists. cbv zeta. split.
  - apply touchJourney_ok in Ht as (_ & _ & -> & _). reflexivity.
  - eapply only_route_touch; [exact Ht|].
    intros s (old & Hold & Hsame)%reposition_same_segment. exists old. split; [|done].
    by apply elem_of_lfilter in Hold as [? _].
Qed.
End Saving.

(** ** What repository code keeps *)

Section Preserving.
Context `{NumPrinter} {C : Type} `{TraxClient C}.
#[local] Abbreviation RepoState := (HttpJourneyRepository.RepoState (C := C)).
#[local] Abbreviation Repo := (HttpJourneyRepository.Repo (C := C)).
#[local] Abbreviation call := (HttpJourneyRepository.call (C := C)).

Definition UPDATE : jstr := "canonical_update_journey_api_v1_commands_journey_update_post".

Section Relation.
Context (R : RepoState -> RepoState -> Prop) `{!PreOrder R}.

Definition preserves {A} (m : Repo A) : Prop := forall r, R r (snd (m r)).

Lemma preserves_ret {A} (a : A) : preserves (mret a).
Proof. intros r. cbn. reflexivity. Qed.
Lemma preserves_lift {A} (o : outcome RepoError A) : preserves (repo_lift o).
Proof. intros r. cbn. reflexivity. Qed.
Lemma preserves_bind {A B} (m : Repo A) (f : A -> Repo B) :
  preserves m -> (forall a, preserves (f a)) -> preserves (m ≫= f).
Proof.
  intros Hm Hf r. rewrite repo_bind_run. specialize (Hm r). destruct (m r) as [[a|e] r1]; cbn in *; [|done].
  etrans; [exact Hm|apply Hf].
Qed.
Lemma preserves_each {A} (f : A -> Repo ()) l : (forall x, preserves (f x)) -> preserves (each f l).
Proof. intros Hf. induction l as [|x l IH]; [apply preserves_ret|]. cbn. by apply preserves_bind. Qed.
Lemma preserves_all_of {A B} (f : A -> Repo B) l : (forall x, preserves (f x)) -> preserves (all_of f l).
Proof.
  intros Hf. induction l as [|x l IH]; intros r; cbn; [reflexivity|].
  pose proof (Hf x r) as Hx. destruct (f x r) as [y r1]. pose proof (IH r1) as Hl.
  destruct (all_of f l r1) as [ys r2]. cbn in *. by etrans.
Qed.
Lemma preserves_repositoryCall {A} (m : Repo A) : preserves m -> preserves (repositoryCall m).
Proof. intros Hm r. unfold repositoryCall. specialize (Hm r). by destruct (m r) as [[a|e] r1]. Qed.

Context (Hcall : forall op input, op <> UPDATE -> preserves (call op input)).
Context (Hupdate : forall old j, preserves (update_journey (C := C) old j)).

Lemma preserves_request op input : op <> UPDATE -> preserves (_ ← call op input; mret ()).
Proof. intros Hop. apply preserves_bind; [by apply Hcall|intros; apply preserves_ret]. Qed.

Lemma preserves_load_details j : preserves (load_details (C := C) j).
Proof.
  intros r. unfold load_details. cbv zeta.
  match goal with |- context [HttpJourneyRepository.call ?op ?i r] =>
    pose proof (Hcall op i ltac:(discriminate) r) as Hs; destruct (HttpJourneyRepository.call op i r) as [sd r1] end.
  match goal with |- context [HttpJourneyRepository.call ?op ?i r1] =>
    pose proof (Hcall op i ltac:(discriminate) r1) as Hp; destruct (HttpJourneyRepository.call op i r1) as [pd r2] end.
  cbn in Hs, Hp. etrans; [exact Hs|]. etrans; [exact Hp|].
  revert r2 Hp. intros r2 _. generalize r2.
  change (preserves (A := list JourneySegment * list PackingItem)
    (sd ← repo_lift sd; pd ← repo_lift pd; ss ← rows segmentFrom sd; ps ← rows packingFrom pd; mret (ss, ps))).
  repeat first [apply preserves_bind; [|intros] | apply preserves_lift | apply preserves_ret].
Qed.
End Relation.

(** The two halves of [load], and the requests of [save]. *)
Definition load_data : Repo JourneyData :=
  response ← call "list_journeys_api_v1_journeys_get" (VObj []);
  loaded ← rows journeyFrom response;
  details ← all_of load_details loaded;
  mret (mkData loaded (details ≫= fst) (details ≫= snd)).

Lemma http_load_run r : http_load r = repositoryCall (load_data ≫= commit_load) r.
Proof.
  unfold http_load, load_data. apply repositoryCall_ext. rewrite !repo_bind_run.
  destruct (call _ _ r) as [[v|e] r1]; [|done]. rewrite !repo_bind_run.
  destruct (rows journeyFrom v r1) as [[l|e] r2]; [|done]. rewrite !repo_bind_run.
  by destruct (all_of load_details l r2) as [[d|e] r3].
Qed.

Lemma preserves_load_data R `{!PreOrder R} :
  (forall op input, op <> UPDATE -> preserves R (call op input)) -> preserves R load_data.
Proof.
  intros Hcall. unfold load_data.
  apply (preserves_bind R); [by apply Hcall|intros v].
  apply (preserves_bind R); [by apply (preserves_lift R)|intros l].
  apply (preserves_bind R); [|intros d; by apply (preserves_ret R)].
  apply (preserves_all_of R). intros j. by apply (preserves_load_details R).
Qed.

(** [save] up to its final [load]. *)
Lemma save_stages next r :
  exists m : Repo (), http_save next r = repositoryCall (_ ← m; http_load) r /\
    forall R, PreOrder R -> (forall op input, op <> UPDATE -> preserves R (call op input)) ->
      (forall old j, preserves R (update_journey (C := C) old j)) -> preserves R m.
Proof.
  unfold http_save. set (previous := repo_current r).
  match goal with |- context [repositoryCall (repo_get ≫= ?f) r] =>
    assert (repositoryCall (repo_get ≫= f) r = repositoryCall (f r) r) as -> by reflexivity end.
  cbv zeta. fold previous.
  match goal with |- context [?d1 ≫= fun _ => ?s2 ≫= fun _ => ?d3 ≫= fun _ => ?s4 ≫= fun _ => ?o5 ≫= fun _ =>
                              ?d6 ≫= fun _ => ?s7 ≫= fun _ => http_load] =>
    exists (_ ← d1; _ ← s2; _ ← d3; _ ← s4; _ ← o5; _ ← d6; s7); split end.
  - apply repositoryCall_ext. rewrite !repo_bind_run.
    do 6 (match goal with |- context [match ?x with (_, _) => _ end] =>
      destruct x as [[?|?] ?]; [|done]; rewrite ?repo_bind_run end). done.
  - intros R HR Hcall Hupdate.
    repeat first [apply (preserves_bind R); [|intros] | apply (preserves_each R); intros].
    all: try first [by apply (preserves_ret R) | by apply Hcall].
    + unfold save_journey. repeat case_match; try (by apply (preserves_ret R)); [auto|by apply (preserves_request R)].
    + unfold save_segment. repeat case_match; try (by apply (preserves_ret R)); by apply (preserves_request R).
    + unfold reorder_journey. cbv zeta. case_match; [by apply (preserves_request R)|by apply (preserves_ret R)].
    + unfold save_item. cbv zeta. repeat case_match; try (by apply (preserves_ret R)); by apply (preserves_request R).
Qed.
End Preserving.

(** ** Command ids *)

(** A client that also keeps the list of the requests made. *)
Definition logged `{TraxClient C} : TraxClient (C * list (jstr * jsval)) := {|
  client_request op input c :=
    let '(res, c0) := client_request op input c.1 in (res, (c0, c.2 ++ [(op, input)]));
  client_commandVersion ct c :=
    let '(res, c0) := client_commandVersion ct c.1 in (res, (c0, c.2));
|}.

Section Commands.
Context `{NumPrinter} {C : Type} `{TraxClient C}.
#[local] Existing Instance logged | 0.
#[local] Abbreviation RepoState := (HttpJourneyRepository.RepoState (C := C * list (jstr * jsval))).
#[local] Abbreviation Repo := (HttpJourneyRepository.Repo (C := C * list (jstr * jsval))).

Definition log (r : RepoState) : list (jstr * jsval) := (repo_client r).2.
Definition update_input (commandId : jstr) (version : jsnum) (payload : list (jstr * jsval)) : jsval :=
  VObj [body_of [(js "command_id", VStr commandId); (js "command_type", VStr "journey.update");
                 (js "command_version", VNum version); (js "payload", VObj payload)]].
Definition sent (r : RepoState) cid v p : Prop := (UPDATE, update_input cid v p) ∈ log r.

(** Ids are drawn one after the other; an id in use stands for one command. *)
Record drawn (r : RepoState) : Prop := {
  drawn_sent : forall input, (UPDATE, input) ∈ log r ->
    exists k v p, (k < repo_calls r)%nat /\ input = update_input (repo_ids r k) v p;
  drawn_once : forall cid v p v' p', sent r cid v p -> sent r cid v' p' ->
    update_signature v p = update_signature v' p';
  drawn_pending : forall j q, repo_pending r !! j = Some q ->
    exists k, (k < repo_calls r)%nat /\ pending_commandId q = repo_ids r k /\
      forall v p, sent r (pending_commandId q) v p -> update_signature v p = pending_signature q;
  drawn_owner : forall j j' q q', repo_pending r !! j = Some q -> repo_pending r !! j' = Some q' ->
    pending_commandId q = pending_commandId q' -> j = j';
}.
Definition keeps_drawn (r r' : RepoState) : Prop :=
  repo_ids r' = repo_ids r /\ (Inj (=) (=) (repo_ids r) -> drawn r -> drawn r').

#[local] Instance keeps_drawn_preorder : PreOrder keeps_drawn.
Proof.
  split; [by intros r|]. intros r1 r2 r3 [E1 K1] [E2 K2]. split; [congruence|].
  intros Hi Hd. apply K2; [by rewrite E1|auto].
Qed.

Lemma call_keeps_drawn op input : op <> UPDATE -> preserves keeps_drawn (call op input).
Proof.
  intros Hop r. unfold call. cbn. destruct (client_request op input (repo_client r).1) as [res c]. cbn.
  split; [done|]. intros _ [Hs Ho Hp Hw].
  assert (forall input', (UPDATE, input') ∈ log r ++ [(op, input)] -> (UPDATE, input') ∈ log r) as Hl.
  { intros i [?|Hin]%elem_of_app; [done|]. apply list_elem_of_singleton in Hin as [= <- _]. done. }
  split; cbn.
  - intros i Hi. by apply Hs, Hl.
  - intros cid v p v' p' H1 H2. apply (Ho cid); by apply Hl.
  - intros j q Hj. destruct (Hp j q Hj) as (k & ? & ? & Hq). exists k. split_and!; [done..|].
    intros v p Hin. by apply Hq, Hl.
  - done.
Qed.

Lemma next_id_unused r :
  Inj (=) (=) (repo_ids r) -> drawn r ->
  (forall v p, ~ sent r (repo_ids r (repo_calls r)) v p) /\
  forall j q, repo_pending r !! j = Some q -> pending_commandId q <> repo_ids r (repo_calls r).
Proof.
  intros Hi [Hs _ Hp _]. split.
  - intros v p (k & v' & p' & Hk & Heq)%Hs. injection Heq as Heq _ _. apply Hi in Heq. lia.
  - intros j' q (k & Hk & Heq & _)%Hp Hq. rewrite Heq in Hq. apply Hi in Hq. lia.
Qed.

(** The state in which journey [j] has the pending command [cid]. *)
Definition pend (r : RepoState) (j cid signature : jstr) (calls : nat) : RepoState :=
  with_pending (mkRepo (repo_current r) (repo_pending r) (repo_client r) (repo_ids r) calls (repo_storage r))
    (<[j := {| pending_commandId := cid; pending_signature := signature |}]> (repo_pending r)).

Lemma drawn_pend r j cid signature calls :
  (repo_calls r <= calls)%nat -> (exists k, (k < calls)%nat /\ cid = repo_ids r k) ->
  (forall v p, sent r cid v p -> update_signature v p = signature) ->
  (forall j' q, repo_pending r !! j' = Some q -> j' <> j -> pending_commandId q <> cid) ->
  drawn r -> drawn (pend r j cid signature calls).
Proof.
  intros Hle Hcid Hsig Hne [Hs Ho Hp Hw]. split; cbn.
  - intros i (k & v & p & ? & ?)%Hs. exists k, v, p. split; [lia|done].
  - exact Ho.
  - intros j' q. destruct (decide (j = j')) as [<-|Hj].
    + rewrite lookup_insert_eq. intros [= <-]. destruct Hcid as (k & ? & ->). by exists k.
    + rewrite lookup_insert_ne by done. intros (k & ? & ? & ?)%Hp. exists k. split; [lia|done].
  - intros j1 j2 q1 q2. rewrite !lookup_insert. repeat case_decide; subst; try done.
    + intros [= <-] Hq Heq. cbn in Heq. exfalso. eapply (Hne j2); eauto.
    + intros Hq [= <-] Heq. cbn in Heq. exfalso. eapply (Hne j1); eauto.
    + apply Hw.
Qed.

Lemma command_id_cases j signature r :
  exists cid calls, command_id_for j signature r = (Ok cid, pend r j cid signature calls) /\
    ((exists q, repo_pending r !! j = Some q /\ pending_signature q = signature /\
        cid = pending_commandId q /\ calls = repo_calls r) \/
     cid = repo_ids r (repo_calls r) /\ calls = S (repo_calls r)).
Proof.
  unfold command_id_for, pend. destruct (repo_pending r !! j) as [q|] eqn:Eq.
  - destruct (str_eqb (pending_signature q) signature) eqn:Es.
    + apply str_eqb_eq in Es. exists (pending_commandId q), (repo_calls r). destruct r; cbn in *.
      split; [done|]. left. by exists q.
    + eexists _, _. split; [done|by right].
  - eexists _, _. split; [done|by right].
Qed.

(** The id a command gets, pending or new, stands for this command only. *)
Lemma command_id_drawn j signature r cid r' :
  command_id_for j signature r = (Ok cid, r') -> Inj (=) (=) (repo_ids r) -> drawn r ->
  drawn r' /\ forall v p, sent r cid v p -> update_signature v p = signature.
Proof.
  intros E Hi Hd. destruct (command_id_cases j signature r) as (cid' & calls & E' & Hcase).
  rewrite E' in E. injection E as -> <-. destruct (next_id_unused r Hi Hd) as [Hn Hn'].
  assert (forall v p, sent r cid v p -> update_signature v p = signature) as Hsig.
  { intros v p Hsent. destruct Hcase as [(q & Hq & <- & -> & _)|[-> _]]; [|by destruct (Hn v p)].
    destruct (drawn_pending _ Hd _ _ Hq) as (_ & _ & _ & Hqs). by apply Hqs. }
  split; [|exact Hsig]. destruct Hcase as [(q & Hq & _ & -> & ->)|[-> ->]]; apply drawn_pend; try done.
  - destruct (drawn_pending _ Hd _ _ Hq) as (k & Hk & -> & _). by exists k.
  - intros j' q' Hq' Hj' Heq. apply Hj'. by eapply drawn_owner.
  - lia.
  - exists (repo_calls r). split; [lia|done].
  - intros j' q' Hq' _. by eapply Hn'.
Qed.

(** An update: the version, the id, the request. *)
Lemma update_run old j r v c :
  client_commandVersion "journey.update" (repo_client r).1 = (Ok v, c) ->
  exists cid calls res c',
    let payload := update_payload old j in
    let r1 := with_client r (c, log r) in
    let r2 := pend r1 (journey_id j) cid (update_signature v payload) calls in
    command_id_for (journey_id j) (update_signature v payload) r1 = (Ok cid, r2) /\
    update_journey old j r =
      (res, with_client r2 (c', log r ++ [(UPDATE, update_input cid v payload)])).
Proof.
  intros Hv.
  assert (call_version "journey.update" r = (Ok v, with_client r (c, log r))) as Ev
    by (unfold call_version; cbn; by rewrite Hv).
  unfold update_journey. rewrite repo_bind_run, Ev. cbv zeta.
  set (r1 := with_client r _). set (sg := update_signature v (update_payload old j)).
  destruct (command_id_cases (journey_id j) sg r1) as (cid & calls & E & _).
  exists cid, calls. rewrite repo_bind_run, E, repo_bind_run. unfold call. cbn.
  match goal with |- context [client_request ?op ?i ?c0] =>
    destruct (client_request op i c0) as [res c'] end.
  exists (match res with Ok _ => Ok () | Throw e => Throw (OtherError e) end), c'.
  split; [done|]. by destruct res.
Qed.

Lemma update_keeps_drawn old j : preserves keeps_drawn (update_journey old j).
Proof.
  intros r. destruct (client_commandVersion "journey.update" (repo_client r).1) as [[v|e] c] eqn:Hv.
  2: { unfold update_journey. rewrite repo_bind_run. unfold call_version. cbn. rewrite Hv. cbn.
       split; [done|]. intros _ [? ? ? ?]. by split. }
  destruct (update_run old j r v c Hv) as (cid & calls & res & c' & E & ->). cbn [snd].
  split; [done|]. intros Hi Hd.
  assert (drawn (with_client r (c, log r))) as Hd1 by (destruct Hd; by split).
  pose proof E as E'. apply command_id_drawn in E' as [Hd2 Hsig]; [|done|done].
  set (payload := update_payload old j) in *. set (sg := update_signature v payload) in *.
  destruct (drawn_pending _ Hd2 (journey_id j) _ (lookup_insert_eq _ _ _)) as (k & Hk & Hcid & _).
  cbn in Hk, Hcid.
  assert (forall cid1 v1 p1, sent (with_client (pend (with_client r (c, log r)) (journey_id j) cid sg calls)
            (c', log r ++ [(UPDATE, update_input cid v payload)])) cid1 v1 p1 ->
          sent r cid1 v1 p1 \/ cid1 = cid /\ v1 = v /\ p1 = payload) as Hcase.
  { unfold sent. cbn. intros cid1 v1 p1 [?|Hin]%elem_of_app; [by left|right].
    apply list_elem_of_singleton in Hin as [= -> -> ->]. done. }
  split.
  - cbn. intros i [Hin|Hin]%elem_of_app.
    + destruct (drawn_sent _ Hd2 i Hin) as (n & v1 & p1 & ? & ->). by exists n, v1, p1.
    + apply list_elem_of_singleton in Hin as [= ->]. exists k, v, payload. by rewrite Hcid.
  - intros cid1 v1 p1 v2 p2 [H1|(-> & -> & ->)]%Hcase [H2|(? & -> & ->)]%Hcase; subst; try done.
    + by eapply drawn_once.
    + by apply Hsig.
    + symmetry. by apply Hsig.
  - intros j1 q Hq. destruct (drawn_pending _ Hd2 j1 q Hq) as (n & Hn & Hqn & Hqs).
    exists n. split_and!; [done..|]. intros v1 p1 [H1|(Heq & -> & ->)]%Hcase; [by apply Hqs|].
    pose proof (drawn_owner _ Hd2 j1 (journey_id j) q _ Hq (lookup_insert_eq _ _ _) Heq) as ->.
    cbn in Hq. rewrite lookup_insert_eq in Hq. by injection Hq as <-.
  - apply (drawn_owner _ Hd2).
Qed.
End Commands.

(** ** Properties *)

Section Properties.
Context `{DateParser} `{NumPrinter} {C : Type} `{TraxClient C}.
#[local] Abbreviation RepoState := (HttpJourneyRepository.RepoState (C := C)).

(** C9: saving data that is as it was loaded makes no request but those of
    the load that ends every save. *)
Theorem save_unchanged (r : RepoState) :
  well_formed (repo_current r) -> http_save (repo_current r) r = http_load r.
Proof.
  intros Hw. rewrite (save_route (repo_current r)); [|done|done|apply only_route_refl].
  rewrite gone_nil by (intros x Hx; by apply list_elem_of_fmap_2).
  rewrite http_load_call. apply repositoryCall_ext. rewrite idle_bind by by intros ?.
  rewrite idle_bind; [done|]. apply each_idle. intros j _. by apply reorder_idle.
Qed.

Lemma timeline_segment d jid s : s ∈ segmentsForJourney d jid -> s ∈ segments d.
Proof. rewrite segmentsForJourney_perm. by intros [? _]%elem_of_lfilter. Qed.

(** What a move by one place leaves, from either side. *)
Lemma move_neighbours d next jid i s y sid dir rt rt' :
  let T := segmentsForJourney d jid in
  valid d -> jid ∈ journey_id <$> journeys d -> T !! i = Some s -> T !! S i = Some y ->
  (sid, dir) = (segment_id s, 1) \/ (sid, dir) = (segment_id y, -1) ->
  moveSegment d jid sid dir rt = Ok (next, rt') ->
  only_route d next /\ segment_id <$> segments next = segment_id <$> segments d /\
  segmentsForJourney next jid = renumber (take i T ++ y :: s :: drop (S (S i)) T) /\
  forall j, j <> jid -> segmentsForJourney next j = segmentsForJourney d j.
Proof.
  intros T Hv Hj Hi Hs Hdir Hmove. pose proof (two_at T i s y Hi Hs) as HT.
  assert (length (take i T) = i) as Hl by (apply length_take_le; apply lookup_lt_Some in Hi; lia).
  destruct (swap_adjacent (take i T) s y (drop (S (S i)) T)) as [Hsw1 Hsw2]. rewrite Hl, <- HT in Hsw1, Hsw2.
  assert (exists a b u w, T !! a = Some u /\ T !! b = Some w /\ Z.of_nat b = Z.of_nat a + dir /\
    sid = segment_id u /\ swap_at a b T = take i T ++ y :: s :: drop (S (S i)) T)
    as (a & b & u & w & Ha & Hb & Hab & -> & Hsw).
  { destruct Hdir as [[= -> ->]|[= -> ->]]; [exists i, (S i), s, y|exists (S i), i, y, s];
      split_and!; try done; lia. }
  destruct (moveSegment_effect d jid u dir rt a b w Hv Hj Ha Hb Hab) as (d' & rt1 & E & Hsegs & _ & _ & Htl & Hoth).
  rewrite (moveSegment_run d jid u dir rt a b w (wf_segment_ids _ (valid_wf _ Hv)) Hj Ha Hb Hab) in E, Hmove.
  rewrite E in Hmove. injection Hmove as <- <-. split_and!.
  - eapply only_route_touch; [exact E|]. intros ?. apply reposition_same_segment.
  - by rewrite Hsegs, reposition_ids.
  - fold T in Htl. by rewrite Htl, Hsw.
  - done.
Qed.

(** saving after two neighbours of a timeline changed places, from either
    side, sends one reorder request and loads; and taking the segment it names
    out of the timeline and putting it at the place it gives is the new
    timeline. *)
Theorem save_after_move (r : RepoState) d next jid i s y sid dir rt rt' :
  valid d -> repo_current r = d -> jid ∈ journey_id <$> journeys d ->
  segmentsForJourney d jid !! i = Some s -> segmentsForJourney d jid !! S i = Some y ->
  (sid, dir) = (segment_id s, 1) \/ (sid, dir) = (segment_id y, -1) ->
  moveSegment d jid sid dir rt = Ok (next, rt') ->
  http_save next r =
    repositoryCall (_ ← call REORDER (reorder_input jid (segment_id y) (segment_recordVersion y) (Z.of_nat i));
                    http_load) r /\
  segment_id <$> segmentsForJourney next jid =
    move_to (segment_id y) i (segment_id <$> segmentsForJourney d jid).
Proof.
  intros Hv Hr Hj Hi Hs Hdir Hmove.
  destruct (move_neighbours d next jid i s y sid dir rt rt' Hv Hj Hi Hs Hdir Hmove) as (Ho & Hids & Htl & Hother).
  set (T := segmentsForJourney d jid) in *. pose proof (two_at T i s y Hi Hs) as HT.
  assert (length (take i T) = i) as Hl by (apply length_take_le; apply lookup_lt_Some in Hi; lia).
  set (l := take i T) in *. set (t := drop (S (S i)) T) in *.
  pose proof (wf_segment_ids _ (valid_wf _ Hv)) as Hnd.
  assert (NoDup (segment_id <$> T)) as HndT by by apply segmentsForJourney_NoDup.
  rewrite HT, fmap_app in HndT. cbn in HndT. split.
  - rewrite (save_route d) by (done || apply Hv).
    rewrite gone_nil by (intros x Hx; rewrite Hids; by apply list_elem_of_fmap_2).
    apply repositoryCall_ext. rewrite idle_bind by by intros ?.
    destruct (renumber_cut l y (s :: t)) as (l' & y' & a' & Hcut & Hll & Hy').
    rewrite repo_bind_run.
    destruct (reorder_one d next jid r (wf_journey_ids _ (valid_wf _ Hv)) Ho Hj Hother) as (j & <- & ->).
    rewrite (reorder_run d next j l (s :: y :: t) l' y' a' y); try done.
    + rewrite Hl, Hy', !repo_bind_run. by destruct (call _ _ r) as [[v|e] r1].
    + by rewrite Hids.
    + by rewrite Htl.
    + rewrite Hy'. apply NoDup_app in HndT as (_ & _ & [Hn _]%NoDup_cons). cbn. set_solver.
    + eapply timeline_segment, list_elem_of_lookup_2, Hs.
  - rewrite Htl, renumber_ids, HT, !fmap_app. cbn.
    rewrite <- (move_to_back _ _ _ _ HndT). by rewrite length_fmap, Hl.
Qed.

Lemma lfilter_single {A} (key : A -> jstr) l x :
  NoDup (key <$> l) -> x ∈ l -> List.filter (fun a => str_eqb (key a) (key x)) l = [x].
Proof.
  induction l as [|y l IH]; cbn; [by intros _ ?%elem_of_nil|].
  rewrite NoDup_cons, elem_of_cons. intros [Hy Hnd] [->|Hx].
  - rewrite str_eqb_refl. f_equal. rewrite (lfilter_ext _ (fun _ => false)); [clear; by induction l|].
    intros z Hz. apply str_eqb_neq. intros Heq. apply Hy. rewrite <- Heq. by apply list_elem_of_fmap_2.
  - assert (str_eqb (key y) (key x) = false) as ->
      by (apply str_eqb_neq; intros Heq; apply Hy; rewrite Heq; by apply list_elem_of_fmap_2).
    by apply IH.
Qed.

(** The segments that are gone after a deletion: the deleted one. *)
Lemma gone_deleted (l : list JourneySegment) s :
  NoDup (segment_id <$> l) -> s ∈ l ->
  forall next, segment_id <$> next =
    segment_id <$> List.filter (fun x => negb (str_eqb (segment_id x) (segment_id s))) l ->
  gone segment_id l next = [s].
Proof.
  intros Hnd Hs next Hids. rewrite <- (lfilter_single segment_id l s) by done. apply lfilter_ext.
  intros x Hx. rewrite <- (negb_involutive (str_eqb _ _)). f_equal.
  apply eq_true_iff_eq. rewrite existsb_elem, negb_true_iff, str_eqb_neq. split.
  - intros (z & Hz & Heq%str_eqb_eq) Hne. assert (segment_id z ∈ segment_id <$> next) as Hin
      by by apply list_elem_of_fmap_2.
    rewrite Hids in Hin. apply list_elem_of_fmap in Hin as (w & Hw & [_ Hin]%elem_of_lfilter).
    apply negb_true_iff, str_eqb_neq in Hin. congruence.
  - intros Hne. assert (segment_id x ∈ segment_id <$> next) as Hin.
    { rewrite Hids. apply list_elem_of_fmap_2, elem_of_lfilter. split; [done|].
      by apply negb_true_iff, str_eqb_neq. }
    apply list_elem_of_fmap in Hin as (z & Hz & Hin). exists z. split; [done|]. by apply str_eqb_eq.
Qed.

Lemma without_nth {A} (key : A -> jstr) l s t :
  NoDup (key <$> (l ++ s :: t)) ->
  List.filter (fun x => negb (str_eqb (key x) (key s))) (l ++ s :: t) = l ++ t.
Proof.
  rewrite fmap_app. cbn. intros (_ & Hl & [Hs _]%NoDup_cons)%NoDup_app.
  rewrite List.filter_app. cbn. rewrite str_eqb_refl. cbn.
  assert (forall m, key s ∉ key <$> m -> List.filter (fun x => negb (str_eqb (key x) (key s))) m = m) as Hm.
  { induction m as [|z m IH]; cbn; [done|]. intros Hn. rewrite IH by set_solver.
    assert (str_eqb (key z) (key s) = false) as -> by (apply str_eqb_neq; set_solver). done. }
  rewrite !Hm; [done|done|]. intros Hin. eapply Hl; [exact Hin|apply list_elem_of_here].
Qed.

(** saving after the [i]-th segment of a timeline was deleted sends the
    deletion and, unless it was the last, also asks to reorder the segment
    that followed to the place it already has on the server by then. *)
Theorem save_after_delete (r : RepoState) d next jid i s rt rt' :
  valid d -> repo_current r = d -> jid ∈ journey_id <$> journeys d ->
  segmentsForJourney d jid !! i = Some s ->
  deleteSegment d jid (segment_id s) rt = Ok (next, rt') ->
  http_save next r =
    repositoryCall (
      _ ← delete_segment_of s;
      _ ← match segmentsForJourney d jid !! S i with
          | Some y => _ ← call REORDER (reorder_input jid (segment_id y) (segment_recordVersion y) (Z.of_nat i)); mret ()
          | None => mret ()
          end;
      http_load) r.
Proof.
  intros Hv Hr Hj Hi Hdel. set (T := segmentsForJourney d jid) in *.
  pose proof (wf_segment_ids _ (valid_wf _ Hv)) as Hnd.
  assert (s ∈ segments d) as Hin by eapply timeline_segment, list_elem_of_lookup_2, Hi.
  assert (has_segment d jid (segment_id s) = true) as Hown.
  { apply existsb_elem. exists s. split; [done|]. apply owns_segment_iff. split; [done|].
    apply list_elem_of_lookup_2 in Hi. unfold T in Hi. rewrite segmentsForJourney_perm in Hi.
    by apply elem_of_lfilter in Hi as [_ ?%str_eqb_eq]. }
  destruct (deleteSegment_effect d jid (segment_id s) rt Hv Hj Hown) as (d' & rt1 & E & Htl & Hother).
  rewrite E in Hdel. injection Hdel as -> ->.
  destruct (deleteSegment_segments d jid (segment_id s) rt next rt' E) as (m & Hsegs & Ho).
  rewrite (save_route d) by (done || apply Hv). apply repositoryCall_ext.
  rewrite (gone_deleted (segments d) s) by (done || by rewrite Hsegs, reposition_all_ids).
  rewrite !repo_bind_run. cbn [each]. rewrite repo_bind_run.
  destruct (delete_segment_of s r) as [[[]|e] r1]; [|done]. cbn [mret repo_ret]. rewrite !repo_bind_run.
  destruct (reorder_one d next jid r1 (wf_journey_ids _ (valid_wf _ Hv)) Ho Hj Hother) as (j & <- & ->).
  assert (NoDup (segment_id <$> T)) as HndT by by apply segmentsForJourney_NoDup.
  pose proof (take_drop_middle T i s Hi) as HT. fold T in Htl. rewrite <- HT in HndT.
  rewrite <- HT, (without_nth segment_id) in Htl by done.
  assert (length (take i T) = i) as Hl by (apply length_take_le; apply lookup_lt_Some in Hi; lia).
  destruct (T !! S i) as [y|] eqn:Hy.
  - rewrite (drop_S _ _ _ Hy) in Htl, HT, HndT.
    destruct (renumber_cut (take i T) y (drop (S (S i)) T)) as (l' & y' & a' & Hcut & Hll & Hy').
    rewrite (reorder_run d next j (take i T) (s :: y :: drop (S (S i)) T) l' y' a' y); try done.
    + by rewrite Hl, Hy'.
    + rewrite Hsegs, reposition_all_ids. by apply NoDup_fmap_lfilter.
    + by rewrite Htl.
    + rewrite Hy'. rewrite fmap_app in HndT. apply NoDup_app in HndT as (_ & _ & Hn). cbn in *.
      apply NoDup_cons in Hn as [Hn _]. set_solver.
    + eapply timeline_segment, list_elem_of_lookup_2, Hy.
  - assert (drop (S i) T = []) as Hd by (apply drop_ge; by apply lookup_ge_None in Hy).
    unfold reorder_journey.
    change (byPosition (List.filter _ (segments d))) with T.
    change (byPosition (List.filter _ (segments next))) with (segmentsForJourney next (journey_id j)).
    rewrite Htl, Hd, app_nil_r. rewrite first_moved_prefix; [done|]. rewrite renumber_ids. by exists (segment_id <$> drop i T); rewrite <- fmap_app, take_drop.
Qed.

(** What a call may change besides the client, the ids it draws and the
    pending commands. *)
Definition keeps_data (r r' : RepoState) : Prop :=
  repo_current r' = repo_current r /\ repo_storage r' = repo_storage r.
#[local] Instance keeps_data_preorder : PreOrder keeps_data.
Proof. split; [by intros r|]. intros r1 r2 r3 [? ?] [? ?]. split; congruence. Qed.

Lemma call_keeps_data op input : preserves keeps_data (call op input).
Proof. intros r. unfold call. by destruct (client_request op input (repo_client r)). Qed.

Lemma update_keeps_data old j : preserves keeps_data (update_journey old j).
Proof.
  unfold update_journey. apply (preserves_bind keeps_data).
  - intros r. unfold call_version. by destruct (client_commandVersion _ _).
  - intros v. apply (preserves_bind keeps_data).
    + intros r. unfold command_id_for. destruct (repo_pending r !! _) as [q|]; [|done]. by destruct (str_eqb (pending_signature q) _).
    + intros cid. apply (preserves_bind keeps_data); [apply call_keeps_data|].
      intros u. apply (preserves_ret keeps_data).
Qed.

Lemma repository_error_own e a : repository_error e <> OtherError (ApiError a).
Proof. destruct e as [|[x| | |]]; try done. cbn. by repeat case_decide. Qed.

(** A save that fails leaves the data the next save compares with, and
    fails with a [RepositoryError] whatever API error caused it; a save that
    returns has loaded what it returns and holds no pending command.  Neither
    touches the local storage. *)
Theorem save_outcome next (r : RepoState) :
  repo_storage (snd (http_save next r)) = repo_storage r /\
  match http_save next r with
  | (Ok data, r') => repo_current r' = data /\ repo_pending r' = ∅
  | (Throw e, r') => repo_current r' = repo_current r /\ forall a, e <> OtherError (ApiError a)
  end.
Proof.
  destruct (save_stages next r) as (m & -> & Hm).
  specialize (Hm keeps_data _ (fun op i _ => call_keeps_data op i) update_keeps_data r).
  unfold repositoryCall at 1 2. rewrite repo_bind_run. destruct (m r) as [[[]|e] r1]; cbn in Hm.
  2: { destruct Hm as [? ?]. split_and!; try done. intros a. apply repository_error_own. }
  rewrite http_load_run. unfold repositoryCall. rewrite repo_bind_run.
  pose proof (preserves_load_data keeps_data (fun op i _ => call_keeps_data op i) r1) as Hl.
  destruct (load_data r1) as [[data|e] r2]; cbn in *; destruct Hm as [? ?], Hl as [? ?];
    (split; [congruence|]); [done|]. split; [congruence|]. intros a. apply repository_error_own.
Qed.
End Properties.

Section CommandProperties.
Context `{NumPrinter} {C : Type} `{TraxClient C}.
#[local] Existing Instance logged | 0.
#[local] Existing Instance keeps_drawn_preorder.
#[local] Abbreviation RepoState := (HttpJourneyRepository.RepoState (C := C * list (jstr * jsval))).
#[local] Abbreviation keeps_drawn' := (keeps_drawn (C := C)).

Lemma commit_keeps_drawn data : preserves keeps_drawn' (commit_load data).
Proof. intros r. split; [done|]. intros _ [Hs Ho _ _]. by split. Qed.

Lemma load_keeps_drawn : preserves keeps_drawn' http_load.
Proof.
  intros r. rewrite http_load_run. revert r. apply (preserves_repositoryCall keeps_drawn').
  apply (preserves_bind keeps_drawn'); [|apply commit_keeps_drawn].
  apply preserves_load_data; [exact _|apply call_keeps_drawn].
Qed.

Lemma save_keeps_drawn next : preserves keeps_drawn' (http_save next).
Proof.
  intros r. destruct (save_stages next r) as (m & -> & Hm). revert r Hm. intros r Hm.
  apply (preserves_repositoryCall keeps_drawn'). apply (preserves_bind keeps_drawn').
  - apply Hm; [exact _|apply call_keeps_drawn|apply update_keeps_drawn].
  - intros u. apply load_keeps_drawn.
Qed.

(** Saves ([Some next]) and loads, one after the other, failing or not. *)
Definition run_calls (calls : list (option JourneyData)) (r : RepoState) : RepoState :=
  fold_left (fun r c => snd (match c with Some next => http_save next r | None => http_load r end)) calls r.

(** C39: an id is never sent with two different commands, whatever is saved
    and loaded and whatever fails: two update requests with one id carry the
    same version and payload, as JSON texts. *)
Theorem command_id_names_one_command (r : RepoState) calls :
  Inj (=) (=) (repo_ids r) -> repo_pending r = ∅ -> log r = [] ->
  let r' := run_calls calls r in
  (forall input, (UPDATE, input) ∈ log r' -> exists cid v p, input = update_input cid v p) /\
  forall cid v p v' p', sent r' cid v p -> sent r' cid v' p' -> update_signature v p = update_signature v' p'.
Proof.
  intros Hi Hp Hl. assert (keeps_drawn' r (run_calls calls r)) as [_ Hk].
  { clear Hi Hp Hl. revert r. induction calls as [|c calls IH]; intros r; cbn; [reflexivity|].
    etrans; [|apply IH]. destruct c as [next|]; [apply save_keeps_drawn|apply load_keeps_drawn]. }
  assert (drawn (run_calls calls r)) as Hd.
  { apply Hk; [done|]. split; unfold sent; rewrite ?Hl, ?Hp; try done.
    - intros i Hin. by apply elem_of_nil in Hin.
    - intros cid v p v' p' Hin. by apply elem_of_nil in Hin. }
  split; [|apply (drawn_once _ Hd)]. intros input Hin. destruct (drawn_sent _ Hd _ Hin) as (k & v & p & _ & ->). eauto.
Qed.

(** Sending an update again, with no load in between, sends the same
    request, id included. *)
Theorem retry_repeats_request old j (r : RepoState) v c c' :
  let r1 := snd (update_journey old j r) in
  client_commandVersion "journey.update" (repo_client r).1 = (Ok v, c) ->
  client_commandVersion "journey.update" (repo_client r1).1 = (Ok v, c') ->
  exists input, log r1 = log r ++ [(UPDATE, input)] /\
    log (snd (update_journey old j r1)) = log r1 ++ [(UPDATE, input)].
Proof.
  intros r1 Hv Hv'. subst r1.
  destruct (update_run old j r v c Hv) as (cid & calls & res & c1 & E1 & Er). rewrite Er in Hv' |- *. cbn [snd] in *.
  match type of Hv' with context [with_client ?a ?b] => set (r1 := with_client a b) in * end.
  destruct (update_run old j r1 v c' Hv') as (cid' & calls' & res' & c2 & E2 & ->). cbn [snd].
  exists (update_input cid v (update_payload old j)). split; [done|]. cbn.
  assert (cid' = cid) as ->; [|done].
  unfold command_id_for in E2. cbn [repo_pending with_client r1 pend with_pending] in E2.
  rewrite lookup_insert_eq in E2. cbn [pending_signature pending_commandId] in E2.
  rewrite str_eqb_refl in E2. by injection E2.
Qed.
End CommandProperties.

(** ** Witnesses *)

Module Stub.
Definition no_numbers : NumPrinter := fun _ => [].

(** A server without Journeys that counts the requests, and one that is down. *)
Definition online : TraxClient nat := {|
  client_request _ _ n := (Ok (VObj [(js "items", VArr [])]), S n);
  client_commandVersion _ n := (Ok (NInt 1), n) |}.
Definition offline : TraxClient nat := {|
  client_request op _ n := (Throw (ApiError (mkApiClientError kind_network "network_error" [] (Some op) None None)), S n);
  client_commandVersion _ n := (Ok (NInt 1), n) |}.

End Stub.

Module Witnesses.
Import Sample Stub.
#[local] Existing Instance iso_date_parse.
#[local] Existing Instance no_numbers.
#[local] Existing Instance online.

Definition loaded : RepoState (C := nat) := mkRepo data ∅ 0%nat ids 0 ∅.

Lemma save_unchanged_witness :
  http_save data loaded = http_load loaded /\
  repo_client (snd (http_save data loaded)) = 1%nat.
Proof.
  split; [|vm_compute; reflexivity].
  apply (save_unchanged loaded). apply (valid_wf _ data_valid).
Defined.

Lemma save_after_move_witness :
  exists next rt', moveSegment data "a" "z" 1 runtime = Ok (next, rt') /\
    http_save next loaded =
      repositoryCall (_ ← call REORDER (reorder_input "a" "w" 1 1); http_load ) loaded /\
    move_to "w" 1 [js "x"; js "z"; js "w"] = [js "x"; js "w"; js "z"].
Proof.
  eexists _, _. split; [vm_compute; reflexivity|]. split; [|reflexivity].
  eapply (save_after_move loaded data _ "a" 1 (stay "z" "a" 1) (stay "w" "a" 2) "z" 1 runtime);
    [apply data_valid|reflexivity|apply list_elem_of_here|vm_compute; reflexivity..|left; reflexivity|vm_compute; reflexivity].
Defined.

Lemma save_after_delete_witness :
  exists next rt', deleteSegment data "a" "z" runtime = Ok (next, rt') /\
    http_save next loaded =
      repositoryCall (_ ← delete_segment_of (stay "z" "a" 1);
                      _ ← (_ ← call REORDER (reorder_input "a" "w" 1 1); mret ());
                      http_load ) loaded.
Proof.
  eexists _, _. split; [vm_compute; reflexivity|].
  eapply (save_after_delete loaded data _ "a" 1 (stay "z" "a" 1) runtime);
    [apply data_valid|reflexivity|apply list_elem_of_here|vm_compute; reflexivity..].
Defined.

End Witnesses.

Module CommandWitnesses.
Import Sample Stub.
#[local] Existing Instance no_numbers.
#[local] Existing Instance offline.
#[local] Existing Instance logged | 0.

(** The data with its first Journey renamed. *)
Definition renamed (name : string) : JourneyData :=
  mkData [mkJourney "a" name None None planning 1 clock clock; journey "b"] (segments data) (packingItems data).
Definition logging : RepoState (C := nat * list (jstr * jsval)) := mkRepo data ∅ (0%nat, []) ids 0 ∅.

Lemma command_id_names_one_command_witness :
  let r' := run_calls [Some (renamed "Rome"); Some (renamed "Rome"); Some (renamed "Oslo")] logging in
  length (log r') = 3%nat /\ repo_calls r' = 2%nat /\
  forall cid v p v' p', sent r' cid v p -> sent r' cid v' p' -> update_signature v p = update_signature v' p'.
Proof.
  cbv zeta. split; [vm_compute; reflexivity|]. split; [vm_compute; reflexivity|].
  apply (command_id_names_one_command logging); [|reflexivity..].
  intros m n. apply ids_distinct.
Defined.

Lemma retry_repeats_request_witness :
  let turn r := snd (update_journey (journey "a")
                       (mkJourney "a" "Rome" None None planning 1 clock clock) r) in
  exists input, log (turn (turn logging)) = [(UPDATE, input); (UPDATE, input)].
Proof.
  cbv zeta.
  destruct (retry_repeats_request (journey "a") (mkJourney "a" "Rome" None None planning 1 clock clock)
    logging (NInt 1) 0%nat 1%nat) as (input & E1 & E2); [vm_compute; reflexivity..|].
  exists input. rewrite E2, E1. reflexivity.
Defined.
End CommandWitnesses.
