(* ===== verification/CommandProtocol.v ===== *)
(** The command protocol of the synchronisation harness:
    [spikes/powersync/harness/src/command-protocol.ts].  Parsing of replica
    sessions, command envelopes and command responses, and the digest that
    binds a result to its command.  [sha256] is the hash of the platform, as
    the hexadecimal text of a string's hash. *)
From S2P Require Export JsonText.

(** [throw new Error(message)] *)
Abbreviation thrown := (outcome jstr).
Definition ensure (b : bool) (message : jstr) : thrown () := throw_if (negb b) message.

(** ** Strings of the platform *)

(** The three regular expressions for UUIDs and the one for credentials are
    one character class per position. *)
Definition uuid_classes (version : N -> bool) : list (N -> bool) :=
  let h := is_lower_hex in let dash := N.eqb 45 in
  [h; h; h; h; h; h; h; h; dash; h; h; h; h; dash; version; h; h; h; dash;
   fun c => existsb (N.eqb c) [56; 57; 97; 98]%N; h; h; h; dash;
   h; h; h; h; h; h; h; h; h; h; h; h].
Definition uuid (s : jstr) : bool :=
  match_classes (uuid_classes (fun c => (49 <=? c) && (c <=? 53))%N) s.
Definition commandUuid (s : jstr) : bool := match_classes (uuid_classes (N.eqb 52)) s.

(** base64url: A-Z, a-z, 0-9, '-', '_' *)
Definition base64_value (c : N) : option N :=
  (if (65 <=? c) && (c <=? 90) then Some (c - 65)
   else if (97 <=? c) && (c <=? 122) then Some (c - 71)
   else if (48 <=? c) && (c <=? 57) then Some (c + 4)
   else if c =? 45 then Some 62 else if c =? 95 then Some 63 else None)%N.
Definition base64_char (v : N) : N :=
  (if v <? 26 then v + 65 else if v <? 52 then v + 71 else if v <? 62 then v - 4
   else if v =? 62 then 45 else 95)%N.
Definition is_base64url (c : N) : bool := bool_decide (is_Some (base64_value c)).
Definition CREDENTIAL : list (N -> bool) :=
  [N.eqb 114; N.eqb 50; N.eqb 95]%N ++ replicate 43 is_base64url.

(** [Buffer.from(s, "base64url")] for text of the alphabet, and
    [bytes.toString("base64url")]: four characters are three bytes, two or
    three left over are one or two bytes, and bits short of a byte are
    dropped. *)
Fixpoint base64_decode (vs : list N) : list N :=
  (match vs with
   | a :: b :: c :: d :: vs =>
       (a * 4 + b / 16) :: (b mod 16 * 16 + c / 4) :: (c mod 4 * 64 + d) :: base64_decode vs
   | [a; b; c] => [a * 4 + b / 16; b mod 16 * 16 + c / 4]
   | [a; b] => [a * 4 + b / 16]
   | _ => []
   end)%N.
Fixpoint base64_encode (bytes : list N) : list N :=
  (match bytes with
   | x :: y :: z :: bytes =>
       (x / 4) :: (x mod 4 * 16 + y / 16) :: (y mod 16 * 4 + z / 64) :: (z mod 64) :: base64_encode bytes
   | [x; y] => [x / 4; x mod 4 * 16 + y / 16; y mod 16 * 4]
   | [x] => [x / 4; x mod 4 * 16]
   | [] => []
   end)%N.
Definition buffer_from_base64url (s : jstr) : list N :=
  base64_decode ((fun c => default 0%N (base64_value c)) <$> s).
Definition to_base64url (bytes : list N) : jstr := base64_char <$> base64_encode bytes.

(** ** Data *)

Definition spikeProtocol : Z := 1.
Inductive SpikeCommandType := resource_update | resource_soft_delete.
#[export] Instance SpikeCommandType_eq_dec : EqDecision SpikeCommandType.
Proof. solve_decision. Defined.
Definition type_string (t : SpikeCommandType) : jstr :=
  match t with resource_update => "ps8.resource.update.v1" | resource_soft_delete => "ps8.resource.soft_delete.v1" end.
Definition supportedCommandTypes : list SpikeCommandType := [resource_update; resource_soft_delete].

Record SpikeCommand := mkCommand {
  commandId : jstr;
  type : SpikeCommandType;
  resourceId : jstr;
  resourceIncarnationId : jstr;
  expectedRecordVersion : Z;
  payload : option jstr;
}.
Record ReplicaBinding := mkBinding { replicaId : jstr; replicaEpoch : Z }.
Record ReplicaSessionSecret := mkSession { session_binding : ReplicaBinding; credential : jstr }.
Record SpikeCommandEnvelope := mkEnvelope {
  envelope_binding : ReplicaBinding;
  localTransactionId : jstr;
  commands : list SpikeCommand;
}.

#[export] Instance SpikeCommand_eq_dec : EqDecision SpikeCommand.
Proof. solve_decision. Defined.
#[export] Instance ReplicaBinding_eq_dec : EqDecision ReplicaBinding.
Proof. solve_decision. Defined.

Definition authorityFields : list jstr :=
  js <$> ["actor"; "actorId"; "user"; "userId"; "representedUser"; "representedUserId";
          "workspace"; "workspaceId"; "workspace_id"; "journey"; "journeyId"; "journey_id";
          "party"; "partyId"; "party_id"; "audience"; "owner"; "ownerId"; "grant"; "grants"]%string.

(** ** Checks *)

Definition record (value : jsval) (label : jstr) : thrown (list (jstr * jsval)) :=
  match as_record value with Some fs => Ok fs | None => Throw (label ++ js " must be an object.") end.

Definition in_list (l : list jstr) (k : jstr) : bool := existsb (str_eqb k) l.
Definition exactKeys (value : list (jstr * jsval)) (allowed : list jstr) (label : jstr) : thrown () :=
  let unknown := List.filter (fun key => negb (in_list allowed key)) (object_keys value) in
  let authority := List.filter (in_list authorityFields) unknown in
  _ ← throw_if (negb (Nat.eqb (length authority) 0))
        (js "Client-supplied authority is forbidden: " ++ join ", " (sort_strings authority) ++ js ".");
  throw_if (negb (Nat.eqb (length unknown) 0))
    (label ++ js " has unknown fields: " ++ join ", " (sort_strings unknown) ++ js ".").

Definition boundedString (value : jsval) (label : jstr) (maximum : Z) : thrown jstr :=
  match value with
  | VStr s => if (str_length s <? 1) || (maximum <? str_length s)
              then Throw (label ++ js " must be a non-empty string of at most " ++ print_int maximum ++ js " characters.")
              else Ok s
  | _ => Throw (label ++ js " must be a non-empty string of at most " ++ print_int maximum ++ js " characters.")
  end.

(** [Number.isSafeInteger(v) && Number(v) >= 1], then [Number(v)]. *)
Definition positive_safe (v : jsval) : option Z :=
  match v with
  | VNum (NInt z) => if (1 <=? z) && (z <=? max_safe) then Some z else None
  | _ => None
  end.
Definition positiveSafe (v : jsval) (message : jstr) : thrown Z :=
  match positive_safe v with Some z => Ok z | None => Throw message end.

Definition parseReplicaSessionSecret (value : jsval) : thrown ReplicaSessionSecret :=
  input ← record value "Replica session";
  _ ← exactKeys input (js <$> ["replicaId"; "replicaEpoch"; "credential"]%string) "Replica session";
  id ← boundedString (get input "replicaId") "replicaId" 36;
  let replicaId := toLowerCase id in
  _ ← ensure (commandUuid replicaId) "replicaId must be a version-4 UUID.";
  epoch ← positiveSafe (get input "replicaEpoch") "replicaEpoch must be a positive safe integer.";
  credential ← boundedString (get input "credential") "credential" 64;
  _ ← ensure (match_classes CREDENTIAL credential) "credential must encode a tagged 32-byte secret.";
  let encoded := drop 3 credential in
  let bytes := buffer_from_base64url encoded in
  _ ← ensure (Nat.eqb (length bytes) 32 && str_eqb (to_base64url bytes) encoded)
        "credential must encode a tagged 32-byte secret.";
  mret (mkSession (mkBinding replicaId epoch) credential).

Definition command_type_of (v : jsval) : thrown SpikeCommandType :=
  match v with
  | VStr s => match List.find (fun t => str_eqb (type_string t) s) supportedCommandTypes with
              | Some t => Ok t | None => Throw (js "Unsupported spike command type.") end
  | _ => Throw (js "Unsupported spike command type.")
  end.

(** One turn of the loop over the commands; [seen] holds the ids and targets
    of the turns before. *)
Definition parseCommand (index : nat) (seen : list jstr * list jstr) (raw : jsval)
    : thrown (SpikeCommand * (list jstr * list jstr)) :=
  let '(commandIds, targets) := seen in
  let label := js "commands[" ++ print_int (Z.of_nat index) ++ js "]" in
  command ← record raw label;
  _ ← exactKeys command (js <$> ["commandId"; "type"; "resourceId"; "resourceIncarnationId";
                                 "expectedRecordVersion"; "payload"]%string) label;
  cid ← boundedString (get command "commandId") "commandId" 36;
  rid ← boundedString (get command "resourceId") "resourceId" 36;
  riid ← boundedString (get command "resourceIncarnationId") "resourceIncarnationId" 36;
  let commandId := toLowerCase cid in
  let resourceId := toLowerCase rid in
  let resourceIncarnationId := toLowerCase riid in
  _ ← ensure (commandUuid commandId) "commandId must be a version-4 UUID.";
  _ ← ensure (uuid resourceId) "resourceId must be a UUID.";
  _ ← ensure (uuid resourceIncarnationId) "resourceIncarnationId must be a UUID.";
  type ← command_type_of (get command "type");
  version ← positiveSafe (get command "expectedRecordVersion") "expectedRecordVersion must be a positive safe integer.";
  payload ← match type with
            | resource_update => Some <$> boundedString (get command "payload") "payload" 512
            | resource_soft_delete =>
                _ ← ensure (match get command "payload" with VUndef => true | _ => false end)
                      "soft_delete commands do not accept payload.";
                mret None
            end;
  _ ← ensure (negb (in_list commandIds commandId)) "A transaction cannot contain duplicate command IDs.";
  _ ← ensure (negb (in_list targets resourceId)) "A transaction cannot contain duplicate resource targets.";
  mret (mkCommand commandId type resourceId resourceIncarnationId version payload,
        (commandId :: commandIds, resourceId :: targets)).

Fixpoint parseCommands (index : nat) (seen : list jstr * list jstr) (l : list jsval)
    : thrown (list SpikeCommand) :=
  match l with
  | [] => Ok []
  | raw :: l =>
      cs ← parseCommand index seen raw;
      rest ← parseCommands (S index) (snd cs) l;
      mret (fst cs :: rest)
  end.

Definition parseCommandEnvelope (value : jsval) : thrown SpikeCommandEnvelope :=
  input ← record value "Command envelope";
  _ ← exactKeys input (js <$> ["spikeProtocol"; "replicaId"; "replicaEpoch"; "localTransactionId"; "commands"]%string)
        "Command envelope";
  _ ← ensure (strict_eq (get input "spikeProtocol") (VNum (NInt spikeProtocol))) "Unsupported spike protocol.";
  id ← boundedString (get input "replicaId") "replicaId" 36;
  let replicaId := toLowerCase id in
  _ ← ensure (uuid replicaId) "replicaId must be a UUID.";
  epoch ← positiveSafe (get input "replicaEpoch") "replicaEpoch must be a positive safe integer.";
  transaction ← boundedString (get input "localTransactionId") "localTransactionId" 128;
  list ← match get input "commands" with
         | VArr l => if Nat.eqb (length l) 1 then Ok l
                     else Throw (js "The M3a envelope must contain exactly one command.")
         | _ => Throw (js "The M3a envelope must contain exactly one command.")
         end;
  commands ← parseCommands 0 ([], []) list;
  mret (mkEnvelope (mkBinding replicaId epoch) transaction commands).

(** ** Digests and results *)

Section Digest.
Context `{NumPrinter} (sha256 : jstr -> jstr).

Definition digest_input (command : SpikeCommand) (binding : ReplicaBinding) : jsval :=
  VObj [(js "replicaId", VStr (replicaId binding));
        (js "replicaEpoch", VNum (NInt (replicaEpoch binding)));
        (js "commandId", VStr (commandId command));
        (js "type", VStr (type_string (type command)));
        (js "resourceId", VStr (resourceId command));
        (js "resourceIncarnationId", VStr (resourceIncarnationId command));
        (js "expectedRecordVersion", VNum (NInt (expectedRecordVersion command)));
        (js "payload", match payload command with Some p => VStr p | None => VNull end)].
Definition commandDigest (command : SpikeCommand) (binding : ReplicaBinding) : jstr :=
  sha256 (default [] (stringify (digest_input command binding))).

Definition RESULT_CODES : list jstr :=
  js <$> ["applied"; "already_applied"; "optimistic_conflict"; "stale_incarnation"; "command_denied"]%string.

(** One turn of the loop over the results; the commands still expected. *)
Definition parseResult (binding : ReplicaBinding) (expected : gmap jstr SpikeCommand) (raw : jsval)
    : thrown (list (jstr * jsval) * gmap jstr SpikeCommand) :=
  result ← record raw "Command result";
  _ ← exactKeys result (js <$> ["commandId"; "resourceId"; "digest"; "state"; "code"; "previousVersion";
                                "currentVersion"; "attemptNumber"]%string) "Command result";
  command ← match expected !! to_string (get result "commandId") with
            | Some c => if strict_eq (get result "resourceId") (VStr (resourceId c))
                           && strict_eq (get result "digest") (VStr (commandDigest c binding))
                        then Ok c else Throw (js "Command result identity or digest mismatch.")
            | None => Throw (js "Command result identity or digest mismatch.")
            end;
  let state := get result "state" in
  let code := get result "code" in
  _ ← ensure (strict_eq state (VStr "applied") || strict_eq state (VStr "conflict") || strict_eq state (VStr "denied"))
        "Unknown command result state.";
  _ ← ensure (in_list RESULT_CODES (to_string code)) "Unknown command result code.";
  let expectedState : jstr :=
    if strict_eq code (VStr "optimistic_conflict") || strict_eq code (VStr "stale_incarnation") then "conflict"
    else if strict_eq code (VStr "command_denied") then "denied" else "applied" in
  _ ← ensure (strict_eq state (VStr expectedState)) "Inconsistent command result state and code.";
  _ ← for_each (fun field : string =>
        ensure (bool_decide (is_Some (positive_safe (get result (js field))))) (js "Invalid " ++ js field ++ js "."))
        ["previousVersion"; "currentVersion"; "attemptNumber"]%string;
  mret (result, delete (commandId command) expected).

Fixpoint parseResults (binding : ReplicaBinding) (expected : gmap jstr SpikeCommand) (l : list jsval)
    : thrown (list (list (jstr * jsval)) * gmap jstr SpikeCommand) :=
  match l with
  | [] => Ok ([], expected)
  | raw :: l =>
      re ← parseResult binding expected raw;
      rest ← parseResults binding (snd re) l;
      mret (fst re :: fst rest, snd rest)
  end.

(** [new Map(entries)]: a later entry replaces an earlier one. *)
Definition by_id (commands : list SpikeCommand) : gmap jstr SpikeCommand :=
  foldl (fun m c => <[commandId c := c]> m) ∅ commands.

(** The results, as the objects they came as. *)
Definition parseCommandResponse (value : jsval) (commands : list SpikeCommand) (binding : ReplicaBinding)
    : thrown (list (list (jstr * jsval))) :=
  input ← record value "Command response";
  _ ← exactKeys input (js <$> ["spikeProtocol"; "results"]%string) "Command response";
  raws ← match get input "results" with
         | VArr l => if strict_eq (get input "spikeProtocol") (VNum (NInt spikeProtocol))
                        && Nat.eqb (length l) (length commands)
                     then Ok l else Throw (js "Command response does not match the request.")
         | _ => Throw (js "Command response does not match the request.")
         end;
  results ← parseResults binding (by_id commands) raws;
  _ ← throw_if (negb (bool_decide (snd results = ∅))) (js "Command response omitted results.");
  mret (fst results).
End Digest.
