(* ===== verification/CommandProtocolSpec.v ===== *)
(** What the command protocol guarantees: the parsers accept exactly the
    canonical messages, a digest stands for one command of one replica, and
    an accepted response answers every command once. *)
From S2P Require Export CommandProtocol.

(** ** Checks *)

Lemma ensure_ok b m u : ensure b m = Ok u <-> b = true.
Proof. unfold ensure. rewrite throw_if_Ok. by rewrite negb_false_iff. Qed.
Lemma ensure_true m : ensure true m = Ok ().
Proof. done. Qed.

Lemma record_ok v label fs : record v label = Ok fs <-> v = VObj fs.
Proof. unfold record. destruct v; cbn; split; intros H; try done; congruence. Qed.

Lemma boundedString_ok v label m s :
  boundedString v label m = Ok s <-> v = VStr s /\ 1 <= str_length s <= m.
Proof.
  destruct v as [| | | |x| | |]; cbn; try (split; [done|by intros [? _]]).
  destruct ((str_length x <? 1) || (m <? str_length x)) eqn:E; split.
  - done.
  - intros [[= ->] ?]. lia.
  - intros [= ->]. split; [done|lia].
  - by intros [[= ->] _].
Qed.

Lemma positiveSafe_ok v m z : positiveSafe v m = Ok z <-> v = VNum (NInt z) /\ 1 <= z <= max_safe.
Proof.
  unfold positiveSafe, positive_safe. destruct v as [| | |[x| | | |]| | | |]; try (split; [done|by intros [? _]]).
  destruct ((1 <=? x) && (x <=? max_safe)) eqn:E; split.
  - intros [= ->]. split; [done|lia].
  - by intros [[= ->] _].
  - done.
  - intros [[= ->] ?]. lia.
Qed.

Lemma exactKeys_ok fs allowed label u :
  exactKeys fs allowed label = Ok u <-> forall k, k ∈ object_keys fs -> k ∈ allowed.
Proof.
  unfold exactKeys. set (unknown := List.filter _ _). destruct u.
  assert (unknown = [] <-> forall k, k ∈ object_keys fs -> k ∈ allowed) as <-.
  { assert (forall k, in_list allowed k = true <-> k ∈ allowed) as Hin.
    { intros k. unfold in_list. rewrite existsb_elem. setoid_rewrite str_eqb_eq. naive_solver. }
    split.
    - intros Hu k Hk. apply Hin, not_false_iff_true. intros Hf.
      assert (k ∈ unknown) as Hx by (apply elem_of_lfilter; rewrite Hf; done).
      rewrite Hu in Hx. by apply elem_of_nil in Hx.
    - intros Ha. destruct unknown as [|k l] eqn:E; [done|].
      assert (k ∈ unknown) as [Hk Hf]%elem_of_lfilter by (rewrite E; apply list_elem_of_here).
      apply Ha, Hin in Hk. by rewrite Hk in Hf. }
  destruct unknown as [|k l]; [done|]. split; [|done].
  by intros (a & _ & Hu%throw_if_Ok)%bind_Ok.
Qed.

(** A message that names authority is refused as such. *)
Lemma exactKeys_authority fs allowed label k :
  k ∈ object_keys fs -> k ∈ authorityFields -> k ∉ allowed ->
  exists names, exactKeys fs allowed label = Throw (js "Client-supplied authority is forbidden: " ++ names).
Proof.
  intros Hk Ha Hn. unfold exactKeys. set (authority := List.filter (in_list authorityFields) _).
  assert (forall l x, in_list l x = true <-> x ∈ l) as Hin.
  { intros l x. unfold in_list. rewrite existsb_elem. setoid_rewrite str_eqb_eq. naive_solver. }
  assert (k ∈ authority) as Hx.
  { apply elem_of_lfilter. split; [|by apply Hin]. apply elem_of_lfilter. split; [done|].
    apply negb_true_iff, not_true_is_false. by rewrite Hin. }
  destruct authority as [|a l]; [by apply elem_of_nil in Hx|]. by eexists.
Qed.

(** ** UUIDs *)

Definition lower_safe (c : N -> bool) : Prop := forall u, c u = true -> lower_unit u = [u].
Lemma lower_safe_classes cs s :
  Forall lower_safe cs -> match_classes cs s = true -> toLowerCase s = s /\ length s = length cs.
Proof.
  intros Hcs. revert s. induction Hcs as [|c cs Hc _ IH]; intros [|u s]; cbn; try done.
  rewrite andb_true_iff. intros [Hu [Hs Hl]%IH]. rewrite Hl. split; [|done].
  unfold toLowerCase in *. cbn. rewrite (Hc u Hu), Hs. done.
Qed.

Lemma is_lower_hex_safe : lower_safe is_lower_hex.
Proof.
  intros u. unfold is_lower_hex, is_digit, lower_unit, is_upper. intros Hu.
  replace ((65 <=? u) && (u <=? 90))%N with false by lia.
  by replace (u =? 304)%N with false by lia; replace (u =? 8490)%N with false by lia.
Qed.
Lemma small_safe (c : N -> bool) : (forall u, c u = true -> (u < 65)%N \/ (90 < u < 304)%N) -> lower_safe c.
Proof.
  intros Hc u Hu. apply Hc in Hu. unfold lower_unit, is_upper.
  replace ((65 <=? u) && (u <=? 90))%N with false by lia.
  by replace (u =? 304)%N with false by lia; replace (u =? 8490)%N with false by lia.
Qed.

Lemma uuid_classes_lower version s :
  (forall u, version u = true -> (u < 65)%N) ->
  match_classes (uuid_classes version) s = true -> toLowerCase s = s /\ str_length s = 36.
Proof.
  intros Hv Hs. apply lower_safe_classes in Hs as [? Hl].
  - split; [done|]. unfold str_length. by rewrite Hl.
  - repeat (apply Forall_cons; split); try apply is_lower_hex_safe; try apply Forall_nil; try done;
      apply small_safe; intros u Hu; cbn in Hu.
    all: try (apply Hv in Hu; lia). all: lia.
Qed.

Lemma uuid_lower s : uuid s = true -> toLowerCase s = s /\ str_length s = 36.
Proof. apply uuid_classes_lower. lia. Qed.
Lemma commandUuid_lower s : commandUuid s = true -> toLowerCase s = s /\ str_length s = 36.
Proof. apply uuid_classes_lower. lia. Qed.

(** ** Canonical envelopes *)

Record command_ok (c : SpikeCommand) : Prop := {
  co_id : commandUuid (commandId c) = true;
  co_resource : uuid (resourceId c) = true;
  co_incarnation : uuid (resourceIncarnationId c) = true;
  co_version : 1 <= expectedRecordVersion c <= max_safe;
  co_payload : match type c, payload c with
               | resource_update, Some p => 1 <= str_length p <= 512
               | resource_soft_delete, None => True
               | _, _ => False
               end;
}.
Record binding_ok (b : ReplicaBinding) : Prop := {
  bo_replica : uuid (replicaId b) = true;
  bo_epoch : 1 <= replicaEpoch b <= max_safe;
}.
Record envelope_ok (e : SpikeCommandEnvelope) : Prop := {
  eo_binding : binding_ok (envelope_binding e);
  eo_transaction : 1 <= str_length (localTransactionId e) <= 128;
  eo_commands : exists c, commands e = [c] /\ command_ok c;
}.

(** What the client sends, as the server's JSON parser reads it. *)
Definition encode_command (c : SpikeCommand) : jsval :=
  VObj ([(js "commandId", VStr (commandId c)); (js "type", VStr (type_string (type c)));
         (js "resourceId", VStr (resourceId c)); (js "resourceIncarnationId", VStr (resourceIncarnationId c));
         (js "expectedRecordVersion", VNum (NInt (expectedRecordVersion c)))]
        ++ match payload c with Some p => [(js "payload", VStr p)] | None => [] end).
Definition encode_envelope (e : SpikeCommandEnvelope) : jsval :=
  VObj [(js "spikeProtocol", VNum (NInt spikeProtocol));
        (js "replicaId", VStr (replicaId (envelope_binding e)));
        (js "replicaEpoch", VNum (NInt (replicaEpoch (envelope_binding e))));
        (js "localTransactionId", VStr (localTransactionId e));
        (js "commands", VArr (encode_command <$> commands e))].

Lemma command_type_of_ok v t : command_type_of v = Ok t -> v = VStr (type_string t).
Proof.
  destruct v as [| | | |s| | |]; try done. cbn.
  destruct (str_eqb "ps8.resource.update.v1" s) eqn:E1; [apply str_eqb_eq in E1 as <-; by intros [= <-]|].
  destruct (str_eqb "ps8.resource.soft_delete.v1" s) eqn:E2; [apply str_eqb_eq in E2 as <-; by intros [= <-]|done].
Qed.

Lemma parseCommand_ok i seen raw c seen' : parseCommand i seen raw = Ok (c, seen') -> command_ok c.
Proof.
  unfold parseCommand. destruct seen as [ids targets]. intros H. inv_ok.
  repeat match goal with Hb : boundedString _ _ _ = Ok _ |- _ => apply boundedString_ok in Hb as [? ?]
    | Hb : ensure _ _ = Ok _ |- _ => apply ensure_ok in Hb | Hb : positiveSafe _ _ = Ok _ |- _ => apply positiveSafe_ok in Hb as [? ?] end.
  split; cbn; try done.
  match goal with Hp : (match ?t with resource_update => _ | resource_soft_delete => _ end) = Ok _ |- _ =>
    destruct t; [apply fmap_Ok in Hp as (p & ->%eq_sym & [_ ?]%boundedString_ok); done|inv_ok; done] end.
Qed.

Lemma parseCommand_encode i c :
  command_ok c -> exists seen, parseCommand i ([], []) (encode_command c) = Ok (c, seen).
Proof.
  intros [Hid Hr Hi Hv Hp]. destruct (commandUuid_lower _ Hid) as [Lid Nid].
  destruct (uuid_lower _ Hr) as [Lr Nr]. destruct (uuid_lower _ Hi) as [Li Ni].
  destruct c as [cid t rid riid v p]. cbn [commandId type resourceId resourceIncarnationId expectedRecordVersion payload] in *.
  unfold parseCommand, encode_command. cbn [commandId type resourceId resourceIncarnationId expectedRecordVersion payload].
  cbn [record as_record mbind outcome_bind].
  match goal with |- context [exactKeys ?f ?a ?l] =>
    assert (exactKeys f a l = Ok ()) as -> by (destruct t, p; try done; vm_compute; reflexivity) end.
  cbn [mbind outcome_bind app]. get_lit.
  rewrite (proj2 (boundedString_ok (VStr cid) _ 36 cid)) by (split; [done|lia]). cbn [mbind outcome_bind].
  rewrite (proj2 (boundedString_ok (VStr rid) _ 36 rid)) by (split; [done|lia]). cbn [mbind outcome_bind].
  rewrite (proj2 (boundedString_ok (VStr riid) _ 36 riid)) by (split; [done|lia]). cbn [mbind outcome_bind].
  rewrite Lid, Lr, Li, Hid, Hr, Hi. cbn [ensure throw_if negb mbind outcome_bind].
  assert (command_type_of (VStr (type_string t)) = Ok t) as -> by by destruct t. cbn [mbind outcome_bind].
  rewrite (proj2 (positiveSafe_ok (VNum (NInt v)) _ v)) by done. cbn [mbind outcome_bind].
  destruct t, p as [p|]; try done; cbn [app]; get_lit.
  - rewrite (proj2 (boundedString_ok (VStr p) _ 512 p)) by done. by eexists.
  - by eexists.
Qed.

Lemma parseCommandEnvelope_ok v e : parseCommandEnvelope v = Ok e -> envelope_ok e.
Proof.
  unfold parseCommandEnvelope. intros H. inv_ok.
  repeat match goal with Hb : boundedString _ _ _ = Ok _ |- _ => apply boundedString_ok in Hb as [? ?]
    | Hb : ensure _ _ = Ok _ |- _ => apply ensure_ok in Hb | Hb : positiveSafe _ _ = Ok _ |- _ => apply positiveSafe_ok in Hb as [? ?] end.
  match goal with Hl : match ?x with VArr _ => _ | _ => _ end = Ok ?l |- _ =>
    destruct x as [| | | | |l'| |]; try done; destruct l' as [|raw [|? ?]]; cbn in Hl; try done; injection Hl as <- end.
  match goal with Hc : parseCommands _ _ [raw] = Ok _ |- _ => cbn [parseCommands] in Hc end. inv_ok.
  match goal with Hc : parseCommand _ _ raw = Ok ?cs |- _ => destruct cs as [c seen]; apply parseCommand_ok in Hc end.
  split; [by split|done|]. by exists c.
Qed.

Lemma parseCommandEnvelope_encode e : envelope_ok e -> parseCommandEnvelope (encode_envelope e) = Ok e.
Proof.
  intros [[Hid Hep] Ht (c & Hc & Hok)]. destruct (uuid_lower _ Hid) as [Lid Nid].
  destruct e as [[rid epoch] tid cs]. cbn [envelope_binding replicaId replicaEpoch localTransactionId commands] in *.
  subst cs. unfold parseCommandEnvelope, encode_envelope.
  cbn [envelope_binding replicaId replicaEpoch localTransactionId commands record as_record mbind outcome_bind].
  match goal with |- context [exactKeys ?f ?a ?l] =>
    assert (exactKeys f a l = Ok ()) as -> by (apply exactKeys_ok; unfold object_keys; cbn; set_solver) end.
  cbn [mbind outcome_bind]. get_lit. eval_strict_eq. cbn [ensure throw_if negb mbind outcome_bind].
  rewrite (proj2 (boundedString_ok (VStr rid) _ 36 rid)) by (split; [done|lia]). cbn [mbind outcome_bind].
  rewrite Lid, Hid. cbn [ensure throw_if negb mbind outcome_bind].
  rewrite (proj2 (positiveSafe_ok (VNum (NInt epoch)) _ epoch)) by done. cbn [mbind outcome_bind].
  rewrite (proj2 (boundedString_ok (VStr tid) _ 128 tid)) by done. cbn [mbind outcome_bind].
  cbn [fmap list_fmap length Nat.eqb parseCommands mbind outcome_bind].
  destruct (parseCommand_encode 0 c Hok) as [seen ->]. done.
Qed.

(** ** Digests *)

Section Digests.
Context {printer : NumPrinter} (sha256 : jstr -> jstr).

Lemma digest_input_plain c b : command_ok c -> binding_ok b -> plain_json (digest_input c b).
Proof.
  intros [_ _ _ Hv _] [_ He]. assert (max_safe < 10 ^ 21) as Hm by done.
  apply plain_obj_fields. unfold digest_input.
  repeat (apply Forall_cons; split; [cbn [snd]|]); try apply Forall_nil_2; try constructor; try lia.
  destruct (payload c); constructor.
Qed.

#[export] Instance type_string_inj : Inj (=) (=) type_string.
Proof. by intros [] []. Qed.

Lemma digest_input_inj c b c' b' : digest_input c b = digest_input c' b' -> c = c' /\ b = b'.
Proof.
  destruct c as [i t r n v p], b as [a e], c' as [i' t' r' n' v' p'], b' as [a' e']. unfold digest_input.
  cbn [commandId type resourceId resourceIncarnationId expectedRecordVersion payload replicaId replicaEpoch].
  set (pj := match p with Some q => VStr q | None => VNull end).
  set (pj' := match p' with Some q => VStr q | None => VNull end).
  intros [= -> -> -> Ht -> -> -> Hp]. subst pj pj'.
  assert (t = t') as -> by (destruct t, t'; done || (vm_compute in Ht; discriminate Ht)).
  by destruct p, p'; simplify_eq.
Qed.

Lemma commandDigest_collision c b c' b' :
  command_ok c -> binding_ok b -> command_ok c' -> binding_ok b' ->
  commandDigest sha256 c b = commandDigest sha256 c' b' ->
  (c = c' /\ b = b') \/ exists x y, x <> y /\ sha256 x = sha256 y.
Proof.
  intros Hc Hb Hc' Hb' Heq.
  destruct (decide (stringify (digest_input c b) = stringify (digest_input c' b'))) as [Hs|Hs].
  - left. apply digest_input_inj. apply (stringify_inj _ _ (digest_input_plain _ _ Hc Hb) (digest_input_plain _ _ Hc' Hb') Hs).
  - right. eexists _, _. split; [|exact Heq]. unfold stringify in *. cbn in *. congruence.
Qed.

(** ** Responses *)

Definition result_id (fs : list (jstr * jsval)) : jstr := to_string (get fs "commandId").

(** What an accepted result of command [c] says.  The code is read as a
    string only to look it up: a code that is no string passes with the state
    "applied". *)
Record result_ok (b : ReplicaBinding) (c : SpikeCommand) (fs : list (jstr * jsval)) : Prop := {
  ro_id : result_id fs = commandId c;
  ro_resource : get fs "resourceId" = VStr (resourceId c);
  ro_digest : get fs "digest" = VStr (commandDigest sha256 c b);
  ro_code : in_list RESULT_CODES (to_string (get fs "code")) = true;
  ro_state : get fs "state" = VStr
    (match get fs "code" with
     | VStr code => if str_eqb code "optimistic_conflict" || str_eqb code "stale_incarnation" then "conflict"
                    else if str_eqb code "command_denied" then "denied" else "applied"
     | _ => "applied"
     end);
  ro_versions : forall k : string, k ∈ ["previousVersion"; "currentVersion"; "attemptNumber"]%string ->
    exists z, get fs (js k) = VNum (NInt z) /\ 1 <= z <= max_safe;
}.

Lemma strict_eq_VStr v s : strict_eq v (VStr s) = true <-> v = VStr s.
Proof. destruct v; cbn; try (split; [done|congruence]). rewrite str_eqb_eq. split; congruence. Qed.

Lemma parseResult_ok b expected raw fs expected' :
  parseResult sha256 b expected raw = Ok (fs, expected') ->
  exists c, expected !! result_id fs = Some c /\ expected' = delete (commandId c) expected /\
    raw = VObj fs /\
    (commandId c = result_id fs -> result_ok b c fs).
Proof.
  unfold parseResult. intros H. apply bind_Ok in H as (fs0 & Hraw%record_ok & H).
  apply bind_Ok in H as (u & _ & H). apply bind_Ok in H as (c & Hc & H).
  destruct (expected !! to_string (get fs0 "commandId")) as [c'|] eqn:Ee in Hc; [|done].
  destruct (_ && _) eqn:Eid in Hc; [|done]. injection Hc as <-.
  apply andb_true_iff in Eid as [Er%strict_eq_VStr Ed%strict_eq_VStr].
  cbv zeta in H. apply bind_Ok in H as (u1 & _ & H). apply bind_Ok in H as (u2 & Hcode%ensure_ok & H).
  apply bind_Ok in H as (u3 & Hst%ensure_ok & H). apply bind_Ok in H as (u4 & Hv & H).
  injection H as <- <-. apply strict_eq_VStr in Hst. destruct u4.
  exists c'. split_and!; [done..|]. intros Hid. split; try done.
  - rewrite Hst. f_equal. by destruct (get fs0 "code").
  - intros k Hk. pose proof (proj1 (for_each_ok _ _) Hv k Hk) as Hp%ensure_ok%bool_decide_eq_true.
    destruct Hp as [z Hz]. exists z. pose proof (positiveSafe_ok (get fs0 (js k)) [] z) as Hok.
    apply Hok. unfold positiveSafe. by rewrite Hz.
Qed.

Lemma parseResults_ok b expected l rs expected' :
  (forall i c, expected !! i = Some c -> commandId c = i) ->
  parseResults sha256 b expected l = Ok (rs, expected') ->
  (forall i c, expected' !! i = Some c -> expected !! i = Some c) /\
  NoDup (result_id <$> rs) /\ l = VObj <$> rs /\
  (forall fs, fs ∈ rs -> exists c, expected !! result_id fs = Some c /\ expected' !! result_id fs = None /\
     result_ok b c fs) /\
  (forall i c, expected !! i = Some c -> expected' !! i = None -> i ∈ result_id <$> rs).
Proof.
  revert expected rs. induction l as [|raw l IH]; intros expected rs Hk; cbn [parseResults].
  - intros [= <- <-]. split_and!; [done|constructor|done|by intros ? ?%elem_of_nil|]. intros i c -> [=].
  - intros H. apply bind_Ok in H as ([fs e1] & Hr & H). apply bind_Ok in H as ([rs1 e2] & Hrs & H).
    injection H as <- <-. cbn [fst snd] in *.
    apply parseResult_ok in Hr as (c & Hc & -> & -> & Hok). pose proof (Hk _ _ Hc) as Hid.
    destruct (IH (delete (commandId c) expected) rs1) as (Hsub & Hnd & Hl & Hall & Hcov).
    { intros i c' [_ Hi]%lookup_delete_Some. by apply Hk. }
    { done. }
    split_and!.
    + intros i c' Hi%Hsub. by apply lookup_delete_Some in Hi as [_ ?].
    + cbn. apply NoDup_cons. split; [|done]. intros (fs' & Heq & Hin)%list_elem_of_fmap.
      destruct (Hall fs' Hin) as (c' & Hc' & _). rewrite <- Heq, <- Hid, lookup_delete_eq in Hc'. done.
    + cbn. by f_equal.
    + intros fs' [->|Hin]%elem_of_cons.
      * exists c. split_and!; [done| |by apply Hok].
        destruct (e2 !! result_id fs) as [c'|] eqn:Ee; [|done]. apply Hsub in Ee.
        by rewrite <- Hid, lookup_delete_eq in Ee.
      * destruct (Hall fs' Hin) as (c' & [_ Hc']%lookup_delete_Some & ? & ?). by exists c'.
    + intros i c' Hi Hn. cbn. destruct (decide (commandId c = i)) as [<-|Hne].
      * rewrite Hid. apply list_elem_of_here.
      * apply list_elem_of_further. eapply Hcov; [|done]. by rewrite lookup_delete_ne.
Qed.

Lemma by_id_lookup l i c : by_id l !! i = Some c -> c ∈ l /\ commandId c = i.
Proof.
  unfold by_id. assert (forall m : gmap jstr SpikeCommand, (forall i c, m !! i = Some c -> commandId c = i) ->
    foldl (fun m c => <[commandId c := c]> m) m l !! i = Some c -> (c ∈ l \/ m !! i = Some c) /\ commandId c = i) as Hgen.
  { induction l as [|x l IH]; intros m Hm; cbn; [by eauto|]. intros [Hin Hc]%IH.
    - split; [|done]. destruct Hin as [?|[[<- <-]|[_ ?]]%lookup_insert_Some]; [|left; apply list_elem_of_here|auto].
      left. by apply list_elem_of_further.
    - intros j d [[<- <-]|[_ ?]]%lookup_insert_Some; [done|by apply Hm]. }
  intros Hl. apply Hgen in Hl as [[?|Hf] ?]; [done|by rewrite lookup_empty in Hf|].
  intros j d Hf. by rewrite lookup_empty in Hf.
Qed.

Lemma by_id_elem l c : NoDup (commandId <$> l) -> c ∈ l -> by_id l !! commandId c = Some c.
Proof.
  unfold by_id. generalize (∅ : gmap jstr SpikeCommand). induction l as [|x l IH]; intros m; [by intros _ ?%elem_of_nil|].
  cbn. rewrite NoDup_cons, elem_of_cons. intros [Hx Hnd] [->|Hc]; [|by apply IH].
  clear IH. assert (forall m : gmap jstr SpikeCommand, m !! commandId x = Some x ->
    foldl (fun m c => <[commandId c := c]> m) m l !! commandId x = Some x) as Hgen; [|apply Hgen, lookup_insert_eq].
  clear Hnd. induction l as [|y l IH]; intros m' Hm; [done|]. cbn. cbn in Hx. apply IH; [set_solver|].
  rewrite lookup_insert_ne; [done|]. intros Heq. apply Hx. rewrite Heq. apply list_elem_of_here.
Qed.
Lemma parseCommandResponse_sound v cs b rs :
  NoDup (commandId <$> cs) -> parseCommandResponse sha256 v cs b = Ok rs ->
  (exists input, v = VObj input /\ get input "results" = VArr (VObj <$> rs)) /\
  NoDup (result_id <$> rs) /\ result_id <$> rs ≡ₚ commandId <$> cs /\
  forall fs, fs ∈ rs -> exists c, c ∈ cs /\ result_ok b c fs.
Proof.
  intros Hnd. unfold parseCommandResponse. intros Hr.
  apply bind_Ok in Hr as (input & Hinput%record_ok & Hr). apply bind_Ok in Hr as (u & _ & Hr).
  apply bind_Ok in Hr as (raws & Hraws & Hr). apply bind_Ok in Hr as ([rs' e] & Hrs & Hr).
  apply bind_Ok in Hr as (u1 & He%throw_if_Ok & Hr). injection Hr as <-. cbn [fst snd] in *.
  apply negb_false_iff, bool_decide_eq_true in He as ->.
  apply parseResults_ok in Hrs as (_ & Hn & Hl & Hall & Hcov); [|intros i c Hi; by apply by_id_lookup in Hi as [_ ?]].
  assert (forall fs, fs ∈ rs' -> exists c, c ∈ cs /\ result_ok b c fs) as Hok.
  { intros fs Hin. destruct (Hall fs Hin) as (c & Hc & _ & ?). exists c.
    split; [by apply by_id_lookup in Hc as [? _]|done]. }
  split_and!; [|done| |done].
  { exists input. split; [done|]. destruct (get input "results"); try done. destruct (_ && _) in Hraws; [|done]. congruence. }
  apply NoDup_Permutation; [done..|]. intros i. split.
  - intros (fs & -> & Hin)%list_elem_of_fmap. destruct (Hok fs Hin) as (c & Hc & Hcok).
    rewrite (ro_id _ _ _ Hcok). by apply list_elem_of_fmap_2.
  - intros (c & -> & Hc)%list_elem_of_fmap. apply (Hcov (commandId c) c); [by apply by_id_elem|apply lookup_empty].
Qed.
End Digests.

(** ** Properties *)

(** C34: the server accepts exactly the canonical envelopes: what it parses is
    an envelope of one well-formed command, and it parses every such envelope
    a client sends back to itself. *)
Theorem parseCommandEnvelope_canonical :
  (forall v e, parseCommandEnvelope v = Ok e -> envelope_ok e) /\
  (forall e, envelope_ok e -> parseCommandEnvelope (encode_envelope e) = Ok e).
Proof. split; [apply parseCommandEnvelope_ok|apply parseCommandEnvelope_encode]. Qed.

(** An envelope with a field that names authority is refused with the
    error that says so, whatever else it holds. *)
Theorem client_authority_refused fs k :
  k ∈ object_keys fs -> k ∈ authorityFields ->
  exists names, parseCommandEnvelope (VObj fs) = Throw (js "Client-supplied authority is forbidden: " ++ names).
Proof.
  intros Hk Ha. unfold parseCommandEnvelope. cbn [record as_record mbind outcome_bind].
  match goal with |- context [exactKeys fs ?a ?l] =>
    destruct (exactKeys_authority fs a l k) as [names ->]; [done..| |by exists names] end.
  intros Hin. assert (existsb (fun x => bool_decide (x ∈ authorityFields))
    (js <$> ["spikeProtocol"; "replicaId"; "replicaEpoch"; "localTransactionId"; "commands"]%string) = false) as Hf
    by (vm_compute; reflexivity).
  rewrite existsb_false in Hf. apply Hf in Hin. by apply bool_decide_eq_false in Hin.
Qed.

(** two well-formed commands of two replicas have the same digest only if
    they are the same command of the same replica and epoch, or the hash has a
    collision. *)
Theorem commandDigest_binds `{NumPrinter} sha256 c b c' b' :
  command_ok c -> binding_ok b -> command_ok c' -> binding_ok b' ->
  commandDigest sha256 c b = commandDigest sha256 c' b' ->
  (c = c' /\ b = b') \/ exists x y, x <> y /\ sha256 x = sha256 y.
Proof. apply commandDigest_collision. Qed.

(** C35: an accepted response answers every command once, with a result bound
    to the command by its digest; state and code agree whenever the code is a
    string, and any other code goes with the state "applied". *)
Theorem parseCommandResponse_answers `{NumPrinter} sha256 v cs b rs :
  NoDup (commandId <$> cs) -> parseCommandResponse sha256 v cs b = Ok rs ->
  NoDup (result_id <$> rs) /\ result_id <$> rs ≡ₚ commandId <$> cs /\
  forall fs, fs ∈ rs -> exists c, c ∈ cs /\ result_ok sha256 b c fs.
Proof.
  intros Hnd Hr. destruct (parseCommandResponse_sound sha256 v cs b rs Hnd Hr) as (_ & Hn & Hp & Hall). done.
Qed.

(** ** Witnesses *)

Module ProtocolSample.
Definition no_numbers : NumPrinter := fun _ => [].
Definition identity (s : jstr) : jstr := s.
Definition replica : ReplicaBinding := mkBinding "aaaaaaaa-aaaa-4aaa-8aaa-aaaaaaaaaaa1" 3.
Definition update (n : Z) (text : jstr) : SpikeCommand :=
  mkCommand "bbbbbbbb-bbbb-4bbb-8bbb-bbbbbbbbbbb2" resource_update "55555555-5555-4555-8555-555555555501"
    "75555555-5555-4555-8555-555555555501" n (Some text).

Lemma replica_ok : binding_ok replica.
Proof. split; [reflexivity|done]. Qed.
Lemma update_ok n text : 1 <= n <= max_safe -> 1 <= str_length text <= 512 -> command_ok (update n text).
Proof. intros Hn Ht. by split. Qed.

Definition result (code : jsval) (state : string) : jsval :=
  let command := update 4 "note" in
  VObj [(js "commandId", VStr (commandId command)); (js "resourceId", VStr (resourceId command));
        (js "digest", VStr (commandDigest (H := no_numbers) identity command replica));
        (js "state", VStr state); (js "code", code);
        (js "previousVersion", VNum (NInt 4)); (js "currentVersion", VNum (NInt 5)); (js "attemptNumber", VNum (NInt 1))].
Definition response (results : list jsval) : jsval :=
  VObj [(js "spikeProtocol", VNum (NInt 1)); (js "results", VArr results)].
End ProtocolSample.

Module ProtocolWitnesses.
Import ProtocolSample.
#[local] Existing Instance no_numbers.

Lemma client_authority_refused_witness :
  exists names, parseCommandEnvelope (VObj [(js "spikeProtocol", VNum (NInt 1)); (js "workspaceId", VStr "w")]) =
    Throw (js "Client-supplied authority is forbidden: " ++ names).
Proof.
  apply (client_authority_refused _ "workspaceId").
  - apply list_elem_of_further, list_elem_of_here.
  - do 7 apply list_elem_of_further. apply list_elem_of_here.
Defined.

Lemma parseCommandEnvelope_canonical_witness :
  parseCommandEnvelope (encode_envelope (mkEnvelope replica "1" [update 4 "note"])) =
  Ok (mkEnvelope replica "1" [update 4 "note"]).
Proof.
  apply (proj2 parseCommandEnvelope_canonical). split; [apply replica_ok|done|].
  eexists. split; [reflexivity|]. by apply update_ok.
Defined.

Lemma commandDigest_binds_witness :
  commandDigest identity (update 4 "note") replica <> commandDigest identity (update 5 "note") replica.
Proof.
  intros Heq. destruct (commandDigest_binds identity (update 4 "note") replica (update 5 "note") replica)
    as [[Hc _]|(x & y & Hne & Hs)]; [by apply update_ok|apply replica_ok|by apply update_ok|apply replica_ok|exact Heq| |done].
  discriminate Hc.
Defined.

Lemma parseCommandResponse_answers_witness :
  exists rs, parseCommandResponse identity (response [result (VStr "already_applied") "applied"]) [update 4 "note"] replica = Ok rs /\
    result_id <$> rs ≡ₚ commandId <$> [update 4 "note"] /\
    is_ok (parseCommandResponse identity (response [result (VStr "command_denied") "applied"]) [update 4 "note"] replica) = false /\
    is_ok (parseCommandResponse identity (response [result (VArr [VStr "command_denied"]) "applied"]) [update 4 "note"] replica) = true.
Proof.
  eexists. split; [vm_compute; reflexivity|]. split; [|split; vm_compute; reflexivity].
  eapply (parseCommandResponse_answers identity (response [result (VStr "already_applied") "applied"]) [update 4 "note"] replica);
    [apply NoDup_singleton|vm_compute; reflexivity].
Defined.
End ProtocolWitnesses.
