(* ===== verification/AppState.v ===== *)
(** The application-owned state of the harness client:
    [spikes/powersync/harness/src/client.ts], lines 45-172 (capacity
    accounting and the queue) and 187-488 (class [ApplicationState]).  A table
    of the SQLite file is a finite map by primary key; a transaction that
    throws leaves the tables as they were. *)
From S2P Require Export CommandProtocolSpec.

(** ** Limits *)

Definition maxOutstandingCommandsAndResults : Z := 64.
Definition maxSerializedOutstandingBytes : Z := 65536.
Definition maxTransientUploadAttempts : Z := 5.
Definition terminalResultReservationBytes : Z := 512.
Definition applicationStateSchemaVersion : Z := 3.

(** [throw new Error(message)], or an error of the database. *)
Inductive local_error := LocalError (message : jstr) | SqliteError.
Abbreviation locally := (outcome local_error).
Definition local_throw {A} (message : string) : locally A := Throw (LocalError (js message)).
Definition local_if (b : bool) (message : string) : locally () := throw_if b (LocalError (js message)).

Definition safe_from (low n : Z) : bool := (low <=? n) && (n <=? max_safe).

Section Sizes.
Context `{NumPrinter}.

(** [Buffer.byteLength(JSON.stringify(v), "utf8")] *)
Definition serialized (v : jsval) : Z := utf8_length (default [] (stringify v)).

Record TerminalResultRecord := mkTerminal {
  t_commandId : jstr; t_resourceId : jstr; t_state : jstr; t_code : jstr;
  t_previousVersion : Z; t_currentVersion : Z; t_digest : jstr; t_attemptNumber : Z;
}.
Definition num (z : Z) : jsval := VNum (NInt z).
Definition terminal_value (r : TerminalResultRecord) : jsval :=
  VObj [(js "commandId", VStr (t_commandId r)); (js "resourceId", VStr (t_resourceId r));
        (js "state", VStr (t_state r)); (js "code", VStr (t_code r));
        (js "previousVersion", num (t_previousVersion r)); (js "currentVersion", num (t_currentVersion r));
        (js "digest", VStr (t_digest r)); (js "attemptNumber", num (t_attemptNumber r))].
Definition terminalResultSerializedBytes (r : TerminalResultRecord) : Z := serialized (terminal_value r).

Definition reservedOutstandingBytes (actualCommandBytes : Z) : locally Z :=
  _ ← local_if (negb (safe_from 1 actualCommandBytes)) "Invalid command byte accounting input.";
  mret (Z.max actualCommandBytes terminalResultReservationBytes).

(** What [quarantineEntryReservationBytes] reads of an entry. *)
Record QuarantineEntry := mkEntry {
  e_id : jstr; e_resource_id : jstr; e_resource_incarnation_id : jstr; e_command_type : jstr;
  e_payload : option jstr; e_expected_record_version : option Z;
}.
Definition opt_text (o : option jstr) : jsval := match o with Some s => VStr s | None => VNull end.
Definition opt_num (o : option Z) : jsval := match o with Some z => num z | None => VNull end.
Definition initial_shape (e : QuarantineEntry) : jsval :=
  VObj [(js "id", VStr (e_id e)); (js "resource_id", VStr (e_resource_id e));
        (js "resource_incarnation_id", VStr (e_resource_incarnation_id e));
        (js "command_type", VStr (e_command_type e)); (js "payload", opt_text (e_payload e));
        (js "expected_record_version", opt_num (e_expected_record_version e));
        (js "initiallyAuthorized", VBool true); (js "reserved_bytes", num maxSerializedOutstandingBytes)].
Definition final_shape (e : QuarantineEntry) (state : string) (payload : option jstr) (exportable reserved : Z) : jsval :=
  VObj [(js "id", VStr (e_id e)); (js "resource_id", VStr (e_resource_id e));
        (js "resource_incarnation_id", VStr (e_resource_incarnation_id e));
        (js "command_type", VStr (e_command_type e));
        (js "expected_record_version", opt_num (e_expected_record_version e));
        (js "state", VStr state); (js "payload", opt_text payload);
        (js "exportable", num exportable); (js "reserved_bytes", num reserved)].
Definition quarantineEntryReservationBytes (e : QuarantineEntry) : Z :=
  foldr Z.max terminalResultReservationBytes
    (serialized <$> [initial_shape e; final_shape e "pending_review" (e_payload e) 1 maxSerializedOutstandingBytes;
                     final_shape e "invalidated" None 0 maxSerializedOutstandingBytes]).
End Sizes.

Definition assertCombinedOutstandingCapacity (count bytes : Z) : locally () :=
  _ ← local_if (negb (safe_from 0 count && safe_from 0 bytes)) "Invalid combined capacity accounting input.";
  _ ← local_if (maxOutstandingCommandsAndResults <? count) "quarantine_capacity_exceeded";
  local_if (maxSerializedOutstandingBytes <? bytes) "quarantine_byte_capacity_exceeded".

Definition assertOutstandingCapacity (currentCount currentBytes addedBytes : Z) : locally () :=
  _ ← local_if (negb (safe_from 0 currentCount && safe_from 0 currentBytes && safe_from 1 addedBytes))
        "Invalid capacity accounting input.";
  _ ← local_if (maxOutstandingCommandsAndResults <? currentCount + 1) "command_capacity_exceeded";
  local_if (maxSerializedOutstandingBytes <? currentBytes + addedBytes) "command_byte_capacity_exceeded".

Definition isRetryableUploadStatus (status : Z) : bool := (status =? 429) || (500 <=? status).
Inductive AttemptDecision := decide_reset | decide_retry | decide_exhausted | decide_terminal.
Definition transientAttemptDecision (status completedFailures : Z) : AttemptDecision :=
  if status =? 428 then decide_reset
  else if negb (isRetryableUploadStatus status) then decide_terminal
  else if maxTransientUploadAttempts <=? completedFailures + 1 then decide_exhausted else decide_retry.

(** ** The upload queue *)

(** An entry of the SDK's queue: [{table, op, id, opData?}]. *)
Record CrudEntry := mkCrud { c_table : jstr; c_op : jstr; c_id : jsval; c_opData : option (list (jstr * jsval)) }.

Definition requiredQueueColumns : list jstr :=
  js <$> ["command_type"; "command_version"; "expected_record_version"; "resource_id";
          "resource_incarnation_id"; "upload_correlation_id"]%string.
Definition allowedQueueColumns : list jstr := requiredQueueColumns ++ [js "payload"].

Definition assertPositiveExpectedRecordVersion (v : jsval) : locally Z :=
  match positive_safe v with
  | Some z => Ok z
  | None => local_throw "expectedRecordVersion must be a positive safe integer."
  end.

Definition is_str (v : jsval) : bool := bool_decide (is_Some (as_string v)).
Definition validateEntry (targets : list jstr) (entry : CrudEntry) : locally SpikeCommand :=
  _ ← local_if (negb (str_eqb (c_table entry) "command_queue" && str_eqb (c_op entry) "PUT"))
        "Unsupported local CRUD: only command_queue PUT entries are accepted.";
  data ← match c_opData entry with
         | Some data =>
             if existsb (fun key => negb (in_list allowedQueueColumns key)) (object_keys data)
                || existsb (fun key => negb (in_list (object_keys data) key)) requiredQueueColumns
             then local_throw "Malformed command_queue PUT columns." else Ok data
         | None => local_throw "Malformed command_queue PUT columns."
         end;
  '(id, ty, resource, incarnation) ←
    match c_id entry, get data "command_type", get data "resource_id", get data "resource_incarnation_id" with
    | VStr id, VStr ty, VStr resource, VStr incarnation =>
        if strict_eq (get data "command_version") (num 1) && is_str (get data "upload_correlation_id")
        then Ok (id, ty, resource, incarnation) else local_throw "Malformed command_queue PUT values."
    | _, _, _, _ => local_throw "Malformed command_queue PUT values."
    end;
  version ← assertPositiveExpectedRecordVersion (get data "expected_record_version");
  type ← match List.find (fun t => str_eqb (type_string t) ty) supportedCommandTypes with
         | Some t => Ok t | None => local_throw "Unsupported command_queue command type." end;
  _ ← local_if (in_list targets resource) "Duplicate resource target in one local transaction.";
  payload ← match type, get data "payload" with
            | resource_update, VStr p => Ok (Some p)
            | resource_update, _ => local_throw "Update queue entry requires payload."
            | resource_soft_delete, (VNull | VUndef) => Ok None
            | resource_soft_delete, _ => local_throw "Soft-delete queue entry cannot carry payload."
            end;
  mret (mkCommand id type resource incarnation version payload).

Fixpoint validateEntries (targets : list jstr) (crud : list CrudEntry) : locally (list SpikeCommand) :=
  match crud with
  | [] => Ok []
  | entry :: crud =>
      command ← validateEntry targets entry;
      rest ← validateEntries (resourceId command :: targets) crud;
      mret (command :: rest)
  end.
Definition validateQueuedCrud (crud : list CrudEntry) : locally (list SpikeCommand) :=
  _ ← local_if (negb (Nat.eqb (length crud) 1)) "The M3a queue transaction must contain exactly one command.";
  validateEntries [] crud.

(** ** Tables *)

Record ResultRow := mkResultRow {
  r_resource_id : jstr; r_state : jstr; r_code : jstr; r_previous : Z; r_current : Z;
  r_digest : jstr; r_attempt : Z; r_serialized : Z; r_actual : Z; r_completed : bool;
}.
Record OverlayRow := mkOverlayRow {
  o_resource_id : jstr; o_incarnation : jstr; o_type : jstr; o_payload : option jstr;
  o_expected : Z; o_serialized : Z; o_actual : Z;
}.
Record SessionRow := mkSessionRow {
  s_session : ReplicaSessionSecret; s_checkpoint_state : jstr; s_reset_count : Z;
  s_has_credential : bool; s_client_name : option jstr; s_principal_id : option jstr;
}.
Record ApplicationState := mkApp {
  app_results : gmap jstr ResultRow;
  app_overlays : gmap jstr OverlayRow;
  app_attempts : gmap jstr Z;
  app_session : option SessionRow;
  app_version : Z;
}.

Definition with_results (s : ApplicationState) m := mkApp m (app_overlays s) (app_attempts s) (app_session s) (app_version s).
Definition with_overlays (s : ApplicationState) m := mkApp (app_results s) m (app_attempts s) (app_session s) (app_version s).
Definition with_attempts (s : ApplicationState) m := mkApp (app_results s) (app_overlays s) m (app_session s) (app_version s).
Definition with_session (s : ApplicationState) r := mkApp (app_results s) (app_overlays s) (app_attempts s) r (app_version s).

(** A statement or transaction: a result, or an error and no effect. *)
Definition Sql (A : Type) : Type := ApplicationState -> locally (A * ApplicationState).
#[export] Instance sql_ret : MRet Sql := fun A a s => Ok (a, s).
#[export] Instance sql_bind : MBind Sql := fun A B f m s => '(a, s) ← m s; f a s.
Definition sql_lift {A} (o : locally A) : Sql A := fun s => a ← o; Ok (a, s).
Definition sql_get {A} (f : ApplicationState -> A) : Sql A := fun s => Ok (f s, s).
Definition sql_set (f : ApplicationState -> ApplicationState) : Sql () := fun s => Ok (tt, f s).
Fixpoint sql_each {A} (f : A -> Sql ()) (l : list A) : Sql () :=
  match l with
  | [] => mret ()
  | x :: l => _ ← f x; sql_each f l
  end.

(** ** Reading *)

Definition schemaVersion : Sql Z := sql_get app_version.
Definition hasActiveCommandId (commandId : jstr) (s : ApplicationState) : bool :=
  bool_decide (is_Some (app_results s !! commandId)) || bool_decide (is_Some (app_overlays s !! commandId)).
(** [SELECT id ... UNION ALL SELECT id ... ORDER BY id] *)
Definition ids_of {V} (m : gmap jstr V) : list jstr := (map_to_list m).*1.
Definition activeCommandIds (s : ApplicationState) : list jstr :=
  sort_strings (ids_of (app_results s) ++ ids_of (app_overlays s)).

Definition sum_bytes {V} (bytes : V -> Z) (m : gmap jstr V) : Z := map_fold (fun _ v acc => bytes v + acc) 0 m.
Record Usage := mkUsage { usage_count : Z; usage_bytes : Z }.
Definition capacityUsage (s : ApplicationState) : Usage :=
  mkUsage (Z.of_nat (size (app_results s)) + Z.of_nat (size (app_overlays s)))
          (sum_bytes r_serialized (app_results s) + sum_bytes o_serialized (app_overlays s)).
Definition resultCapacityUsage (s : ApplicationState) : Usage :=
  mkUsage (Z.of_nat (size (app_results s))) (sum_bytes r_serialized (app_results s)).
Definition resultByteAccounting (commandId : jstr) (s : ApplicationState) : option (Z * Z * bool) :=
  (fun r => (r_serialized r, r_actual r, r_completed r)) <$> app_results s !! commandId.

(** Rows in the order of their ids. *)
Definition rows_by_id {V} (m : gmap jstr V) : list (jstr * V) :=
  omap (fun id => (fun v => (id, v)) <$> m !! id) (sort_strings (ids_of m)).
Definition readResults (s : ApplicationState) : list (jstr * ResultRow) := rows_by_id (app_results s).
Definition readOverlayRecords (s : ApplicationState) : list (jstr * OverlayRow) := rows_by_id (app_overlays s).

(** ** Writing *)

Section Writing.
Context `{NumPrinter}.

Definition normalizedCode (code : jstr) : jstr := if str_eqb code "already_applied" then "applied" else code.
Definition compatible (existing : ResultRow) (result : TerminalResultRecord) : bool :=
  str_eqb (r_resource_id existing) (t_resourceId result) && str_eqb (r_state existing) (t_state result)
  && str_eqb (normalizedCode (r_code existing)) (normalizedCode (t_code result))
  && (r_previous existing =? t_previousVersion result) && (r_current existing =? t_currentVersion result)
  && str_eqb (r_digest existing) (t_digest result).

Definition removeOverlay (id : jstr) : Sql () := sql_set (fun s => with_overlays s (delete id (app_overlays s))).
Definition removeAttempt (id : jstr) : Sql () := sql_set (fun s => with_attempts s (delete id (app_attempts s))).

Definition result_row (r : TerminalResultRecord) (reserved actual : Z) : ResultRow :=
  mkResultRow (t_resourceId r) (t_state r) (t_code r) (t_previousVersion r) (t_currentVersion r)
    (t_digest r) (t_attemptNumber r) reserved actual false.

(** The loop body of [persistResults]. *)
Definition persistResult (result : TerminalResultRecord) : Sql () :=
  s ← sql_get (fun s => s);
  _ ← match app_results s !! t_commandId result with
      | Some existing =>
          sql_lift (local_if (negb (compatible existing result)) "command_result_id_conflict")
      | None =>
          let prior := o_serialized <$> app_overlays s !! t_commandId result in
          let actual := terminalResultSerializedBytes result in
          reserved ← sql_lift (match prior with Some b => Ok b | None => reservedOutstandingBytes actual end);
          _ ← sql_lift (local_if (reserved <? actual) "terminal_result_reservation_exceeded");
          _ ← sql_lift (match prior with
                        | Some _ => Ok ()
                        | None => assertOutstandingCapacity (usage_count (capacityUsage s)) (usage_bytes (capacityUsage s)) reserved
                        end);
          sql_set (fun s => with_results s (<[t_commandId result := result_row result reserved actual]> (app_results s)))
      end;
  _ ← removeOverlay (t_commandId result);
  removeAttempt (t_commandId result).
Definition persistResults (results : list TerminalResultRecord) : Sql () := sql_each persistResult results.

Definition mark_completed (r : ResultRow) : ResultRow :=
  mkResultRow (r_resource_id r) (r_state r) (r_code r) (r_previous r) (r_current r) (r_digest r)
    (r_attempt r) (r_serialized r) (r_actual r) true.
Definition markResult (id : jstr) : Sql () :=
  s ← sql_get (fun s => s);
  match app_results s !! id with
  | None => sql_lift (local_throw "Cannot complete a missing command result.")
  | Some r => sql_set (fun s => with_results s (<[id := mark_completed r]> (app_results s)))
  end.
Definition markResultsSdkCompleted (commandIds : list jstr) : Sql () := sql_each markResult commandIds.

(** A command with its accounting, as [addOverlays] takes it. *)
Record BoundCommand := mkBound { b_command : SpikeCommand; b_actual : Z; b_reserved : Z }.
Definition overlay_row (c : BoundCommand) : OverlayRow :=
  mkOverlayRow (resourceId (b_command c)) (resourceIncarnationId (b_command c)) (type_string (type (b_command c)))
    (payload (b_command c)) (expectedRecordVersion (b_command c)) (b_reserved c) (b_actual c).

(** The insertion fails on a duplicate id and on a size that is not positive. *)
Fixpoint addOverlays_loop (batchIds : list jstr) (commands : list BoundCommand) : Sql (list jstr) :=
  match commands with
  | [] => mret []
  | c :: commands =>
      let id := commandId (b_command c) in
      s ← sql_get (fun s => s);
      _ ← sql_lift (local_if (in_list batchIds id || bool_decide (is_Some (app_results s !! id))) "command_id_already_active");
      _ ← sql_lift (throw_if (bool_decide (is_Some (app_overlays s !! id))
                              || negb ((0 <? b_reserved c) && (0 <? b_actual c))) SqliteError);
      _ ← sql_set (fun s => with_overlays s (<[id := overlay_row c]> (app_overlays s)));
      rest ← addOverlays_loop (id :: batchIds) commands;
      mret (id :: rest)
  end.
Definition addOverlays (commands : list BoundCommand) : Sql (list jstr) := addOverlays_loop [] commands.

(** What [bindCommand] measures of a command it has bound to an incarnation. *)
Definition command_value (c : SpikeCommand) : jsval :=
  VObj [(js "commandId", VStr (commandId c)); (js "type", VStr (type_string (type c)));
        (js "resourceId", VStr (resourceId c)); (js "resourceIncarnationId", VStr (resourceIncarnationId c));
        (js "expectedRecordVersion", num (expectedRecordVersion c)); (js "payload", opt_text (payload c))].
Definition bind_command (c : SpikeCommand) : locally BoundCommand :=
  let actual := serialized (command_value c) in
  reserved ← reservedOutstandingBytes actual;
  mret (mkBound c actual reserved).
(** The admission of a bound command by [queueCommands], which counts the
    finalized quarantine with the tables. *)
Definition admit_bound (quarantined : list jstr) (quarantinedBytes : Z) (c : BoundCommand) : Sql (list jstr) :=
  s ← sql_get (fun s => s);
  let id := commandId (b_command c) in
  _ ← sql_lift (local_if (in_list quarantined id || hasActiveCommandId id s) "command_id_already_active");
  let usage := capacityUsage s in
  _ ← sql_lift (assertOutstandingCapacity (usage_count usage + Z.of_nat (length quarantined))
                  (usage_bytes usage + quarantinedBytes) (b_reserved c));
  addOverlays [c].

Definition removeOverlays (commandIds : list jstr) : Sql () := sql_each removeOverlay commandIds.
Definition clearOverlays : Sql () := sql_set (fun s => with_attempts (with_overlays s ∅) ∅).

(** [DELETE ... WHERE id=? AND sdk_completed=1]; whether a row was deleted. *)
Definition acknowledgeResult (commandId : jstr) : Sql bool := fun s =>
  match app_results s !! commandId with
  | Some r => if r_completed r then Ok (true, with_results s (delete commandId (app_results s))) else Ok (false, s)
  | None => Ok (false, s)
  end.

(** The table holds counts up to five. *)
Definition recordTransientFailure (commandId : jstr) : Sql Z := fun s =>
  let n := default 0 (app_attempts s !! commandId) + 1 in
  if 5 <? n then Throw SqliteError
  else Ok (n, with_attempts s (<[commandId := n]> (app_attempts s))).
Definition clearTransientFailure (commandId : jstr) : Sql () := removeAttempt commandId.

(** ** The replica session *)

Definition setReplicaSession (session : ReplicaSessionSecret) (resetCount : Z) (clientName principalId : option jstr) : Sql () :=
  sql_set (fun s => with_session s (Some (mkSessionRow session "client_observed" resetCount true clientName principalId))).
Definition session_value (r : ReplicaSessionSecret) : jsval :=
  VObj [(js "replicaId", VStr (replicaId (session_binding r)));
        (js "replicaEpoch", num (replicaEpoch (session_binding r))); (js "credential", VStr (credential r))].
Definition resumeReplicaSession (clientName principalId : jstr) (s : ApplicationState)
    : locally (option (ReplicaSessionSecret * Z)) :=
  match app_session s with
  | None => Ok None
  | Some row =>
      _ ← local_if (negb (bool_decide (s_client_name row = Some clientName)
                          && bool_decide (s_principal_id row = Some principalId) && s_has_credential row))
            "resume_session_owner_mismatch";
      session ← try_catch (parseReplicaSessionSecret (session_value (s_session row))) (fun m => Throw (LocalError m));
      mret (Some (session, s_reset_count row))
  end.

(** ** Opening the file *)

(** Lines 264-291: the accounting of every row is measured again; a result is
    no longer known to be completed.  Columns an older file lacks have been
    added with their defaults. *)
Definition remeasure_result (id : jstr) (r : ResultRow) : locally ResultRow :=
  let actual := terminalResultSerializedBytes
    (mkTerminal id (r_resource_id r) (r_state r) (r_code r) (r_previous r) (r_current r) (r_digest r) (r_attempt r)) in
  reserved ← reservedOutstandingBytes actual;
  mret (mkResultRow (r_resource_id r) (r_state r) (r_code r) (r_previous r) (r_current r) (r_digest r) (r_attempt r)
          (Z.max (r_serialized r) reserved) actual false).
Definition overlay_value (id : jstr) (o : OverlayRow) : jsval :=
  VObj [(js "commandId", VStr id); (js "type", VStr (o_type o)); (js "resourceId", VStr (o_resource_id o));
        (js "resourceIncarnationId", VStr (o_incarnation o)); (js "expectedRecordVersion", num (o_expected o));
        (js "payload", opt_text (o_payload o))].
Definition remeasure_overlay (id : jstr) (o : OverlayRow) : locally OverlayRow :=
  let actual := serialized (overlay_value id o) in
  reserved ← reservedOutstandingBytes actual;
  mret (mkOverlayRow (o_resource_id o) (o_incarnation o) (o_type o) (o_payload o) (o_expected o)
          (Z.max (o_serialized o) reserved) actual).
Definition map_rows {V} (f : jstr -> V -> locally V) (m : gmap jstr V) : locally (gmap jstr V) :=
  l ← mapM (fun kv : jstr * V => (fun v => (kv.1, v)) <$> f kv.1 kv.2) (map_to_list m);
  mret (list_to_map l).

Definition migrate (fromVersion : Z) (s : ApplicationState) : locally ApplicationState :=
  results ← map_rows remeasure_result (app_results s);
  overlays ← map_rows remeasure_overlay (app_overlays s);
  _ ← local_if (fromVersion <? 0) "Invalid application-state schema version.";
  mret (mkApp results overlays (app_attempts s) (app_session s) applicationStateSchemaVersion).

(** The constructor, on the tables of the file it opens. *)
Definition open_application_state (s : ApplicationState) : locally ApplicationState :=
  _ ← local_if (applicationStateSchemaVersion <? app_version s) "Unsupported application-state schema version.";
  s ← (if app_version s <? applicationStateSchemaVersion then migrate (app_version s) s else Ok s);
  _ ← local_if (existsb (fun id => bool_decide (is_Some (app_overlays s !! id))) (ids_of (app_results s)))
        "command_id_already_active_in_multiple_states";
  mret s.
End Writing.
