(* ===== verification/AppStateSpec.v ===== *)
(** What the application-owned state guarantees: no command is both pending
    and answered, no failure count passes its limit, every reservation covers
    its record, and no operation takes more of the capacity than it checked. *)
From S2P Require Export AppState.

#[global] Arguments serialized : simpl never.
#[global] Arguments terminalResultSerializedBytes : simpl never.

(** ** Sums over a table *)

Section Sums.
Context {V : Type} (bytes : V -> Z).

Lemma sum_bytes_empty : sum_bytes bytes ∅ = 0.
Proof. apply map_fold_empty. Qed.
Lemma sum_bytes_insert m (k : jstr) v : m !! k = None -> sum_bytes bytes (<[k := v]> m) = bytes v + sum_bytes bytes m.
Proof.
  intros Hk. apply (map_fold_insert_L (fun _ v acc => bytes v + acc)); [|done]. intros. lia.
Qed.
Lemma sum_bytes_delete m (k : jstr) v : m !! k = Some v -> sum_bytes bytes m = bytes v + sum_bytes bytes (delete k m).
Proof.
  intros Hk. rewrite <- (insert_delete_id m k v Hk) at 1. rewrite sum_bytes_insert; [done|]. apply lookup_delete_eq.
Qed.
Lemma sum_bytes_replace m (k : jstr) v w :
  m !! k = Some v -> bytes w = bytes v -> sum_bytes bytes (<[k := w]> m) = sum_bytes bytes m.
Proof.
  intros Hk Hw. rewrite (sum_bytes_delete m k v Hk), <- insert_delete_eq.
  rewrite sum_bytes_insert by apply lookup_delete_eq. lia.
Qed.
Lemma sum_bytes_nonneg m : (forall k v, m !! k = Some v -> 0 <= bytes v) -> 0 <= sum_bytes bytes m.
Proof.
  induction m as [|k v m Hk IH] using map_ind; intros Hv; [by rewrite sum_bytes_empty|].
  rewrite sum_bytes_insert by done. assert (0 <= bytes v) by (apply (Hv k); by rewrite lookup_insert_eq).
  assert (0 <= sum_bytes bytes m); [|lia]. apply IH. intros k' v' H'. apply (Hv k').
  rewrite lookup_insert_ne; [done|]. intros ->. congruence.
Qed.
End Sums.

(** A printed object takes at least a byte. *)
Lemma utf8_length_nonneg s : 0 <= utf8_length s.
Proof.
  enough (forall n s, (length s <= n)%nat -> 0 <= utf8_length s) by eauto.
  clear s. intros n. induction n as [|n IH]; intros s Hs; [by destruct s; [|cbn in Hs; lia]|].
  destruct s as [|a [|b s]]; [done|cbn; unfold utf8_unit_length; repeat case_match; lia|].
  pose proof (IH s ltac:(cbn in Hs; lia)) as H1. pose proof (IH (b :: s) ltac:(cbn in *; lia)) as H2.
  cbn [utf8_length] in *. destruct (_ && _); [lia|]. unfold utf8_unit_length. repeat case_match; lia.
Qed.
Lemma serialized_obj_pos {printer : NumPrinter} fs : 0 < serialized (VObj fs).
Proof.
  unfold serialized. unfold stringify. cbn [absent json_text default]. set (rest := _ ++ [125%N]). clearbody rest. change (0 < utf8_length (123%N :: rest)).
  pose proof (utf8_length_nonneg rest) as Hr. destruct rest as [|b r]; [by vm_compute|]. cbn [utf8_length] in *.
  change (is_high 123) with false. cbn [andb]. change (utf8_unit_length 123) with 1. lia.
Qed.

(** ** The invariant *)

Section Invariant.
Context {printer : NumPrinter}.

Definition terminal_of_row (id : jstr) (r : ResultRow) : TerminalResultRecord :=
  mkTerminal id (r_resource_id r) (r_state r) (r_code r) (r_previous r) (r_current r) (r_digest r) (r_attempt r).
(** What is accounted for a row: the exact size of its value, within a
    reservation of at least 512 bytes. *)
Definition reserves (actual reserved : Z) : Prop :=
  0 < actual <= reserved /\ terminalResultReservationBytes <= reserved.
Definition overlay_accounted (id : jstr) (o : OverlayRow) : Prop :=
  o_actual o = serialized (overlay_value id o) /\ reserves (o_actual o) (o_serialized o).
Definition result_accounted (id : jstr) (r : ResultRow) : Prop :=
  r_actual r = terminalResultSerializedBytes (terminal_of_row id r) /\ reserves (r_actual r) (r_serialized r).
Record app_ok (s : ApplicationState) : Prop := {
  ao_disjoint : forall id r, app_results s !! id = Some r -> app_overlays s !! id = None;
  ao_result : forall id r, app_results s !! id = Some r -> result_accounted id r;
  ao_overlay : forall id o, app_overlays s !! id = Some o -> overlay_accounted id o;
  ao_attempts : forall id n, app_attempts s !! id = Some n -> 1 <= n <= maxTransientUploadAttempts;
}.
(** The capacity in use is within the limits. *)
Definition within (s : ApplicationState) : Prop :=
  usage_count (capacityUsage s) <= maxOutstandingCommandsAndResults /\
  usage_bytes (capacityUsage s) <= maxSerializedOutstandingBytes.

Lemma reserved_covers actual reserved : 0 < actual -> reservedOutstandingBytes actual = Ok reserved -> reserves actual reserved.
Proof. intros Ha (? & _ & [= <-])%bind_Ok. unfold reserves. lia. Qed.
Lemma overlay_reserved_pos s id o : app_ok s -> app_overlays s !! id = Some o -> 0 < o_serialized o.
Proof. intros Hs Ho. destruct (ao_overlay s Hs id o Ho) as [_ [? _]]. lia. Qed.
Lemma result_reserved_pos s id r : app_ok s -> app_results s !! id = Some r -> 0 < r_serialized r.
Proof. intros Hs Hr. destruct (ao_result s Hs id r Hr) as [_ [? _]]. lia. Qed.

(** [bindCommand] measures the row that [addOverlays] inserts. *)
Lemma bind_accounted c b : bind_command c = Ok b -> b_command b = c /\ overlay_accounted (commandId c) (overlay_row b).
Proof.
  unfold bind_command. intros (reserved & Hr & [= <-])%bind_Ok. split; [done|]. split; [done|].
  apply (reserved_covers _ reserved); [apply serialized_obj_pos|exact Hr].
Qed.

(** What an operation that returns does to the invariant and to the use of
    capacity. *)
Definition preserving (P : ApplicationState -> Prop) {A} (m : Sql A) : Prop :=
  forall s a s', P s -> m s = Ok (a, s') -> P s'.

Lemma preserving_ret (P : ApplicationState -> Prop) {A} (a : A) : preserving P (mret a).
Proof. by intros s b s' H [= <- <-]. Qed.
Lemma preserving_bind (P : ApplicationState -> Prop) {A B} (m : Sql A) (f : A -> Sql B) :
  preserving P m -> (forall a, preserving P (f a)) -> preserving P (m ≫= f).
Proof.
  intros Hm Hf s b s' Hs H. unfold mbind, sql_bind in H. apply bind_Ok in H as ([a s1] & H1 & H2).
  eapply Hf; [|exact H2]. by eapply Hm.
Qed.
Lemma preserving_lift (P : ApplicationState -> Prop) {A} (o : locally A) : preserving P (sql_lift o).
Proof. intros s a s' Hs H. unfold sql_lift in H. apply bind_Ok in H as (x & _ & [= <- <-]). done. Qed.
Lemma preserving_get (P : ApplicationState -> Prop) {A} (f : ApplicationState -> A) : preserving P (sql_get f).
Proof. by intros s a s' H [= <- <-]. Qed.
Lemma preserving_set (P : ApplicationState -> Prop) f : (forall s, P s -> P (f s)) -> preserving P (sql_set f).
Proof. intros Hf s a s' H [= <- <-]. auto. Qed.
Lemma preserving_each (P : ApplicationState -> Prop) {A} (f : A -> Sql ()) l :
  (forall x, preserving P (f x)) -> preserving P (sql_each f l).
Proof.
  intros Hf. induction l as [|x l IH]; cbn; [apply preserving_ret|]. apply preserving_bind; [done|]. by intros [].
Qed.

(** The statements. *)
Lemma ok_remove_overlay id s : app_ok s -> app_ok (with_overlays s (delete id (app_overlays s))).
Proof.
  intros [H1 H2 H3 H4]. split; cbn; [|done| |done].
  { intros k r Hk. apply lookup_delete_None. right. eauto. }
  intros k o [_ Ho]%lookup_delete_Some. eauto.
Qed.
Lemma ok_remove_attempt id s : app_ok s -> app_ok (with_attempts s (delete id (app_attempts s))).
Proof. intros [H1 H2 H3 H4]. split; cbn; [done..|]. intros k n [_ Hn]%lookup_delete_Some. eauto. Qed.

Lemma ok_overlay id o s :
  app_results s !! id = None -> overlay_accounted id o ->
  app_ok s -> app_ok (with_overlays s (<[id := o]> (app_overlays s))).
Proof.
  intros Hr Ha [H1 H2 H3 H4]. split; cbn; [|done| |done].
  - intros k r Hk. rewrite lookup_insert_ne; [eauto|congruence].
  - intros k o' [[<- <-]|[_ Ho]]%lookup_insert_Some; eauto.
Qed.

(** [removeOverlay] and [removeAttempt], whatever else. *)
Lemma preserving_remove id : preserving app_ok (_ ← removeOverlay id; removeAttempt id).
Proof.
  apply preserving_bind; [|intros _]; apply preserving_set; intros s; [apply ok_remove_overlay|apply ok_remove_attempt].
Qed.

Lemma persistResult_ok r : preserving app_ok (persistResult r).
Proof.
  intros s u s' Hs H. unfold persistResult in H.
  unfold mbind, sql_bind, sql_get in H. cbn [mbind outcome_bind] in H.
  destruct (app_results s !! t_commandId r) as [row|] eqn:Er.
  - destruct (sql_lift _ s) as [[? s1]|] eqn:E1 in H; [|done]. cbn in H. injection H as _ <-.
    unfold sql_lift in E1. apply bind_Ok in E1 as (? & _ & [= _ <-]).
    by apply (ok_remove_attempt (t_commandId r) (with_overlays s _)), ok_remove_overlay.
  - cbv zeta in H.
    destruct (match _ with Some b => Ok b | None => _ end) as [reserved|] eqn:Eres in H; [|done]. cbn in H.
    destruct (local_if (reserved <? _) _) as [[]|] eqn:E2 in H; [|done]. cbn in H.
    apply throw_if_Ok in E2. destruct (match _ with Some _ => Ok () | None => _ end) as [[]|] in H; [|done].
    cbn in H. injection H as _ <-. destruct Hs as [H1 H2 H3 H4]. split; cbn.
    + intros id row [[<- <-]|[_ Hrow]]%lookup_insert_Some; [apply lookup_delete_eq|].
      apply lookup_delete_None. right. eauto.
    + intros id row [[<- <-]|[_ Hrow]]%lookup_insert_Some; [|by apply H2]. cbn.
      apply Z.ltb_ge in E2. split; [by destruct r|]. cbn. split; [split; [apply serialized_obj_pos|done]|].
      destruct (app_overlays s !! t_commandId r) as [o|] eqn:Eo; cbn in Eres.
      * injection Eres as <-. by destruct (H3 _ o Eo) as [_ [_ ?]].
      * by apply reserved_covers in Eres as [_ ?]; [|apply serialized_obj_pos].
    + intros k o [_ Ho]%lookup_delete_Some. eauto.
    + intros k n [_ Hn]%lookup_delete_Some. eauto.
Qed.

Lemma removeOverlay_ok id : preserving app_ok (removeOverlay id).
Proof. apply preserving_set. intros s. apply ok_remove_overlay. Qed.
Lemma markResult_ok id : preserving app_ok (markResult id).
Proof.
  intros s u s' Hs H. unfold markResult, mbind, sql_bind, sql_get in H. cbn in H.
  destruct (app_results s !! id) as [r|] eqn:Er; [|done]. cbn in H. injection H as _ <-.
  destruct Hs as [H1 H2 H3 H4]. split; cbn; [| |done..].
  - intros k r' [[<- _]|[_ Hr]]%lookup_insert_Some; eauto.
  - intros k r' [[<- <-]|[_ Hr]]%lookup_insert_Some; [|by apply H2]. apply (H2 id r Er).
Qed.
Lemma markResults_ok ids : preserving app_ok (markResultsSdkCompleted ids).
Proof. apply preserving_each, markResult_ok. Qed.
Lemma addOverlays_one c s ids s' :
  addOverlays [c] s = Ok (ids, s') ->
  let id := commandId (b_command c) in
  app_results s !! id = None /\ app_overlays s !! id = None /\ 0 < b_reserved c /\ 0 < b_actual c /\
  s' = with_overlays s (<[id := overlay_row c]> (app_overlays s)).
Proof.
  cbn. unfold mbind, sql_bind, sql_get, sql_lift, local_if. cbn. intros H.
  destruct (app_results s !! _) as [r|] eqn:Er; cbn in H; [done|].
  destruct (app_overlays s !! _) as [o|] eqn:Eo; cbn in H; [done|].
  destruct (negb (_ && _)) eqn:Ep in H; cbn in H; [done|]. injection H as _ <-. lia || split_and!; try done; lia.
Qed.
Lemma addOverlays_loop_ok batch cs :
  Forall (fun b => bind_command (b_command b) = Ok b) cs -> preserving app_ok (addOverlays_loop batch cs).
Proof.
  intros Hcs. revert batch. induction Hcs as [|c cs Hc _ IH]; intros batch; [apply preserving_ret|].
  intros s ids s' Hs H. cbn in H. unfold mbind, sql_bind, sql_get, sql_lift, local_if in H. cbn in H.
  destruct (in_list batch _ || _) eqn:E1 in H; cbn in H; [done|].
  destruct (bool_decide _ || _) eqn:E2 in H; cbn in H; [done|].
  apply bind_Ok in H as ([rest s1] & H1 & [= _ <-]).
  apply orb_false_iff in E1 as [_ E1%bool_decide_eq_false]. apply orb_false_iff in E2 as [_ E2].
  eapply (IH _ _ _ _ _ H1). Unshelve. apply ok_overlay; cbn; [|by apply bind_accounted in Hc as [_ ?]|done].
  destruct (app_results s !! _); [by destruct E1|done].
Qed.
Lemma clearOverlays_ok : preserving app_ok clearOverlays.
Proof.
  apply preserving_set. intros s [H1 H2 H3 H4]. split; cbn; [|done|..].
  - intros. apply lookup_empty.
  - intros ? ?. by rewrite lookup_empty.
  - intros ? ?. by rewrite lookup_empty.
Qed.
Lemma acknowledgeResult_ok id : preserving app_ok (acknowledgeResult id).
Proof.
  intros s a s' Hs H. unfold acknowledgeResult in H. destruct (app_results s !! id) as [r|]; [|by injection H as _ <-].
  destruct (r_completed r); injection H as _ <-; [|done]. destruct Hs as [H1 H2 H3 H4]. split; cbn; [| |done..].
  - intros k r' [_ Hk]%lookup_delete_Some. eauto.
  - intros k r' [_ Hk]%lookup_delete_Some. eauto.
Qed.
Lemma recordTransientFailure_ok id : preserving app_ok (recordTransientFailure id).
Proof.
  intros s n s' Hs H. unfold recordTransientFailure in H. destruct (5 <? _) eqn:E; [done|]. injection H as _ <-.
  destruct Hs as [H1 H2 H3 H4]. split; cbn; [done..|]. intros k n' [[<- <-]|[_ Hn]]%lookup_insert_Some; [|by eapply H4].
  destruct (app_attempts s !! id) as [m|] eqn:Em; cbn in *; [pose proof (H4 id m Em)|]; unfold maxTransientUploadAttempts in *; lia.
Qed.
Lemma setReplicaSession_ok ss n c p : preserving app_ok (setReplicaSession ss n c p).
Proof. apply preserving_set. intros s [H1 H2 H3 H4]. by split. Qed.

(** ** Capacity *)

Definition count_of (s : ApplicationState) : Z := usage_count (capacityUsage s).
Definition bytes_of (s : ApplicationState) : Z := usage_bytes (capacityUsage s).
Definition lighter (s s' : ApplicationState) : Prop := count_of s' <= count_of s /\ bytes_of s' <= bytes_of s.
#[local] Instance lighter_preorder : PreOrder lighter.
Proof. split; [by split|]. intros a b c [H1 H2] [H3 H4]. split; lia. Qed.

Lemma lighter_within s s' : lighter s s' -> within s -> within s'.
Proof. unfold lighter, within, count_of, bytes_of. lia. Qed.

Lemma delete_lighter {V} (bytes : V -> Z) (m : gmap jstr V) id :
  (forall k v, m !! k = Some v -> 0 < bytes v) ->
  Z.of_nat (size (delete id m)) <= Z.of_nat (size m) /\ sum_bytes bytes (delete id m) <= sum_bytes bytes m.
Proof.
  intros Hp. destruct (m !! id) as [v|] eqn:E.
  - rewrite (sum_bytes_delete bytes m id v E), map_size_delete, E. pose proof (Hp id v E). lia.
  - by rewrite delete_id.
Qed.

Lemma lighter_remove_overlay id s : app_ok s -> lighter s (with_overlays s (delete id (app_overlays s))).
Proof.
  intros Hs. destruct (delete_lighter o_serialized (app_overlays s) id) as [H1 H2]; [by intros; eapply overlay_reserved_pos|].
  unfold lighter, count_of, bytes_of, capacityUsage. cbn. lia.
Qed.

(** A terminal result takes the place of its command's overlay, or is checked
    against the limits. *)
Lemma persistResult_capacity r s u s' : app_ok s -> persistResult r s = Ok (u, s') -> lighter s s' \/ within s'.
Proof.
  intros Hs H. unfold persistResult, mbind, sql_bind, sql_get in H. cbn [mbind outcome_bind] in H.
  destruct (app_results s !! t_commandId r) as [row|] eqn:Er.
  - destruct (sql_lift _ s) as [[? s1]|] eqn:E1 in H; [|done]. cbn in H. injection H as _ <-.
    unfold sql_lift in E1. apply bind_Ok in E1 as (? & _ & [= _ <-]).
    left. apply (lighter_remove_overlay (t_commandId r) s Hs).
  - cbv zeta in H.
    destruct (match _ with Some b => Ok b | None => _ end) as [reserved|] eqn:Eres in H; [|done]. cbn in H.
    destruct (local_if (reserved <? _) _) as [[]|] eqn:E2 in H; [|done]. cbn in H.
    destruct (match _ with Some _ => Ok () | None => _ end) as [[]|] eqn:E3 in H; [|done]. cbn in H. injection H as _ <-.
    unfold lighter, within, count_of, bytes_of, capacityUsage in *. cbn. rewrite map_size_insert, Er, sum_bytes_insert by done. cbn.
    destruct (app_overlays s !! t_commandId r) as [o|] eqn:Eo; cbn in *.
    + left. injection Eres as <-. rewrite map_size_delete, Eo, (sum_bytes_delete o_serialized _ _ o Eo).
      pose proof (map_size_non_empty_iff (app_overlays s)) as Hne.
      assert (size (app_overlays s) <> 0)%nat by (apply Hne; intros Ho; by rewrite Ho, lookup_empty in Eo). lia.
    + right. rewrite delete_id by done. unfold assertOutstandingCapacity, local_if in E3. inv_ok. cbn in *. lia.
Qed.

Lemma persistResults_capacity rs s u s' : app_ok s -> persistResults rs s = Ok (u, s') -> app_ok s' /\ (within s -> within s').
Proof.
  revert s. induction rs as [|r rs IH]; intros s Hs H; [by injection H as _ <-|].
  cbn in H. unfold mbind, sql_bind in H. apply bind_Ok in H as ([u1 s1] & H1 & H2).
  pose proof (persistResult_ok r s u1 s1 Hs H1) as Hs1. destruct (IH s1 Hs1 H2) as [Hs' Hw]. split; [done|].
  intros Hin. apply Hw. destruct (persistResult_capacity r s u1 s1 Hs H1) as [Hl|]; [|done]. by eapply lighter_within.
Qed.

Lemma admit_inv q qb c s ids s' :
  admit_bound q qb c s = Ok (ids, s') -> 0 <= qb ->
  let id := commandId (b_command c) in
  in_list q id = false /\ app_results s !! id = None /\ app_overlays s !! id = None /\ 0 < b_reserved c /\ 0 < b_actual c /\
  s' = with_overlays s (<[id := overlay_row c]> (app_overlays s)) /\
  count_of s' + Z.of_nat (length q) <= maxOutstandingCommandsAndResults /\ bytes_of s' + qb <= maxSerializedOutstandingBytes.
Proof.
  intros H Hq. unfold admit_bound, mbind, sql_bind, sql_get in H. cbn [mbind outcome_bind] in H.
  destruct (local_if _ _) as [[]|] eqn:E1 in H; [|done]. cbn [sql_lift mbind outcome_bind] in H. unfold sql_lift in H. cbn in H.
  destruct (assertOutstandingCapacity _ _ _) as [[]|] eqn:E2 in H; [|done]. cbn in H.
  apply addOverlays_one in H as (Hr & Ho & Hb & Ha & ->). apply throw_if_Ok, orb_false_iff in E1 as [Hin _].
  cbv zeta. do 6 (split; [done|]). unfold assertOutstandingCapacity, local_if in E2. inv_ok.
  unfold count_of, bytes_of, capacityUsage in *. cbn in *. rewrite map_size_insert, Ho, sum_bytes_insert by done. cbn. lia.
Qed.
End Invariant.

(** ** Histories *)

Section Histories.
Context {printer : NumPrinter}.

(** An operation that returns; one that throws leaves the tables alone.  A
    command is admitted as [bindCommand] has measured it, next to a finalized
    quarantine of the ids [q] with [qb] bytes reserved. *)
Inductive app_step (s s' : ApplicationState) : Prop :=
| step_admit q qb c b ids : 0 <= qb -> bind_command c = Ok b -> admit_bound q qb b s = Ok (ids, s') -> app_step s s'
| step_persist rs : persistResults rs s = Ok (tt, s') -> app_step s s'
| step_mark ids : markResultsSdkCompleted ids s = Ok (tt, s') -> app_step s s'
| step_remove ids : removeOverlays ids s = Ok (tt, s') -> app_step s s'
| step_clear : clearOverlays s = Ok (tt, s') -> app_step s s'
| step_acknowledge id b : acknowledgeResult id s = Ok (b, s') -> app_step s s'
| step_failure id n : recordTransientFailure id s = Ok (n, s') -> app_step s s'
| step_forget id : clearTransientFailure id s = Ok (tt, s') -> app_step s s'
| step_session ss n c p : setReplicaSession ss n c p s = Ok (tt, s') -> app_step s s'
| step_open : open_application_state s = Ok s' -> app_step s s'.

Definition fresh_state : ApplicationState := mkApp ∅ ∅ ∅ None applicationStateSchemaVersion.
Record healthy (s : ApplicationState) : Prop := {
  hs_ok : app_ok s; hs_within : within s; hs_version : app_version s = applicationStateSchemaVersion }.

Lemma healthy_fresh : healthy fresh_state.
Proof.
  split; [split; cbn; intros ? ?; by rewrite lookup_empty| |done].
  unfold within, capacityUsage. cbn. by rewrite !sum_bytes_empty.
Qed.

Lemma open_healthy s : app_ok s -> app_version s = applicationStateSchemaVersion -> open_application_state s = Ok s.
Proof.
  intros Hs Hv. assert (existsb (fun id => bool_decide (is_Some (app_overlays s !! id))) (ids_of (app_results s)) = false) as Hex.
  { apply not_true_iff_false. intros (id & Hin & [o Ho]%bool_decide_eq_true)%existsb_exists.
    unfold ids_of in Hin. apply list_elem_of_In, list_elem_of_fmap in Hin as ([k r] & -> & Hin%elem_of_map_to_list).
    apply (ao_disjoint s Hs) in Hin. cbn in Ho. congruence. }
  unfold open_application_state, local_if. rewrite Hv, Z.ltb_irrefl. cbn [throw_if mbind outcome_bind]. by rewrite Hex.
Qed.

(** The operations that leave both tables of commands as they are or lighter. *)
Lemma lighter_each {A} (f : A -> Sql ()) l s s' :
  (forall x t u t', app_ok t -> f x t = Ok (u, t') -> app_ok t' /\ lighter t t' /\ app_version t' = app_version t) ->
  app_ok s -> sql_each f l s = Ok (tt, s') -> lighter s s' /\ app_version s' = app_version s.
Proof.
  intros Hf. revert s. induction l as [|x l IH]; intros s Hs H; [by injection H as <-|].
  cbn in H. unfold mbind, sql_bind in H. apply bind_Ok in H as ([u s1] & H1 & H2).
  destruct (Hf x s u s1 Hs H1) as (Hs1 & Hl & Hv). destruct (IH s1 Hs1 H2) as [Hl' Hv'].
  split; [|congruence]. unfold lighter in *. lia.
Qed.
Lemma persistResults_version rs s u s' : persistResults rs s = Ok (u, s') -> app_version s' = app_version s.
Proof.
  revert s. induction rs as [|r rs IH]; intros s H; [by injection H as _ <-|].
  cbn in H. unfold mbind, sql_bind in H. apply bind_Ok in H as ([u1 s1] & H1 & H2). rewrite (IH s1 H2). clear -H1.
  unfold persistResult, mbind, sql_bind, sql_get in H1. cbn [mbind outcome_bind] in H1.
  apply bind_Ok in H1 as ([u2 s2] & H2 & H1). cbn in H1. injection H1 as _ <-. cbn.
  destruct (app_results s !! _) in H2.
  - unfold sql_lift in H2. by apply bind_Ok in H2 as (? & _ & [= _ <-]).
  - cbv zeta in H2. unfold sql_lift in H2. repeat (apply bind_Ok in H2 as ([? ?] & (? & _ & [= _ <-])%bind_Ok & H2)).
    by injection H2 as _ <-.
Qed.
Lemma mark_lighter ids s s' :
  app_ok s -> markResultsSdkCompleted ids s = Ok (tt, s') -> lighter s s' /\ app_version s' = app_version s.
Proof.
  apply lighter_each. intros id t u t' Ht H. split; [by eapply markResult_ok|].
  unfold markResult, mbind, sql_bind, sql_get in H. cbn in H. destruct (app_results t !! id) as [r|] eqn:Er; [|done].
  cbn in H. injection H as _ <-. split; [|done]. unfold lighter, count_of, bytes_of, capacityUsage. cbn.
  rewrite map_size_insert, Er, (sum_bytes_replace _ _ _ r) by done. cbn. lia.
Qed.

Lemma app_step_healthy s s' : healthy s -> app_step s s' -> healthy s'.
Proof.
  intros [Hs Hw Hv] [q qb c b ids Hq Hbind H|rs H|ids H|ids H|H|id b H|id n H|id H|ss n c p H|H].
  - apply admit_inv in H as (_ & Hr & _ & Hb & Ha & -> & Hc & Hbytes); [|done].
    apply bind_accounted in Hbind as [<- Hacc]. split; [by apply ok_overlay| |done]. unfold within, count_of, bytes_of in *. lia.
  - pose proof (persistResults_version _ _ _ _ H). apply persistResults_capacity in H as [? ?]; [|done].
    split; [done|auto|congruence].
  - pose proof (markResults_ok ids s tt s' Hs H). apply mark_lighter in H as [? ?]; [|done].
    split; [done|by eapply lighter_within|congruence].
  - assert (app_ok s') by (eapply (preserving_each app_ok); [apply removeOverlay_ok|done|exact H]).
    apply lighter_each in H as [? ?]; [|intros x t u t' Ht [= _ <-]|done].
    + split; [done|by eapply lighter_within|congruence].
    + split_and!; [by apply ok_remove_overlay|by apply lighter_remove_overlay|done].
  - pose proof (clearOverlays_ok s tt s' Hs H) as Hs'. injection H as <-. split; [done| |done].
    eapply lighter_within; [|exact Hw]. unfold lighter, count_of, bytes_of, capacityUsage. cbn. rewrite sum_bytes_empty, map_size_empty.
    pose proof (sum_bytes_nonneg o_serialized (app_overlays s)) as Hn. cut (0 <= sum_bytes o_serialized (app_overlays s)); [lia|].
    apply Hn. intros k o Ho. pose proof (overlay_reserved_pos s k o Hs Ho). lia.
  - pose proof (acknowledgeResult_ok id s b s' Hs H) as Hs'. unfold acknowledgeResult in H.
    destruct (app_results s !! id) as [r|]; [destruct (r_completed r)|]; injection H as _ <-; [|by split..].
    split; [done| |done]. eapply lighter_within; [|exact Hw]. unfold lighter, count_of, bytes_of, capacityUsage. cbn.
    assert (forall k v, app_results s !! k = Some v -> 0 < r_serialized v) as Hp by (intros k v; by apply result_reserved_pos).
    pose proof (delete_lighter r_serialized (app_results s) id Hp). lia.
  - pose proof (recordTransientFailure_ok id s n s' Hs H) as Hs'. unfold recordTransientFailure in H.
    destruct (5 <? _); [done|]. injection H as _ <-. by split.
  - injection H as <-. split; [by apply ok_remove_attempt|done|done].
  - pose proof (setReplicaSession_ok ss n c p s tt s' Hs H) as Hs'. injection H as <-. by split.
  - rewrite open_healthy in H by done. injection H as <-. by split.
Qed.

(** C12: over any history of the operations on the application state, in
    which every command is admitted as [bindCommand] measures it and the bytes
    counted for the finalized quarantine are not negative: each pending
    command and each result records the exact size of its value and has at
    least that and at least 512 bytes reserved, no command is both pending and
    answered, no failure count passes five, at most 64 records and 65536 bytes
    are in use, and the file always opens again as it is. *)
Theorem application_state_healthy s :
  rtc app_step fresh_state s ->
  (forall id o, app_overlays s !! id = Some o ->
     o_actual o = serialized (overlay_value id o) /\
     0 < o_actual o <= o_serialized o /\ 512 <= o_serialized o) /\
  (forall id r, app_results s !! id = Some r -> app_overlays s !! id = None /\
     r_actual r = terminalResultSerializedBytes (terminal_of_row id r) /\
     0 < r_actual r <= r_serialized r /\ 512 <= r_serialized r) /\
  (forall id n, app_attempts s !! id = Some n -> 1 <= n <= maxTransientUploadAttempts) /\
  usage_count (capacityUsage s) <= maxOutstandingCommandsAndResults /\
  usage_bytes (capacityUsage s) <= maxSerializedOutstandingBytes /\
  open_application_state s = Ok s.
Proof.
  intros H. assert (healthy s) as [Hs [Hc Hb] Hv].
  { revert H. generalize healthy_fresh. generalize fresh_state. intros s0 H0 H. induction H; [done|]. eauto using app_step_healthy. }
  split_and!; [apply (ao_overlay s Hs)| |apply (ao_attempts s Hs)|done|done|by apply open_healthy].
  intros id r Hr. split; [by eapply ao_disjoint|]. by apply (ao_result s Hs).
Qed.
End Histories.

(** ** A concrete history *)

Module AppSample.
Definition no_numbers : NumPrinter := fun _ => [].
#[local] Existing Instance no_numbers.
Definition state_after {A} (m : Sql A) (s : ApplicationState) : ApplicationState :=
  match m s with Ok (_, s') => s' | Throw _ => s end.
Definition command : SpikeCommand := ProtocolSample.update 4 "note".
Definition bound : BoundCommand := mkBound command (serialized (command_value command)) 512.
Definition applied : TerminalResultRecord :=
  mkTerminal (commandId command) (resourceId command) "applied" "applied" 4 5 "a digest" 1.
Definition queued : ApplicationState := state_after (admit_bound [] 0 bound) fresh_state.
Definition answered : ApplicationState := state_after (persistResults [applied]) queued.
End AppSample.

Module AppWitnesses.
Import AppSample.
#[local] Existing Instance no_numbers.

Lemma application_state_healthy_witness :
  usage_count (capacityUsage answered) = 1 /\ usage_bytes (capacityUsage answered) = 512 /\
  open_application_state answered = Ok answered.
Proof.
  split; [vm_compute; reflexivity|]. split; [vm_compute; reflexivity|].
  apply (application_state_healthy answered).
  apply (rtc_l _ _ queued); [apply (step_admit _ _ [] 0 command bound [commandId command]); [done|vm_compute; reflexivity..]|].
  apply rtc_once. apply (step_persist _ _ [applied]). vm_compute. reflexivity.
Defined.
End AppWitnesses.
