(* ===== verification/Quarantine.v ===== *)
(** The sidecar files of the harness client:
    [spikes/powersync/harness/src/client.ts], lines 657-852.  The reset state
    and the quarantine of commands a reset takes out of the upload queue, as
    the JSON they are kept in. *)
From S2P Require Export AppState.

(** [Number(s)] of a text, which the platform reads. *)
Class NumReader := string_number : jstr -> jsnum.

Definition to_number `{NumPrinter, NumReader} (v : jsval) : jsnum :=
  match v with
  | VUndef | VFun | VObj _ => NNaN
  | VNull => NInt 0
  | VBool b => NInt (if b then 1 else 0)
  | VNum n => n
  | VStr s => string_number s
  | VArr _ => string_number (to_string v)
  end.

(** A file: what it is and holds. *)
Record SideFile := mkFile { f_regular : bool; f_private : bool; f_json : option jsval }.
Definition private_file (v : jsval) : SideFile := mkFile true true (Some v).
Definition assertPrivateRegularFile (f : option SideFile) : thrown bool :=
  match f with
  | None => Ok false
  | Some f =>
      _ ← ensure (f_regular f) "resume_sidecar_not_regular";
      _ ← ensure (f_private f) "resume_sidecar_mode_invalid";
      mret true
  end.
Definition parse_file (f : SideFile) : thrown jsval :=
  match f_json f with Some v => Ok v | None => Throw (js "SyntaxError") end.

(** ** The reset state *)

(** A phase that is a string of the three; the check of the file lets other
    values through whose text is one of them. *)
Inductive Phase := phase_quarantined | phase_session_staged | phase_cleared | odd_phase (v : jsval).
Definition phase_value (p : Phase) : jsval :=
  match p with
  | phase_quarantined => VStr "quarantined" | phase_session_staged => VStr "session_staged"
  | phase_cleared => VStr "cleared" | odd_phase v => v
  end.
Definition phase_names : list jstr := js <$> ["quarantined"; "session_staged"; "cleared"]%string.
Record ResetState := mkReset {
  rs_phase : Phase; rs_request : jstr; rs_old : ReplicaSessionSecret; rs_new : option ReplicaSessionSecret }.
Definition staged (p : Phase) : bool := match p with phase_session_staged | phase_cleared => true | _ => false end.

Definition parseResetState `{NumPrinter} (value : jsval) : thrown ResetState :=
  match as_record value with
  | None => Throw (js "invalid_reset_state")
  | Some fs =>
      let allowed := js <$> ["version"; "phase"; "resetRequestId"; "oldSession"; "newSession"]%string in
      let phase := get fs "phase" in
      match get fs "resetRequestId" with
      | VStr request =>
          _ ← ensure (negb (existsb (fun key => negb (in_list allowed key)) (object_keys fs))
                      && strict_eq (get fs "version") (num 2) && in_list phase_names (to_string phase)
                      && commandUuid request) "invalid_reset_state";
          let phase := match phase with
                       | VStr s => if str_eqb s "quarantined" then phase_quarantined
                                   else if str_eqb s "session_staged" then phase_session_staged else phase_cleared
                       | v => odd_phase v
                       end in
          oldSession ← parseReplicaSessionSecret (get fs "oldSession");
          newSession ← match get fs "newSession" with
                       | VUndef => Ok None
                       | v => Some <$> parseReplicaSessionSecret v
                       end;
          _ ← ensure (Bool.eqb (staged phase) (bool_decide (is_Some newSession))) "invalid_reset_state_phase";
          mret (mkReset phase request oldSession newSession)
      | _ => Throw (js "invalid_reset_state")
      end
  end.
Definition reset_value (s : ResetState) : jsval :=
  VObj ([(js "version", num 2); (js "phase", phase_value (rs_phase s)); (js "resetRequestId", VStr (rs_request s));
         (js "oldSession", session_value (rs_old s))]
        ++ match rs_new s with Some n => [(js "newSession", session_value n)] | None => [] end).
Definition readResetState `{NumPrinter} (f : option SideFile) : thrown (option ResetState) :=
  present ← assertPrivateRegularFile f;
  match f with
  | Some f => v ← parse_file f; Some <$> parseResetState v
  | None => mret None
  end.

(** ** Quarantine *)

Inductive ReviewState := pending_review | invalidated.
#[export] Instance ReviewState_eq_dec : EqDecision ReviewState.
Proof. solve_decision. Defined.
Definition review_text (s : ReviewState) : jstr := match s with pending_review => "pending_review" | invalidated => "invalidated" end.
Definition exportable_of (s : ReviewState) : Z := match s with pending_review => 1 | invalidated => 0 end.

Record QuarantinedCommand := mkQuarantined { q_entry : QuarantineEntry; q_state : ReviewState; q_reserved : Z }.
Record QuarantineIntent := mkIntent { i_entry : QuarantineEntry; i_authorized : bool; i_reserved : Z }.
Record QuarantineStore := mkStore { qs_finalized : list QuarantinedCommand; qs_pending : list QuarantineIntent }.
Definition q_id (c : QuarantinedCommand) : jstr := e_id (q_entry c).
Definition i_id (i : QuarantineIntent) : jstr := e_id (i_entry i).

Definition entry_fields (e : QuarantineEntry) : list (jstr * jsval) :=
  [(js "id", VStr (e_id e)); (js "resource_id", VStr (e_resource_id e));
   (js "resource_incarnation_id", VStr (e_resource_incarnation_id e)); (js "command_type", VStr (e_command_type e));
   (js "payload", opt_text (e_payload e)); (js "expected_record_version", opt_num (e_expected_record_version e))].
Definition finalized_value (c : QuarantinedCommand) : jsval :=
  VObj (entry_fields (q_entry c) ++ [(js "state", VStr (review_text (q_state c)));
          (js "exportable", num (exportable_of (q_state c))); (js "reserved_bytes", num (q_reserved c))]).
Definition intent_value (i : QuarantineIntent) : jsval :=
  VObj (entry_fields (i_entry i) ++ [(js "initiallyAuthorized", VBool (i_authorized i)); (js "reserved_bytes", num (i_reserved i))]).
Definition store_value (s : QuarantineStore) : jsval :=
  VObj [(js "version", num 2); (js "finalized", VArr (finalized_value <$> qs_finalized s));
        (js "pending", VArr (intent_value <$> qs_pending s))].

Definition no_phase (phase : option Phase) : bool := match phase with Some _ => false | None => true end.
Definition validateQuarantineResetLink (existed : bool) (pendingCount : Z) (phase : option Phase) : thrown () :=
  _ ← throw_if ((0 <? pendingCount) && no_phase phase) (js "pending_quarantine_requires_reset_state");
  throw_if (negb existed && (pendingCount =? 0) && negb (no_phase phase)) (js "reset_state_missing_quarantine_sidecar").

(** Reading entries back. *)
Section Reading.
Context {printer : NumPrinter} {reader : NumReader}.

Definition quarantineString (value : jsval) (field : string) : thrown jstr :=
  match value with
  | VStr s => if str_truthy s then Ok s else Throw (js "Invalid quarantine " ++ js field ++ js ".")
  | _ => Throw (js "Invalid quarantine " ++ js field ++ js ".")
  end.
Definition safe_number (v : jsval) : option Z :=
  match to_number v with NInt z => if Z.abs z <=? max_safe then Some z else None | NNegZero => Some 0 | _ => None end.

Definition normalizeQuarantineReservation (raw : jsval) (e : QuarantineEntry) : thrown Z :=
  let minimum := quarantineEntryReservationBytes e in
  let reserved := match safe_number raw with
                  | Some candidate => if minimum <=? candidate then candidate else minimum
                  | None => minimum
                  end in
  _ ← throw_if (maxSerializedOutstandingBytes <? reserved) (js "Invalid quarantine reservation.");
  mret reserved.

Definition quarantine_payload (v : jsval) : thrown (option jstr) :=
  match v with VNull => Ok None | v => Some <$> quarantineString v "payload" end.
Definition quarantine_version (v : jsval) : thrown Z :=
  match safe_number v with
  | Some z => if z <? 1 then Throw (js "Invalid quarantine expected version.") else Ok z
  | None => Throw (js "Invalid quarantine expected version.")
  end.
(** The fields two kinds of entries share. *)
Definition quarantine_base (fs : list (jstr * jsval)) (payload : option jstr) (version : option Z) : thrown QuarantineEntry :=
  id ← quarantineString (get fs "id") "id";
  resource ← quarantineString (get fs "resource_id") "resource_id";
  incarnation ← quarantineString (get fs "resource_incarnation_id") "resource_incarnation_id";
  type ← quarantineString (get fs "command_type") "command_type";
  mret (mkEntry id resource incarnation type payload version).

Definition review_state (v : jsval) : option ReviewState :=
  if strict_eq v (VStr "pending_review") then Some pending_review
  else if strict_eq v (VStr "invalidated") then Some invalidated else None.

Definition normalizeFinalizedQuarantine (raw : jsval) (allowLegacyMissingVersion : bool) : thrown QuarantinedCommand :=
  match as_record raw with
  | None => Throw (js "Invalid finalized quarantine entry.")
  | Some fs =>
      match review_state (get fs "state") with
      | None => Throw (js "Invalid finalized quarantine state.")
      | Some state =>
          payload ← quarantine_payload (get fs "payload");
          let exportable := to_number (get fs "exportable") in
          _ ← throw_if (match state with
                        | pending_review => negb (num_eqb exportable (NInt 1))
                        | invalidated => negb (num_eqb exportable (NInt 0)) || bool_decide (is_Some payload)
                        end) (js "Inconsistent finalized quarantine entry.");
          version ← match get fs "expected_record_version" with
                    | VNull => Ok None
                    | VUndef => if allowLegacyMissingVersion then Ok None else Some <$> quarantine_version VUndef
                    | v => Some <$> quarantine_version v
                    end;
          base ← quarantine_base fs payload version;
          reserved ← normalizeQuarantineReservation (get fs "reserved_bytes") base;
          let normalized := mkQuarantined base state reserved in
          _ ← throw_if (reserved <? serialized (finalized_value normalized))
                (js "Finalized quarantine representation exceeds reservation.");
          mret normalized
      end
  end.

Definition normalizePendingQuarantine (raw : jsval) : thrown QuarantineIntent :=
  match as_record raw with
  | None => Throw (js "Invalid pending quarantine entry.")
  | Some fs =>
      match get fs "initiallyAuthorized" with
      | VBool authorized =>
          payload ← quarantine_payload (get fs "payload");
          _ ← throw_if (negb authorized && bool_decide (is_Some payload)) (js "Denied quarantine intent retained payload.");
          version ← quarantine_version (get fs "expected_record_version");
          base ← quarantine_base fs payload (Some version);
          reserved ← normalizeQuarantineReservation (get fs "reserved_bytes") base;
          let normalized := mkIntent base authorized reserved in
          _ ← throw_if (reserved <? serialized (intent_value normalized))
                (js "Pending quarantine representation exceeds reservation.");
          mret normalized
      | _ => Throw (js "Invalid pending quarantine authorization state.")
      end
  end.

Definition store_ids (s : QuarantineStore) : list jstr := (q_id <$> qs_finalized s) ++ (i_id <$> qs_pending s).
Fixpoint has_duplicate (ids seen : list jstr) : bool :=
  match ids with
  | [] => false
  | id :: ids => in_list seen id || has_duplicate ids (id :: seen)
  end.
Definition assertUniqueQuarantineIds (s : QuarantineStore) : thrown () :=
  throw_if (has_duplicate (store_ids s) []) (js "quarantine_duplicate_id_conflict").

(** The loop over the commands of a file of version 1. *)
Fixpoint legacy_commands (l : list jsval) : thrown (list QuarantinedCommand * list QuarantineIntent) :=
  match l with
  | [] => Ok ([], [])
  | raw :: l =>
      match review_state (prop raw "state") with
      | Some _ =>
          f ← normalizeFinalizedQuarantine raw true;
          rest ← legacy_commands l;
          mret (f :: fst rest, snd rest)
      | None =>
          match prop raw "expected_record_version" with
          | VUndef => Throw (js "legacy_unfinished_reset_missing_expected_record_version")
          | _ =>
              p ← normalizePendingQuarantine raw;
              rest ← legacy_commands l;
              mret (fst rest, p :: snd rest)
          end
      end
  end.

Record StoreRead := mkRead { sr_store : QuarantineStore; sr_existed : bool; sr_migrated : bool }.
Definition as_array (v : jsval) : option (list jsval) := match v with VArr l => Some l | _ => None end.
Definition current_store (fs : list (jstr * jsval)) : option (list jsval * list jsval) :=
  if strict_eq (get fs "version") (num 2)
  then f ← as_array (get fs "finalized"); p ← as_array (get fs "pending"); Some (f, p) else None.
Definition legacy_store (fs : list (jstr * jsval)) : option (list jsval) :=
  if strict_eq (get fs "version") (num 1) then as_array (get fs "commands") else None.
(** The store, and whether it was in the old format. *)
Definition parse_store (value : jsval) : thrown (QuarantineStore * bool) :=
  fs ← match as_record value with Some fs => Ok fs | None => Throw (js "Invalid application quarantine sidecar.") end;
  match current_store fs, legacy_store fs with
  | Some (finalized, pending), _ =>
      f ← mapM (fun entry => normalizeFinalizedQuarantine entry false) finalized;
      p ← mapM normalizePendingQuarantine pending;
      _ ← assertUniqueQuarantineIds (mkStore f p);
      mret (mkStore f p, false)
  | None, Some commands =>
      fp ← legacy_commands commands;
      _ ← assertUniqueQuarantineIds (mkStore (fst fp) (snd fp));
      mret (mkStore (fst fp) (snd fp), true)
  | None, None => Throw (js "Invalid application quarantine sidecar.")
  end.
Definition readQuarantineStore (f : option SideFile) : thrown StoreRead :=
  match f with
  | None => Ok (mkRead (mkStore [] []) false false)
  | Some f => v ← parse_file f; sm ← parse_store v; mret (mkRead (fst sm) true (snd sm))
  end.
End Reading.

Definition finalizedQuarantineBytes (l : list QuarantinedCommand) : Z := foldl (fun total c => total + q_reserved c) 0 l.
Definition pendingQuarantineBytes (l : list QuarantineIntent) : Z := foldl (fun total i => total + i_reserved i) 0 l.

Definition mergeFinalizedQuarantine `{Collation} (existing additions : list QuarantinedCommand) : thrown (list QuarantinedCommand) :=
  let all := existing ++ additions in
  _ ← throw_if (has_duplicate (q_id <$> all) []) (js "quarantine_duplicate_id_conflict");
  mret (sort_collated q_id all).

(** What [persistQuarantineAcknowledgement] writes: the first command of that
    id is gone, and so is everything pending. *)
Definition without_quarantined (commandId : jstr) (current : list QuarantinedCommand) : option (list QuarantinedCommand) :=
  let index := findIndex (fun c => str_eqb (q_id c) commandId) current in
  if index <? 0 then None else Some (delete (Z.to_nat index) current).
