(* ===== verification/QuarantineSpec.v ===== *)
(** What the quarantine of the harness client guarantees: a reservation covers
    every form its entry is kept in, the sidecar reads back as it was written
    and only well-formed sidecars are read, and merging loses nothing. *)
From S2P Require Export AppStateSpec Quarantine.

(** ** The size of a printed object *)

Lemma utf8_cons c s : is_high c = false -> utf8_length (c :: s) = utf8_unit_length c + utf8_length s.
Proof. intros Hc. cbn. rewrite Hc. destruct s; cbn [andb]; [cbn; lia|done]. Qed.
Lemma utf8_app a c b : is_low c = false -> utf8_length (a ++ c :: b) = utf8_length a + utf8_length (c :: b).
Proof.
  intros Hc. enough (forall n a, (length a <= n)%nat -> utf8_length (a ++ c :: b) = utf8_length a + utf8_length (c :: b)) by eauto.
  clear a. intros n. induction n as [|n IH]; intros a Ha; [by destruct a; [|cbn in Ha; lia]|].
  destruct a as [|x [|y a]]; [done| |].
  - change ([x] ++ c :: b) with (x :: c :: b). cbn [utf8_length]. rewrite Hc, andb_false_r. done.
  - change ((x :: y :: a) ++ c :: b) with (x :: y :: (a ++ c :: b)).
    pose proof (IH a ltac:(cbn in Ha; lia)) as H1. pose proof (IH (y :: a) ltac:(cbn in *; lia)) as H2.
    change ((y :: a) ++ c :: b) with (y :: (a ++ c :: b)) in H2.
    change (utf8_length (x :: y :: (a ++ c :: b))) with
      (if is_high x && is_low y then 4 + utf8_length (a ++ c :: b) else utf8_unit_length x + utf8_length (y :: (a ++ c :: b))).
    change (utf8_length (x :: y :: a)) with
      (if is_high x && is_low y then 4 + utf8_length a else utf8_unit_length x + utf8_length (y :: a)).
    rewrite H1, H2. destruct (_ && _); lia.
Qed.

Section Size.
Context {printer : NumPrinter}.

Definition value_size (v : jsval) : Z := utf8_length (json_text v).
Definition field_size (kv : jstr * jsval) : Z := utf8_length (quote kv.1) + 1 + value_size kv.2.
Definition fields_size (fs : list (jstr * jsval)) : Z := foldr (fun kv n => 1 + field_size kv + n) 0 fs.

Lemma field_text_size kv s : utf8_length (field_text kv ++ s) = utf8_length (quote kv.1) + 1 + utf8_length (json_text kv.2 ++ s).
Proof.
  unfold field_text. rewrite <- app_assoc, <- app_comm_cons, utf8_app, utf8_cons by done.
  change (utf8_unit_length 58) with 1. lia.
Qed.
Lemma fields_text_size fs :
  utf8_length (foldr (fun y acc => 44%N :: y ++ acc) [] (field_text <$> fs) ++ [125%N]) = fields_size fs + 1.
Proof.
  induction fs as [|kv fs IH]; [done|]. cbn [fmap list_fmap foldr]. rewrite <- app_comm_cons, <- app_assoc.
  rewrite utf8_cons by done. rewrite field_text_size. change (utf8_unit_length 44) with 1. cbn [fields_size foldr]. fold (fields_size fs).
  unfold field_size, value_size. destruct fs as [|kv' fs].
  - cbn [fmap list_fmap foldr app]. rewrite utf8_app by done. change (utf8_length [125%N]) with 1. cbn. lia.
  - cbn [fmap list_fmap foldr] in *. rewrite <- ?app_comm_cons in *. rewrite utf8_app by done. lia.
Qed.

(** An object's size is the sum of its fields', whatever their order. *)
Lemma serialized_obj kv fs :
  Forall (fun kv => plain_json kv.2) (kv :: fs) -> serialized (VObj (kv :: fs)) = 1 + fields_size (kv :: fs).
Proof.
  intros Hp. change (serialized (VObj (kv :: fs))) with (utf8_length (json_text (VObj (kv :: fs)))).
  rewrite json_text_obj by (intros k v Hin; rewrite Forall_forall in Hp; apply (Hp (k, v) Hin)).
  rewrite utf8_cons by done. cbn [fmap list_fmap commas]. rewrite <- app_assoc, field_text_size.
  change (utf8_unit_length 123) with 1. pose proof (fields_text_size fs) as Hf.
  cbn [fields_size foldr]. fold (fields_size fs). unfold field_size, value_size.
  destruct fs as [|kv' fs]; cbn [fmap list_fmap foldr app] in *.
  - rewrite utf8_app by done. change (utf8_length [125%N]) with 1. cbn. lia.
  - rewrite <- ?app_comm_cons in *. rewrite utf8_app by done. lia.
Qed.

Lemma value_size_null : value_size VNull = 4. Proof. done. Qed.
Lemma value_size_true : value_size (VBool true) = 4. Proof. done. Qed.
Lemma value_size_false : value_size (VBool false) = 5. Proof. done. Qed.
Lemma value_size_str s : value_size (VStr s) = utf8_length (quote s). Proof. done. Qed.
Lemma value_size_str_bound s : 2 <= value_size (VStr s).
Proof.
  unfold value_size. cbn [json_text]. unfold quote. rewrite utf8_cons, utf8_app by done.
  pose proof (utf8_length_nonneg (quote_body s)). change (utf8_unit_length 34) with 1. change (utf8_length [34%N]) with 1. lia.
Qed.

(** A reservation prints in at most five digits. *)
Lemma dec_loop_length fuel n acc k :
  (n < 10 ^ N.of_nat (S k))%N -> (length (dec_loop fuel n acc) <= S k + length acc)%nat.
Proof.
  revert n acc k. induction fuel as [|fuel IH]; intros n acc k Hn; cbn [dec_loop]; [cbn; lia|].
  destruct (n <? 10)%N eqn:E; [cbn; lia|]. destruct k as [|k]; [change (10 ^ N.of_nat 1)%N with 10%N in Hn; lia|].
  assert (n / 10 < 10 ^ N.of_nat (S k))%N as Hd.
  { apply N.Div0.div_lt_upper_bound. replace (N.of_nat (S (S k))) with (N.succ (N.of_nat (S k))) in Hn by lia.
    by rewrite N.pow_succ_r' in Hn. }
  specialize (IH _ ((48 + n mod 10)%N :: acc) k Hd). cbn [length] in IH. lia.
Qed.
Lemma digits_utf8 s : Forall (fun c => is_digit c = true) s -> utf8_length s = Z.of_nat (length s).
Proof.
  induction 1 as [|c s Hc _ IH]; [done|]. unfold is_digit in Hc.
  rewrite utf8_cons, IH by (unfold is_high; lia). unfold utf8_unit_length. replace (c <? 128)%N with true by lia. cbn. lia.
Qed.
Lemma value_size_digits z k :
  0 <= z -> (Z.to_N z < 10 ^ N.of_nat (S k))%N -> z < 10 ^ 21 -> 1 <= value_size (num z) <= Z.of_nat (S k).
Proof.
  intros Hz Hk Hp. unfold value_size, num. cbn [json_text num_text].
  replace (Z.abs z <? 10 ^ 21) with true by lia. unfold print_int. replace (z <? 0) with false by lia.
  rewrite digits_utf8 by apply dec_digits_digits. pose proof (dec_digits_nonempty (Z.to_N z)) as Hne.
  pose proof (dec_loop_length (S (N.to_nat (N.size (Z.to_N z)))) (Z.to_N z) [] k Hk) as Hl.
  fold (dec_digits (Z.to_N z)) in Hl. destruct (dec_digits (Z.to_N z)); [done|]. cbn [length] in *. lia.
Qed.
Lemma value_size_reserved z : 0 <= z <= maxSerializedOutstandingBytes -> 1 <= value_size (num z) <= 5.
Proof.
  unfold maxSerializedOutstandingBytes. intros Hz.
  apply (value_size_digits z 4); [lia|change (10 ^ N.of_nat 5)%N with 100000%N; lia|lia].
Qed.
Lemma value_size_safe z : 0 <= z <= max_safe -> 1 <= value_size (num z) <= 16.
Proof.
  unfold max_safe. intros Hz.
  apply (value_size_digits z 15); [lia|change (10 ^ N.of_nat 16)%N with 10000000000000000%N; lia|lia].
Qed.

(** Text that needs no escape is two quotes longer when it is printed. *)
Definition printable (u : N) : Prop := (35 <= u < 92 \/ 92 < u < 127)%N.
Lemma quote_printable s : Forall printable s -> value_size (VStr s) = Z.of_nat (length s) + 2.
Proof.
  intros Hs. unfold value_size. cbn [json_text].
  assert (quote_body s = s) as Hq.
  { induction Hs as [|u s Hu Hs IH]; [done|]. assert (quote_unit u = [u] /\ is_high u = false) as [Hu1 Hu2].
    { unfold printable in Hu. unfold quote_unit, is_high, is_low. repeat (case_match; [lia|]). split; [done|lia]. }
    destruct s as [|v s]; [done|]. change (quote_body (u :: v :: s)) with
      (if is_high u && is_low v then u :: v :: quote_body s else quote_unit u ++ quote_body (v :: s)).
    rewrite Hu2, Hu1, IH. done. }
  assert (utf8_length s = Z.of_nat (length s)) as Hl.
  { clear Hq. induction Hs as [|u s Hu Hs IH]; [done|]. unfold printable in Hu.
    rewrite utf8_cons, IH by (unfold is_high; lia). unfold utf8_unit_length. replace (u <? 128)%N with true by lia. cbn [length]. lia. }
  unfold quote. rewrite Hq, utf8_cons, utf8_app by done. rewrite Hl.
  change (utf8_unit_length 34) with 1. change (utf8_length [34%N]) with 1. lia.
Qed.
End Size.

(** ** Reservations *)

Section Reservations.
Context {printer : NumPrinter}.

Definition version_ok (v : option Z) : Prop := forall z, v = Some z -> 1 <= z <= max_safe.
Definition without_payload (e : QuarantineEntry) : QuarantineEntry :=
  mkEntry (e_id e) (e_resource_id e) (e_resource_incarnation_id e) (e_command_type e) None (e_expected_record_version e).
Definition reserves (e : QuarantineEntry) (reserved : Z) : Prop :=
  quarantineEntryReservationBytes e <= reserved <= maxSerializedOutstandingBytes.

Lemma plain_entry_value (o : option jstr) : plain_json (opt_text o).
Proof. destruct o; constructor. Qed.
Lemma plain_version v : version_ok v -> plain_json (opt_num v).
Proof. intros Hv. destruct v as [z|]; constructor. specialize (Hv z eq_refl). unfold max_safe in Hv. lia. Qed.
Lemma plain_reserved z : 0 <= z <= maxSerializedOutstandingBytes -> plain_json (num z).
Proof. intros Hz. constructor. unfold maxSerializedOutstandingBytes in Hz. lia. Qed.

Ltac plain_fields :=
  repeat (apply List.Forall_cons; [cbn [snd]; first [done | apply plain_entry_value | by apply plain_version | by apply plain_reserved | by constructor]|]);
  apply List.Forall_nil.
(** The sizes of the shapes, from the sizes of their texts. *)
Ltac shape_sizes :=
  rewrite !serialized_obj by plain_fields; cbn [fields_size foldr fst snd]; unfold field_size; cbn [fst snd];
  repeat match goal with |- context [utf8_length (quote (js ?s))] =>
    let n := eval vm_compute in (utf8_length (quote (js s))) in change (utf8_length (quote (js s))) with n end;
  repeat match goal with |- context [value_size (VStr (js ?s))] =>
    let n := eval vm_compute in (value_size (VStr (js s))) in change (value_size (VStr (js s))) with n end;
  change (value_size (opt_text None)) with 4; change (value_size (VBool true)) with 4; change (value_size (VBool false)) with 5; change (value_size VNull) with 4;
  change (value_size (num 0)) with 1; change (value_size (num 1)) with 1;
  change (value_size (num maxSerializedOutstandingBytes)) with 5.

Lemma reserves_bounds e r : reserves e r -> 0 <= r <= maxSerializedOutstandingBytes /\ terminalResultReservationBytes <= r.
Proof.
  unfold reserves, quarantineEntryReservationBytes. cbn [fmap list_fmap foldr]. unfold terminalResultReservationBytes. lia.
Qed.

(** An entry of version 2 fits its reservation in every form: as an intent,
    as a command to review, and invalidated. *)
Lemma intent_covered e a r :
  version_ok (e_expected_record_version e) -> (a = false -> e_payload e = None) -> reserves e r ->
  serialized (intent_value (mkIntent e a r)) <= r.
Proof.
  intros Hv Ha Hr. pose proof (reserves_bounds e r Hr) as [Hb _]. pose proof (value_size_reserved r Hb) as Hs. unfold intent_value, entry_fields. cbn [i_entry i_authorized i_reserved app].
  unfold reserves, quarantineEntryReservationBytes, initial_shape, final_shape in Hr. cbn [fmap list_fmap foldr] in Hr.
  revert Hr. destruct a; [|rewrite Ha by done]; shape_sizes; unfold terminalResultReservationBytes; lia.
Qed.
Lemma finalized_covered e s r :
  version_ok (e_expected_record_version e) -> reserves e r -> serialized (finalized_value (mkQuarantined e s r)) <= r.
Proof.
  intros Hv Hr. pose proof (reserves_bounds e r Hr) as [Hb _]. pose proof (value_size_reserved r Hb) as Hs. unfold finalized_value, entry_fields. cbn [q_entry q_state q_reserved app].
  unfold reserves, quarantineEntryReservationBytes, initial_shape, final_shape in Hr. cbn [fmap list_fmap foldr] in Hr.
  revert Hr. destruct s; cbn [review_text exportable_of]; shape_sizes; unfold terminalResultReservationBytes; lia.
Qed.
End Reservations.

(** ** Sidecars *)

Section Sidecars.
Context {printer : NumPrinter} {reader : NumReader}.

Record entry_ok (e : QuarantineEntry) : Prop := {
  en_id : e_id e <> []; en_resource : e_resource_id e <> []; en_incarnation : e_resource_incarnation_id e <> [];
  en_type : e_command_type e <> []; en_payload : e_payload e <> Some []; en_version : version_ok (e_expected_record_version e) }.
Record finalized_ok (c : QuarantinedCommand) : Prop := {
  fk_entry : entry_ok (q_entry c); fk_reserves : reserves (q_entry c) (q_reserved c);
  fk_payload : q_state c = invalidated -> e_payload (q_entry c) = None }.
Record intent_ok (i : QuarantineIntent) : Prop := {
  ik_entry : entry_ok (i_entry i); ik_reserves : reserves (i_entry i) (i_reserved i);
  ik_version : is_Some (e_expected_record_version (i_entry i));
  ik_payload : i_authorized i = false -> e_payload (i_entry i) = None }.
Record store_ok (s : QuarantineStore) : Prop := {
  sk_finalized : Forall finalized_ok (qs_finalized s); sk_pending : Forall intent_ok (qs_pending s);
  sk_ids : NoDup (store_ids s) }.

Lemma in_list_spec l (k : jstr) : in_list l k = true <-> k ∈ l.
Proof.
  unfold in_list. rewrite existsb_exists. split; [intros (x & Hx & ->%str_eqb_eq); by apply list_elem_of_In|].
  intros Hk. exists k. split; [by apply list_elem_of_In|apply str_eqb_refl].
Qed.
Lemma has_duplicate_spec ids seen : has_duplicate ids seen = false <-> NoDup ids /\ forall id, id ∈ ids -> id ∉ seen.
Proof.
  revert seen. induction ids as [|id ids IH]; intros seen; cbn.
  - split; [split; [constructor|by intros ? ?%elem_of_nil]|done].
  - rewrite orb_false_iff, IH, NoDup_cons. rewrite <- not_true_iff_false, in_list_spec. split.
    + intros (Hid & Hnd & Hs). split_and!; [intros Hin; destruct (Hs id Hin); apply list_elem_of_here|done|].
      intros x [->|Hx]%elem_of_cons; [done|]. intros Hin. destruct (Hs x Hx). by apply list_elem_of_further.
    + intros ((Hid & Hnd) & Hs). split_and!; [apply Hs, list_elem_of_here|done|].
      intros x Hx [->|Hin]%elem_of_cons; [done|]. destruct (Hs x); [by apply list_elem_of_further|done].
Qed.
Lemma assertUnique_Ok s u : assertUniqueQuarantineIds s = Ok u <-> NoDup (store_ids s).
Proof.
  unfold assertUniqueQuarantineIds. rewrite throw_if_Ok, has_duplicate_spec. split; [by intros []|].
  split; [done|]. intros ? _ ?%elem_of_nil. done.
Qed.

Lemma quarantineString_Ok v f s : quarantineString v f = Ok s <-> v = VStr s /\ s <> [].
Proof.
  split; [|intros [-> Hs]; by destruct s].
  unfold quarantineString. destruct v; try done. destruct s0; [done|]. by intros [= <-].
Qed.
Lemma reservation_Ok raw e r : normalizeQuarantineReservation raw e = Ok r -> reserves e r.
Proof.
  unfold normalizeQuarantineReservation. intros H. inv_ok. unfold reserves.
  destruct (safe_number raw) as [z|]; [destruct (_ <=? z) eqn:E|]; lia.
Qed.
Lemma reservation_num e r : reserves e r -> normalizeQuarantineReservation (num r) e = Ok r.
Proof.
  intros [H1 H2]. unfold normalizeQuarantineReservation. 
  assert (safe_number (num r) = Some r) as ->.
  { unfold safe_number. cbn. pose proof (reserves_bounds e r (conj H1 H2)) as Hb.
    unfold maxSerializedOutstandingBytes, max_safe in *. by replace (Z.abs r <=? 9007199254740991) with true by lia. }
  cbv zeta. replace (quarantineEntryReservationBytes e <=? r) with true by lia.
  by replace (maxSerializedOutstandingBytes <? r) with false by lia.
Qed.
Lemma payload_Ok v p : quarantine_payload v = Ok p -> p <> Some [].
Proof.
  unfold quarantine_payload. destruct v; try done; [by intros [= <-]|].
  intros (x & <- & [_ Hx]%quarantineString_Ok)%fmap_Ok. congruence.
Qed.
Lemma payload_opt p : p <> Some [] -> quarantine_payload (opt_text p) = Ok p.
Proof. destruct p as [[|c s]|]; done. Qed.
Lemma version_Ok v z : quarantine_version v = Ok z -> version_ok (Some z).
Proof.
  unfold quarantine_version. destruct (safe_number v) as [x|] eqn:E; [|done]. destruct (x <? 1) eqn:Ex; [done|].
  intros [= <-] y [= <-]. unfold safe_number in E. destruct (to_number v); try done.
  - destruct (_ <=? _) eqn:Ez in E; [|done]. injection E as <-. lia.
  - injection E as <-. lia.
Qed.
Lemma version_num z : version_ok (Some z) -> quarantine_version (num z) = Ok z.
Proof.
  intros Hz. specialize (Hz z eq_refl). unfold quarantine_version, safe_number. cbn.
  replace (Z.abs z <=? max_safe) with true by lia. by replace (z <? 1) with false by lia.
Qed.
Lemma base_Ok fs p v e :
  p <> Some [] -> version_ok v -> quarantine_base fs p v = Ok e ->
  entry_ok e /\ e_payload e = p /\ e_expected_record_version e = v.
Proof.
  intros Hp Hv H. unfold quarantine_base in H.
  apply bind_Ok in H as (id & [_ Hi1]%quarantineString_Ok & H). apply bind_Ok in H as (r & [_ Hi2]%quarantineString_Ok & H).
  apply bind_Ok in H as (i & [_ Hi3]%quarantineString_Ok & H). apply bind_Ok in H as (t & [_ Hi4]%quarantineString_Ok & [= <-]).
  split; [by split|done].
Qed.

Lemma normalizeFinalized_ok raw legacy c : normalizeFinalizedQuarantine raw legacy = Ok c -> finalized_ok c.
Proof.
  unfold normalizeFinalizedQuarantine. destruct (as_record raw) as [fs|]; [|done].
  destruct (review_state _) as [state|]; [|done]. intros H.
  apply bind_Ok in H as (p & Hp%payload_Ok & H). cbv zeta in H. apply bind_Ok in H as (u & Hex%throw_if_Ok & H).
  apply bind_Ok in H as (v & Hv & H). assert (version_ok v) as Hvo.
  { destruct (get fs "expected_record_version"); try (by injection Hv as <-);
      try (by apply fmap_Ok in Hv as (z & <- & Hz%version_Ok)).
    destruct legacy; [by injection Hv as <-|by apply fmap_Ok in Hv as (z & <- & Hz%version_Ok)]. }
  apply bind_Ok in H as (e & (He & Hpe & _)%base_Ok & H); [|done..]. apply bind_Ok in H as (r & Hr%reservation_Ok & H).
  apply bind_Ok in H as (u' & _ & [= <-]). split; cbn; [done..|]. intros ->. rewrite Hpe.
  apply orb_false_iff in Hex as [_ Hex%bool_decide_eq_false]. destruct p; [by destruct Hex|done].
Qed.
Lemma normalizePending_ok raw i : normalizePendingQuarantine raw = Ok i -> intent_ok i.
Proof.
  unfold normalizePendingQuarantine. destruct (as_record raw) as [fs|]; [|done].
  destruct (get fs "initiallyAuthorized"); try done. intros H.
  apply bind_Ok in H as (p & Hp%payload_Ok & H). apply bind_Ok in H as (u & Hex%throw_if_Ok & H).
  apply bind_Ok in H as (v & Hv%version_Ok & H). apply bind_Ok in H as (e & (He & Hpe & Hve)%base_Ok & H); [|done..].
  apply bind_Ok in H as (r & Hr%reservation_Ok & H). apply bind_Ok in H as (u' & _ & [= <-]).
  split; cbn; [done..| |]; [by rewrite Hve|]. intros ->. rewrite Hpe. apply bool_decide_eq_false in Hex.
  destruct p; [by destruct Hex|done].
Qed.

Lemma legacy_ok l fp : legacy_commands l = Ok fp -> Forall finalized_ok (fst fp) /\ Forall intent_ok (snd fp).
Proof.
  revert fp. induction l as [|raw l IH]; intros fp; cbn [legacy_commands]; [by intros [= <-]|].
  destruct (review_state _).
  - intros (f & Hf%normalizeFinalized_ok & H)%bind_Ok. apply bind_Ok in H as (rest & [H1 H2]%IH & [= <-]).
    split; [by constructor|done].
  - intros H. assert (exists p rest, intent_ok p /\ legacy_commands l = Ok rest /\ fp = (fst rest, p :: snd rest)) as (p & rest & Hp & Hr & ->).
    { destruct (prop raw _) in H; try done;
        apply bind_Ok in H as (p & Hp%normalizePending_ok & H); apply bind_Ok in H as (rest & Hr & [= <-]); by exists p, rest. }
    destruct (IH rest Hr) as [H1 H2]. split; [done|by constructor].
Qed.
Lemma mapM_Ok_Forall {A B} (f : A -> thrown B) (P : B -> Prop) l l' :
  (forall x y, f x = Ok y -> P y) -> mapM f l = Ok l' -> Forall P l'.
Proof.
  intros Hf. revert l'. induction l as [|x l IH]; intros l'; cbn; [by intros [= <-]|].
  intros (y & Hy & H)%bind_Ok. apply bind_Ok in H as (ys & Hys & [= <-]). constructor; eauto.
Qed.
Lemma mapM_Ok_map {A B} (f : B -> thrown A) (g : A -> B) l :
  Forall (fun x => f (g x) = Ok x) l -> mapM f (g <$> l) = Ok l.
Proof. induction 1 as [|x l Hx _ IH]; cbn; [done|]. by rewrite Hx, IH. Qed.

Lemma parse_store_ok v s m : parse_store v = Ok (s, m) -> store_ok s.
Proof.
  unfold parse_store. intros (fs & _ & H)%bind_Ok.
  destruct (current_store fs) as [[f0 p0]|]; [|destruct (legacy_store fs) as [cs|]; [|done]].
  - apply bind_Ok in H as (f & Hf & H). apply bind_Ok in H as (p & Hp & H).
    apply bind_Ok in H as (u & Hu%assertUnique_Ok & [= <- _]). split; [| |done].
    + eapply mapM_Ok_Forall; [|exact Hf]. intros x y. apply normalizeFinalized_ok.
    + eapply mapM_Ok_Forall; [|exact Hp]. apply normalizePending_ok.
  - apply bind_Ok in H as (fp & [Hf Hp]%legacy_ok & H).
    apply bind_Ok in H as (u & Hu%assertUnique_Ok & [= <- _]). by split.
Qed.

Lemma base_entry e rest :
  entry_ok e -> quarantine_base (entry_fields e ++ rest) (e_payload e) (e_expected_record_version e) = Ok e.
Proof.
  intros [H1 H2 H3 H4 _ _]. unfold quarantine_base.
  change (get (entry_fields e ++ rest) "id") with (VStr (e_id e)).
  change (get (entry_fields e ++ rest) "resource_id") with (VStr (e_resource_id e)).
  change (get (entry_fields e ++ rest) "resource_incarnation_id") with (VStr (e_resource_incarnation_id e)).
  change (get (entry_fields e ++ rest) "command_type") with (VStr (e_command_type e)).
  assert (forall s f, s <> [] -> quarantineString (VStr s) f = Ok s) as Hs by (intros s f Hs; by apply quarantineString_Ok).
  rewrite !Hs by done. by destruct e.
Qed.
Lemma finalized_reads c : finalized_ok c -> normalizeFinalizedQuarantine (finalized_value c) false = Ok c.
Proof.
  intros [He Hr Hp]. unfold normalizeFinalizedQuarantine, finalized_value. cbn [as_record].
  set (fs := entry_fields _ ++ _). change (get fs "state") with (VStr (review_text (q_state c))).
  change (get fs "payload") with (opt_text (e_payload (q_entry c))).
  change (get fs "exportable") with (num (exportable_of (q_state c))).
  change (get fs "expected_record_version") with (opt_num (e_expected_record_version (q_entry c))).
  change (get fs "reserved_bytes") with (num (q_reserved c)).
  assert (review_state (VStr (review_text (q_state c))) = Some (q_state c)) as -> by (destruct (q_state c); vm_compute; reflexivity).
  rewrite payload_opt by apply He. cbn [mbind outcome_bind].
  match goal with |- context [throw_if ?b _] => assert (b = false) as -> end.
  { destruct (q_state c); [reflexivity|]. by rewrite Hp. }
  cbn [throw_if mbind outcome_bind].
  match goal with |- ?m ≫= ?f = _ => assert (m = Ok (e_expected_record_version (q_entry c))) as -> end.
  { pose proof (en_version _ He) as Hv. destruct (e_expected_record_version (q_entry c)) as [z|]; [|done].
    change (Some <$> quarantine_version (num z) = Ok (Some z)). by rewrite (version_num z). }
  cbn [mbind outcome_bind]. unfold fs at 1. rewrite base_entry by done. cbn [mbind outcome_bind].
  rewrite reservation_num by done. cbn [mbind outcome_bind].
  pose proof (finalized_covered (q_entry c) (q_state c) (q_reserved c) (en_version _ He) Hr) as Hs.
  match goal with |- context [throw_if ?b _] => assert (b = false) as -> by (apply Z.ltb_ge; exact Hs) end. by destruct c.
Qed.
Lemma intent_reads i : intent_ok i -> normalizePendingQuarantine (intent_value i) = Ok i.
Proof.
  intros [He Hr [z Hz] Hp]. unfold normalizePendingQuarantine, intent_value. cbn [as_record].
  set (fs := entry_fields _ ++ _). change (get fs "initiallyAuthorized") with (VBool (i_authorized i)).
  change (get fs "payload") with (opt_text (e_payload (i_entry i))).
  change (get fs "expected_record_version") with (opt_num (e_expected_record_version (i_entry i))).
  change (get fs "reserved_bytes") with (num (i_reserved i)).
  rewrite payload_opt by apply He. cbn [mbind outcome_bind].
  match goal with |- context [throw_if ?b _] => assert (b = false) as -> end.
  { destruct (i_authorized i); [reflexivity|]. by rewrite Hp. }
  cbn [throw_if mbind outcome_bind]. pose proof (en_version _ He) as Hv. rewrite Hz in Hv |- *.
  cbn [opt_num]. rewrite version_num by done. cbn [mbind outcome_bind]. unfold fs at 1.
  rewrite <- Hz, base_entry by done. cbn [mbind outcome_bind]. rewrite reservation_num by done. cbn [mbind outcome_bind].
  rewrite <- Hz in Hv. pose proof (intent_covered (i_entry i) (i_authorized i) (i_reserved i) Hv Hp Hr) as Hs.
  match goal with |- context [throw_if ?b _] => assert (b = false) as -> by (apply Z.ltb_ge; exact Hs) end. by destruct i.
Qed.
Lemma store_reads s : store_ok s -> parse_store (store_value s) = Ok (s, false).
Proof.
  intros [Hf Hp Hids]. unfold parse_store, store_value. cbn [as_record mbind outcome_bind].
  match goal with |- context [current_store ?fs] => 
    change (current_store fs) with (Some (finalized_value <$> qs_finalized s, intent_value <$> qs_pending s)) end.
  cbn [mbind outcome_bind]. rewrite (mapM_Ok_map (fun entry => normalizeFinalizedQuarantine entry false) finalized_value)
    by (eapply Forall_impl; [exact Hf|apply finalized_reads]).
  cbn [mbind outcome_bind]. rewrite (mapM_Ok_map normalizePendingQuarantine intent_value)
    by (eapply Forall_impl; [exact Hp|apply intent_reads]).
  cbn [mbind outcome_bind]. destruct s as [f p]. cbn [qs_finalized qs_pending].
  destruct (assertUniqueQuarantineIds (mkStore f p)) as [u|e] eqn:E; [done|]. exfalso.
  assert (assertUniqueQuarantineIds (mkStore f p) = Ok tt) by (by apply assertUnique_Ok). congruence.
Qed.

(** C24: the quarantine sidecar reads back exactly as it was written, and
    whatever a sidecar holds, of either version, only a well-formed store is
    read from it: distinct ids, an invalidated command without its payload,
    and reservations that cover their entries within the byte limit. *)
Theorem sidecar_roundtrip :
  (forall s, store_ok s -> readQuarantineStore (Some (private_file (store_value s))) = Ok (mkRead s true false)) /\
  (forall f r, readQuarantineStore f = Ok r -> store_ok (sr_store r)).
Proof.
  split.
  - intros s Hs. unfold readQuarantineStore, private_file, parse_file. cbn [f_json mbind outcome_bind]. by rewrite store_reads.
  - intros [f|] r; [|intros [= <-]; split; constructor]. unfold readQuarantineStore.
    intros (v & _ & H)%bind_Ok. apply bind_Ok in H as ([s m] & Hs%parse_store_ok & [= <-]). done.
Qed.

(** A command to update a resource to the empty text, which the upload queue
    admits, makes a sidecar that no reader accepts. *)
Lemma empty_payload_unreadable f q e a r :
  e_payload e = Some [] ->
  exists m, readQuarantineStore (Some (private_file (store_value (mkStore f (mkIntent e a r :: q))))) = Throw m.
Proof.
  intros He. destruct (readQuarantineStore _) as [x|m] eqn:E; [|by exists m]. exfalso.
  unfold readQuarantineStore in E. apply bind_Ok in E as (v & [= <-] & E). apply bind_Ok in E as ([s m] & E & _).
  unfold parse_store, store_value in E. apply bind_Ok in E as (fs & [= <-] & E).
  match type of E with context [current_store ?fs] =>
    change (current_store fs) with (Some (finalized_value <$> f, intent_value <$> (mkIntent e a r :: q))) in E end.
  apply bind_Ok in E as (fs' & _ & E). apply bind_Ok in E as (ps & E & _).
  cbn [fmap list_fmap mapM] in E. apply bind_Ok in E as (i & Hi & _).
  unfold normalizePendingQuarantine, intent_value in Hi. cbn [as_record] in Hi.
  set (fs0 := entry_fields _ ++ _) in Hi. change (get fs0 "initiallyAuthorized") with (VBool a) in Hi.
  apply bind_Ok in Hi as (p & Hp & _). change (get fs0 "payload") with (opt_text (e_payload e)) in Hp.
  by rewrite He in Hp.
Qed.
End Sidecars.

(** ** Merging *)

Section Merging.
Context {collation : Collation}.

Lemma merge_Ok existing additions l :
  mergeFinalizedQuarantine existing additions = Ok l ->
  l ≡ₚ existing ++ additions /\ NoDup (q_id <$> l).
Proof.
  unfold mergeFinalizedQuarantine. cbv zeta. intros (u & Hd%throw_if_Ok & [= <-])%bind_Ok.
  apply has_duplicate_spec in Hd as [Hd _].
  pose proof (sort_collated_perm q_id (existing ++ additions)) as Hp.
  split; [done|]. by rewrite Hp.
Qed.
Lemma merge_distinct existing additions :
  NoDup (q_id <$> (existing ++ additions)) -> exists l, mergeFinalizedQuarantine existing additions = Ok l.
Proof.
  intros Hd. unfold mergeFinalizedQuarantine. cbv zeta. eexists.
  assert (has_duplicate (q_id <$> (existing ++ additions)) [] = false) as ->; [|done].
  apply has_duplicate_spec. split; [done|]. by intros ? _ ?%elem_of_nil.
Qed.
Lemma finalized_bytes_foldr l n : foldl (fun t c => t + q_reserved c) n l = n + foldr (fun c t => q_reserved c + t) 0 l.
Proof. revert n. induction l as [|c l IH]; intros n; cbn; [lia|]. rewrite IH. lia. Qed.
#[global] Instance finalizedQuarantineBytes_perm : Proper ((≡ₚ) ==> eq) finalizedQuarantineBytes.
Proof.
  intros l l' H. unfold finalizedQuarantineBytes. rewrite !finalized_bytes_foldr. f_equal. induction H; cbn; lia.
Qed.
End Merging.

(** ** A concrete sidecar *)

Module QuarantineSample.
Definition no_numbers : NumPrinter := fun _ => [].
Definition no_reader : NumReader := fun _ => NNaN.
Definition entry (id : jstr) (payload : option jstr) : QuarantineEntry :=
  mkEntry id "55555555-5555-4555-8555-555555555501" "75555555-5555-4555-8555-555555555501" "ps8.resource.update.v1" payload (Some 4).
Definition store : QuarantineStore :=
  mkStore [mkQuarantined (entry "aaaaaaaa-aaaa-4aaa-8aaa-aaaaaaaaaaa1" None) invalidated 512]
    [mkIntent (entry "bbbbbbbb-bbbb-4bbb-8bbb-bbbbbbbbbbb2" (Some (js "note"))) true 600].
End QuarantineSample.

Module QuarantineWitnesses.
Import QuarantineSample.
#[local] Existing Instance no_numbers.
#[local] Existing Instance no_reader.

Lemma entry_sample_ok id p : id <> [] -> p <> Some [] -> entry_ok (entry id p).
Proof. intros Hi Hp. split; cbn; try done. intros z [= <-]. vm_compute. split; discriminate. Qed.
Lemma store_sample_ok : store_ok store.
Proof.
  split.
  - apply List.Forall_cons; [|apply List.Forall_nil]. split; [by apply entry_sample_ok| |done].
    split; apply Z.leb_le; vm_compute; reflexivity.
  - apply List.Forall_cons; [|apply List.Forall_nil]. split; [by apply entry_sample_ok| |by eexists|done].
    split; apply Z.leb_le; vm_compute; reflexivity.
  - apply (bool_decide_unpack _). vm_compute. exact I.
Qed.
Lemma sidecar_roundtrip_witness :
  readQuarantineStore (Some (private_file (store_value store))) = Ok (mkRead store true false).
Proof. apply sidecar_roundtrip. exact store_sample_ok. Defined.
End QuarantineWitnesses.
