(* ===== verification/Effects.v ===== *)
(** Programs that call for effects one at a time, each of which may throw.
    Between two effects the process may be killed: [crashed] is the world it
    leaves, and [safe] the assertion that an invariant of the world holds at
    every such point. *)
From S2P Require Export Prelude.

(** ** Programs *)

Inductive Prog (Op : Type -> Type) (E A : Type) : Type :=
| Done (r : outcome E A)
| Call (X : Type) (op : Op X) (k : outcome E X -> Prog Op E A).
Arguments Done {Op E A} r.
Arguments Call {Op E A X} op k.

Section Programs.
Context {Op : Type -> Type} {E : Type}.

#[export] Instance prog_ret : MRet (Prog Op E) := fun A a => Done (Ok a).
Fixpoint prog_bind {A B} (f : A -> Prog Op E B) (p : Prog Op E A) : Prog Op E B :=
  match p with
  | Done (Ok a) => f a
  | Done (Throw e) => Done (Throw e)
  | Call op k => Call op (fun r => prog_bind f (k r))
  end.
#[export] Instance prog_mbind : MBind (Prog Op E) := @prog_bind.

Definition call {X} (op : Op X) : Prog Op E X := Call op Done.
Definition throw {A} (e : E) : Prog Op E A := Done (Throw e).
Definition lift {A} (r : outcome E A) : Prog Op E A := Done r.
(** [try { return p } catch (e) { return h(e) }] *)
Fixpoint catch {A} (p : Prog Op E A) (h : E -> Prog Op E A) : Prog Op E A :=
  match p with
  | Done (Ok a) => Done (Ok a)
  | Done (Throw e) => h e
  | Call op k => Call op (fun r => catch (k r) h)
  end.
(** [for (const x of l) out.push(await f(x))] *)
Fixpoint traverse {A B} (f : A -> Prog Op E B) (l : list A) : Prog Op E (list B) :=
  match l with
  | [] => mret []
  | x :: l => y ← f x; rest ← traverse f l; mret (y :: rest)
  end.
End Programs.

(** ** Running *)

Class Handler (Op : Type -> Type) (E W : Type) : Type :=
  handle : forall X, Op X -> W -> outcome E X * W.
Arguments handle {Op E W _ X} op w.

Section Running.
Context {Op : Type -> Type} {E W : Type} {handler : Handler Op E W}.

Fixpoint exec {A} (p : Prog Op E A) (w : W) : outcome E A * W :=
  match p with
  | Done r => (r, w)
  | Call op k => let '(r, w) := handle op w in exec (k r) w
  end.
(** The world after at most [n] effects. *)
Fixpoint crashed {A} (n : nat) (p : Prog Op E A) (w : W) {struct p} : W :=
  match p with
  | Done _ => w
  | Call op k => match n with
                 | O => w
                 | S n => let '(r, w) := handle op w in crashed n (k r) w
                 end
  end.

Fixpoint safe {A} (I : W -> Prop) (Q : outcome E A -> W -> Prop) (p : Prog Op E A) (w : W) : Prop :=
  match p with
  | Done r => I w /\ Q r w
  | Call op k => I w /\ let '(r, w) := handle op w in safe I Q (k r) w
  end.

Lemma safe_done {A} I (Q : outcome E A -> W -> Prop) r w : I w -> Q r w -> safe I Q (Done r) w.
Proof. by split. Qed.
Lemma safe_call {A X} I (Q : outcome E A -> W -> Prop) (op : Op X) k w :
  I w -> (forall r w', handle op w = (r, w') -> safe I Q (k r) w') -> safe I Q (Call op k) w.
Proof. intros Hw H. cbn. split; [done|]. destruct (handle op w) as [r w'] eqn:Eh. by apply H. Qed.

Lemma safe_exec {A} I (Q : outcome E A -> W -> Prop) (p : Prog Op E A) w r w' :
  safe I Q p w -> exec p w = (r, w') -> I w' /\ Q r w'.
Proof.
  revert w. induction p as [r0|X op k IH]; intros w; cbn; [by intros H [= <- <-]|].
  intros [_ H]. destruct (handle op w) as [x w1]. by apply IH.
Qed.
Lemma safe_here {A} I (Q : outcome E A -> W -> Prop) (p : Prog Op E A) w : safe I Q p w -> I w.
Proof. by destruct p; intros []. Qed.
Lemma safe_crashed {A} I (Q : outcome E A -> W -> Prop) (p : Prog Op E A) w n : safe I Q p w -> I (crashed n p w).
Proof.
  revert w n. induction p as [r0|X op k IH]; intros w n; cbn; [by intros []|].
  intros [Hw H]. destruct n; [done|]. destruct (handle op w) as [x w1]. by apply IH.
Qed.
Lemma safe_weaken {A} (I : W -> Prop) (Q Q' : outcome E A -> W -> Prop) p w :
  safe I Q p w -> (forall r w', I w' -> Q r w' -> Q' r w') -> safe I Q' p w.
Proof.
  intros H HQ. revert w H. induction p as [r0|X op k IH]; intros w; cbn; [intros []; split; auto|].
  intros [Hw H]. split; [done|]. destruct (handle op w) as [x w1]. by apply IH.
Qed.
Lemma safe_bind {A B} (I : W -> Prop) (Q : outcome E B -> W -> Prop) (f : A -> Prog Op E B) p w :
  safe I (fun r w => match r with Ok a => safe I Q (f a) w | Throw e => Q (Throw e) w end) p w ->
  safe I Q (p ≫= f) w.
Proof.
  unfold mbind, prog_mbind. revert w. induction p as [[a|e]|X op k IH]; intros w; cbn; [by intros [? ?]|by intros [? ?]|].
  intros [Hw H]. split; [done|]. destruct (handle op w) as [x w1]. by apply IH.
Qed.
Lemma safe_catch {A} (I : W -> Prop) (Q : outcome E A -> W -> Prop) (h : E -> Prog Op E A) p w :
  safe I (fun r w => match r with Ok a => Q (Ok a) w | Throw e => safe I Q (h e) w end) p w ->
  safe I Q (catch p h) w.
Proof.
  revert w. induction p as [[a|e]|X op k IH]; intros w; cbn; [by intros [? ?]|by intros [? ?]|].
  intros [Hw H]. split; [done|]. destruct (handle op w) as [x w1]. by apply IH.
Qed.
(** A loop keeps what each turn keeps. *)
Lemma safe_traverse {A B} (I : W -> Prop) (R : list A -> list B -> W -> Prop) (f : A -> Prog Op E B) :
  (forall x done ys w, R done ys w -> I w ->
     safe I (fun r w => match r with Ok y => R (done ++ [x]) (ys ++ [y]) w | Throw _ => True end) (f x) w) ->
  forall l done ys w, R done ys w -> I w ->
  safe I (fun r w => match r with Ok zs => R (done ++ l) (ys ++ zs) w | Throw _ => True end) (traverse f l) w.
Proof.
  intros Hf l. induction l as [|x l IH]; intros done ys w HR Hw; cbn [traverse].
  - apply safe_done; [done|]. by rewrite !app_nil_r.
  - apply safe_bind. eapply safe_weaken; [by apply (Hf x)|]. intros [y|e] w1 Hw1 H; [|done]. cbn in H.
    apply safe_bind. eapply safe_weaken; [by apply (IH _ _ _ H)|]. intros [zs|e] w2 Hw2 H2; [|done].
    apply safe_done; [done|]. by rewrite <- !app_assoc in H2.
Qed.

(** A program whose every effect moves the world along [R], and whose results
    satisfy [P]: it may run wherever an invariant is closed under [R]. *)
Fixpoint keeps {A} (R : W -> W -> Prop) (P : A -> Prop) (p : Prog Op E A) : Prop :=
  match p with
  | Done (Ok a) => P a
  | Done (Throw _) => True
  | Call op k => (forall w r w', handle op w = (r, w') -> R w w') /\ forall r, keeps R P (k r)
  end.
Lemma keeps_ret {A} R (P : A -> Prop) (a : A) : P a -> keeps R P (mret a : Prog Op E A).
Proof. done. Qed.
Lemma keeps_throw {A} R (P : A -> Prop) (e : E) : keeps R P (throw e : Prog Op E A).
Proof. done. Qed.
Lemma keeps_call {X} R (P : X -> Prop) (op : Op X) :
  (forall w r w', handle op w = (r, w') -> R w w') -> (forall x, P x) -> keeps R P (call op).
Proof. intros H HP. split; [done|]. intros [x|e]; cbn; [apply HP|done]. Qed.
Lemma keeps_bind {A B} R (P : A -> Prop) (P' : B -> Prop) (f : A -> Prog Op E B) p :
  keeps R P p -> (forall a, P a -> keeps R P' (f a)) -> keeps R P' (p ≫= f).
Proof.
  intros Hp Hf. unfold mbind, prog_mbind. induction p as [[a|e]|X op k IH]; cbn in *; [by apply Hf|done|].
  split; [apply Hp|]. intros r. apply IH, Hp.
Qed.
Lemma keeps_catch {A} R (P : A -> Prop) (h : E -> Prog Op E A) p :
  keeps R P p -> (forall e, keeps R P (h e)) -> keeps R P (catch p h).
Proof.
  intros Hp Hh. induction p as [[a|e]|X op k IH]; cbn in *; [done|apply Hh|].
  split; [apply Hp|]. intros r. apply IH, Hp.
Qed.
Lemma keeps_traverse {A B} R (P : A -> B -> Prop) (f : A -> Prog Op E B) l :
  (forall x, keeps R (P x) (f x)) -> keeps R (Forall2 P l) (traverse f l).
Proof.
  intros Hf. induction l as [|x l IH]; cbn [traverse]; [by constructor|].
  eapply keeps_bind; [apply Hf|]. intros y Hy. eapply keeps_bind; [exact IH|]. intros ys Hys. by constructor.
Qed.
Lemma keeps_weaken {A} R (P P' : A -> Prop) (p : Prog Op E A) :
  keeps R P p -> (forall a, P a -> P' a) -> keeps R P' p.
Proof.
  intros Hp HP. induction p as [[a|e]|X op k IH]; cbn in *; [auto|done|].
  split; [apply Hp|]. intros r. apply IH, Hp.
Qed.
Lemma safe_keeps {A} (R : W -> W -> Prop) `{!PreOrder R} (I : W -> Prop) (P : A -> Prop) (p : Prog Op E A) w :
  keeps R P p -> (forall w', R w w' -> I w') ->
  safe I (fun r w' => R w w' /\ match r with Ok a => P a | Throw _ => True end) p w.
Proof.
  intros Hp HI. assert (R w w) as Hw by reflexivity. revert Hw. generalize w at 2 4 as w1.
  induction p as [r|X op k IH]; intros w1 Hw; cbn in *; [split; [by apply HI|]; split; [done|by destruct r]|].
  split; [by apply HI|]. destruct (handle op w1) as [r w2] eqn:Eh. destruct Hp as [Hop Hk].
  apply IH; [apply Hk|]. transitivity w1; [done|by eapply Hop].
Qed.
Lemma crashed_keeps {A} (R : W -> W -> Prop) `{!PreOrder R} (P : A -> Prop) (p : Prog Op E A) w n :
  keeps R P p -> R w (crashed n p w).
Proof. intros Hp. eapply (safe_crashed (R w)). by apply (safe_keeps R (R w) P). Qed.

(** Running a sequence. *)
Lemma exec_bind {A B} (f : A -> Prog Op E B) p w :
  exec (p ≫= f) w = let '(r, w') := exec p w in match r with Ok a => exec (f a) w' | Throw e => (Throw e, w') end.
Proof.
  unfold mbind, prog_mbind. revert w. induction p as [[a|e]|X op k IH]; intros w; cbn; [done|done|].
  destruct (handle op w) as [x w1]. apply IH.
Qed.
Lemma exec_call {X} (op : Op X) w : exec (call op) w = handle op w.
Proof. cbn. by destruct (handle op w). Qed.
Lemma exec_catch {A} (p : Prog Op E A) h w :
  exec (catch p h) w = let '(r, w') := exec p w in match r with Ok a => (Ok a, w') | Throw e => exec (h e) w' end.
Proof.
  revert w. induction p as [[a|e]|X op k IH]; intros w; cbn; [done|done|].
  destruct (handle op w) as [x w1]. apply IH.
Qed.
End Running.
