(* ===== verification/PrivateFiles.v ===== *)
(** How the harness client writes its sidecar files:
    [spikes/powersync/harness/src/client.ts], lines 598-643.  Each call of the
    file system may fail, a write may stop half way, and the process may die
    between two calls: the file a reader finds is the old one or the new one,
    whole, private and on disk.  [Client] takes this for its [op_write_quarantine]
    and [op_write_reset]. *)
From S2P Require Export Effects JsValue.

(** ** A file system *)

Record PrivateFile := mkPrivate { p_text : jstr; p_mode : Z; p_synced : bool }.
Inductive fs_error :=
| Code (code : jstr)
| Aggregate (error cleanup : fs_error).
Definition EEXIST : fs_error := Code "EEXIST".
Definition ENOENT : fs_error := Code "ENOENT".

Definition has_code (e : fs_error) (codes : list string) : bool :=
  match e with Code c => existsb (str_eqb c) (js <$> codes) | Aggregate _ _ => false end.

(** The target and the temporary file beside it, what the next calls run into
    (an error, and for a write how much it wrote), and the bits the process
    masks out of the mode of a new file. *)
Record Disk := mkDisk {
  d_target : option PrivateFile; d_temp : option PrivateFile;
  d_faults : list (option (fs_error * nat)); d_mask : Z }.
Definition set_temp (d : Disk) t := mkDisk (d_target d) t (d_faults d) (d_mask d).
Definition set_target (d : Disk) t := mkDisk t (d_temp d) (d_faults d) (d_mask d).
Definition next_fault (d : Disk) : option (fs_error * nat) * Disk :=
  match d_faults d with
  | [] => (None, d)
  | f :: l => (f, mkDisk (d_target d) (d_temp d) l (d_mask d))
  end.

Inductive FsOp : Type -> Type :=
| fs_open_temp (mode : Z) : FsOp ()
| fs_write (text : jstr) : FsOp ()
| fs_sync : FsOp ()
| fs_close : FsOp ()
| fs_chmod_temp (mode : Z) : FsOp ()
| fs_rename : FsOp ()
| fs_unlink_temp : FsOp ()
| fs_chmod_target (mode : Z) : FsOp ()
| fs_open_directory : FsOp ()
| fs_sync_directory : FsOp ()
| fs_close_directory : FsOp ().

Definition on_temp (d : Disk) (f : PrivateFile -> option PrivateFile) : outcome fs_error () * Disk :=
  match d_temp d with
  | Some t => (Ok tt, set_temp d (f t))
  | None => (Throw ENOENT, d)
  end.
#[export] Instance fs_handler : Handler FsOp fs_error Disk := fun X op d =>
  let '(fault, d) := next_fault d in
  match op in FsOp X return outcome fs_error X * Disk with
  | fs_open_temp mode =>
      match fault, d_temp d with
      | Some (e, _), _ => (Throw e, d)
      | None, Some _ => (Throw EEXIST, d)
      | None, None => (Ok tt, set_temp d (Some (mkPrivate [] (Z.land mode (Z.lnot (d_mask d))) false)))
      end
  | fs_write text =>
      match fault with
      | Some (e, n) => (Throw e, set_temp d ((fun t => mkPrivate (take n text) (p_mode t) false) <$> d_temp d))
      | None => on_temp d (fun t => Some (mkPrivate text (p_mode t) false))
      end
  | fs_sync =>
      match fault with
      | Some (e, _) => (Throw e, d)
      | None => on_temp d (fun t => Some (mkPrivate (p_text t) (p_mode t) true))
      end
  | fs_chmod_temp mode =>
      match fault with
      | Some (e, _) => (Throw e, d)
      | None => on_temp d (fun t => Some (mkPrivate (p_text t) mode (p_synced t)))
      end
  | fs_rename =>
      match fault, d_temp d with
      | Some (e, _), _ => (Throw e, d)
      | None, None => (Throw ENOENT, d)
      | None, Some t => (Ok tt, set_temp (set_target d (Some t)) None)
      end
  | fs_unlink_temp =>  (** [ENOENT] is a file that is not there *)
      match fault with
      | Some (e, _) => (Throw e, if has_code e ["ENOENT"%string] then set_temp d None else d)
      | None => on_temp d (fun _ => None)
      end
  | fs_chmod_target mode =>
      match fault, d_target d with
      | Some (e, _), _ => (Throw e, d)
      | None, None => (Throw ENOENT, d)
      | None, Some t => (Ok tt, set_target d (Some (mkPrivate (p_text t) mode (p_synced t))))
      end
  | fs_close | fs_open_directory | fs_sync_directory | fs_close_directory =>
      match fault with Some (e, _) => (Throw e, d) | None => (Ok tt, d) end
  end.

(** ** The program *)

Abbreviation Fs := (Prog FsOp fs_error).
(** [try { p } finally { q }] *)
Definition finally (p q : Fs ()) : Fs () :=
  r ← catch (_ ← p; mret None) (fun e => mret (Some e));
  _ ← q;
  match r with None => mret tt | Some e => throw e end.

Definition syncParentDirectory : Fs () :=
  let ignore e := if has_code e ["EINVAL"; "ENOTSUP"; "EBADF"]%string then mret tt else throw e in
  opened ← catch (_ ← call fs_open_directory; mret true) (fun e => _ ← ignore e; mret false);
  if (opened : bool) then finally (catch (call fs_sync_directory) ignore) (call fs_close_directory) else mret tt.

(** An error before the rename removes the temporary file, an error after it
    is passed on: [renamed] is which of the two parts is running. *)
Definition removeTemporary (error : fs_error) : Fs () :=
  _ ← catch (call fs_unlink_temp) (fun cleanup => if has_code cleanup ["ENOENT"%string] then mret tt else throw (Aggregate error cleanup));
  throw error.
Definition writePrivateJsonAtomically (text : jstr) : Fs () :=
  _ ← catch (_ ← call (fs_open_temp 384);
             _ ← finally (_ ← call (fs_write (text ++ [10%N])); call fs_sync) (call fs_close);
             _ ← call (fs_chmod_temp 384);
             call fs_rename)
        removeTemporary;
  _ ← call (fs_chmod_target 384);
  syncParentDirectory.

(** ** Old or new, whole *)

Definition written (text : jstr) : PrivateFile := mkPrivate (text ++ [10%N]) 384 true.

Lemma next_fault_same d f d1 : next_fault d = (f, d1) -> d_target d1 = d_target d /\ d_temp d1 = d_temp d.
Proof. unfold next_fault. destruct (d_faults d); by intros [= <- <-]. Qed.
(** The next call, in the cases the file system distinguishes. *)
Ltac fs_chain H :=
  repeat match type of H with
         | _ = d_temp ?x => match goal with K : d_temp x = _ |- _ => rewrite K in H end
         | _ = d_target ?x => match goal with K : d_target x = _ |- _ => rewrite K in H end
         end.
Ltac fs_call :=
  unfold handle, fs_handler;
  match goal with |- context [next_fault ?d] =>
    let H1 := fresh "Htarget" in let H2 := fresh "Htemp" in let E := fresh "Efault" in let d1 := fresh "d" in
    destruct (next_fault d) as [[[? ?]|] d1] eqn:E; apply next_fault_same in E as [H1 H2];
    cbn [d_target d_temp set_temp set_target] in H1, H2; fs_chain H1; fs_chain H2; cbn;
    unfold on_temp; rewrite ?H1, ?H2; cbn end.

(** The two files of a call are known. *)
Ltac fs_known := first [by left; congruence | by right | by right; congruence | by right; eexists _, _ | congruence | by (split; congruence)].

Section Atomic.
Variables (old : option PrivateFile) (text : jstr).
Definition old_or_new (d : Disk) : Prop := d_target d = old \/ d_target d = Some (written text).
Definition finished (r : outcome fs_error ()) (d : Disk) : Prop :=
  match r with
  | Ok _ => d_target d = Some (written text) /\ d_temp d = None
  | Throw e => d_temp d = None \/ exists error cleanup, e = Aggregate error cleanup
  end.
Lemma write_safe d : d_target d = old -> d_temp d = None -> safe old_or_new finished (writePrivateJsonAtomically text) d.
Proof.
  intros Hd Ht. unfold writePrivateJsonAtomically, finally, syncParentDirectory, removeTemporary, old_or_new, finished, written. cbn.
  repeat first [split; [fs_known|] | fs_known | fs_call
               | match goal with |- context [if has_code ?e ?l then _ else _] => destruct (has_code e l) eqn:?; cbn end].
Qed.
End Atomic.

(** C22: a private file is replaced whole or not at all.  Whatever fails and
    wherever the process dies, the target is what it was, or the new text,
    whole, readable by its owner only, and synced before it got its name; a
    write that returns has replaced it; and unless the cleanup itself failed
    no temporary file is left by a write that ends. *)
Theorem private_write_atomic text d n :
  d_temp d = None ->
  let d' := crashed n (writePrivateJsonAtomically text) d in
  (d_target d' = d_target d \/ d_target d' = Some (written text)) /\
  forall r d', exec (writePrivateJsonAtomically text) d = (r, d') -> old_or_new (d_target d) text d' /\ finished text r d'.
Proof.
  intros Ht. pose proof (write_safe (d_target d) text d eq_refl Ht) as H. split; [exact (safe_crashed _ _ _ _ n H)|].
  intros r d' He. exact (safe_exec _ _ _ _ _ _ H He).
Qed.

Module PrivateWitnesses.
Definition old_file : PrivateFile := mkPrivate (js "old") 384 true.
(** The second chmod fails, with the file renamed. *)
Definition disk : Disk :=
  mkDisk (Some old_file) None [None; None; None; None; None; None; Some (Code (js "EIO"), 0%nat)] 18.
Lemma private_write_atomic_witness :
  let '(r, d) := exec (writePrivateJsonAtomically (js "{}")) disk in
  r = Throw (Code (js "EIO")) /\ d_target d = Some (written (js "{}")) /\ d_temp d = None.
Proof.
  destruct (private_write_atomic (js "{}") disk 3 eq_refl) as [_ H].
  destruct (exec (writePrivateJsonAtomically (js "{}")) disk) as [r d] eqn:E. destruct (H r d eq_refl) as [Hw Hf].
  assert (fst (exec (writePrivateJsonAtomically (js "{}")) disk) = Throw (Code (js "EIO"))) as Hr by (vm_compute; reflexivity).
  rewrite E in Hr. cbn [fst] in Hr. subst r. split; [reflexivity|]. split.
  - destruct Hw as [Hw|Hw]; [|exact Hw]. apply (f_equal snd) in E. cbn [snd] in E. rewrite <- E in Hw. vm_compute in Hw. discriminate Hw.
  - destruct Hf as [Hf|(a & b & Hf)]; [exact Hf|discriminate Hf].
Defined.
End PrivateWitnesses.
