(* ===== verification/Client.v ===== *)
(** The harness client at work: [spikes/powersync/harness/src/client.ts], the
    connector that uploads the queue (lines 490-596) and the operations on
    commands of an open client (lines 1128-1205).  The client is a program
    over a world that outlives it: its application state, its two sidecar
    files, and an environment it does not control: the network, the upload
    queue and replica the SDK keeps, the disk and the random source.  The
    environment is any type with the operations of [Environment]; what the
    client relies on of the SDK's queue are the laws of [QueueLaws]. *)
From S2P Require Export QuarantineSpec Effects.

(** ** The world *)

(** A POST request to the command server. *)
Record Http := mkHttp {
  h_path : jstr; h_credential : option jstr; h_fault : option (jstr * jstr); h_body : jsval }.
Record Response := mkResponse { r_status : Z; r_json : option jsval }.
Record Transaction := mkTransaction { tx_id : jsval; tx_crud : list CrudEntry }.

(** [None] of [env_fetch] is a request that fails; [true] of the SDK's
    operations is one that throws; [Some b] of [env_write] is a write that
    throws, having replaced the file when [b]. *)
Class Environment (S : Type) := {
  env_fetch : Http -> S -> option Response * S;
  env_queue : S -> list Transaction;
  env_complete : Transaction -> S -> bool * S;
  env_enqueue : CrudEntry -> S -> bool * S;
  env_disconnect : S -> bool * S;
  env_clear : S -> bool * S;
  env_close : S -> bool * S;
  env_connect : S -> bool * S;      (** [connect] and [waitForInitialSync] *)
  env_chmod : S -> bool * S;        (** of the replica's file *)
  env_incarnation : jstr -> S -> option jstr;
  env_live : jstr -> jstr -> S -> bool;
  env_files : S -> thrown bool * thrown bool;  (** the application state's and the replica's *)
  env_write : S -> option bool * S;
  env_unlink : S -> bool * S;
  env_uuid : S -> jstr * S;
}.

(** The upload queue: first in, first out, changed by these operations only.
    The laws of the network, the disk and [connect] also say that nothing else
    of the client runs meanwhile, in particular no upload, which no gate of
    the client keeps out. *)
Class QueueLaws (S : Type) `{Environment S} : Prop := {
  law_complete t q s s' : env_queue s = t :: q -> env_complete t s = (false, s') -> env_queue s' = q;
  law_complete_threw t q s s' : env_queue s = t :: q -> env_complete t s = (true, s') ->
    env_queue s' = q \/ env_queue s' = t :: q;
  law_enqueue e s s' : env_enqueue e s = (false, s') -> exists id, env_queue s' = env_queue s ++ [mkTransaction id [e]];
  law_enqueue_threw e s s' : env_enqueue e s = (true, s') -> env_queue s' = env_queue s;
  law_clear s s' : env_clear s = (false, s') -> env_queue s' = [];
  law_clear_threw s s' : env_clear s = (true, s') -> env_queue s' = [] \/ env_queue s' = env_queue s;
  law_fetch h s : env_queue (snd (env_fetch h s)) = env_queue s;
  law_disconnect s : env_queue (snd (env_disconnect s)) = env_queue s;
  law_close s : env_queue (snd (env_close s)) = env_queue s;
  law_connect s : env_queue (snd (env_connect s)) = env_queue s;
  law_chmod s : env_queue (snd (env_chmod s)) = env_queue s;
  law_write s : env_queue (snd (env_write s)) = env_queue s;
  law_unlink s : env_queue (snd (env_unlink s)) = env_queue s;
  law_uuid s : env_queue (snd (env_uuid s)) = env_queue s;
}.

Inductive FaultMode := pre_commit_500 | pre_commit_hold | post_commit_drop | post_commit_drop_barrier | post_result_hold.
Definition mode_text (m : FaultMode) : jstr :=
  match m with
  | pre_commit_500 => "pre-commit-500" | pre_commit_hold => "pre-commit-hold" | post_commit_drop => "post-commit-drop"
  | post_commit_drop_barrier => "post-commit-drop-barrier" | post_result_hold => "post-result-hold"
  end.
Record UploadFaultOptions := mkFault { fault_mode : FaultMode; fault_secret : jstr }.

(** What an open client and its connector keep in memory. *)
Record Memory := mkMemory {
  m_session : option ReplicaSessionSecret;
  m_resetCount : Z;
  m_finalized : list QuarantinedCommand;
  m_connector : option ReplicaSessionSecret;
  m_resetRequired : bool;
  m_fault : option UploadFaultOptions;
  m_closed : bool;
}.
Definition mem_session (m : Memory) s n := mkMemory s n (m_finalized m) (m_connector m) (m_resetRequired m) (m_fault m) (m_closed m).
Definition mem_finalized (m : Memory) l := mkMemory (m_session m) (m_resetCount m) l (m_connector m) (m_resetRequired m) (m_fault m) (m_closed m).
Definition mem_connector (m : Memory) c r := mkMemory (m_session m) (m_resetCount m) (m_finalized m) c r (m_fault m) (m_closed m).
Definition mem_closed (m : Memory) b := mkMemory (m_session m) (m_resetCount m) (m_finalized m) (m_connector m) (m_resetRequired m) (m_fault m) b.

Record World (S : Type) := mkWorld {
  w_app : ApplicationState; w_quarantine : option SideFile; w_reset : option SideFile; w_mem : Memory; w_env : S }.
Arguments mkWorld {S}. Arguments w_app {S}. Arguments w_quarantine {S}. Arguments w_reset {S}. Arguments w_mem {S}. Arguments w_env {S}.

(** What can be thrown. *)
Inductive client_error :=
| Failed (message : jstr)
| Local (e : local_error)
| NetworkError | SdkError | FileError
| BodyTypeError  (** [key in body] of a body that is no object *)
| ReplicaResetRequiredError.

Inductive ClientOp : Type -> Type :=
| op_app {A} (m : Sql A) : ClientOp A
| op_mem {A} (f : Memory -> A * Memory) : ClientOp A
| op_fetch (h : Http) : ClientOp Response
| op_next : ClientOp (option Transaction)
| op_crud (limit : nat) : ClientOp (list CrudEntry)
| op_complete (t : Transaction) : ClientOp ()
| op_enqueue (e : CrudEntry) : ClientOp ()
| op_disconnect : ClientOp ()
| op_clear : ClientOp ()
| op_close : ClientOp ()
| op_connect : ClientOp ()
| op_chmod : ClientOp ()
| op_incarnation (id : jstr) : ClientOp (option jstr)
| op_live (id incarnation : jstr) : ClientOp bool
| op_files : ClientOp (thrown bool * thrown bool)
| op_read_quarantine : ClientOp (option SideFile)
| op_write_quarantine (v : jsval) : ClientOp ()
| op_read_reset : ClientOp (option SideFile)
| op_write_reset (v : jsval) : ClientOp ()
| op_unlink_reset : ClientOp ()
| op_uuid : ClientOp jstr.

Section Handler.
Context {S : Type} {env : Environment S}.

Definition with_app (w : World S) a := mkWorld a (w_quarantine w) (w_reset w) (w_mem w) (w_env w).
Definition with_env (w : World S) (s : S) := mkWorld (w_app w) (w_quarantine w) (w_reset w) (w_mem w) s.
Definition with_mem (w : World S) m := mkWorld (w_app w) (w_quarantine w) (w_reset w) m (w_env w).
Definition with_quarantine (w : World S) f := mkWorld (w_app w) f (w_reset w) (w_mem w) (w_env w).
Definition with_reset (w : World S) f := mkWorld (w_app w) (w_quarantine w) f (w_mem w) (w_env w).

Definition sdk (r : bool * S) (w : World S) : outcome client_error () * World S :=
  ((if r.1 then Throw SdkError else Ok tt), with_env w r.2).
(** A private write replaces the file or leaves it as it was. *)
Definition disk (r : option bool * S) (w replaced : World S) : outcome client_error () * World S :=
  match r.1 with
  | None => (Ok tt, with_env replaced r.2)
  | Some b => (Throw FileError, with_env (if b then replaced else w) r.2)
  end.

#[export] Instance client_handler : Handler ClientOp client_error (World S) := fun X op w =>
  match op in ClientOp X return outcome client_error X * World S with
  | op_app m => match m (w_app w) with
                | Ok (a, s) => (Ok a, with_app w s)
                | Throw e => (Throw (Local e), w)
                end
  | op_mem f => let '(a, m) := f (w_mem w) in (Ok a, with_mem w m)
  | op_fetch h => match env_fetch h (w_env w) with
                  | (Some r, s) => (Ok r, with_env w s)
                  | (None, s) => (Throw NetworkError, with_env w s)
                  end
  | op_next => (Ok (head (env_queue (w_env w))), w)
  | op_crud limit => (Ok (take limit (env_queue (w_env w) ≫= tx_crud)), w)
  | op_complete t => sdk (env_complete t (w_env w)) w
  | op_enqueue e => sdk (env_enqueue e (w_env w)) w
  | op_disconnect => sdk (env_disconnect (w_env w)) w
  | op_clear => sdk (env_clear (w_env w)) w
  | op_close => sdk (env_close (w_env w)) w
  | op_connect => sdk (env_connect (w_env w)) w
  | op_chmod => let '(threw, s) := env_chmod (w_env w) in ((if threw then Throw FileError else Ok tt), with_env w s)
  | op_incarnation id => (Ok (env_incarnation id (w_env w)), w)
  | op_live id incarnation => (Ok (env_live id incarnation (w_env w)), w)
  | op_files => (Ok (env_files (w_env w)), w)
  | op_read_quarantine => (Ok (w_quarantine w), w)
  | op_write_quarantine v => disk (env_write (w_env w)) w (with_quarantine w (Some (private_file v)))
  | op_read_reset => (Ok (w_reset w), w)
  | op_write_reset v => disk (env_write (w_env w)) w (with_reset w (Some (private_file v)))
  | op_unlink_reset =>
      let '(threw, s) := env_unlink (w_env w) in
      if threw then (Throw FileError, with_env w s) else (Ok tt, with_env (with_reset w None) s)
  | op_uuid => let '(id, s) := env_uuid (w_env w) in (Ok id, with_env w s)
  end.
End Handler.

(** ** Programs of the client *)

Abbreviation Client := (Prog ClientOp client_error).
Definition app {A} (m : Sql A) : Client A := call (op_app m).
Definition mem {A} (f : Memory -> A) : Client A := call (op_mem (fun m => (f m, m))).
Definition set_mem (f : Memory -> Memory) : Client () := call (op_mem (fun m => (tt, f m))).
Definition fail {A} (message : jstr) : Client A := throw (Failed message).
Definition lift_thrown {A} (o : thrown A) : Client A := match o with Ok a => mret a | Throw m => fail m end.
Definition lift_local {A} (o : locally A) : Client A := match o with Ok a => mret a | Throw e => throw (Local e) end.
Definition fail_if (b : bool) (message : string) : Client () := if b then fail (js message) else mret tt.

Section Operations.
Context {printer : NumPrinter} {reader : NumReader} {collation : Collation} (sha256 : jstr -> jstr).

(** ** Uploading *)

Definition terminal_of (fs : list (jstr * jsval)) : locally TerminalResultRecord :=
  match get fs "commandId", get fs "resourceId", get fs "state", get fs "code", get fs "digest",
        positive_safe (get fs "previousVersion"), positive_safe (get fs "currentVersion"), positive_safe (get fs "attemptNumber") with
  | VStr id, VStr resource, VStr state, VStr code, VStr digest, Some previous, Some current, Some attempt =>
      Ok (mkTerminal id resource state code previous current digest attempt)
  | _, _, _, _, _, _, _, _ => Throw SqliteError
  end.

Definition holdBeforeSdkCompletion : Client () := set_mem (fun m => m).
Definition completeWithResults (t : Transaction) (results : list TerminalResultRecord) : Client () :=
  _ ← app (persistResults results);
  _ ← holdBeforeSdkCompletion;
  _ ← call (op_complete t);
  app (markResultsSdkCompleted (t_commandId <$> results)).

(** A result the client makes up for a command it gives up. *)
Definition failed_result (command : SpikeCommand) (binding : ReplicaBinding) (code : string) (attempt : Z) : TerminalResultRecord :=
  mkTerminal (commandId command) (resourceId command) "failed" (js code)
    (expectedRecordVersion command) (expectedRecordVersion command) (commandDigest sha256 command binding) attempt.

Definition command_object (c : SpikeCommand) : jsval :=
  VObj ([(js "commandId", VStr (commandId c)); (js "type", VStr (type_string (type c)));
         (js "resourceId", VStr (resourceId c)); (js "resourceIncarnationId", VStr (resourceIncarnationId c));
         (js "expectedRecordVersion", num (expectedRecordVersion c))]
        ++ match payload c with Some p => [(js "payload", VStr p)] | None => [] end).
Definition upload_request (t : Transaction) (session : ReplicaSessionSecret) (fault : option UploadFaultOptions)
    (commands : list SpikeCommand) : Http :=
  mkHttp "/spike/commands" (Some (credential session))
    (match fault with
     | Some f => match fault_mode f with post_result_hold => None | m => Some (mode_text m, fault_secret f) end
     | None => None
     end)
    (VObj [(js "spikeProtocol", num spikeProtocol); (js "replicaId", VStr (replicaId (session_binding session)));
           (js "replicaEpoch", num (replicaEpoch (session_binding session)));
           (js "localTransactionId", VStr (to_string (tx_id t))); (js "commands", VArr (command_object <$> commands))]).

(** A failure that may pass is counted; the fifth gives the command up. *)
Definition transient_failure (t : Transaction) (command : SpikeCommand) (binding : ReplicaBinding) (e : client_error) : Client () :=
  failures ← app (recordTransientFailure (commandId command));
  if maxTransientUploadAttempts <=? failures
  then completeWithResults t [failed_result command binding "retry_exhausted" failures] else throw e.

Definition parsed_results (raw : jsval) (commands : list SpikeCommand) (binding : ReplicaBinding)
    : Client (list (list (jstr * jsval))) :=
  lift_thrown (parseCommandResponse sha256 raw commands binding).
Definition complete_parsed (t : Transaction) (results : list (list (jstr * jsval))) : Client () :=
  records ← lift_local (mapM terminal_of results);
  completeWithResults t records.

(** What is done with an answer. *)
Definition upload_answer (t : Transaction) (commands : list SpikeCommand) (command : SpikeCommand)
    (binding : ReplicaBinding) (response : Response) : Client () :=
  let status := r_status response in
  if status =? 428 then
    _ ← set_mem (fun m => mem_connector m (m_connector m) true); throw ReplicaResetRequiredError
  else if isRetryableUploadStatus status then
    transient_failure t command binding
      (Failed (js "Retryable spike command upload failure HTTP " ++ print_int status ++ js "."))
  else match r_json response with
  | None => fail (js "Malformed spike command response.")
  | Some raw =>
      if status =? 403 then
        results ← parsed_results raw commands binding;
        match results with
        | r :: _ => if strict_eq (get r "state") (VStr "denied") then complete_parsed t results
                    else fail (js "Denied command response lacks a digest-bound terminal result.")
        | [] => fail (js "Denied command response lacks a digest-bound terminal result.")
        end
      else if (status =? 409) && strict_eq (prop raw "error") (VStr "idempotency_conflict") then
        completeWithResults t [failed_result command binding "idempotency_conflict" 1]
      else if negb ((200 <=? status) && (status <=? 299)) then
        fail (js "Spike command upload failed with HTTP " ++ print_int status ++ js ".")
      else
        results ← parsed_results raw commands binding;
        complete_parsed t results
  end.

Definition uploadData : Client () :=
  next ← call op_next;
  match next with
  | None => mret tt
  | Some t =>
      commands ← lift_local (validateQueuedCrud (tx_crud t));
      session ← mem m_connector;
      fault ← mem m_fault;
      match session, commands with
      | Some session, command :: _ =>
          let binding := session_binding session in
          Call (op_fetch (upload_request t session fault commands)) (fun r =>
            match r with
            | Throw e => transient_failure t command binding e
            | Ok response => upload_answer t commands command binding response
            end)
      | _, _ => fail (js "A registered replica session is required for command upload.")
      end
  end.

(** ** Commands of an open client *)

Record QueuedCommandInput := mkInput {
  in_commandId : jstr; in_type : SpikeCommandType; in_resourceId : jstr;
  in_resourceIncarnationId : option jstr; in_expectedRecordVersion : jsval; in_payload : option jstr }.
Definition bindCommand (i : QueuedCommandInput) : Client BoundCommand :=
  version ← lift_local (assertPositiveExpectedRecordVersion (in_expectedRecordVersion i));
  incarnation ← match in_resourceIncarnationId i with
                | Some x => mret (Some x)
                | None => call (op_incarnation (in_resourceId i))
                end;
  match incarnation with
  | Some x => if str_truthy x
              then lift_local (bind_command (mkCommand (in_commandId i) (in_type i) (in_resourceId i) x version (in_payload i)))
              else fail (js "Cannot bind a command without one replicated resource incarnation.")
  | None => fail (js "Cannot bind a command without one replicated resource incarnation.")
  end.

Definition queue_entry (c : SpikeCommand) (correlationId : jstr) : CrudEntry :=
  mkCrud "command_queue" "PUT" (VStr (commandId c))
    (Some [(js "command_type", VStr (type_string (type c))); (js "command_version", num 1);
           (js "resource_id", VStr (resourceId c)); (js "resource_incarnation_id", VStr (resourceIncarnationId c));
           (js "expected_record_version", num (expectedRecordVersion c));
           (js "payload", match type c with resource_update => opt_text (payload c) | _ => VNull end);
           (js "upload_correlation_id", VStr correlationId)]).

Definition queueCommands (commands : list QueuedCommandInput) (correlationId : jstr) : Client () :=
  match commands with
  | [input] =>
      bound ← bindCommand input;
      finalized ← mem m_finalized;
      inserted ← app (admit_bound (q_id <$> finalized) (finalizedQuarantineBytes finalized) bound);
      catch (call (op_enqueue (queue_entry (b_command bound) correlationId)))
        (fun e => _ ← app (removeOverlays inserted); throw e)
  | _ => fail (js "The M3a local transaction requires exactly one command.")
  end.

Definition acknowledgeCommandResult (commandId : jstr) : Client bool := app (acknowledgeResult commandId).

Definition persistQuarantineAcknowledgement (current : list QuarantinedCommand) (commandId : jstr)
    : Client (option (list QuarantinedCommand)) :=
  match without_quarantined commandId current with
  | None => mret None
  | Some next => _ ← call (op_write_quarantine (store_value (mkStore next []))); mret (Some next)
  end.
Definition acknowledgeOrDiscardQuarantinedCommand (commandId : jstr) : Client bool :=
  finalized ← mem m_finalized;
  next ← persistQuarantineAcknowledgement finalized commandId;
  match next with
  | None => mret false
  | Some next => _ ← set_mem (fun m => mem_finalized m next); mret true
  end.
End Operations.
