(* ===== verification/UploadSpec.v ===== *)
(** What uploading guarantees, whatever the network does and wherever the
    process dies: a command leaves the upload queue only after its terminal
    result is in the application state. *)
From S2P Require Export Client.

(** ** Results are only added *)

Section Results.
Context {printer : NumPrinter}.

Definition has_result (s : ApplicationState) (id : jstr) : Prop := is_Some (app_results s !! id).

Lemma persistResult_results r s u s' :
  persistResult r s = Ok (u, s') -> app_results s ⊆ app_results s' /\ has_result s' (t_commandId r).
Proof.
  unfold persistResult, mbind, sql_bind, sql_get. cbn [mbind outcome_bind]. intros H. unfold has_result.
  destruct (app_results s !! t_commandId r) as [row|] eqn:Er.
  - destruct (sql_lift _ s) as [[? s1]|] eqn:E1 in H; [|done]. cbn in H. injection H as _ <-.
    unfold sql_lift in E1. apply bind_Ok in E1 as (? & _ & [= _ <-]). cbn. by rewrite Er.
  - apply bind_Ok in H as ([? s1] & H1 & H2). cbn in H2. injection H2 as _ <-. cbn. unfold sql_lift in H1.
    repeat (apply bind_Ok in H1 as ([? ?] & (? & _ & [= _ <-])%bind_Ok & H1)). injection H1 as _ <-. cbn.
    split; [by apply insert_subseteq|]. by rewrite lookup_insert_eq.
Qed.
Lemma persistResults_results rs s u s' :
  persistResults rs s = Ok (u, s') ->
  app_results s ⊆ app_results s' /\ forall id, id ∈ t_commandId <$> rs -> has_result s' id.
Proof.
  revert s. induction rs as [|r rs IH]; intros s H.
  - injection H as _ <-. split; [done|]. by intros ? ?%elem_of_nil.
  - cbn in H. unfold mbind, sql_bind in H. apply bind_Ok in H as ([u1 s1] & H1 & H2).
    apply persistResult_results in H1 as [Hs1 Hr]. destruct (IH s1 H2) as [Hs2 Hrs].
    split; [by etrans|]. intros id [->|Hid]%elem_of_cons; [|by apply Hrs].
    destruct Hr as [row Hrow]. exists row. by eapply lookup_weaken.
Qed.
Lemma markResults_results ids s u s' :
  markResultsSdkCompleted ids s = Ok (u, s') ->
  (forall id, has_result s id -> has_result s' id) /\
  forall id, id ∈ ids -> exists r, app_results s' !! id = Some r /\ r_completed r = true.
Proof.
  enough (markResultsSdkCompleted ids s = Ok (u, s') ->
    (forall id r, app_results s !! id = Some r -> exists r', app_results s' !! id = Some r' /\ (r_completed r = true -> r_completed r' = true)) /\
    forall id, id ∈ ids -> exists r, app_results s' !! id = Some r /\ r_completed r = true) as Hmain.
  { intros [H1 H2]%Hmain. split; [|done]. intros id [r Hr]. destruct (H1 id r Hr) as (r' & Hr' & _). by exists r'. }
  revert s. induction ids as [|id ids IH]; intros s H.
  - injection H as _ <-. split; [|by intros ? ?%elem_of_nil]. intros id r Hr. by exists r.
  - cbn in H. unfold mbind, sql_bind in H. apply bind_Ok in H as ([u1 s1] & H1 & H2).
    unfold markResult, mbind, sql_bind, sql_get in H1. cbn in H1.
    destruct (app_results s !! id) as [r|] eqn:Er; [|done]. cbn in H1. injection H1 as _ <-.
    destruct (IH _ H2) as [Hk Hm]. cbn in Hk. split.
    + intros k r0 Hr0. destruct (decide (id = k)) as [<-|Hne].
      * destruct (Hk id (mark_completed r)) as (r' & Hr' & Hc); [by rewrite lookup_insert_eq|]. exists r'. auto.
      * destruct (Hk k r0) as (r' & Hr' & Hc); [by rewrite lookup_insert_ne|]. by exists r'.
    + intros k [->|Hin]%elem_of_cons; [|by apply Hm].
      destruct (Hk id (mark_completed r)) as (r' & Hr' & Hc); [by rewrite lookup_insert_eq|]. exists r'. auto.
Qed.
End Results.

(** ** The size of a terminal result *)

Section TerminalSize.
Context {printer : NumPrinter}.

Definition uuid_unit (u : N) : Prop := (u = 45 \/ 48 <= u <= 57 \/ 97 <= u <= 102)%N.
Lemma uuid_classes_units version s :
  (forall u, version u = true -> (48 <= u <= 57)%N) ->
  match_classes (uuid_classes version) s = true -> Forall uuid_unit s /\ length s = 36%nat.
Proof.
  intros Hv Hs. enough (forall cs s, Forall (fun c => forall u, c u = true -> uuid_unit u) cs -> match_classes cs s = true ->
    Forall uuid_unit s /\ length s = length cs) as Hgen.
  { apply (Hgen (uuid_classes version)); [|done].
    repeat (apply List.Forall_cons; [intros u Hu; unfold is_lower_hex, is_digit in Hu; cbn in Hu; try apply Hv in Hu; unfold uuid_unit; lia|]).
    apply List.Forall_nil. }
  clear. intros cs s Hcs. revert s. induction Hcs as [|c cs Hc _ IH]; intros [|u s]; cbn; try done.
  rewrite andb_true_iff. intros [Hu [Hs Hl]%IH]. split; [by constructor; [apply Hc|]|by rewrite Hl].
Qed.
Lemma uuid_size s : uuid s = true \/ commandUuid s = true -> value_size (VStr s) = 38.
Proof.
  intros Hs. assert (Forall uuid_unit s /\ length s = 36%nat) as [Hu Hl].
  { destruct Hs as [Hs|Hs]; apply uuid_classes_units in Hs; try done; intros u Hu; cbn in Hu; lia. }
  rewrite quote_printable, Hl; [done|]. eapply Forall_impl; [exact Hu|]. unfold uuid_unit, printable. intros u. lia.
Qed.

(** A hash in hexadecimal, 64 digits. *)
Definition hex_digest (s : jstr) : Prop := Forall (fun u => is_lower_hex u = true) s /\ length s = 64%nat.
Lemma digest_size s : hex_digest s -> value_size (VStr s) = 66.
Proof.
  intros [Hs Hl]. rewrite quote_printable, Hl; [done|]. eapply Forall_impl; [exact Hs|].
  unfold is_lower_hex, is_digit, printable. intros u. cbn. lia.
Qed.

Record terminal_ok (r : TerminalResultRecord) : Prop := {
  to_id : commandUuid (t_commandId r) = true; to_resource : uuid (t_resourceId r) = true;
  to_state : value_size (VStr (t_state r)) <= 10; to_code : value_size (VStr (t_code r)) <= 22;
  to_digest : hex_digest (t_digest r);
  to_previous : 0 <= t_previousVersion r <= max_safe; to_current : 0 <= t_currentVersion r <= max_safe;
  to_attempt : 0 <= t_attemptNumber r <= max_safe }.
Lemma terminal_fits r : terminal_ok r -> terminalResultSerializedBytes r <= terminalResultReservationBytes.
Proof.
  intros [H1 H2 H3 H4 H5 H6 H7 H8]. pose proof (value_size_safe _ H6) as S6. pose proof (value_size_safe _ H7) as S7.
  pose proof (value_size_safe _ H8) as S8. unfold terminalResultSerializedBytes, terminal_value.
  rewrite serialized_obj by (repeat (apply List.Forall_cons; [cbn [snd]; first [apply plain_str|constructor; unfold max_safe in *; lia]|]); apply List.Forall_nil).
  cbn [fields_size foldr fst snd]. unfold field_size. cbn [fst snd].
  repeat match goal with |- context [utf8_length (quote (js ?s))] =>
    let n := eval vm_compute in (utf8_length (quote (js s))) in change (utf8_length (quote (js s))) with n end.
  rewrite (uuid_size (t_commandId r)), (uuid_size (t_resourceId r)), (digest_size _ H5) by auto.
  unfold terminalResultReservationBytes. lia.
Qed.
End TerminalSize.

(** ** Validated transactions *)

Lemma validateQueuedCrud_one crud cs : validateQueuedCrud crud = Ok cs -> exists c, cs = [c].
Proof.
  unfold validateQueuedCrud. intros (u & Hl%throw_if_Ok & H)%bind_Ok.
  destruct crud as [|e [|e' crud]]; try done. cbn in H.
  apply bind_Ok in H as (c & _ & H). cbn in H. injection H as <-. by exists c.
Qed.

(** ** One upload *)

Section Upload.
Context {printer : NumPrinter} {reader : NumReader} (sha256 : jstr -> jstr).
Context {S : Type} {env : Environment S} {laws : QueueLaws S}.
Implicit Types w : World S.

Definition queue w : list Transaction := env_queue (w_env w).
(** The first transaction of the queue is gone, its command answered. *)
Definition dequeued (P : ResultRow -> Prop) w w' : Prop :=
  exists t q c r, queue w = t :: q /\ queue w' = q /\ validateQueuedCrud (tx_crud t) = Ok [c] /\
    app_results (w_app w') !! commandId c = Some r /\ P r.
Definition kept w w' : Prop :=
  (forall id, has_result (w_app w) id -> has_result (w_app w') id) /\
  (queue w' = queue w \/ dequeued (fun _ => True) w w').
Definition uploaded w (r : outcome client_error ()) w' : Prop :=
  r = Ok tt -> (queue w = [] /\ queue w' = []) \/ dequeued (fun r => r_completed r = true) w w'.

Lemma with_mem_id w : with_mem w (w_mem w) = w.
Proof. by destruct w. Qed.
Lemma kept_refl w : kept w w.
Proof. split; auto. Qed.

(** Steps of the proof: an effect, then the rest. *)
Lemma safe_bind_call {A X} I (Q : outcome client_error A -> World S -> Prop) (op : ClientOp X) (k : X -> Client A) w :
  I w -> (forall x w', handle op w = (Ok x, w') -> safe I Q (k x) w') ->
  (forall e w', handle op w = (Throw e, w') -> I w' /\ Q (Throw e) w') ->
  safe I Q (call op ≫= k) w.
Proof.
  intros Hw Hk He. apply (safe_call I Q op). { done. } intros [x|e] w' Hh; cbn; [by apply Hk|by apply He].
Qed.
Lemma safe_bind_lift {A X} I (Q : outcome client_error A -> World S -> Prop) (r : outcome client_error X) (k : X -> Client A) w :
  I w -> (forall x, r = Ok x -> safe I Q (k x) w) -> (forall e, r = Throw e -> Q (Throw e) w) ->
  safe I Q (Done r ≫= k) w.
Proof. intros Hw Hk He. destruct r as [x|e]; [by apply Hk|]. split; [done|by apply He]. Qed.

(** A sequence of statements on the application state. *)
Lemma handle_app_Ok {A} (m : Sql A) w x w' :
  handle (op_app m) w = (Ok x, w') -> exists s, m (w_app w) = Ok (x, s) /\ w' = with_app w s.
Proof. cbn. destruct (m (w_app w)) as [[a s]|e]; [|done]. intros [= <- <-]. by exists s. Qed.
Lemma handle_app_Throw {A} (m : Sql A) w e w' : handle (op_app m) w = (Throw e, w') -> w' = w.
Proof. cbn. destruct (m (w_app w)) as [[a s]|x]; [done|]. by intros [= _ <-]. Qed.

Lemma completeWithResults_safe w0 w t q c rs :
  queue w0 = t :: q -> queue w = t :: q -> validateQueuedCrud (tx_crud t) = Ok [c] ->
  commandId c ∈ t_commandId <$> rs -> (forall id, has_result (w_app w0) id -> has_result (w_app w) id) ->
  safe (kept w0) (uploaded w0) (completeWithResults t rs) w.
Proof.
  intros Hq0 Hq Hv Hc Hr. assert (kept w0 w) as Hk by (split; [done|left; congruence]).
  unfold completeWithResults, app. apply safe_bind_call; [done| |intros e w1 ->%handle_app_Throw; by split].
  intros u w1 (s1 & Hp & ->)%handle_app_Ok. apply persistResults_results in Hp as [Hsub Hnew].
  assert (forall id, has_result (w_app w0) id -> has_result s1 id) as Hr1.
  { intros id [r Hrow]%Hr. exists r. by eapply lookup_weaken. }
  assert (kept w0 (with_app w s1)) as Hk1 by (split; [done|left; unfold queue in *; cbn; congruence]).
  unfold holdBeforeSdkCompletion, set_mem. apply safe_bind_call; [done| |by intros e w2 [=]].
  intros u1 w2 [= <- <-]. set (w2 := with_mem (with_app w s1) _).
  assert (kept w0 w2) as Hk2 by done. destruct (Hnew (commandId c) Hc) as [row Hrow].
  assert (forall s', env_queue s' = q -> dequeued (fun _ => True) w0 (with_env w2 s')) as Hdeq.
  { intros s' Hs'. exists t, q, c, row. done. }
  apply safe_bind_call; [done| |].
  - intros u2 w3. cbn [handle client_handler]. unfold sdk. destruct (env_complete t (w_env w2)) as [b s'] eqn:Ec.
    cbn [fst snd]. destruct b; [done|]. intros [= <- <-]. assert (env_queue s' = q) as Hq' by (eapply law_complete; [exact Hq|exact Ec]).
    apply safe_call; [by split; [|right; apply Hdeq]|]. intros [u3|e] w4.
    + intros (s3 & Hm & ->)%handle_app_Ok. apply markResults_results in Hm as [Hm1 Hm2].
      destruct (Hm2 (commandId c) Hc) as (r' & Hr' & Hcomp). apply safe_done.
      * split; [intros id Hid; by apply Hm1, Hr1|]. right. by exists t, q, c, r'.
      * intros _. right. by exists t, q, c, r'.
    + intros ->%handle_app_Throw. apply safe_done; [by split; [|right; apply Hdeq]|done].
  - intros e w3. cbn [handle client_handler]. unfold sdk. destruct (env_complete t (w_env w2)) as [b s'] eqn:Ec.
    cbn [fst snd]. destruct b; [|done]. intros [= <- <-]. split; [|done].
    destruct (law_complete_threw t q (w_env w2) s' Hq Ec) as [Hq'|Hq']; (split; [done|]).
    + right. by apply Hdeq.
    + left. unfold queue in *. cbn. congruence.
Qed.

(** A step that touches neither the queue nor the results. *)
Lemma kept_results w0 w s :
  kept w0 w -> queue w = queue w0 -> app_results s = app_results (w_app w) -> kept w0 (with_app w s).
Proof.
  intros [Hr _] Hq Hs. split; [|by left]. intros id Hid. unfold has_result in *. cbn. rewrite Hs. by apply Hr.
Qed.

Lemma transient_failure_safe w0 w t q c b e :
  queue w0 = t :: q -> queue w = t :: q -> validateQueuedCrud (tx_crud t) = Ok [c] -> kept w0 w ->
  safe (kept w0) (uploaded w0) (transient_failure sha256 t c b e) w.
Proof.
  intros Hq0 Hq Hv Hk. unfold transient_failure, app. apply safe_bind_call; [done| |intros e1 w1 ->%handle_app_Throw; by split].
  intros n w1 (s1 & Hs & ->)%handle_app_Ok. assert (app_results s1 = app_results (w_app w)) as Hres.
  { unfold recordTransientFailure in Hs. destruct (5 <? _) in Hs; [done|]. by injection Hs as _ <-. }
  assert (kept w0 (with_app w s1)) as Hk1 by (apply kept_results; congruence).
  destruct (_ <=? n); [|by apply safe_done]. eapply completeWithResults_safe; [done..| |apply Hk1]. apply list_elem_of_here.
Qed.

Lemma terminal_of_id fs r : terminal_of fs = Ok r -> t_commandId r = result_id fs.
Proof.
  unfold terminal_of, result_id. repeat case_match; try done. intros [= <-]. done.
Qed.
Lemma mapM_terminal_ids l rs : mapM terminal_of l = Ok rs -> t_commandId <$> rs = result_id <$> l.
Proof.
  revert rs. induction l as [|fs l IH]; intros rs; cbn; [by intros [= <-]|].
  intros (r & Hr%terminal_of_id & H)%bind_Ok. apply bind_Ok in H as (rs' & Hrs & [= <-]). cbn. f_equal; auto.
Qed.

Lemma complete_parsed_safe w0 w t q c v b rs :
  queue w0 = t :: q -> queue w = t :: q -> validateQueuedCrud (tx_crud t) = Ok [c] -> kept w0 w ->
  parseCommandResponse sha256 v [c] b = Ok rs ->
  safe (kept w0) (uploaded w0) (complete_parsed t rs) w.
Proof.
  intros Hq0 Hq Hv Hk Hp. apply parseCommandResponse_sound in Hp as (_ & _ & Hids & _); [|apply NoDup_singleton].
  unfold complete_parsed, lift_local. destruct (mapM terminal_of rs) as [records|e] eqn:Er; [|by apply safe_done].
  apply mapM_terminal_ids in Er. eapply completeWithResults_safe; [done..| |apply Hk].
  rewrite Er, Hids. apply list_elem_of_here.
Qed.

Lemma upload_answer_safe w0 w t q c b response :
  queue w0 = t :: q -> queue w = t :: q -> validateQueuedCrud (tx_crud t) = Ok [c] -> kept w0 w ->
  safe (kept w0) (uploaded w0) (upload_answer sha256 t [c] c b response) w.
Proof.
  intros Hq0 Hq Hv Hk. unfold upload_answer. cbv zeta.
  assert (forall e, safe (kept w0) (uploaded w0) (Done (Throw e)) w) as Hthrow by (intros e; by apply safe_done).
  destruct (r_status response =? 428).
  { unfold set_mem. apply safe_bind_call; [done| |by intros e w1 [=]]. intros u w1 [= <- <-]. by apply safe_done. }
  destruct (isRetryableUploadStatus _); [by eapply transient_failure_safe|].
  destruct (r_json response) as [raw|]; [|apply Hthrow]. unfold parsed_results, lift_thrown.
  destruct (r_status response =? 403).
  { destruct (parseCommandResponse sha256 raw [c] b) as [rs|m] eqn:Ep; [|apply Hthrow].
    cbn. destruct rs as [|r rs]; [apply Hthrow|]. destruct (strict_eq _ _); [|apply Hthrow].
    by eapply complete_parsed_safe. }
  destruct (_ && _).
  { eapply completeWithResults_safe; [done..| |apply Hk]. apply list_elem_of_here. }
  destruct (negb _); [apply Hthrow|].
  destruct (parseCommandResponse sha256 raw [c] b) as [rs|m] eqn:Ep; [|apply Hthrow]. by eapply complete_parsed_safe.
Qed.

Lemma uploadData_safe w : safe (kept w) (uploaded w) (uploadData sha256) w.
Proof.
  unfold uploadData. apply safe_bind_call; [apply kept_refl| |by intros e w1 [=]].
  intros next w1 [= <- <-]. fold (queue w). destruct (queue w) as [|t q] eqn:Hq; cbn [head].
  { apply safe_done; [apply kept_refl|]. by left. }
  unfold lift_local. destruct (validateQueuedCrud (tx_crud t)) as [cs|e] eqn:Hv; [|by apply safe_done; [apply kept_refl|]].
  destruct (validateQueuedCrud_one _ _ Hv) as [c ->].
  unfold mem. apply safe_bind_call; [apply kept_refl| |by intros e w1 [=]]. intros session w1 [= <- <-]. rewrite with_mem_id.
  apply safe_bind_call; [apply kept_refl| |by intros e w1 [=]]. intros fault w1 [= <- <-]. rewrite with_mem_id.
  pose proof (kept_refl w) as Hk1.
  destruct (m_connector (w_mem w)) as [session|]; [|by apply safe_done].
  apply safe_call; [done|]. intros r w2. cbn [handle client_handler].
  pose proof (law_fetch (upload_request t session (m_fault (w_mem w)) [c]) (w_env w)) as Hf.
  destruct (env_fetch _ _) as [[response|] s]; cbn [snd] in Hf; intros [= <- <-].
  - assert (queue (with_env w s) = t :: q) as Hq2 by (unfold queue in *; cbn; congruence).
    eapply upload_answer_safe; [done..|]. split; [auto|]. left. congruence.
  - assert (queue (with_env w s) = t :: q) as Hq2 by (unfold queue in *; cbn; congruence).
    eapply transient_failure_safe; [done..|]. split; [auto|]. left. congruence.
Qed.

(** C7: uploading never loses a command.  Whatever the network answers, and
    wherever the process dies, the upload queue is as it was or only its first
    transaction is gone and the application state has the terminal result of
    its command; no result is lost; and an upload that returns has emptied or
    found empty that place and knows the result to be completed. *)
Theorem upload_never_loses w n :
  let w' := crashed n (uploadData sha256) w in
  (forall id, has_result (w_app w) id -> has_result (w_app w') id) /\
  (queue w' = queue w \/ dequeued (fun _ => True) w w') /\
  forall w', exec (uploadData sha256) w = (Ok tt, w') ->
    (queue w = [] /\ queue w' = []) \/ dequeued (fun r => r_completed r = true) w w'.
Proof.
  cbv zeta. pose proof (safe_crashed _ _ _ _ n (uploadData_safe w)) as [H1 H2]. split_and!; [done..|].
  intros w' He. by apply (safe_exec _ _ _ _ _ _ (uploadData_safe w) He).
Qed.

(** ** Running an upload *)

Lemma exec_app {A} (m : Sql A) w :
  exec (app m) w = match m (w_app w) with Ok (a, s) => (Ok a, with_app w s) | Throw e => (Throw (Local e), w) end.
Proof. unfold app. rewrite exec_call. cbn. by destruct (m (w_app w)) as [[a s]|e]. Qed.
Lemma exec_mem {A} (f : Memory -> A) w : exec (mem f) w = (Ok (f (w_mem w)), w).
Proof. unfold mem. rewrite exec_call. cbn. by rewrite with_mem_id. Qed.

(** An upload, up to the answer to its request. *)
Lemma exec_upload w t q c session :
  queue w = t :: q -> validateQueuedCrud (tx_crud t) = Ok [c] -> m_connector (w_mem w) = Some session ->
  exec (uploadData sha256) w =
    let '(r, s) := env_fetch (upload_request t session (m_fault (w_mem w)) [c]) (w_env w) in
    match r with
    | None => exec (transient_failure sha256 t c (session_binding session) NetworkError) (with_env w s)
    | Some response => exec (upload_answer sha256 t [c] c (session_binding session) response) (with_env w s)
    end.
Proof.
  intros Hq Hv Hs. unfold uploadData. rewrite exec_bind, exec_call. cbn [handle client_handler]. fold (queue w). rewrite Hq.
  cbn [head]. unfold lift_local. rewrite Hv, exec_bind. cbn [exec mret prog_ret].
  rewrite exec_bind, exec_mem, exec_bind, exec_mem, Hs. cbn [exec handle client_handler].
  by destruct (env_fetch _ _) as [[r|] s].
Qed.

(** An answer, or none, that may pass. *)
Definition transient (r : option Response) : Prop :=
  match r with None => True | Some r => isRetryableUploadStatus (r_status r) = true end.
Lemma exec_upload_transient w t q c session :
  queue w = t :: q -> validateQueuedCrud (tx_crud t) = Ok [c] -> m_connector (w_mem w) = Some session ->
  (forall h s, transient (fst (env_fetch h s))) ->
  exists e s, env_queue s = t :: q /\
    exec (uploadData sha256) w = exec (transient_failure sha256 t c (session_binding session) e) (with_env w s).
Proof.
  intros Hq Hv Hs Ht. rewrite (exec_upload w t q c session Hq Hv Hs).
  pose proof (law_fetch (upload_request t session (m_fault (w_mem w)) [c]) (w_env w)) as Hl.
  specialize (Ht (upload_request t session (m_fault (w_mem w)) [c]) (w_env w)).
  destruct (env_fetch _ _) as [[r|] s]; cbn [fst snd] in *.
  - eexists _, s. split; [unfold queue in Hq; congruence|]. unfold upload_answer. cbv zeta. cbn in Ht.
    assert (r_status r =? 428 = false) as -> by (unfold isRetryableUploadStatus in Ht; lia). by rewrite Ht.
  - eexists _, s. split; [unfold queue in Hq; congruence|done].
Qed.

(** A recorded failure that is not the fifth only counts. *)
Lemma exec_transient_counts w t c b e a :
  default 0 (app_attempts (w_app w) !! commandId c) = a -> 0 <= a -> a + 1 < maxTransientUploadAttempts ->
  exec (transient_failure sha256 t c b e) w =
    (Throw e, with_app w (with_attempts (w_app w) (<[commandId c := a + 1]> (app_attempts (w_app w))))).
Proof.
  intros Ha H0 Hlt. unfold transient_failure. rewrite exec_bind, exec_app. unfold recordTransientFailure. rewrite Ha.
  unfold maxTransientUploadAttempts in *. replace (5 <? a + 1) with false by lia. cbv zeta.
  by replace (5 <=? a + 1) with false by lia.
Qed.

(** The process died after the fifth failure was counted and before the
    command was given up: every later failure that may pass throws an error of
    the database, and the command is never given up. *)
Lemma fifth_failure_interrupted w t c b e :
  app_attempts (w_app w) !! commandId c = Some maxTransientUploadAttempts ->
  exec (transient_failure sha256 t c b e) w = (Throw (Local SqliteError), w).
Proof. intros Ha. unfold transient_failure. rewrite exec_bind, exec_app. unfold recordTransientFailure. by rewrite Ha. Qed.

(** ** Giving a command up *)

(** A result that takes the place of the overlay of its command. *)
Definition settled (s : ApplicationState) (r : TerminalResultRecord) (o : OverlayRow) (completed : bool) : ApplicationState :=
  let id := t_commandId r in
  let row := result_row r (o_serialized o) (terminalResultSerializedBytes r) in
  mkApp (<[id := if completed then mark_completed row else row]> (app_results s)) (delete id (app_overlays s))
    (delete id (app_attempts s)) (app_session s) (app_version s).
Lemma persist_settles s r o :
  app_results s !! t_commandId r = None -> app_overlays s !! t_commandId r = Some o ->
  terminalResultSerializedBytes r <= o_serialized o ->
  persistResults [r] s = Ok (tt, settled s r o false).
Proof.
  intros Hr Ho Hs. unfold persistResults, sql_each, persistResult, mbind, sql_bind, sql_get. cbn [mbind outcome_bind].
  rewrite Hr. cbv zeta. rewrite Ho. cbn [fmap option_fmap option_map mbind outcome_bind sql_lift].
  unfold sql_lift, local_if. cbn [mbind outcome_bind]. by replace (o_serialized o <? terminalResultSerializedBytes r) with false by lia.
Qed.
Lemma exec_complete w t q r o :
  queue w = t :: q -> (forall t s, fst (env_complete t s) = false) ->
  app_results (w_app w) !! t_commandId r = None -> app_overlays (w_app w) !! t_commandId r = Some o ->
  terminalResultSerializedBytes r <= o_serialized o ->
  exists s, env_queue s = q /\
    exec (completeWithResults t [r]) w = (Ok tt, with_env (with_app w (settled (w_app w) r o true)) s).
Proof.
  intros Hq Hc Hr Ho Hs. exists (snd (env_complete t (w_env w))). specialize (Hc t (w_env w)).
  destruct (env_complete t (w_env w)) as [b s] eqn:Ec. cbn [fst snd] in *. subst b.
  split; [by eapply law_complete|]. unfold completeWithResults.
  rewrite exec_bind, exec_app, (persist_settles _ _ o) by done. rewrite exec_bind. unfold holdBeforeSdkCompletion, set_mem.
  rewrite exec_call. cbn [handle client_handler]. rewrite with_mem_id, exec_bind, exec_call. cbn [handle client_handler].
  cbn [w_env with_app]. rewrite Ec. unfold sdk. cbn [fst snd]. rewrite exec_app.
  cbn [w_app with_env with_app fmap list_fmap]. unfold markResultsSdkCompleted, sql_each, markResult, mbind, sql_bind, sql_get.
  cbn [mbind outcome_bind settled app_results]. rewrite lookup_insert_eq. cbn [sql_set mbind outcome_bind app_results].
  unfold sql_set, with_results. cbn [mret sql_ret app_results app_overlays app_attempts app_session app_version mbind outcome_bind].
  unfold settled. cbn. by rewrite insert_insert_eq.
Qed.

(** Uploads one after another. *)
Fixpoint uploads (n : nat) w : World S :=
  match n with O => w | Datatypes.S n => uploads n (snd (exec (uploadData sha256) w)) end.

Lemma failed_result_ok c b code n :
  command_ok c -> (forall x, hex_digest (sha256 x)) -> 0 <= n <= max_safe ->
  value_size (VStr (js code)) <= 22 -> terminal_ok (failed_result sha256 c b code n).
Proof.
  intros Hc Hh Hn Hcode. pose proof (co_version c Hc). split; cbn; try done; try lia.
  - apply Hc.
  - apply Hc.
  - apply Hh.
Qed.

(** C19: a command is not retried for ever.  While every attempt fails in a way
    that may pass (no answer, or a status that is retried), the fifth failure
    gives the command up: the queue moves on and the application state holds
    the result that says so, completed.  The conditions: the SDK's completion
    of a transaction never throws, a session is registered, the first
    transaction is one well-formed command that has no result yet, its
    overlay has at least 512 bytes reserved, SHA-256 prints 64 hexadecimal
    digits, and fewer than five failures of it are counted.  With five counted
    the command is never given up ([fifth_failure_interrupted]). *)
Theorem gives_up_after_five w t q c session o a :
  (forall h s, transient (fst (env_fetch h s))) -> (forall t s, fst (env_complete t s) = false) ->
  (forall x, hex_digest (sha256 x)) -> command_ok c ->
  queue w = t :: q -> validateQueuedCrud (tx_crud t) = Ok [c] -> m_connector (w_mem w) = Some session ->
  app_results (w_app w) !! commandId c = None ->
  app_overlays (w_app w) !! commandId c = Some o -> terminalResultReservationBytes <= o_serialized o ->
  default 0 (app_attempts (w_app w) !! commandId c) = Z.of_nat a -> (a < 5)%nat ->
  let w' := uploads (5 - a) w in
  queue w' = q /\
  exists r, app_results (w_app w') !! commandId c = Some r /\
    r_state r = js "failed" /\ r_code r = js "retry_exhausted" /\ r_attempt r = 5 /\ r_completed r = true.
Proof.
  intros Ht Hc Hh Hok. remember (4 - a)%nat as k eqn:Hk. revert w a Hk.
  induction k as [|k IH]; intros w a Hk Hq Hv Hs Hr Ho Hb Ha Hlt.
  - assert (a = 4%nat) as -> by lia. cbn [Nat.sub uploads].
    destruct (exec_upload_transient w t q c session Hq Hv Hs Ht) as (e & s & Hq1 & ->).
    unfold transient_failure. rewrite exec_bind, exec_app. unfold recordTransientFailure. cbn [w_app with_env]. rewrite Ha.
    cbn [Z.of_nat]. change (5 <? Z.of_nat 4 + 1) with false. cbv zeta iota. change (maxTransientUploadAttempts <=? Z.of_nat 4 + 1) with true.
    cbv iota. match goal with |- context [exec (completeWithResults t [?r]) ?x] =>
      destruct (exec_complete x t q r o) as (s' & Hq' & ->) end; [done|done|done|done| |].
    + etrans; [apply terminal_fits, failed_result_ok; try done; vm_compute; discriminate|done].
    + cbn [snd]. split; [done|]. eexists. cbn. rewrite lookup_insert_eq. split; [done|]. done.
  - replace (5 - a)%nat with (Datatypes.S (5 - Datatypes.S a)) by lia. cbn [uploads].
    destruct (exec_upload_transient w t q c session Hq Hv Hs Ht) as (e & s & Hq1 & ->).
    rewrite (exec_transient_counts _ t c _ e (Z.of_nat a)); [|done|lia|unfold maxTransientUploadAttempts; lia].
    cbn [snd]. apply (IH _ (Datatypes.S a)); try done; [lia| |lia]. cbn. rewrite lookup_insert_eq. cbn. lia.
Qed.

(** ** An answer about an outcome that is already recorded *)

(** What a decisive answer says about the one command of its request: a
    success or a denial carries a verified result, an idempotency conflict
    stands for a failure at the expected version. *)
Inductive answers (c : SpikeCommand) (b : ReplicaBinding) : Response -> TerminalResultRecord -> Prop :=
| answers_success status raw fs r :
    200 <= status <= 299 -> parseCommandResponse sha256 raw [c] b = Ok [fs] -> terminal_of fs = Ok r ->
    answers c b (mkResponse status (Some raw)) r
| answers_denial raw fs r :
    parseCommandResponse sha256 raw [c] b = Ok [fs] -> terminal_of fs = Ok r -> t_state r = js "denied" ->
    answers c b (mkResponse 403 (Some raw)) r
| answers_conflict raw :
    prop raw "error" = VStr "idempotency_conflict" ->
    answers c b (mkResponse 409 (Some raw))
      (mkTerminal (commandId c) (resourceId c) "failed" "idempotency_conflict"
         (expectedRecordVersion c) (expectedRecordVersion c) (commandDigest sha256 c b) 1).

(** The recorded outcome and the answered one are the same but for the number
    of attempts; [already_applied] is [applied]. *)
Definition applied_code (code : jstr) : Prop := code = js "applied" \/ code = js "already_applied".
Record same_outcome (row : ResultRow) (r : TerminalResultRecord) : Prop := {
  so_resource : r_resource_id row = t_resourceId r;
  so_state : r_state row = t_state r;
  so_code : r_code row = t_code r \/ applied_code (r_code row) /\ applied_code (t_code r);
  so_versions : r_previous row = t_previousVersion r /\ r_current row = t_currentVersion r;
  so_digest : r_digest row = t_digest r;
}.
Lemma normalizedCode_eq a b :
  normalizedCode a = normalizedCode b <-> a = b \/ applied_code a /\ applied_code b.
Proof.
  unfold normalizedCode, applied_code.
  destruct (str_eqb a "already_applied") eqn:Ea; [apply str_eqb_eq in Ea as ->|];
    (destruct (str_eqb b "already_applied") eqn:Eb; [apply str_eqb_eq in Eb as ->|]).
  all: assert (forall x, str_eqb x (js "already_applied") = false -> x <> js "already_applied") as Hne
    by (intros x Hx ->; by rewrite str_eqb_refl in Hx).
  all: naive_solver.
Qed.
Lemma compatible_iff row r : compatible row r = true <-> same_outcome row r.
Proof.
  unfold compatible. rewrite !andb_true_iff, !str_eqb_eq, !Z.eqb_eq, normalizedCode_eq. split.
  - intros [[[[[H1 H2] H3] H4] H5] H6]. by split.
  - intros [H1 H2 H3 [H4 H5] H6]. by split_and!.
Qed.

Lemma terminal_of_state fs r : terminal_of fs = Ok r -> get fs "state" = VStr (t_state r).
Proof. unfold terminal_of. repeat case_match; try done. by intros [= <-]. Qed.
Lemma parsed_id raw c b fs r :
  parseCommandResponse sha256 raw [c] b = Ok [fs] -> terminal_of fs = Ok r -> t_commandId r = commandId c.
Proof.
  intros Hp Hr. apply parseCommandResponse_sound in Hp as (_ & _ & Hids & _); [|apply NoDup_singleton].
  rewrite (terminal_of_id fs r Hr). cbn in Hids. apply Permutation_singleton_inj in Hids. done.
Qed.
Lemma exec_answered t c b response r w :
  answers c b response r ->
  t_commandId r = commandId c /\
  exec (upload_answer sha256 t [c] c b response) w = exec (completeWithResults t [r]) w.
Proof.
  assert (forall raw fs r, parseCommandResponse sha256 raw [c] b = Ok [fs] -> terminal_of fs = Ok r ->
    exec (complete_parsed t [fs]) w = exec (completeWithResults t [r]) w) as Hparsed.
  { intros raw fs r' _ Hr. unfold complete_parsed, lift_local. cbn [mapM]. rewrite Hr. cbn. done. }
  intros [status raw fs r' Hst Hp Hr|raw fs r' Hp Hr Hd|raw He]; unfold upload_answer; cbv zeta; cbn [r_status r_json];
    unfold isRetryableUploadStatus, parsed_results, lift_thrown.
  - split; [by eapply parsed_id|]. replace (status =? 428) with false by lia. replace (status =? 429) with false by lia.
    replace (500 <=? status) with false by lia. cbn [orb]. replace (status =? 403) with false by lia.
    replace (status =? 409) with false by lia. cbn [andb]. replace ((200 <=? status) && (status <=? 299)) with true by lia.
    cbn [negb]. rewrite Hp, exec_bind. cbn [exec mret prog_ret]. by eapply Hparsed.
  - split; [by eapply parsed_id|]. cbn. rewrite Hp. cbn. rewrite (terminal_of_state fs r' Hr), Hd. cbn. by eapply Hparsed.
  - split; [done|]. cbn. by rewrite He.
Qed.

(** Recording an outcome again. *)
Definition again (s : ApplicationState) (id : jstr) (row : ResultRow) : ApplicationState :=
  mkApp (<[id := mark_completed row]> (app_results s)) (delete id (app_overlays s))
    (delete id (app_attempts s)) (app_session s) (app_version s).
Lemma persist_recorded s r row :
  app_results s !! t_commandId r = Some row ->
  persistResults [r] s =
    if compatible row r
    then Ok (tt, mkApp (app_results s) (delete (t_commandId r) (app_overlays s)) (delete (t_commandId r) (app_attempts s))
                   (app_session s) (app_version s))
    else Throw (LocalError (js "command_result_id_conflict")).
Proof.
  intros Hrow. unfold persistResults, sql_each, persistResult, mbind, sql_bind, sql_get. cbn [mbind outcome_bind].
  rewrite Hrow. unfold sql_lift, local_if. by destruct (compatible row r).
Qed.
Lemma exec_contradicted w t r row :
  app_results (w_app w) !! t_commandId r = Some row -> ~ same_outcome row r ->
  exec (completeWithResults t [r]) w = (Throw (Local (LocalError (js "command_result_id_conflict"))), w).
Proof.
  intros Hrow Hn. assert (compatible row r = false) as Hc by (apply not_true_iff_false; by rewrite compatible_iff).
  unfold completeWithResults. by rewrite exec_bind, exec_app, (persist_recorded _ r row), Hc.
Qed.
Lemma exec_repeated w t q r row :
  queue w = t :: q -> (forall t s, fst (env_complete t s) = false) ->
  app_results (w_app w) !! t_commandId r = Some row -> same_outcome row r ->
  exists s, env_queue s = q /\
    exec (completeWithResults t [r]) w = (Ok tt, with_env (with_app w (again (w_app w) (t_commandId r) row)) s).
Proof.
  intros Hq Hc Hrow Hsame%compatible_iff. exists (snd (env_complete t (w_env w))). specialize (Hc t (w_env w)).
  destruct (env_complete t (w_env w)) as [b s] eqn:Ec. cbn [fst snd] in *. subst b.
  split; [by eapply law_complete|]. unfold completeWithResults.
  rewrite exec_bind, exec_app, (persist_recorded _ r row), Hsame by done. rewrite exec_bind.
  unfold holdBeforeSdkCompletion, set_mem. rewrite exec_call. cbn [handle client_handler].
  rewrite with_mem_id, exec_bind, exec_call. cbn [handle client_handler w_env with_app]. rewrite Ec. unfold sdk. cbn [fst snd].
  rewrite exec_app. cbn [w_app with_env with_app fmap list_fmap].
  unfold markResultsSdkCompleted, sql_each, markResult, mbind, sql_bind, sql_get. cbn [mbind outcome_bind app_results].
  rewrite Hrow. done.
Qed.

(** C31: a recorded outcome is never replaced.  Let a session be registered,
    the first transaction hold one command that reads, this command have a
    recorded outcome, and let the server answer with a
    success, a denial or an idempotency conflict.  If the outcome it answers
    differs from the recorded one in the resource, the state, the code
    ([applied] and [already_applied] being one), a version or the digest, the
    upload throws, nothing changes but the network, and the transaction stays
    first in the queue.  If it does not differ and the SDK completes the
    transaction, the queue moves on and the recorded row stays as it is, but
    for being marked completed. *)
Theorem contradicting_answer_refused w t q c session row response r s :
  queue w = t :: q -> validateQueuedCrud (tx_crud t) = Ok [c] -> m_connector (w_mem w) = Some session ->
  app_results (w_app w) !! commandId c = Some row ->
  env_fetch (upload_request t session (m_fault (w_mem w)) [c]) (w_env w) = (Some response, s) ->
  answers c (session_binding session) response r ->
  (~ same_outcome row r ->
     exec (uploadData sha256) w = (Throw (Local (LocalError (js "command_result_id_conflict"))), with_env w s) /\
     queue (with_env w s) = t :: q) /\
  (same_outcome row r -> (forall t s, fst (env_complete t s) = false) ->
     exists w', exec (uploadData sha256) w = (Ok tt, w') /\ queue w' = q /\
       app_results (w_app w') = <[commandId c := mark_completed row]> (app_results (w_app w))).
Proof.
  intros Hq Hv Hs Hrow Hf Ha. rewrite (exec_upload w t q c session Hq Hv Hs), Hf.
  destruct (exec_answered t c (session_binding session) response r (with_env w s) Ha) as [Hid ->].
  assert (queue (with_env w s) = t :: q) as Hq'.
  { pose proof (law_fetch (upload_request t session (m_fault (w_mem w)) [c]) (w_env w)) as Hl. rewrite Hf in Hl. by rewrite <- Hq. }
  rewrite <- Hid in Hrow |- *. split; intros Hsame.
  - split; [|done]. by apply (exec_contradicted (with_env w s) t r row).
  - intros Hc. destruct (exec_repeated (with_env w s) t q r row) as (s' & Hs' & ->); [done..|]. by eexists.
Qed.
End Upload.
