(* ===== verification/Reset.v ===== *)
(** Replica resets: [spikes/powersync/harness/src/client.ts], lines 854-873,
    893-900 and 939-1125 ([openSpikeClient] up to the connected client),
    1128-1133, 1190-1206 and 1219-1372 (the other operations of a client).  A
    reset moves every command that waits into the quarantine sidecar, takes a
    new session from the server and clears the replica; the reset state file
    says how far it got, and a client that opens again resumes it there. *)
From S2P Require Export UploadSpec.

(** The options of [openSpikeClient] that matter here. *)
Record OpenOptions := mkOptions {
  o_name : jstr; o_commandEndpoint : option jstr; o_uploadFault : option UploadFaultOptions;
  o_resumeExisting : bool; o_principalId : option jstr }.
Definition supplied (o : option jstr) : bool := match o with Some s => str_truthy s | None => false end.

Record ReplicaResetHooks := mkHooks {
  afterQuarantineWritten : Client (); afterResetStateWrittenBeforeApplicationSession : Client ();
  afterSessionPersisted : Client (); afterClear : Client (); resetPostCommitDropSecret : option jstr }.
Definition no_hooks : ReplicaResetHooks := mkHooks (mret tt) (mret tt) (mret tt) (mret tt) None.

Section Resetting.
Context {printer : NumPrinter} {reader : NumReader} {collation : Collation} (options : OpenOptions).

(** ** Requests about the replica *)

Definition replicaPost (pathName : string) (session : option ReplicaSessionSecret) (fault : option (jstr * jstr))
    (body : jsval) : Client (Z * jsval) :=
  response ← call (op_fetch (mkHttp pathName (credential <$> session) fault body));
  match r_json response with
  | Some v => mret (r_status response, v)
  | None => fail (js "SyntaxError")
  end.
Definition has_key (v : jsval) (key : string) : Client bool :=
  match v with
  | VObj fs => mret (in_list (object_keys fs) key)
  | VArr _ | VFun => mret false
  | _ => throw BodyTypeError
  end.
Definition replica_body (session : ReplicaSessionSecret) (more : list (jstr * jsval)) : jsval :=
  VObj ([(js "replicaId", VStr (replicaId (session_binding session)));
         (js "replicaEpoch", num (replicaEpoch (session_binding session)))] ++ more).

Definition registerReplica : Client ReplicaSessionSecret :=
  r ← replicaPost "/spike/replicas/register" None None (VObj []);
  let '(status, body) := (r : Z * jsval) in
  _ ← fail_if (negb (status =? 201)) "Replica registration failed.";
  lift_thrown (parseReplicaSessionSecret body).
Definition issueChallenge (session : ReplicaSessionSecret) : Client jsval :=
  r ← replicaPost "/spike/replicas/challenge" (Some session) None (replica_body session []);
  let '(status, body) := (r : Z * jsval) in
  present ← (if status =? 201 then has_key body "challengeId" else mret false);
  if (present : bool) then mret (prop body "challengeId")
  else fail (js "Replica challenge issuance failed with HTTP " ++ print_int status ++ js ": "
             ++ default [] (stringify body) ++ js ".").
Definition acknowledgeChallenge (session : ReplicaSessionSecret) (challengeId : jsval) : Client () :=
  r ← replicaPost "/spike/replicas/ack" (Some session) None
                   (replica_body session [(js "challengeId", challengeId)]);
  let '(status, _) := (r : Z * jsval) in
  fail_if (negb (status =? 200)) "Client-observed checkpoint acknowledgement failed.".
(** Whether the server would keep a command of this entry. *)
Definition classify (session : ReplicaSessionSecret) (e : QuarantineEntry) : Client bool :=
  r ← replicaPost "/spike/replicas/classify" (Some session) None
    (replica_body session [(js "resourceId", VStr (e_resource_id e));
                           (js "resourceIncarnationId", VStr (e_resource_incarnation_id e))]);
  let '(status, body) := (r : Z * jsval) in
  if status =? 200
  then present ← has_key body "preserve"; mret (present && strict_eq (prop body "preserve") (VBool true))
  else mret false.

(** ** Pieces shared by a reset and its resumption *)

Definition setReplicaSession (session : ReplicaSessionSecret) (resetCount : Z) : Client () :=
  app (AppState.setReplicaSession session resetCount (Some (o_name options)) (o_principalId options)).
Definition closeReplica : Client () := _ ← call op_close; set_mem (fun m => mem_closed m true).
Definition newConnector : Client () :=
  set_mem (fun m => mkMemory (m_session m) (m_resetCount m) (m_finalized m) (m_session m) false (o_uploadFault options) (m_closed m)).
Definition attempt (p : Client ()) : Client bool := catch (_ ← p; mret false) (fun _ => mret true).
Definition closeDatabase : Client () :=
  a ← attempt (call op_disconnect);
  b ← attempt (call op_close);
  fail_if (a || b) "PowerSync client cleanup failed.".

Definition connectAndObserve (challenge : option jsval) : Client () :=
  _ ← set_mem (fun m => mem_closed m false);
  _ ← call op_connect;
  session ← mem m_session;
  _ ← match session, challenge with
      | Some session, Some challengeId =>
          _ ← acknowledgeChallenge session challengeId;
          resetCount ← mem m_resetCount;
          setReplicaSession session resetCount
      | _, _ => mret tt
      end;
  call op_chmod.

Definition assertResetCapacity (store : QuarantineStore) : Client () :=
  results ← app (sql_get resultCapacityUsage);
  lift_local (assertCombinedOutstandingCapacity
    (usage_count results + Z.of_nat (length (qs_finalized store)) + Z.of_nat (length (qs_pending store)))
    (usage_bytes results + finalizedQuarantineBytes (qs_finalized store) + pendingQuarantineBytes (qs_pending store))).
Definition read_quarantine : Client StoreRead := f ← call op_read_quarantine; lift_thrown (readQuarantineStore f).
Definition write_quarantine (store : QuarantineStore) : Client () := call (op_write_quarantine (store_value store)).
Definition write_reset (state : ResetState) : Client () := call (op_write_reset (reset_value state)).
Definition new_session (state : ResetState) : Client ReplicaSessionSecret :=
  lift_thrown (parseReplicaSessionSecret (match rs_new state with Some s => session_value s | None => VUndef end)).

(** The final form of an intent, by what may be seen of it now. *)
Definition finalized (item : QuarantineIntent) (visible : bool) : QuarantinedCommand :=
  let e := i_entry item in
  mkQuarantined (mkEntry (e_id e) (e_resource_id e) (e_resource_incarnation_id e) (e_command_type e)
                   (if visible then e_payload e else None) (e_expected_record_version e))
    (if visible then pending_review else invalidated) (i_reserved item).
Definition finalize (session : ReplicaSessionSecret) (item : QuarantineIntent) : Client QuarantinedCommand :=
  let e := i_entry item in
  currentlyAuthorized ← classify session e;
  local ← call (op_live (e_resource_id e) (e_resource_incarnation_id e));
  let command := finalized item (i_authorized item && currentlyAuthorized && local) in
  _ ← fail_if (i_reserved item <? serialized (finalized_value command)) "quarantine_representation_reservation_exceeded";
  mret command.
Definition finalizeQuarantine (session : ReplicaSessionSecret) (retained : QuarantineStore) : Client () :=
  additions ← traverse (finalize session) (qs_pending retained);
  merged ← lift_thrown (mergeFinalizedQuarantine (qs_finalized retained) additions);
  _ ← assertResetCapacity (mkStore merged []);
  _ ← write_quarantine (mkStore merged []);
  set_mem (fun m => mem_finalized m merged).

(** ** A reset *)

Definition entry_of (c : SpikeCommand) : QuarantineEntry :=
  mkEntry (commandId c) (resourceId c) (resourceIncarnationId c) (type_string (type c)) (payload c)
    (Some (expectedRecordVersion c)).
Definition queued_entry (entry : CrudEntry) : locally QuarantineEntry :=
  commands ← validateQueuedCrud [entry];
  match commands with c :: _ => mret (entry_of c) | [] => Throw SqliteError end.
Definition overlay_entry (o : jstr * OverlayRow) : QuarantineEntry :=
  mkEntry o.1 (o_resource_id o.2) (o_incarnation o.2) (o_type o.2) (o_payload o.2) (Some (o_expected o.2)).
Definition diverged (s : ApplicationState) (e : QuarantineEntry) : bool :=
  match app_overlays s !! e_id e with
  | Some o => negb (str_eqb (o_resource_id o) (e_resource_id e) && str_eqb (o_incarnation o) (e_resource_incarnation_id e)
                    && str_eqb (o_type o) (e_command_type e) && bool_decide (o_payload o = e_payload e)
                    && bool_decide (Some (o_expected o) = e_expected_record_version e))
  | None => false
  end.
(** What waits: the queue, then the overlays that are not in it. *)
Definition candidates (s : ApplicationState) (queued : list QuarantineEntry) : list QuarantineEntry :=
  queued ++ (overlay_entry <$> filter (fun o => in_list (e_id <$> queued) o.1 = false) (readOverlayRecords s)).

Definition intent (s : ApplicationState) (e : QuarantineEntry) (initiallyAuthorized : bool) : QuarantineIntent :=
  let base := mkEntry (e_id e) (e_resource_id e) (e_resource_incarnation_id e) (e_command_type e)
                (if initiallyAuthorized then e_payload e else None) (e_expected_record_version e) in
  mkIntent base initiallyAuthorized
    (Z.max (match app_overlays s !! e_id e with Some o => o_serialized o | None => 0 end)
           (quarantineEntryReservationBytes base)).

Definition beginReset (session : ReplicaSessionSecret) (hooks : ReplicaResetHooks) : Client ResetState :=
  required ← mem m_resetRequired;
  _ ← fail_if (negb required) "Replica reset was not requested by the server.";
  crud ← call (op_crud 1000);
  queued ← lift_local (mapM queued_entry crud);
  state ← app (sql_get (fun s => s));
  _ ← fail_if (existsb (diverged state) queued) "SDK queue and application overlay intent diverged.";
  let candidates := candidates state queued in
  prior ← read_quarantine;
  let finalized := qs_finalized (sr_store prior) in
  _ ← fail_if (bool_decide (qs_pending (sr_store prior) <> [])) "Unexpected pending quarantine without reset state.";
  _ ← fail_if (existsb (fun c => in_list (q_id <$> finalized) (e_id c)) candidates) "quarantine_duplicate_id_conflict";
  _ ← call op_disconnect;
  pending ← traverse (fun e => authorized ← classify session e; mret (intent state e authorized)) candidates;
  _ ← assertResetCapacity (mkStore finalized pending);
  _ ← write_quarantine (mkStore finalized pending);
  request ← call op_uuid;
  let state := mkReset phase_quarantined request session None in
  _ ← write_reset state;
  _ ← afterQuarantineWritten hooks;
  mret state.

Definition requestReset (state : ResetState) (fault : option (jstr * jstr)) : Client (Z * jsval) :=
  replicaPost "/spike/replicas/reset" (Some (rs_old state)) fault
    (replica_body (rs_old state) [(js "resetRequestId", VStr (rs_request state))]).
Definition requestResetOnce (state : ResetState) (hooks : ReplicaResetHooks) : Client (Z * jsval) :=
  match resetPostCommitDropSecret hooks with
  | Some ((_ :: _) as secret) => catch (requestReset state (Some (js "reset-post-commit-drop", secret))) (fun _ => requestReset state None)
  | _ => requestReset state None
  end.
Definition stageSession (hooks : ReplicaResetHooks) (state : ResetState) : Client ResetState :=
  r ← requestResetOnce state hooks;
  let '(status, body) := (r : Z * jsval) in
  _ ← fail_if (negb (status =? 200)) "Stale-only replica reset failed.";
  newSession ← lift_thrown (parseReplicaSessionSecret body);
  let state := mkReset phase_session_staged (rs_request state) (rs_old state) (Some newSession) in
  stagedQuarantine ← read_quarantine;
  _ ← assertResetCapacity (sr_store stagedQuarantine);
  _ ← write_reset state;
  _ ← afterResetStateWrittenBeforeApplicationSession hooks;
  resetCount ← mem m_resetCount;
  _ ← setReplicaSession newSession (resetCount + 1);
  _ ← afterSessionPersisted hooks;
  mret state.

Definition acknowledgeReset (state : ResetState) (newSession : ReplicaSessionSecret) (message : string) : Client () :=
  r ← replicaPost "/spike/replicas/reset/ack" (Some newSession) None
    (replica_body newSession [(js "resetRequestId", VStr (rs_request state))]);
  let '(status, _) := (r : Z * jsval) in
  fail_if (negb (status =? 200)) message.
(** [disconnectAndClear], [clearOverlays], [close], then the durable phase. *)
Definition clearReplica (state : ResetState) : Client ResetState :=
  _ ← call op_clear;
  _ ← app clearOverlays;
  _ ← closeReplica;
  let state := mkReset phase_cleared (rs_request state) (rs_old state) (rs_new state) in
  mret state.
(** The count the row of the session has, if it is the row of this session. *)
Definition staged_count (newSession : ReplicaSessionSecret) (s : ApplicationState) : option Z :=
  match app_session s with
  | Some row => if bool_decide (session_binding (s_session row) = session_binding newSession) then Some (s_reset_count row) else None
  | None => None
  end.
Definition clearStaged (hooks : ReplicaResetHooks) (state : ResetState) : Client ResetState :=
  newSession ← new_session state;
  _ ← acknowledgeReset state newSession "Replica reset acknowledgement failed.";
  staged ← app (sql_get (staged_count newSession));
  _ ← set_mem (fun m => mem_connector (mem_session m (Some newSession)
        (match staged with Some n => n | None => m_resetCount m + 1 end)) (Some newSession) false);
  clearingQuarantine ← read_quarantine;
  _ ← assertResetCapacity (sr_store clearingQuarantine);
  state ← clearReplica state;
  _ ← assertResetCapacity (sr_store clearingQuarantine);
  _ ← write_reset state;
  _ ← afterClear hooks;
  mret state.

Definition is_phase (p q : Phase) : bool :=
  match p, q with
  | phase_quarantined, phase_quarantined | phase_session_staged, phase_session_staged | phase_cleared, phase_cleared => true
  | _, _ => false
  end.
Definition finishReset (state : ResetState) : Client () :=
  _ ← fail_if (negb (is_phase (rs_phase state) phase_cleared && bool_decide (is_Some (rs_new state))))
        "Replica reset state did not reach cleared.";
  session ← new_session state;
  _ ← set_mem (fun m => mem_session m (Some session) (m_resetCount m));
  resetCount ← mem m_resetCount;
  _ ← setReplicaSession session resetCount;
  closed ← mem m_closed;
  _ ← (if (closed : bool) then mret tt else closeReplica);
  challenge ← issueChallenge session;
  _ ← newConnector;
  _ ← connectAndObserve (Some challenge);
  retained ← read_quarantine;
  _ ← assertResetCapacity (sr_store retained);
  _ ← finalizeQuarantine session (sr_store retained);
  call op_unlink_reset.

Definition performReplicaReset (hooks : ReplicaResetHooks) : Client () :=
  session ← mem m_session;
  match session with
  | None => fail (js "A registered replica session is required.")
  | Some session =>
      f ← call op_read_reset;
      found ← lift_thrown (readResetState f);
      state ← match found with Some state => mret state | None => beginReset session hooks end;
      state ← (if is_phase (rs_phase state) phase_quarantined then stageSession hooks state else mret state);
      state ← (if is_phase (rs_phase state) phase_session_staged then clearStaged hooks state else mret state);
      finishReset state
  end.

(** ** Opening a client *)

Definition sessionMatches (left right : ReplicaSessionSecret) : bool :=
  str_eqb (replicaId (session_binding left)) (replicaId (session_binding right))
  && (replicaEpoch (session_binding left) =? replicaEpoch (session_binding right))
  && str_eqb (credential left) (credential right).
Definition principal : jstr := default [] (o_principalId options).
Definition resumedSession : Client (option (ReplicaSessionSecret * Z)) :=
  app (fun s => r ← resumeReplicaSession (o_name options) principal s; Ok (r, s)).

Definition openApplicationState : Client bool :=
  files ← call op_files;
  existed ← lift_thrown (fst files);
  _ ← app (fun s => s ← open_application_state s; Ok (tt, s));
  mret existed.
Definition readSidecars : Client (QuarantineStore * option ResetState) :=
  r ← call op_read_reset;
  reset ← lift_thrown (readResetState r);
  f ← call op_read_quarantine;
  existed ← lift_thrown (assertPrivateRegularFile f);
  quarantine ← lift_thrown (readQuarantineStore f);
  let store := sr_store quarantine in
  _ ← lift_thrown (validateQuarantineResetLink existed (Z.of_nat (length (qs_pending store))) (rs_phase <$> reset));
  _ ← (if sr_migrated quarantine then write_quarantine store else mret tt);
  state ← app (sql_get (fun s => s));
  _ ← fail_if (existsb (in_list (q_id <$> qs_finalized store)) (activeCommandIds state)) "command_id_already_active_in_multiple_states";
  let usage := capacityUsage state in
  _ ← lift_local (assertCombinedOutstandingCapacity (usage_count usage + Z.of_nat (length (qs_finalized store)))
                    (usage_bytes usage + finalizedQuarantineBytes (qs_finalized store)));
  mret (store, reset).

Definition requireReplica (files : thrown bool * thrown bool) : Client () :=
  if o_resumeExisting options
  then present ← lift_thrown (snd files); fail_if (negb present) "resume_replica_missing"
  else mret tt.
Definition initialSession (existed : bool) : Client () :=
  if o_resumeExisting options then
    _ ← fail_if (negb (existed && supplied (o_commandEndpoint options) && supplied (o_principalId options)))
          "resume_requires_private_state_endpoint_and_principal";
    resumed ← resumedSession;
    match resumed with
    | None => fail (js "resume_session_missing")
    | Some (session, resetCount) => set_mem (fun m => mem_session m (Some session) resetCount)
    end
  else if supplied (o_commandEndpoint options) then
    session ← registerReplica;
    set_mem (fun m => mem_session m (Some session) 0)
  else mret tt.

(** A reset found on disk is brought to the phase [cleared]. *)
Definition resumeSession (state : ResetState) (current : ReplicaSessionSecret * Z) : Client ResetState :=
  let '(session, resetCount) := current in
  match rs_phase state with
  | phase_quarantined =>
      _ ← fail_if (negb (sessionMatches session (rs_old state))) "resume_reset_session_mismatch";
      r ← requestReset state None;
      let '(status, body) := (r : Z * jsval) in
      _ ← fail_if (negb (status =? 200)) "Stale-only replica reset failed during resume.";
      newSession ← lift_thrown (parseReplicaSessionSecret body);
      let state := mkReset phase_session_staged (rs_request state) (rs_old state) (Some newSession) in
      _ ← write_reset state;
      _ ← setReplicaSession newSession (resetCount + 1);
      _ ← set_mem (fun m => mem_session m (Some newSession) (resetCount + 1));
      mret state
  | phase_session_staged =>
      newSession ← new_session state;
      _ ← (if sessionMatches session (rs_old state) then
             _ ← setReplicaSession newSession (resetCount + 1);
             set_mem (fun m => mem_session m (Some newSession) (resetCount + 1))
           else if sessionMatches session newSession then set_mem (fun m => mem_session m (Some newSession) resetCount)
           else fail (js "resume_reset_session_mismatch"));
      mret state
  | _ =>
      newSession ← new_session state;
      _ ← fail_if (negb (sessionMatches session newSession)) "resume_reset_session_mismatch";
      _ ← set_mem (fun m => mem_session m (Some newSession) resetCount);
      mret state
  end.
Definition resumeClear (state : ResetState) : Client ResetState :=
  match rs_phase state with
  | phase_session_staged =>
      newSession ← new_session state;
      _ ← acknowledgeReset state newSession "Replica reset acknowledgement failed during resume.";
      clearing ← read_quarantine;
      _ ← assertResetCapacity (sr_store clearing);
      state ← clearReplica state;
      _ ← write_reset state;
      mret state
  | phase_cleared => _ ← closeReplica; mret state
  | _ => mret state
  end.
Definition resumeReset (reset : option ResetState) : Client (option ResetState) :=
  match reset with
  | Some state =>
      if o_resumeExisting options then
        current ← resumedSession;
        match current with
        | None => fail (js "resume_session_missing")
        | Some current => state ← resumeSession state current; state ← resumeClear state; mret (Some state)
        end
      else mret None
  | None => mret None
  end.
Definition finishResume (reset : option ResetState) : Client () :=
  match reset with
  | None => mret tt
  | Some state =>
      session ← mem m_session;
      match session with
      | Some session =>
          if is_phase (rs_phase state) phase_cleared then
            retained ← read_quarantine;
            _ ← finalizeQuarantine session (sr_store retained);
            call op_unlink_reset
          else fail (js "resume_reset_not_cleared_before_connect")
      | None => fail (js "resume_reset_not_cleared_before_connect")
      end
  end.

Definition unconnected : Memory := mkMemory None 0 [] None false None false.
Definition openSpikeClient : Client () :=
  _ ← set_mem (fun _ => unconnected);
  existed ← openApplicationState;
  sidecars ← readSidecars;
  let '(store, persistedReset) := (sidecars : QuarantineStore * option ResetState) in
  files ← call op_files;
  _ ← requireReplica files;
  _ ← set_mem (fun m => mem_finalized m (qs_finalized store));
  _ ← initialSession existed;
  persistedReset ← resumeReset persistedReset;
  session ← mem m_session;
  challenge ← match session with
              | Some session => challenge ← issueChallenge session; mret (Some challenge)
              | None => mret None
              end;
  _ ← newConnector;
  catch (_ ← connectAndObserve challenge; finishResume persistedReset)
    (fun e => failed ← attempt closeDatabase;
              if (failed : bool) then fail (js "Opening PowerSync client " ++ o_name options ++ js " and cleanup both failed.")
              else throw e).

(** ** Other operations of a client *)

Definition combinedCapacityUsage : Client Usage :=
  usage ← app (sql_get capacityUsage);
  finalized ← mem m_finalized;
  mret (mkUsage (usage_count usage + Z.of_nat (length finalized)) (usage_bytes usage + finalizedQuarantineBytes finalized)).
Definition setUploadFault (fault : option UploadFaultOptions) : Client () :=
  set_mem (fun m => mkMemory (m_session m) (m_resetCount m) (m_finalized m) (m_connector m) (m_resetRequired m) fault (m_closed m)).
Definition resetRequired : Client bool := mem m_resetRequired.
(** The overlay of a command, as a crash after the first of the two stores
    leaves it; [inject] is an admission that counts nothing. *)
Definition inject (quarantined : list jstr) (c : BoundCommand) : Sql (list jstr) :=
  s ← sql_get (fun s => s);
  let id := commandId (b_command c) in
  _ ← sql_lift (local_if (in_list quarantined id || hasActiveCommandId id s) "command_id_already_active");
  addOverlays [c].
Definition testInjectOrphanOverlay (command : QueuedCommandInput) (bypassCapacity : bool) : Client () :=
  bound ← bindCommand command;
  finalized ← mem m_finalized;
  _ ← app (if bypassCapacity then inject (q_id <$> finalized) bound
           else admit_bound (q_id <$> finalized) (finalizedQuarantineBytes finalized) bound);
  mret tt.
(** [database.disconnect] and [database.close] are both tried. *)
Definition closeClient : Client () :=
  failed ← attempt closeDatabase;
  fail_if failed "PowerSync and application-state cleanup failed.".
End Resetting.
