(* ===== verification/ResetSpec.v ===== *)
(** What a reset may do to the commands of a client: nothing that loses one.
    A command is held while it waits (in the queue or as an overlay), has a
    recorded result, or is listed in the quarantine sidecar; wherever a reset,
    its resumption or an upload is interrupted, what was held is held. *)
From S2P Require Export Reset.

(** ** What a sidecar lists *)

Section Listing.
Context {printer : NumPrinter} {reader : NumReader}.

Definition entry_id (v : jsval) : option jstr := as_string (prop v "id").
Definition listed_in (v : jsval) : list jstr :=
  match as_record v with
  | None => []
  | Some fs => match current_store fs, legacy_store fs with
               | Some (f, p), _ => omap entry_id (f ++ p)
               | None, Some l => omap entry_id l
               | None, None => []
               end
  end.
(** The ids a sidecar lists, readable or not. *)
Definition listed (f : option SideFile) : list jstr := from_option listed_in [] (f ≫= f_json).

Lemma listed_store s : listed (Some (private_file (store_value s))) = store_ids s.
Proof.
  unfold listed, private_file. cbn [mbind option_bind f_json from_option]. unfold listed_in, store_value. cbn [as_record].
  match goal with |- context [current_store ?fs] =>
    change (current_store fs) with (Some (finalized_value <$> qs_finalized s, intent_value <$> qs_pending s)) end.
  cbv iota beta. rewrite omap_app. unfold store_ids. f_equal.
  - induction (qs_finalized s) as [|c l IH]; [done|]. cbn. by f_equal.
  - induction (qs_pending s) as [|c l IH]; [done|]. cbn. by f_equal.
Qed.

Lemma base_id fs p v e : quarantine_base fs p v = Ok e -> get fs "id" = VStr (e_id e).
Proof.
  unfold quarantine_base. intros (id & [Hid _]%quarantineString_Ok & H)%bind_Ok.
  apply bind_Ok in H as (? & _ & H). apply bind_Ok in H as (? & _ & H). by apply bind_Ok in H as (? & _ & [= <-]).
Qed.
Lemma finalized_id raw legacy c : normalizeFinalizedQuarantine raw legacy = Ok c -> entry_id raw = Some (q_id c).
Proof.
  unfold normalizeFinalizedQuarantine. destruct (as_record raw) as [fs|] eqn:Er; [|done].
  destruct (review_state _); [|done]. intros H.
  apply bind_Ok in H as (? & _ & H). apply bind_Ok in H as (? & _ & H). apply bind_Ok in H as (? & _ & H).
  apply bind_Ok in H as (e & He%base_id & H). apply bind_Ok in H as (? & _ & H). apply bind_Ok in H as (? & _ & [= <-]).
  unfold entry_id, q_id. destruct raw; try done. injection Er as ->. change (prop (VObj fs) "id") with (get fs "id"). by rewrite He.
Qed.
Lemma intent_id raw i : normalizePendingQuarantine raw = Ok i -> entry_id raw = Some (i_id i).
Proof.
  unfold normalizePendingQuarantine. destruct (as_record raw) as [fs|] eqn:Er; [|done].
  destruct (get fs "initiallyAuthorized"); try done. intros H.
  apply bind_Ok in H as (? & _ & H). apply bind_Ok in H as (? & _ & H). apply bind_Ok in H as (? & _ & H).
  apply bind_Ok in H as (e & He%base_id & H). apply bind_Ok in H as (? & _ & H). apply bind_Ok in H as (? & _ & [= <-]).
  unfold entry_id, i_id. destruct raw; try done. injection Er as ->. change (prop (VObj fs) "id") with (get fs "id"). by rewrite He.
Qed.
Lemma mapM_ids {A} (f : jsval -> thrown A) (id : A -> jstr) l l' :
  (forall v a, f v = Ok a -> entry_id v = Some (id a)) -> mapM f l = Ok l' -> omap entry_id l = id <$> l'.
Proof.
  intros Hf. revert l'. induction l as [|v l IH]; intros l'; cbn; [by intros [= <-]|].
  intros (a & Ha & H)%bind_Ok. apply bind_Ok in H as (l1 & Hl & [= <-]).
  rewrite (Hf v a Ha). cbn. f_equal. by apply IH.
Qed.
Lemma legacy_ids l fp : legacy_commands l = Ok fp -> omap entry_id l ⊆ (q_id <$> fst fp) ++ (i_id <$> snd fp).
Proof.
  revert fp. induction l as [|raw l IH]; intros fp; [intros _ ? ?%elem_of_nil; done|]. cbn [legacy_commands].
  destruct (review_state _).
  - intros (f & Hf%finalized_id & H)%bind_Ok. apply bind_Ok in H as (rest & Hr & [= <-]).
    cbn. rewrite Hf. specialize (IH rest Hr). set_solver.
  - intros H. assert (exists p rest, entry_id raw = Some (i_id p) /\ legacy_commands l = Ok rest /\ fp = (fst rest, p :: snd rest))
      as (p & rest & Hp & Hr & ->).
    { destruct (prop raw _) in H; try done;
        apply bind_Ok in H as (p & Hp%intent_id & H); apply bind_Ok in H as (rest & Hr & [= <-]); by exists p, rest. }
    cbn. rewrite Hp. specialize (IH rest Hr). set_solver.
Qed.
(** What a sidecar lists is in the store read from it. *)
Lemma read_listed f r : readQuarantineStore f = Ok r -> listed f ⊆ store_ids (sr_store r).
Proof.
  destruct f as [f|]; [|intros _ ? ?%elem_of_nil; done]. unfold readQuarantineStore, listed, parse_file. cbn [mbind option_bind].
  destruct (f_json f) as [v|]; [|done]. cbn [mbind outcome_bind from_option].
  intros ([s m] & Hp & [= <-])%bind_Ok. cbn [fst sr_store]. unfold parse_store in Hp. unfold listed_in.
  apply bind_Ok in Hp as (fs & Hfs & Hp). destruct (as_record v); [|done]. injection Hfs as ->.
  destruct (current_store fs) as [[l1 l2]|]; [|destruct (legacy_store fs) as [l|]; [|done]].
  - apply bind_Ok in Hp as (f' & Hf & Hp). apply bind_Ok in Hp as (p' & Hq & Hp). apply bind_Ok in Hp as (? & _ & [= <- _]).
    rewrite omap_app. unfold store_ids. cbn.
    rewrite (mapM_ids _ q_id _ _ (fun v c => finalized_id v false c) Hf), (mapM_ids _ i_id _ _ intent_id Hq). done.
  - apply bind_Ok in Hp as (fp & Hl%legacy_ids & Hp). by apply bind_Ok in Hp as (? & _ & [= <- _]).
Qed.
End Listing.

(** ** Held commands *)

Section Held.
Context {printer : NumPrinter} {S : Type} {env : Environment S}.
Implicit Types w : World S.

Definition queued_entries w : list CrudEntry := queue w ≫= tx_crud.
Definition in_queue w (id : jstr) : Prop := exists e, e ∈ queued_entries w /\ c_id e = VStr id.
Definition overlaid w (id : jstr) : Prop := is_Some (app_overlays (w_app w) !! id).
Definition live w (id : jstr) : Prop := in_queue w id \/ overlaid w id.
Definition quarantined w (id : jstr) : Prop := id ∈ listed (w_quarantine w).
Definition held w (id : jstr) : Prop := live w id \/ quarantined w id \/ has_result (w_app w) id.
(** A reset that is under way has listed everything that waits. *)
Definition covered w : Prop := w_reset w <> None -> forall id, live w id -> quarantined w id.
Definition conserved w0 w : Prop := (forall id, held w0 id -> held w id) /\ covered w.

(** Two worlds a reset does not tell apart. *)
Record same w w' : Prop := {
  sm_queue : queue w' = queue w;
  sm_overlaid : forall id, overlaid w' id <-> overlaid w id;
  sm_results : forall id, has_result (w_app w') id <-> has_result (w_app w) id;
  sm_quarantine : w_quarantine w' = w_quarantine w;
  sm_reset : w_reset w' = w_reset w;
}.
#[export] Instance same_preorder : PreOrder same.
Proof.
  split; [by intros w; split|]. intros w1 w2 w3 [H1 H2 H3 H4 H5] [G1 G2 G3 G4 G5].
  split; [congruence| | |congruence|congruence]; intros id; [by rewrite G2|by rewrite G3].
Qed.
Lemma same_queued w w' id : same w w' -> in_queue w' id <-> in_queue w id.
Proof. intros H. unfold in_queue, queued_entries. by rewrite (sm_queue _ _ H). Qed.
Lemma same_live w w' id : same w w' -> live w' id <-> live w id.
Proof. intros H. unfold live. by rewrite (same_queued _ _ _ H), (sm_overlaid _ _ H). Qed.
Lemma same_quarantined w w' id : same w w' -> quarantined w' id <-> quarantined w id.
Proof. intros H. unfold quarantined. by rewrite (sm_quarantine _ _ H). Qed.
Lemma same_held w w' id : same w w' -> held w' id <-> held w id.
Proof. intros H. unfold held. by rewrite (same_live _ _ _ H), (same_quarantined _ _ _ H), (sm_results _ _ H). Qed.
Lemma conserved_same w0 w w' : conserved w0 w -> same w w' -> conserved w0 w'.
Proof.
  intros [Hh Hs] H. split; [intros id Hid; by apply (same_held _ _ _ H), Hh|].
  intros Hr id Hid. rewrite (same_quarantined _ _ _ H). apply Hs; [by rewrite <- (sm_reset _ _ H)|by rewrite <- (same_live _ _ _ H)].
Qed.
Lemma conserved_refl w : covered w -> conserved w w.
Proof. by split. Qed.
Lemma conserved_trans w0 w1 w2 : conserved w0 w1 -> conserved w1 w2 -> conserved w0 w2.
Proof. intros [H1 _] [H2 Hs]. split; [auto|done]. Qed.
End Held.

(** ** Programs that touch nothing that is held *)

Section Quiet.
Context {printer : NumPrinter} {reader : NumReader} {collation : Collation}.
Context {S : Type} {env : Environment S} {laws : QueueLaws S}.
Implicit Types w : World S.

Definition quiet {A} (P : A -> Prop) (p : Client A) : Prop := keeps (W := World S) same P p.
Definition quiet_op {X} (op : ClientOp X) : Prop := forall w r w', handle op w = (r, w') -> same w w'.

Lemma same_env w s : env_queue s = queue w -> same w (with_env w s).
Proof. by split. Qed.
Lemma quiet_sdk (f : S -> bool * S) w r w' :
  (forall s, env_queue (snd (f s)) = env_queue s) -> sdk (f (w_env w)) w = (r, w') -> same w w'.
Proof. intros Hf [= _ <-]. by apply same_env. Qed.
Lemma quiet_mem {X} (f : Memory -> X * Memory) : quiet_op (op_mem f).
Proof. intros w r w'. cbn. destruct (f (w_mem w)) as [a m]. by intros [= _ <-]. Qed.
Lemma quiet_fetch h : quiet_op (op_fetch h).
Proof.
  intros w r w'. cbn. pose proof (law_fetch h (w_env w)) as Hl. destruct (env_fetch h (w_env w)) as [[x|] s];
    intros [= _ <-]; by apply same_env.
Qed.
Lemma quiet_disconnect : quiet_op op_disconnect.
Proof. intros w r w'. by apply quiet_sdk, law_disconnect. Qed.
Lemma quiet_close : quiet_op op_close.
Proof. intros w r w'. by apply quiet_sdk, law_close. Qed.
Lemma quiet_connect : quiet_op op_connect.
Proof. intros w r w'. by apply quiet_sdk, law_connect. Qed.
Lemma quiet_chmod : quiet_op op_chmod.
Proof.
  intros w r w'. cbn. pose proof (law_chmod (w_env w)) as Hl. destruct (env_chmod (w_env w)) as [b s].
  intros [= _ <-]. by apply same_env.
Qed.
Lemma quiet_uuid : quiet_op op_uuid.
Proof.
  intros w r w'. cbn. pose proof (law_uuid (w_env w)) as Hl. destruct (env_uuid (w_env w)) as [b s].
  intros [= _ <-]. by apply same_env.
Qed.
Lemma quiet_live id i : quiet_op (op_live id i).
Proof. by intros w r w' [= _ <-]. Qed.
Lemma quiet_incarnation id : quiet_op (op_incarnation id).
Proof. by intros w r w' [= _ <-]. Qed.
Lemma quiet_files : quiet_op op_files.
Proof. by intros w r w' [= _ <-]. Qed.
Lemma quiet_read_quarantine : quiet_op op_read_quarantine.
Proof. by intros w r w' [= _ <-]. Qed.
Lemma quiet_read_reset : quiet_op op_read_reset.
Proof. by intros w r w' [= _ <-]. Qed.
Lemma quiet_crud n : quiet_op (op_crud n).
Proof. by intros w r w' [= _ <-]. Qed.
(** Statements that keep the ids of both tables. *)
Definition same_ids (s s' : ApplicationState) : Prop :=
  forall id, (is_Some (app_overlays s' !! id) <-> is_Some (app_overlays s !! id)) /\ (has_result s' id <-> has_result s id).
Lemma quiet_app {A} (m : Sql A) : (forall s a s', m s = Ok (a, s') -> same_ids s s') -> quiet_op (op_app m).
Proof.
  intros Hm w [a|e] w'.
  - intros (s & Hs & ->)%handle_app_Ok. apply Hm in Hs. split; try done; intros id; apply Hs.
  - by intros ->%handle_app_Throw.
Qed.
Lemma quiet_set_session session n c p : quiet_op (op_app (AppState.setReplicaSession session n c p)).
Proof. apply quiet_app. by intros s a s' [= _ <-]. Qed.
Lemma quiet_get {A} (f : ApplicationState -> A) : quiet_op (op_app (sql_get f)).
Proof. apply quiet_app. by intros s a s' [= _ <-]. Qed.

Abbreviation any := (fun _ => True).
Lemma quiet_bind {A B} (P : B -> Prop) (f : A -> Client B) p :
  quiet any p -> (forall a, quiet P (f a)) -> quiet P (p ≫= f).
Proof. intros Hp Hf. eapply keeps_bind; [exact Hp|]. intros a _. apply Hf. Qed.
Lemma quiet_call {X} (op : ClientOp X) : quiet_op op -> quiet any (call op).
Proof. intros H. by apply keeps_call. Qed.
Lemma quiet_ret {A} (a : A) : quiet any (mret a : Client A).
Proof. done. Qed.
Lemma quiet_throw {A} (e : client_error) : quiet any (throw e : Client A).
Proof. done. Qed.
Lemma quiet_fail_if b m : quiet any (fail_if b m).
Proof. by destruct b. Qed.
Lemma quiet_thrown {A} (o : thrown A) : quiet any (lift_thrown o).
Proof. by destruct o. Qed.
Lemma quiet_local {A} (o : locally A) : quiet any (lift_local o).
Proof. by destruct o. Qed.
Lemma quiet_catch {A} (P : A -> Prop) (p : Client A) h : quiet P p -> (forall e, quiet P (h e)) -> quiet P (catch p h).
Proof. apply keeps_catch. Qed.
End Quiet.
Abbreviation any := (fun _ => True).

Create HintDb quiet.
#[export] Hint Resolve quiet_call quiet_ret quiet_throw quiet_fail_if quiet_thrown quiet_local : quiet.
#[export] Hint Resolve quiet_mem quiet_fetch quiet_disconnect quiet_close quiet_connect quiet_chmod quiet_uuid quiet_live
  quiet_incarnation quiet_files quiet_read_quarantine quiet_read_reset quiet_crud quiet_set_session quiet_get : quiet.
#[export] Hint Extern 1 (quiet _ (fail _)) => apply quiet_throw : quiet.
#[export] Hint Extern 1 (quiet _ (set_mem _)) => apply quiet_call, quiet_mem : quiet.
#[export] Hint Extern 1 (quiet _ (mem _)) => apply quiet_call, quiet_mem : quiet.
#[export] Hint Extern 1 (quiet _ (app (sql_get _))) => apply quiet_call, quiet_get : quiet.
(** One effect after another, on every branch. *)
Ltac quiet_steps :=
  intros;
  repeat first [solve [eauto 3 with quiet]
               | match goal with
                 | |- quiet _ (_ ≫= _) => apply quiet_bind; [|intros ?]
                 | |- quiet _ (catch _ _) => apply quiet_catch; [|intros ?]
                 | |- quiet _ (match ?x with _ => _ end) => destruct x
                 | |- quiet _ (let '_ := ?x in _) => destruct x
                 end].

Section QuietPrograms.
Context {printer : NumPrinter} {reader : NumReader} {collation : Collation} (options : OpenOptions).
Context {S : Type} {env : Environment S} {laws : QueueLaws S}.
#[local] Abbreviation silent p := (quiet (S := S) any p).

Lemma quiet_post path session fault body : silent (replicaPost path session fault body).
Proof. unfold replicaPost. quiet_steps. Qed.
Hint Resolve quiet_post : quiet.
Lemma quiet_has_key v key : silent (has_key v key).
Proof. unfold has_key. quiet_steps. Qed.
Hint Resolve quiet_has_key : quiet.
Lemma quiet_register : silent registerReplica.
Proof. unfold registerReplica. quiet_steps. Qed.
Lemma quiet_challenge session : silent (issueChallenge session).
Proof. unfold issueChallenge. quiet_steps. Qed.
Lemma quiet_acknowledge session id : silent (acknowledgeChallenge session id).
Proof. unfold acknowledgeChallenge. quiet_steps. Qed.
Lemma quiet_classify session e : silent (classify session e).
Proof. unfold classify. quiet_steps. Qed.
Lemma quiet_setReplicaSession session n : silent (setReplicaSession options session n).
Proof. apply quiet_call, quiet_set_session. Qed.
Hint Resolve quiet_register quiet_challenge quiet_acknowledge quiet_classify quiet_setReplicaSession : quiet.
Lemma quiet_closeReplica : silent closeReplica.
Proof. unfold closeReplica. quiet_steps. Qed.
Lemma quiet_newConnector : silent (newConnector options).
Proof. unfold newConnector. quiet_steps. Qed.
Lemma quiet_attempt p : silent p -> silent (attempt p).
Proof. intros Hp. unfold attempt. quiet_steps. Qed.
Lemma quiet_closeDatabase : silent closeDatabase.
Proof. unfold closeDatabase. quiet_steps; apply quiet_attempt; quiet_steps. Qed.
Hint Resolve quiet_closeReplica quiet_newConnector quiet_closeDatabase : quiet.
Lemma quiet_connectAndObserve challenge : silent (connectAndObserve options challenge).
Proof. unfold connectAndObserve. quiet_steps. Qed.
Lemma quiet_capacity store : silent (assertResetCapacity store).
Proof. unfold assertResetCapacity. quiet_steps. Qed.
Lemma quiet_new_session state : silent (new_session state).
Proof. unfold new_session. quiet_steps. Qed.
Lemma quiet_requestReset state fault : silent (requestReset state fault).
Proof. unfold requestReset. quiet_steps. Qed.
Hint Resolve quiet_requestReset quiet_connectAndObserve quiet_capacity quiet_new_session : quiet.
Lemma quiet_requestResetOnce state hooks : silent (requestResetOnce state hooks).
Proof. unfold requestResetOnce. quiet_steps. Qed.
Lemma quiet_acknowledgeReset state session m : silent (acknowledgeReset state session m).
Proof. unfold acknowledgeReset. quiet_steps. Qed.

(** What is made of a quarantined intent keeps its id. *)
Lemma quiet_finalize session i : quiet (S := S) (fun c => q_id c = i_id i) (finalize session i).
Proof.
  unfold finalize. apply quiet_bind; [apply quiet_classify|]. intros a.
  apply quiet_bind; [apply quiet_call, quiet_live|]. intros b.
  apply quiet_bind; [apply quiet_fail_if|]. intros []. by apply keeps_ret.
Qed.
End QuietPrograms.
#[export] Hint Resolve quiet_post quiet_has_key quiet_register quiet_challenge quiet_acknowledge quiet_classify
  quiet_setReplicaSession quiet_closeReplica quiet_newConnector quiet_closeDatabase quiet_connectAndObserve quiet_capacity
  quiet_new_session quiet_requestReset quiet_requestResetOnce quiet_acknowledgeReset : quiet.

(** ** Interrupted at any point *)

Section Safe.
Context {printer : NumPrinter} {reader : NumReader} {collation : Collation} (options : OpenOptions).
Context {S : Type} {env : Environment S} {laws : QueueLaws S} (w0 : World S).
Implicit Types w : World S.
Definition on_ok {A} (Q : A -> World S -> Prop) (r : outcome client_error A) w : Prop :=
  match r with Ok a => Q a w | Throw _ => True end.
#[local] Abbreviation sure Q p w := (safe (conserved w0) (on_ok Q) p w).

Lemma safe_quiet {A B} (P : A -> Prop) Q (k : A -> Client B) p w :
  conserved w0 w -> quiet (S := S) P p ->
  (forall a w1, conserved w0 w1 -> same w w1 -> P a -> sure Q (k a) w1) -> sure Q (p ≫= k) w.
Proof.
  intros Hw Hp Hk. apply safe_bind. eapply safe_weaken.
  - apply (safe_keeps same); [exact Hp|]. intros w' H. by eapply conserved_same.
  - intros [a|e] w1 Hw1 [Hs Ha]; [by apply Hk|done].
Qed.
Lemma safe_silent {A B} Q (k : A -> Client B) p w :
  quiet (S := S) any p -> conserved w0 w ->
  (forall a w1, conserved w0 w1 -> same w w1 -> sure Q (k a) w1) -> sure Q (p ≫= k) w.
Proof. intros Hp Hw Hk. eapply safe_quiet; [done|exact Hp|auto]. Qed.
Lemma safe_last {A} (Q : A -> World S -> Prop) p w :
  conserved w0 w -> quiet (S := S) any p -> (forall a w1, same w w1 -> Q a w1) -> sure Q p w.
Proof.
  intros Hw Hp HQ. eapply safe_weaken.
  - apply (safe_keeps same); [exact Hp|]. intros w' H. by eapply conserved_same.
  - intros [a|e] w1 Hw1 [Hs _]; [by apply HQ|done].
Qed.
Lemma safe_throw {A} (Q : A -> World S -> Prop) e w : conserved w0 w -> sure Q (Done (Throw e)) w.
Proof. by split. Qed.
Lemma safe_fail_if {B} b m Q (k : () -> Client B) w :
  conserved w0 w -> (b = false -> sure Q (k tt) w) -> sure Q (fail_if b m ≫= k) w.
Proof. intros Hw Hk. destruct b; [by apply safe_throw|by apply Hk]. Qed.
Lemma safe_thrown {A B} (o : thrown A) Q (k : A -> Client B) w :
  conserved w0 w -> (forall a, o = Ok a -> sure Q (k a) w) -> sure Q (lift_thrown o ≫= k) w.
Proof. intros Hw Hk. destruct o; [by apply Hk|by apply safe_throw]. Qed.
Lemma safe_local {A B} (o : locally A) Q (k : A -> Client B) w :
  conserved w0 w -> (forall a, o = Ok a -> sure Q (k a) w) -> sure Q (lift_local o ≫= k) w.
Proof. intros Hw Hk. destruct o; [by apply Hk|by apply safe_throw]. Qed.
Lemma safe_get {A B} (f : ApplicationState -> A) Q (k : A -> Client B) w :
  conserved w0 w -> sure Q (k (f (w_app w))) w -> sure Q (app (sql_get f) ≫= k) w.
Proof. intros Hw Hk. apply safe_bind_call; [done| |by intros e w1 [=]]. intros x w1 [= <- <-]. by destruct w. Qed.
Lemma safe_mem {A B} (f : Memory -> A) Q (k : A -> Client B) w :
  conserved w0 w -> sure Q (k (f (w_mem w))) w -> sure Q (mem f ≫= k) w.
Proof. intros Hw Hk. apply safe_bind_call; [done| |by intros e w1 [=]]. intros x w1 [= <- <-]. by rewrite with_mem_id. Qed.
Lemma safe_read {B} Q (k : StoreRead -> Client B) w :
  conserved w0 w -> (forall r, readQuarantineStore (w_quarantine w) = Ok r -> sure Q (k r) w) -> sure Q (read_quarantine ≫= k) w.
Proof.
  intros Hw Hk. apply safe_call; [done|]. intros r w1 [= <- <-]. by apply (safe_thrown (readQuarantineStore (w_quarantine w))).
Qed.

(** *** Writing *)

Lemma conserved_quarantine w f s :
  conserved w0 w -> (forall id, quarantined w id -> id ∈ listed f) -> env_queue s = queue w ->
  conserved w0 (with_env (with_quarantine w f) s).
Proof.
  intros [Hh Hs] Hf Hq. assert (forall id, live (with_env (with_quarantine w f) s) id <-> live w id) as Hl.
  { intros id. unfold live, in_queue, queued_entries, queue, overlaid in *. cbn. by rewrite Hq. }
  split.
  - intros id [Hid|[Hid|Hid]]%Hh; [left; by apply Hl|right; left; by apply Hf|by right; right].
  - intros Hr id Hid%Hl. apply Hf, Hs; done.
Qed.
Lemma conserved_env w s : conserved w0 w -> env_queue s = queue w -> conserved w0 (with_env w s).
Proof. intros Hw Hs. eapply conserved_same; [exact Hw|by apply same_env]. Qed.
Lemma safe_written store w :
  conserved w0 w -> (forall id, quarantined w id -> id ∈ store_ids store) ->
  sure (fun _ w1 => exists s, w1 = with_env (with_quarantine w (Some (private_file (store_value store)))) s /\ env_queue s = queue w)
    (write_quarantine store) w.
Proof.
  intros Hw Hf. pose proof (law_write (w_env w)) as Hl.
  assert (forall s, env_queue s = queue w -> conserved w0 (with_env (with_quarantine w (Some (private_file (store_value store)))) s)) as Hc.
  { intros s Hs. apply conserved_quarantine; [done| |done]. intros id. rewrite listed_store. apply Hf. }
  apply safe_call; [done|]. intros [[]|e] w1; cbn; unfold disk; destruct (env_write (w_env w)) as [[[]|] s]; intros [=]; subst.
  - split; [by apply Hc|by exists s].
  - split; [by apply Hc|done].
  - split; [by apply conserved_env|done].
Qed.
Lemma safe_write {B} store Q (k : () -> Client B) w :
  conserved w0 w -> (forall id, quarantined w id -> id ∈ store_ids store) ->
  (forall w1, conserved w0 w1 -> (exists s, w1 = with_env (with_quarantine w (Some (private_file (store_value store)))) s /\ env_queue s = queue w) ->
     sure Q (k tt) w1) ->
  sure Q (write_quarantine store ≫= k) w.
Proof.
  intros Hw Hf Hk. apply safe_bind. eapply safe_weaken; [by apply safe_written|]. intros [[]|e] w1 Hw1; [|done]. by apply Hk.
Qed.
Lemma conserved_reset w f s :
  conserved w0 w -> (forall id, live w id -> quarantined w id) -> env_queue s = queue w ->
  conserved w0 (with_env (with_reset w f) s).
Proof.
  intros [Hh Hs] Hf Hq. assert (forall id, live (with_env (with_reset w f) s) id <-> live w id) as Hl.
  { intros id. unfold live, in_queue, queued_entries, queue, overlaid in *. cbn. by rewrite Hq. }
  split.
  - intros id [Hid|[Hid|Hid]]%Hh; [left; by apply Hl|by right; left|by right; right].
  - intros _ id Hid%Hl. by apply Hf.
Qed.
(** The reset state is written when everything that waits is listed. *)
Lemma safe_write_reset {B} state Q (k : () -> Client B) w :
  conserved w0 w -> (forall id, live w id -> quarantined w id) ->
  (forall w1, conserved w0 w1 -> w_reset w1 <> None -> queue w1 = queue w -> w_app w1 = w_app w -> w_quarantine w1 = w_quarantine w ->
     sure Q (k tt) w1) ->
  sure Q (write_reset state ≫= k) w.
Proof.
  intros Hw Hf Hk. pose proof (law_write (w_env w)) as Hl.
  assert (forall f s, env_queue s = queue w -> conserved w0 (with_env (with_reset w f) s)) as Hc
    by (intros f s Hs; by apply conserved_reset).
  apply safe_bind_call; [done|..].
  - intros [] w1. cbn. unfold disk. destruct (env_write (w_env w)) as [[b|] s]; [done|]. intros [= <-].
    apply Hk; [by apply Hc|done..].
  - intros e w1. cbn. unfold disk. destruct (env_write (w_env w)) as [[[]|] s]; intros [= _ <-]; [by split; [apply Hc|]|].
    split; [by apply conserved_env|done].
Qed.
(** Clearing, when everything that waits is listed. *)
Lemma conserved_drop w w' :
  conserved w0 w -> w_reset w <> None -> (forall id, live w' id -> live w id) ->
  w_quarantine w' = w_quarantine w -> app_results (w_app w') = app_results (w_app w) -> conserved w0 w'.
Proof.
  intros [Hh Hs] Hr Hl Hq Hres. assert (forall id, quarantined w id -> quarantined w' id) as Hq' by (unfold quarantined; by rewrite Hq).
  split.
  - intros id [Hid|[Hid|Hid]]%Hh; [right; left; by apply Hq', Hs|right; left; by apply Hq'|]. right. right. unfold has_result. by rewrite Hres.
  - intros _ id Hid. by apply Hq', Hs, Hl.
Qed.
End Safe.

(** *** The steps of a reset *)

Definition quiet_hooks {S : Type} {env : Environment S} (h : ReplicaResetHooks) : Prop :=
  quiet (S := S) any (afterQuarantineWritten h) /\ quiet (S := S) any (afterResetStateWrittenBeforeApplicationSession h) /\
  quiet (S := S) any (afterSessionPersisted h) /\ quiet (S := S) any (afterClear h).

Lemma rows_by_id_elem {V} (m : gmap jstr V) id v : (id, v) ∈ rows_by_id m <-> m !! id = Some v.
Proof.
  unfold rows_by_id. rewrite list_elem_of_omap. split.
  - intros (k & _ & Hk). destruct (m !! k) eqn:E; [|done]. by injection Hk as <- <-.
  - intros H. exists id. split; [|by rewrite H]. rewrite sort_strings_perm. unfold ids_of. apply list_elem_of_fmap.
    exists (id, v). split; [done|]. by apply elem_of_map_to_list.
Qed.

Lemma queued_entry_id c e : queued_entry c = Ok e -> c_id c = VStr (e_id e).
Proof.
  unfold queued_entry, validateQueuedCrud. intros (cs & Hc & H)%bind_Ok.
  apply bind_Ok in Hc as (? & _ & Hc). cbn [validateEntries] in Hc. apply bind_Ok in Hc as (cmd & Hv & Hc).
  injection Hc as <-. injection H as <-. unfold validateEntry in Hv.
  apply bind_Ok in Hv as (? & _ & Hv). apply bind_Ok in Hv as (data & _ & Hv). apply bind_Ok in Hv as ([[[id ty] r] i] & Hm & Hv).
  assert (c_id c = VStr id) as ->.
  { destruct (c_id c); try done. destruct (get data "command_type"); try done. destruct (get data "resource_id"); try done.
    destruct (get data "resource_incarnation_id"); try done. destruct (_ && _) in Hm; [|done]. by injection Hm as <-. }
  do 4 (apply bind_Ok in Hv as (? & _ & Hv)). by injection Hv as <-.
Qed.

Section Steps.
Context {printer : NumPrinter} {reader : NumReader} {collation : Collation} (options : OpenOptions).
Context {S : Type} {env : Environment S} {laws : QueueLaws S}.
Implicit Types w : World S.

Lemma candidates_live w queued :
  mapM queued_entry (queued_entries w) = Ok queued ->
  forall id, live w id -> id ∈ e_id <$> candidates (w_app w) queued.
Proof.
  intros Hq. unfold candidates. rewrite fmap_app.
  assert (forall id, in_queue w id -> id ∈ e_id <$> queued) as Hin.
  { unfold in_queue. revert queued Hq. induction (queued_entries w) as [|c l IH]; intros queued; cbn.
    - intros _ id (e & He%elem_of_nil & _). done.
    - intros (e & He%queued_entry_id & H)%bind_Ok. apply bind_Ok in H as (l' & Hl & [= <-]).
      intros id (c' & [->|Hc]%elem_of_cons & Hid); cbn; apply elem_of_cons; [left; congruence|right].
      apply (IH l' Hl). by exists c'. }
  intros id [Hid|[o Ho]]; [apply elem_of_app; left; by apply Hin|].
  destruct (in_list (e_id <$> queued) id) eqn:E; [apply elem_of_app; left; by apply in_list_spec|].
  apply elem_of_app. right. apply list_elem_of_fmap. exists (overlay_entry (id, o)). split; [done|].
  apply list_elem_of_fmap. exists (id, o). split; [done|]. apply list_elem_of_filter. split; [done|]. by apply rows_by_id_elem.
Qed.

Lemma begin_safe w0 w session hooks :
  conserved w0 w -> w_reset w = None -> (length (queued_entries w) <= 1000)%nat -> quiet_hooks (S := S) hooks ->
  safe (conserved w0) (on_ok (fun state w1 => w_reset w1 <> None /\ rs_phase state = phase_quarantined))
    (beginReset session hooks) w.
Proof.
  intros Hw Hr Hlen Hh. unfold beginReset.
  apply safe_mem; [done|]. apply safe_fail_if; [done|]. intros _.
  apply safe_bind_call; [done| |by intros e w1 [=]]. intros crud w1 [= <- <-]. fold (queue w) (queued_entries w).
  rewrite take_ge by done. apply safe_local; [done|]. intros queued Hq. apply safe_get; [done|].
  apply safe_fail_if; [done|]. intros _. cbv zeta. apply safe_read; [done|]. intros prior Hp.
  apply safe_fail_if; [done|]. intros Hpend%bool_decide_eq_false. apply safe_fail_if; [done|]. intros _.
  apply safe_silent; [by apply quiet_call, quiet_disconnect|done|]. intros ? w1 Hw1 Hs1.
  eapply safe_quiet; [exact Hw1| |].
  { apply (keeps_traverse _ (fun e i => i_id i = e_id e)). intros e. apply quiet_bind; [apply quiet_classify|]. intros ?. by apply keeps_ret. }
  intros pending w2 Hw2 Hs2 Hpending. assert (same w w2) as Hs by (by transitivity w1).
  apply safe_silent; [apply quiet_capacity|done|]. intros ? w3 Hw3 Hs3. assert (same w w3) as Hs' by (by transitivity w2).
  assert (qs_pending (sr_store prior) = []) as Hnil by (destruct (qs_pending _); [done|by destruct Hpend]).
  assert (forall id, live w id \/ quarantined w id -> id ∈ store_ids (mkStore (qs_finalized (sr_store prior)) pending)) as Hids.
  { intros id [Hid|Hid].
    - unfold store_ids. apply elem_of_app. right. apply (candidates_live w queued Hq) in Hid. cbn.
      replace (i_id <$> pending) with (e_id <$> candidates (w_app w) queued); [done|].
      clear -Hpending. induction Hpending as [|e i l l' He _ IH]; cbn; congruence.
    - apply (read_listed _ _ Hp) in Hid. unfold store_ids in *. rewrite Hnil, app_nil_r in Hid. apply elem_of_app. by left. }
  apply safe_write; [done| |].
  { intros id Hid%(same_quarantined _ _ _ Hs'). apply Hids. by right. }
  intros w4 Hw4 (s & -> & Hs4). apply safe_silent; [by apply quiet_call, quiet_uuid|done|].
  intros request w5 Hw5 Hs5. apply safe_write_reset; [done| |].
  { intros id Hid. apply (same_quarantined _ _ _ Hs5). unfold quarantined. cbn [w_quarantine with_env with_quarantine]. rewrite listed_store. apply Hids. left.
    apply (same_live _ _ _ Hs5) in Hid. apply (same_live _ _ _ Hs'). unfold live, in_queue, queued_entries, queue, overlaid in *.
    cbn in Hid. by rewrite Hs4 in Hid. }
  intros w6 Hw6 Hr6 _ _ _. apply safe_silent; [apply Hh|done|]. intros ? w7 Hw7 Hs7.
  apply safe_done; [done|]. split; [by rewrite (sm_reset _ _ Hs7)|done].
Qed.

Lemma stage_safe w0 w hooks state :
  conserved w0 w -> w_reset w <> None -> quiet_hooks (S := S) hooks ->
  safe (conserved w0) (on_ok (fun state w1 => w_reset w1 <> None /\ rs_phase state = phase_session_staged))
    (stageSession options hooks state) w.
Proof.
  intros Hw Hr Hh. unfold stageSession. apply safe_silent; [apply quiet_requestResetOnce|done|]. intros [status body] w1 Hw1 Hs1.
  apply safe_fail_if; [done|]. intros _. apply safe_thrown; [done|]. intros session _. cbv zeta.
  apply safe_read; [done|]. intros q _. apply safe_silent; [apply quiet_capacity|done|]. intros ? w2 Hw2 Hs2.
  assert (same w w2) as Hs by (by transitivity w1).
  apply safe_write_reset; [done| |].
  { intros id. apply Hw2. by rewrite (sm_reset _ _ Hs). }
  intros w3 Hw3 Hr3 _ _ _. apply safe_silent; [apply Hh|done|]. intros ? w4 Hw4 Hs4. apply safe_mem; [done|].
  apply safe_silent; [apply quiet_setReplicaSession|done|]. intros ? w5 Hw5 Hs5.
  apply safe_silent; [apply Hh|done|]. intros ? w6 Hw6 Hs6. apply safe_done; [done|]. split; [|done].
  by rewrite (sm_reset _ _ Hs6), (sm_reset _ _ Hs5), (sm_reset _ _ Hs4).
Qed.

(** Nothing waits any more. *)
Definition cleared w : Prop := w_reset w <> None /\ queue w = [] /\ forall id, ~ overlaid w id.
Lemma cleared_same w w' : cleared w -> same w w' -> cleared w'.
Proof.
  intros (H1 & H2 & H3) Hs. split_and!; [by rewrite (sm_reset _ _ Hs)|by rewrite (sm_queue _ _ Hs)|].
  intros id Hid. by apply (H3 id), (sm_overlaid _ _ Hs).
Qed.
Lemma clear_safe {B} w0 w state Q (k : ResetState -> Client B) :
  conserved w0 w -> w_reset w <> None ->
  (forall w1, conserved w0 w1 -> cleared w1 -> w_quarantine w1 = w_quarantine w ->
     safe (conserved w0) (on_ok Q) (k (mkReset phase_cleared (rs_request state) (rs_old state) (rs_new state))) w1) ->
  safe (conserved w0) (on_ok Q) (clearReplica state ≫= k) w.
Proof.
  intros Hw Hr Hk. apply safe_bind. unfold clearReplica, app.
  assert (forall s, env_queue s = [] \/ env_queue s = queue w -> conserved w0 (with_env w s)) as Hc.
  { intros s Hs. eapply conserved_drop; [exact Hw|done| |done|done]. intros id [(e & He & Hid)|Hid]; [|by right].
    left. exists e. split; [|done]. unfold queued_entries, queue in *. cbn in He. destruct Hs as [Hs|Hs]; rewrite Hs in He; [|done].
    by apply elem_of_nil in He. }
  apply safe_bind_call; [done|..].
  2: { intros e w1. cbn. destruct (env_clear (w_env w)) as [[|] s] eqn:E; intros [=]; subst. split; [|done].
       apply Hc. by apply law_clear_threw in E. }
  intros [] w1. cbn [handle client_handler]. unfold sdk. destruct (env_clear (w_env w)) as [[|] s] eqn:E; intros [=]; subst. apply law_clear in E.
  assert (conserved w0 (with_env w s)) as Hw1 by (apply Hc; by left).
  apply safe_bind_call; [done| |by intros e w2 ->%handle_app_Throw].
  intros [] w2 (s2 & [= <-] & ->)%handle_app_Ok. set (w2 := with_app _ _).
  assert (conserved w0 w2) as Hw2.
  { eapply conserved_drop; [exact Hw1|done| |done|done]. intros id [Hid|[o Ho]]; [by left|]. cbn in Ho. by rewrite lookup_empty in Ho. }
  assert (cleared w2) as Hcl.
  { split_and!; [done|done|]. intros id [o Ho]. cbn in Ho. by rewrite lookup_empty in Ho. }
  change (safe (conserved w0) (on_ok (fun st w3 => safe (conserved w0) (on_ok Q) (k st) w3))
    (closeReplica ≫= fun _ => mret (mkReset phase_cleared (rs_request state) (rs_old state) (rs_new state))) w2).
  apply safe_silent; [apply quiet_closeReplica|done|]. intros ? w3 Hw3 Hs3. apply safe_done; [done|].
  apply Hk; [done|by eapply cleared_same|by rewrite (sm_quarantine _ _ Hs3)].
Qed.
End Steps.

Section Whole.
Context {printer : NumPrinter} {reader : NumReader} {collation : Collation} (options : OpenOptions).
Context {S : Type} {env : Environment S} {laws : QueueLaws S}.
Implicit Types w : World S.

Lemma clearStaged_safe w0 w hooks state :
  conserved w0 w -> w_reset w <> None -> quiet_hooks (S := S) hooks ->
  safe (conserved w0) (on_ok (fun state w1 => cleared w1 /\ rs_phase state = phase_cleared)) (clearStaged hooks state) w.
Proof.
  intros Hw Hr Hh. unfold clearStaged. apply safe_silent; [apply quiet_new_session|done|]. intros session w1 Hw1 Hs1.
  apply safe_silent; [apply quiet_acknowledgeReset|done|]. intros ? w2 Hw2 Hs2. apply safe_get; [done|].
  apply safe_silent; [by apply quiet_call, quiet_mem|done|]. intros ? w3 Hw3 Hs3. apply safe_read; [done|]. intros q _.
  apply safe_silent; [apply quiet_capacity|done|]. intros ? w4 Hw4 Hs4.
  apply clear_safe; [done|by rewrite (sm_reset _ _ Hs4), (sm_reset _ _ Hs3), (sm_reset _ _ Hs2), (sm_reset _ _ Hs1)|].
  intros w5 Hw5 Hc5 _. apply safe_silent; [apply quiet_capacity|done|]. intros ? w6 Hw6 Hs6.
  pose proof (cleared_same _ _ Hc5 Hs6) as Hc6. apply safe_write_reset; [done|intros id; by apply Hw6, Hc6|].
  intros w7 Hw7 Hr7 Hq7 Ha7 _. apply safe_silent; [apply Hh|done|]. intros ? w8 Hw8 Hs8. apply safe_done; [done|]. split; [|done].
  eapply cleared_same; [|exact Hs8]. destruct Hc6 as (_ & H2 & H3). split_and!; [done|congruence|].
  intros id. unfold overlaid. rewrite Ha7. apply H3.
Qed.

(** The quarantine is final: all that was held is in it or has a result. *)
Definition finalized_in w0 w : Prop :=
  exists l, w_quarantine w = Some (private_file (store_value (mkStore l []))) /\ m_finalized (w_mem w) = l /\
    forall id, held w0 id -> id ∈ q_id <$> l \/ has_result (w_app w) id.
Lemma finalize_safe {B} w0 w session r Q (k : () -> Client B) :
  conserved w0 w -> w_reset w <> None -> readQuarantineStore (w_quarantine w) = Ok r ->
  (forall w1, conserved w0 w1 -> w_reset w1 <> None -> (cleared w -> cleared w1) -> finalized_in w0 w1 ->
     safe (conserved w0) (on_ok Q) (k tt) w1) ->
  safe (conserved w0) (on_ok Q) (finalizeQuarantine session (sr_store r) ≫= k) w.
Proof.
  intros Hw Hr Hread Hk. apply safe_bind. unfold finalizeQuarantine.
  change (safe (conserved w0) (on_ok (fun a w1 => safe (conserved w0) (on_ok Q) (k a) w1)) (finalizeQuarantine session (sr_store r)) w).
  unfold finalizeQuarantine. eapply safe_quiet; [done|apply (keeps_traverse _ (fun i c => q_id c = i_id i)); intros i; apply quiet_finalize|].
  intros additions w1 Hw1 Hs1 Hadd. apply safe_thrown; [done|]. intros merged [Hm _]%merge_Ok.
  apply safe_silent; [apply quiet_capacity|done|]. intros ? w2 Hw2 Hs2. assert (same w w2) as Hs by (by transitivity w1).
  assert (store_ids (mkStore merged []) ≡ₚ store_ids (sr_store r)) as Hids.
  { unfold store_ids. cbn. rewrite app_nil_r, Hm, fmap_app. apply Permutation_app_head.
    replace (i_id <$> qs_pending (sr_store r)) with (q_id <$> additions); [done|].
    clear -Hadd. induction Hadd as [|i c l l' Hc _ IH]; cbn; congruence. }
  apply safe_write; [done| |].
  { intros id Hid%(same_quarantined _ _ _ Hs). rewrite Hids. by apply (read_listed _ _ Hread). }
  intros w3 Hw3 (s & -> & Hq3). apply safe_call; [done|]. intros x w4 [= <- <-]. set (w4 := with_mem _ _).
  assert (conserved w0 w4) as Hw4 by (by eapply conserved_same; [exact Hw3|]).
  assert (w_reset w4 <> None) as Hr4 by (cbn; by rewrite (sm_reset _ _ Hs)).
  apply safe_done; [done|]. apply Hk; [done|done| |].
  - intros (_ & H2 & H3)%(fun H => cleared_same _ _ H Hs). split_and!; [done| |done]. unfold queue in *. cbn. congruence.
  - exists merged. split_and!; [done|done|]. intros id [Hid|[Hid|Hid]]%(proj1 Hw4).
    + left. apply (proj2 Hw4 Hr4) in Hid. unfold quarantined in Hid. cbn [w4 with_mem with_env with_quarantine w_quarantine] in Hid.
      rewrite listed_store in Hid. unfold store_ids in Hid. cbn in Hid. by rewrite app_nil_r in Hid.
    + left. unfold quarantined in Hid. cbn [w4 with_mem with_env with_quarantine w_quarantine] in Hid.
      rewrite listed_store in Hid. unfold store_ids in Hid. cbn in Hid. by rewrite app_nil_r in Hid.
    + by right.
Qed.

(** The end of a reset: final, its state gone. *)
Definition reset_done w0 w : Prop := w_reset w = None /\ finalized_in w0 w.
Definition idle w : Prop := queue w = [] /\ forall id, ~ overlaid w id.
Lemma unlink_safe w0 w :
  conserved w0 w -> w_reset w <> None -> finalized_in w0 w ->
  safe (conserved w0) (on_ok (fun _ w1 => reset_done w0 w1 /\ (cleared w -> idle w1))) (call op_unlink_reset) w.
Proof.
  intros Hw Hr Hf. pose proof (law_unlink (w_env w)) as Hl. apply safe_call; [done|]. intros [[]|e] w1; cbn;
    destruct (env_unlink (w_env w)) as [[|] s]; intros [=]; subst w1; cbn in Hl.
  - split; [apply conserved_reset; [done|by apply Hw|done]|]. split; [by split|].
    intros (_ & H2 & H3). split; [|done]. unfold queue in *. cbn. congruence.
  - split; [by apply conserved_env|done].
Qed.
Lemma finishReset_safe w0 w state :
  conserved w0 w -> w_reset w <> None ->
  safe (conserved w0) (on_ok (fun _ w1 => reset_done w0 w1 /\ (cleared w -> idle w1))) (finishReset options state) w.
Proof.
  intros Hw Hr. unfold finishReset. apply safe_fail_if; [done|]. intros _.
  apply safe_silent; [apply quiet_new_session|done|]. intros session w1 Hw1 Hs1.
  apply safe_silent; [by apply quiet_call, quiet_mem|done|]. intros ? w2 Hw2 Hs2. apply safe_mem; [done|].
  apply safe_silent; [apply quiet_setReplicaSession|done|]. intros ? w3 Hw3 Hs3. apply safe_mem; [done|].
  apply safe_silent; [destruct (m_closed _); eauto with quiet|done|]. intros ? w4 Hw4 Hs4.
  apply safe_silent; [apply quiet_challenge|done|]. intros challenge w5 Hw5 Hs5.
  apply safe_silent; [apply quiet_newConnector|done|]. intros ? w6 Hw6 Hs6.
  apply safe_silent; [by apply quiet_connectAndObserve|done|]. intros ? w7 Hw7 Hs7. apply safe_read; [done|]. intros r Hread.
  apply safe_silent; [apply quiet_capacity|done|]. intros ? w8 Hw8 Hs8.
  assert (same w w8) as Hs by (transitivity w7; [|done]; transitivity w6; [|done]; transitivity w5; [|done];
    transitivity w4; [|done]; transitivity w3; [|done]; transitivity w2; [|done]; by transitivity w1).
  apply finalize_safe; [done|by rewrite (sm_reset _ _ Hs)|by rewrite (sm_quarantine _ _ Hs8)|].
  intros w9 Hw9 Hr9 Hc9 Hf9. eapply safe_weaken; [by apply unlink_safe|]. intros [[]|e] w10 Hw10; [|done].
  intros [Hd He]. split; [done|]. intros Hc. apply He, Hc9. by eapply cleared_same.
Qed.
End Whole.

Section Theorems.
Context {printer : NumPrinter} {reader : NumReader} {collation : Collation} (options : OpenOptions).
Context {S : Type} {env : Environment S} {laws : QueueLaws S}.
Implicit Types w : World S.

Lemma reset_safe w0 w hooks :
  conserved w0 w -> (length (queued_entries w) <= 1000)%nat -> quiet_hooks (S := S) hooks ->
  safe (conserved w0) (on_ok (fun _ w1 => reset_done w0 w1 /\ (w_reset w = None -> idle w1)))
    (performReplicaReset options hooks) w.
Proof.
  intros Hw Hlen Hh. unfold performReplicaReset. apply safe_mem; [done|].
  destruct (m_session (w_mem w)) as [session|]; [|by apply safe_throw].
  apply safe_bind_call; [done| |by intros e w1 [=]]. intros f w1 [= <- <-]. apply safe_thrown; [done|]. intros found Hfound.
  assert (safe (conserved w0) (on_ok (fun state w1 => w_reset w1 <> None /\ (w_reset w = None -> rs_phase state = phase_quarantined)))
    (match found with Some state => mret state | None => beginReset session hooks end) w) as Hbegin.
  { destruct found as [state|].
    - assert (w_reset w <> None) as Hr by (intros Hr; by rewrite Hr in Hfound).
      apply safe_done; [done|]. by split.
    - eapply safe_weaken; [apply begin_safe; [done| |done|done]|].
      + unfold readResetState in Hfound. apply bind_Ok in Hfound as (? & _ & Hfound). destruct (w_reset w); [|done].
        apply bind_Ok in Hfound as (v & _ & H). by apply fmap_Ok in H as (? & ? & _).
      + intros [state|e] w1 _; [|done]. intros [Hr Hp]. by split. }
  apply safe_bind. eapply safe_weaken; [exact Hbegin|]. intros [state|e] w1 Hw1; [|done]. intros [Hr1 Hp1].
  apply safe_bind. eapply safe_weaken with (Q := on_ok (fun state w2 => w_reset w2 <> None /\ (w_reset w = None -> rs_phase state = phase_session_staged))).
  { destruct (is_phase (rs_phase state) phase_quarantined) eqn:E.
    - eapply safe_weaken; [by apply stage_safe|]. intros [st|e] w2 _; [|done]. intros [? ?]. by split.
    - apply safe_done; [done|]. split; [done|]. intros Hn. by rewrite (Hp1 Hn) in E. }
  intros [state2|e] w2 Hw2; [|done]. intros [Hr2 Hp2].
  apply safe_bind. eapply safe_weaken with (Q := on_ok (fun state w3 => w_reset w3 <> None /\ (w_reset w = None -> cleared w3))).
  { destruct (is_phase (rs_phase state2) phase_session_staged) eqn:E.
    - eapply safe_weaken; [by apply clearStaged_safe|]. intros [st|e] w3 _; [|done]. intros [Hc _]. by split; [apply Hc|].
    - apply safe_done; [done|]. split; [done|]. intros Hn. by rewrite (Hp2 Hn) in E. }
  intros [state3|e] w3 Hw3; [|done]. intros [Hr3 Hc3].
  eapply safe_weaken; [by apply finishReset_safe|]. intros [[]|e] w4 _; [|done]. intros [Hd He]. split; [done|]. auto.
Qed.

(** C4: a reset loses no command.  Whatever the network, the disk and the SDK
    do, and wherever the process dies, a command that waited in the queue or
    as an overlay, was quarantined, or had a result still is one of these; a
    reset that returns has removed its state, left no intent pending, holds
    every such command in the final quarantine or has its result, and if it
    was a new reset, nothing waits any more.  The conditions: if a reset was
    interrupted before, everything that waits is in its quarantine, so nothing
    was queued since (else [queued_during_reset_lost]; the same holds of the
    world this ends in, so resets can be tried again and again); at most 1000
    entries wait in the SDK's queue, which is what a reset reads; and the
    test hooks do not touch the client.  Nothing else runs during the reset. *)
Theorem reset_loses_no_command w n hooks :
  (w_reset w <> None -> forall id, live w id -> quarantined w id) ->
  (length (queued_entries w) <= 1000)%nat -> quiet_hooks (S := S) hooks ->
  let w' := crashed n (performReplicaReset options hooks) w in
  (forall id, held w id -> held w' id) /\
  (w_reset w' <> None -> forall id, live w' id -> quarantined w' id) /\
  forall w', exec (performReplicaReset options hooks) w = (Ok tt, w') ->
    reset_done w w' /\ (w_reset w = None -> idle w').
Proof.
  intros Hs Hlen Hh. cbv zeta. pose proof (reset_safe w w hooks (conserved_refl w Hs) Hlen Hh) as H.
  pose proof (safe_crashed _ _ _ _ n H) as [H1 H2]. split_and!; [done..|]. intros w' He.
  by apply (safe_exec _ _ _ _ _ _ H) in He as [_ Hd].
Qed.
End Theorems.

(** ** Opening resumes where a reset stopped *)

Section Opening.
Context {printer : NumPrinter} {reader : NumReader} {collation : Collation} (options : OpenOptions).
Context {S : Type} {env : Environment S} {laws : QueueLaws S}.
Implicit Types w : World S.

Lemma map_rows_ids {V} (f : jstr -> V -> locally V) m m' id :
  map_rows f m = Ok m' -> is_Some (m' !! id) <-> is_Some (m !! id).
Proof.
  unfold map_rows. intros (l & Hl & [= <-])%bind_Ok.
  assert (l.*1 = (map_to_list m).*1) as Hk.
  { revert l Hl. induction (map_to_list m) as [|kv kvs IH]; intros l; cbn; [by intros [= <-]|].
    intros (x & Hx & H)%bind_Ok. apply bind_Ok in H as (xs & Hxs & [= <-]). apply fmap_Ok in Hx as (v & <- & _).
    cbn. f_equal. by apply IH. }
  rewrite <- (list_to_map_to_list m), <- !not_eq_None_Some, <- !not_elem_of_list_to_map. by rewrite Hk.
Qed.
Lemma open_ids s s' : open_application_state s = Ok s' -> same_ids s s'.
Proof.
  unfold open_application_state. intros (? & _ & H)%bind_Ok. apply bind_Ok in H as (s1 & Hs1 & H).
  apply bind_Ok in H as (? & _ & [= <-]). destruct (_ <? _) in Hs1; [|by injection Hs1 as <-].
  unfold migrate in Hs1. apply bind_Ok in Hs1 as (rs & Hr & H). apply bind_Ok in H as (os & Ho & H).
  apply bind_Ok in H as (? & _ & [= <-]). intros id. split; cbn; [by eapply map_rows_ids|].
  unfold has_result. cbn. by eapply map_rows_ids.
Qed.
Lemma quiet_open : quiet (S := S) any openApplicationState.
Proof.
  unfold openApplicationState. quiet_steps. apply quiet_call, quiet_app. intros s ? s'.
  intros (s1 & Hs1%open_ids & [= _ <-])%bind_Ok. done.
Qed.
Lemma quiet_resumedSession : quiet (S := S) any (resumedSession options).
Proof.
  unfold resumedSession. apply quiet_call, quiet_app. intros s ? s'. by intros (r & _ & [= _ <-])%bind_Ok.
Qed.
Hint Resolve quiet_open quiet_resumedSession : quiet.
Lemma quiet_requireReplica files : quiet (S := S) any (requireReplica options files).
Proof. unfold requireReplica. quiet_steps. Qed.
Lemma quiet_initialSession existed : quiet (S := S) any (initialSession options existed).
Proof. unfold initialSession. quiet_steps. Qed.
Lemma quiet_first_challenge session :
  quiet (S := S) any (match session with Some session => challenge ← issueChallenge session; mret (Some challenge) | None => mret None end).
Proof. quiet_steps. Qed.

Lemma readSidecars_safe w0 w :
  conserved w0 w ->
  safe (conserved w0) (on_ok (fun found w1 => w_reset w1 = w_reset w /\ (snd found = None <-> w_reset w = None))) readSidecars w.
Proof.
  intros Hw. unfold readSidecars. apply safe_bind_call; [done| |by intros e w1 [=]]. intros f w1 [= <- <-].
  apply safe_thrown; [done|]. intros reset Hreset.
  assert (reset = None <-> w_reset w = None) as Hn.
  { unfold readResetState in Hreset. apply bind_Ok in Hreset as (? & _ & H). destruct (w_reset w); [|by injection H as <-].
    apply bind_Ok in H as (v & _ & H). apply fmap_Ok in H as (y & <- & _). done. }
  apply safe_bind_call; [done| |by intros e w1 [=]]. intros f w1 [= <- <-].
  apply safe_thrown; [done|]. intros existed _. apply safe_thrown; [done|]. intros q Hq. cbv zeta.
  apply safe_thrown; [done|]. intros ? _.
  apply safe_bind. eapply safe_weaken with (Q := on_ok (fun _ w1 => w_reset w1 = w_reset w)).
  { destruct (sr_migrated q); [|by apply safe_done].
    eapply safe_weaken; [apply safe_written; [done|apply (read_listed _ _ Hq)]|].
    intros [[]|e] w1 _; [|done]. by intros (s & -> & _). }
  intros [[]|e] w1 Hw1; [|done]. intros Hr1. cbn in Hr1.
  apply safe_get; [done|]. apply safe_fail_if; [done|]. intros _. apply safe_local; [done|]. intros ? _. by apply safe_done.
Qed.

(** What remains of a resumed reset. *)
Lemma resumeSession_safe w0 w state current :
  conserved w0 w -> w_reset w <> None ->
  safe (conserved w0) (on_ok (fun _ w1 => w_reset w1 <> None)) (resumeSession options state current) w.
Proof.
  intros Hw Hr. unfold resumeSession. destruct current as [session n].
  assert (forall A (p : Client A), quiet (S := S) any p -> safe (conserved w0) (on_ok (fun _ w1 => w_reset w1 <> None)) p w) as Hquiet.
  { intros A p Hp. apply safe_last; [done|exact Hp|]. intros a w1 Hs. by rewrite (sm_reset _ _ Hs). }
  destruct (rs_phase state); [|apply Hquiet; quiet_steps..].
  apply safe_fail_if; [done|]. intros _.
  apply safe_silent; [apply quiet_requestReset|done|]. intros [status body] w1 Hw1 Hs1.
  apply safe_fail_if; [done|]. intros _. apply safe_thrown; [done|]. intros new _. cbv zeta.
  apply safe_write_reset; [done| |].
  { intros id. apply Hw1. by rewrite (sm_reset _ _ Hs1). }
  intros w2 Hw2 Hr2 _ _ _. apply safe_silent; [apply quiet_setReplicaSession|done|]. intros ? w3 Hw3 Hs3.
  apply safe_silent; [by apply quiet_call, quiet_mem|done|]. intros ? w4 Hw4 Hs4. apply safe_done; [done|].
  cbn. by rewrite (sm_reset _ _ Hs4), (sm_reset _ _ Hs3).
Qed.
Lemma resumeClear_safe w0 w state :
  conserved w0 w -> w_reset w <> None ->
  safe (conserved w0) (on_ok (fun _ w1 => w_reset w1 <> None)) (resumeClear state) w.
Proof.
  intros Hw Hr. unfold resumeClear.
  assert (forall A (p : Client A), quiet (S := S) any p -> safe (conserved w0) (on_ok (fun _ w1 => w_reset w1 <> None)) p w) as Hquiet.
  { intros A p Hp. apply safe_last; [done|exact Hp|]. intros a w1 Hs. by rewrite (sm_reset _ _ Hs). }
  destruct (rs_phase state); [apply Hquiet; quiet_steps| |apply Hquiet; quiet_steps..].
  apply safe_silent; [apply quiet_new_session|done|]. intros new w1 Hw1 Hs1.
  apply safe_silent; [apply quiet_acknowledgeReset|done|]. intros ? w2 Hw2 Hs2. apply safe_read; [done|]. intros q _.
  apply safe_silent; [apply quiet_capacity|done|]. intros ? w3 Hw3 Hs3.
  apply clear_safe; [done|by rewrite (sm_reset _ _ Hs3), (sm_reset _ _ Hs2), (sm_reset _ _ Hs1)|].
  intros w4 Hw4 Hc4 _. apply safe_write_reset; [done|intros id; by apply Hw4, Hc4|].
  intros w5 Hw5 Hr5 _ _ _. by apply safe_done.
Qed.
Lemma resumeReset_safe w0 w reset :
  conserved w0 w -> (reset <> None -> w_reset w <> None) ->
  safe (conserved w0) (on_ok (fun found w1 => (found <> None -> w_reset w1 <> None) /\
    (o_resumeExisting options = true -> reset <> None -> found <> None))) (resumeReset options reset) w.
Proof.
  intros Hw Hr. unfold resumeReset. destruct reset as [state|]; [|by apply safe_done].
  destruct (o_resumeExisting options); [|by apply safe_done].
  apply safe_silent; [apply quiet_resumedSession|done|]. intros [current|] w1 Hw1 Hs1; [|by apply safe_throw].
  apply safe_bind. eapply safe_weaken; [apply resumeSession_safe; [done|rewrite (sm_reset _ _ Hs1); by apply Hr]|].
  intros [state1|e] w2 Hw2; [|done]. intros Hr2. apply safe_bind. eapply safe_weaken; [by apply resumeClear_safe|].
  intros [state2|e] w3 Hw3; [|done]. intros Hr3. apply safe_done; [done|]. by split.
Qed.
Lemma finishResume_safe w0 w reset :
  conserved w0 w -> (reset <> None -> w_reset w <> None) ->
  safe (conserved w0) (on_ok (fun _ w1 => reset <> None -> reset_done w0 w1)) (finishResume reset) w.
Proof.
  intros Hw Hr. unfold finishResume. destruct reset as [state|]; [|by apply safe_done]. specialize (Hr ltac:(done)).
  apply safe_mem; [done|]. destruct (m_session (w_mem w)) as [session|]; [|by apply safe_throw].
  destruct (is_phase _ _); [|by apply safe_throw]. apply safe_read; [done|]. intros r Hread.
  apply finalize_safe; [done..|]. intros w1 Hw1 Hr1 _ Hf1. eapply safe_weaken; [by apply unlink_safe|].
  intros [[]|e] w2 _; [|done]. intros [Hd _] _. exact Hd.
Qed.

Lemma open_safe w0 w :
  conserved w0 w ->
  safe (conserved w0) (on_ok (fun _ w1 => o_resumeExisting options = true -> w_reset w <> None -> reset_done w0 w1))
    (openSpikeClient options) w.
Proof.
  intros Hw. unfold openSpikeClient.
  apply safe_silent; [by apply quiet_call, quiet_mem|done|]. intros ? w1 Hw1 Hs1.
  apply safe_silent; [apply quiet_open|done|]. intros existed w2 Hw2 Hs2.
  apply safe_bind. eapply safe_weaken; [by apply readSidecars_safe|]. intros [[store reset]|e] w3 Hw3; [|done].
  intros [Hr3 Hn3]. cbn [snd] in Hn3. rewrite (sm_reset _ _ Hs2), (sm_reset _ _ Hs1) in Hr3, Hn3.
  apply safe_silent; [by apply quiet_call, quiet_files|done|]. intros files w4 Hw4 Hs4.
  apply safe_silent; [apply quiet_requireReplica|done|]. intros ? w5 Hw5 Hs5.
  apply safe_silent; [by apply quiet_call, quiet_mem|done|]. intros ? w6 Hw6 Hs6.
  apply safe_silent; [apply quiet_initialSession|done|]. intros ? w7 Hw7 Hs7.
  assert (w_reset w7 = w_reset w) as Hr7 by (by rewrite (sm_reset _ _ Hs7), (sm_reset _ _ Hs6), (sm_reset _ _ Hs5), (sm_reset _ _ Hs4)).
  apply safe_bind. eapply safe_weaken; [apply (resumeReset_safe w0 w7 reset); [done|rewrite Hr7; tauto]|].
  intros [found|e] w8 Hw8; [|done]. intros [Hf8 Hg8]. apply safe_mem; [done|].
  apply safe_silent; [apply quiet_first_challenge|done|]. intros challenge w9 Hw9 Hs9.
  apply safe_silent; [apply quiet_newConnector|done|]. intros ? w10 Hw10 Hs10.
  apply safe_catch. apply safe_bind.
  eapply safe_weaken; [apply (safe_keeps same); [by apply quiet_connectAndObserve|intros w'; by apply conserved_same]|].
  assert (forall e w', conserved w0 w' -> safe (conserved w0) (on_ok (fun (_ : ()) w1 => o_resumeExisting options = true -> w_reset w <> None -> reset_done w0 w1))
    (failed ← attempt closeDatabase;
     if (failed : bool) then fail (js "Opening PowerSync client " ++ o_name options ++ js " and cleanup both failed.") else throw e) w') as Hcatch.
  { intros e w' Hw'. apply safe_silent; [apply quiet_attempt, quiet_closeDatabase|done|]. intros failed w1' Hw1' _. destruct failed; by apply safe_throw. }
  intros [[]|e] w11 Hw11 [Hs11 _]; [|by apply Hcatch].
  eapply safe_weaken; [apply (finishResume_safe w0); [done|]|].
  { intros Hf. rewrite (sm_reset _ _ Hs11), (sm_reset _ _ Hs10), (sm_reset _ _ Hs9). auto. }
  intros [[]|e] w12 Hw12; [|intros _; by apply Hcatch]. intros Hd Hres Hrw. apply Hd, Hg8; [done|]. tauto.
Qed.
End Opening.
