(* ===== verification/CommandLife.v ===== *)
(** The life of a command in the client, from its admission to its result or
    its place in the quarantine: queueing, uploading, resetting and opening
    again, each interrupted anywhere, composed. *)
From S2P Require Export ResetSpec.

(** ** Uploading takes overlays away only for results *)

Section Shedding.
Context {printer : NumPrinter} {reader : NumReader} {collation : Collation} (sha256 : jstr -> jstr).
Context {S : Type} {env : Environment S} {laws : QueueLaws S}.
Implicit Types w : World S.

Record shed w w' : Prop := {
  sd_only : forall id, overlaid w' id -> overlaid w id;
  sd_kept : forall id, overlaid w id -> overlaid w' id \/ has_result (w_app w') id;
  sd_results : forall id, has_result (w_app w) id -> has_result (w_app w') id;
  sd_quarantine : w_quarantine w' = w_quarantine w;
  sd_reset : w_reset w' = w_reset w;
}.
#[export] Instance shed_preorder : PreOrder shed.
Proof.
  split; [intros w; split; auto|]. intros w1 w2 w3 [A1 A2 A3 A4 A5] [B1 B2 B3 B4 B5].
  split; [auto| |auto|congruence|congruence]. intros id [H|H]%A2; [by apply B2|right; by apply B3].
Qed.
(** Statements that take an overlay away only for a result. *)
Record shed_rows (s s' : ApplicationState) : Prop := {
  sr_only : forall id, is_Some (app_overlays s' !! id) -> is_Some (app_overlays s !! id);
  sr_kept : forall id, is_Some (app_overlays s !! id) -> is_Some (app_overlays s' !! id) \/ has_result s' id;
  sr_results : forall id, has_result s id -> has_result s' id;
}.
#[export] Instance shed_rows_preorder : PreOrder shed_rows.
Proof.
  split; [intros w; split; auto|]. intros w1 w2 w3 [A1 A2 A3] [B1 B2 B3].
  split; [auto| |auto]. intros id [H|H]%A2; [by apply B2|right; by apply B3].
Qed.
Lemma shed_each {A} (f : A -> Sql ()) l s s' u :
  (forall x s s' u, f x s = Ok (u, s') -> shed_rows s s') -> sql_each f l s = Ok (u, s') -> shed_rows s s'.
Proof.
  intros Hf. revert s. induction l as [|x l IH]; intros s; cbn; [by intros [= _ <-]|].
  unfold mbind, sql_bind. intros ([u1 s1] & H1 & H2)%bind_Ok. transitivity s1; [by eapply Hf|by apply IH].
Qed.
Lemma shed_persist r s s' u : persistResult r s = Ok (u, s') -> shed_rows s s'.
Proof.
  intros H. pose proof (persistResult_results _ _ _ _ H) as [Hsub Hr].
  assert (app_overlays s' = delete (t_commandId r) (app_overlays s)) as Ho.
  { unfold persistResult, mbind, sql_bind, sql_get in H. cbn [mbind outcome_bind] in H.
    apply bind_Ok in H as ([? s1] & H1 & H2). cbn in H2. injection H2 as _ <-. cbn.
    destruct (app_results s !! t_commandId r) as [row|]; unfold sql_lift in H1.
    - by apply bind_Ok in H1 as (? & _ & [= _ <-]).
    - repeat (apply bind_Ok in H1 as ([? ?] & (? & _ & [= _ <-])%bind_Ok & H1)). by injection H1 as _ <-. }
  split; [intros id; rewrite Ho; intros [o [_ Hid]%lookup_delete_Some]; by exists o| |].
  - intros id [o Hid]. destruct (decide (id = t_commandId r)) as [->|Hne]; [by right|left].
    rewrite Ho. exists o. by rewrite lookup_delete_ne.
  - intros id [row Hrow]. exists row. by eapply lookup_weaken.
Qed.
Lemma shed_mark id s s' u : markResult id s = Ok (u, s') -> shed_rows s s'.
Proof.
  unfold markResult, mbind, sql_bind, sql_get. cbn [mbind outcome_bind].
  destruct (app_results s !! id) as [r|] eqn:Er; [|done]. intros [= _ <-]. split; cbn; auto.
  intros k [row Hrow]. unfold has_result. cbn. destruct (decide (id = k)) as [<-|Hne]; [rewrite lookup_insert_eq|rewrite lookup_insert_ne by done]; by eexists.
Qed.
Lemma shed_failure id s n s' : recordTransientFailure id s = Ok (n, s') -> shed_rows s s'.
Proof. unfold recordTransientFailure. destruct (5 <? _); [done|]. intros [= _ <-]. split; cbn; auto. Qed.

Definition sheds {A} (p : Client A) : Prop := keeps (W := World S) shed (fun _ => True) p.
Lemma sheds_app {A} (m : Sql A) : (forall s a s', m s = Ok (a, s') -> shed_rows s s') -> sheds (app m).
Proof.
  intros Hm. apply keeps_call; [|done]. intros w [a|e] w'.
  - intros (s & Hs & ->)%handle_app_Ok. destruct (Hm _ _ _ Hs) as [H1 H2 H3]. by split.
  - by intros ->%handle_app_Throw.
Qed.
Lemma sheds_env {X} (op : ClientOp X) :
  (forall w r w', handle op w = (r, w') -> exists s, w' = with_env w s) -> sheds (call op).
Proof. intros Hop. apply keeps_call; [|done]. intros w r w' [s ->]%Hop. split; auto. Qed.
Lemma sheds_mem {X} (f : Memory -> X * Memory) : sheds (call (op_mem f)).
Proof. apply keeps_call; [|done]. intros w r w'. cbn. destruct (f (w_mem w)). intros [= _ <-]. split; auto. Qed.
Lemma sheds_bind {A B} (f : A -> Client B) p : sheds p -> (forall a, sheds (f a)) -> sheds (p ≫= f).
Proof. intros Hp Hf. eapply keeps_bind; [exact Hp|]. intros a _. apply Hf. Qed.
Lemma sheds_lift {A} (o : outcome client_error A) : sheds (Done o).
Proof. by destruct o. Qed.

Lemma sheds_complete t rs : sheds (completeWithResults t rs).
Proof.
  unfold completeWithResults, holdBeforeSdkCompletion, set_mem. apply sheds_bind; [apply sheds_app|intros _; apply sheds_bind; [apply sheds_mem|intros _; apply sheds_bind; [|intros _; apply sheds_app]]].
  - intros s a s' H. eapply shed_each; [|exact H]. intros x s1 s2 u. apply shed_persist.
  - apply sheds_env. intros w r w' [= _ <-]. by eexists.
  - intros s a s' H. eapply shed_each; [|exact H]. intros x s1 s2 u. apply shed_mark.
Qed.
Lemma sheds_transient t c b e : sheds (transient_failure sha256 t c b e).
Proof.
  unfold transient_failure. apply sheds_bind; [apply sheds_app; intros s a s'; apply shed_failure|]. intros n.
  destruct (_ <=? n); [apply sheds_complete|apply sheds_lift].
Qed.
Lemma sheds_parsed raw cs b t (f : list (list (jstr * jsval)) -> Client ()) :
  (forall rs, f rs = complete_parsed t rs \/ exists e, f rs = Done (Throw e)) -> sheds (parsed_results sha256 raw cs b ≫= f).
Proof.
  intros Hf. unfold parsed_results, lift_thrown. apply sheds_bind; [destruct (parseCommandResponse _ _ _ _); apply sheds_lift|].
  intros rs. destruct (Hf rs) as [->|[e ->]]; [|apply sheds_lift]. unfold complete_parsed, lift_local.
  apply sheds_bind; [destruct (mapM _ _); apply sheds_lift|]. intros records. apply sheds_complete.
Qed.
Lemma sheds_upload : sheds (uploadData sha256).
Proof.
  unfold uploadData. apply sheds_bind; [apply sheds_env; intros w r w' [= _ <-]; exists (w_env w); by destruct w|].
  intros [t|]; [|apply sheds_lift]. unfold lift_local. apply sheds_bind; [destruct (validateQueuedCrud _); apply sheds_lift|].
  intros cs. unfold mem. apply sheds_bind; [apply sheds_mem|]. intros session. apply sheds_bind; [apply sheds_mem|]. intros fault.
  destruct session as [session|]; [|apply sheds_lift]. destruct cs as [|c cs]; [apply sheds_lift|]. cbv zeta.
  split.
  { intros w r w'. cbn. destruct (env_fetch _ _) as [[x|] s]; intros [= _ <-]; split; auto. }
  intros [response|e]; [|apply sheds_transient]. unfold upload_answer. cbv zeta.
  destruct (r_status response =? 428); [apply sheds_bind; [apply sheds_mem|intros _; apply sheds_lift]|].
  destruct (isRetryableUploadStatus _); [apply sheds_transient|].
  destruct (r_json response) as [raw|]; [|apply sheds_lift].
  destruct (r_status response =? 403).
  { apply (sheds_parsed _ _ _ t). intros [|r rs]; [right; by eexists|]. destruct (strict_eq _ _); [by left|right; by eexists]. }
  destruct (_ && _); [apply sheds_complete|]. destruct (negb _); [apply sheds_lift|].
  apply (sheds_parsed _ _ _ t). by left.
Qed.

(** An upload interrupted anywhere. *)
Lemma queued_entry_command t c e : validateQueuedCrud (tx_crud t) = Ok [c] -> e ∈ tx_crud t -> c_id e = VStr (commandId c).
Proof.
  intros Hv He. assert (tx_crud t = [e]) as Ht.
  { unfold validateQueuedCrud in Hv. apply bind_Ok in Hv as (? & Hl%throw_if_Ok & _). apply negb_false_iff, Nat.eqb_eq in Hl.
    destruct (tx_crud t) as [|y [|? ?]]; try done. by apply list_elem_of_singleton in He as ->. }
  rewrite Ht in Hv. pose proof (queued_entry_id e (entry_of c)) as H. unfold queued_entry in H. rewrite Hv in H. by apply H.
Qed.
Lemma upload_conserves w n : covered w -> conserved w (crashed n (uploadData sha256) w).
Proof.
  intros Hs. pose proof (safe_crashed _ _ _ _ n (uploadData_safe sha256 w)) as [Hr Hq].
  pose proof (crashed_keeps shed _ _ w n sheds_upload) as [H1 H2 H3 H4 H5]. set (w' := crashed _ _ _) in *.
  assert (forall id, in_queue w id -> in_queue w' id \/ has_result (w_app w') id) as Hin.
  { intros id (e & He & Hid). destruct Hq as [Hq|(t & q & c & r & Hw & Hw' & Hv & Hrow & _)].
    - left. exists e. split; [|done]. unfold queued_entries. by rewrite Hq.
    - unfold queued_entries in He. rewrite Hw in He. cbn in He. apply elem_of_app in He as [He|He].
      + right. exists r. pose proof (queued_entry_command t c e Hv He) as Hc. congruence.
      + left. exists e. split; [|done]. unfold queued_entries. by rewrite Hw'. }
  assert (forall id, in_queue w' id -> in_queue w id) as Hback.
  { intros id (e & He & Hid). exists e. split; [|done]. destruct Hq as [Hq|(t & q & c & r & Hw & Hw' & _)];
      unfold queued_entries in *; [by rewrite <- Hq|]. rewrite Hw' in He. rewrite Hw. cbn. apply elem_of_app. by right. }
  split.
  - intros id [[Hid|Hid]|[Hid|Hid]].
    + destruct (Hin id Hid); [by left; left|by right; right].
    + destruct (H2 id Hid); [by left; right|by right; right].
    + right. left. unfold quarantined. by rewrite H4.
    + right. right. by apply H3.
  - intros Hreset id Hid. unfold quarantined. rewrite H4. apply Hs; [by rewrite <- H5|].
    destruct Hid as [Hid|Hid]; [left; by apply Hback|right; by apply H1].
Qed.
End Shedding.

(** ** Queueing only adds *)

Section Queueing.
Context {printer : NumPrinter} {S : Type} {env : Environment S} {laws : QueueLaws S}.
Implicit Types w : World S.

Definition grown w0 w : Prop := w_reset w = None /\ forall id, held w0 id -> held w id.
Lemma grown_same w0 w w' : grown w0 w -> same w w' -> grown w0 w'.
Proof. intros [Hr Hh] Hs. split; [by rewrite (sm_reset _ _ Hs)|]. intros id Hid. by apply (same_held _ _ _ Hs), Hh. Qed.
Lemma quiet_bindCommand i : quiet (S := S) any (bindCommand i).
Proof. unfold bindCommand. quiet_steps. Qed.
Lemma admit_one q b c s ids s' :
  admit_bound q b c s = Ok (ids, s') -> ids = [commandId (b_command c)] /\ app_overlays s !! commandId (b_command c) = None /\
    s' = with_overlays s (<[commandId (b_command c) := overlay_row c]> (app_overlays s)).
Proof.
  unfold admit_bound, mbind, sql_bind, sql_get. cbn [mbind outcome_bind]. intros Ha.
  destruct (local_if _ _) as [[]|] in Ha; [|done]. cbn [sql_lift mbind outcome_bind] in Ha. unfold sql_lift in Ha. cbn in Ha.
  destruct (assertOutstandingCapacity _ _ _) as [[]|] in Ha; [|done]. cbn [mbind outcome_bind] in Ha.
  pose proof (addOverlays_one _ _ _ _ Ha) as (_ & Ho & _ & _ & ->). split_and!; [|done|done].
  cbn in Ha. unfold mbind, sql_bind, sql_get, sql_lift in Ha. cbn in Ha.
  destruct (local_if _ _) as [[]|] in Ha; [|done]. cbn in Ha. destruct (throw_if _ _) as [[]|] in Ha; [|done]. cbn in Ha. by injection Ha.
Qed.
Lemma queue_conserves w inputs corr n :
  w_reset w = None -> conserved w (crashed n (queueCommands inputs corr) w).
Proof.
  intros Hr. enough (safe (grown w) (fun _ _ => True) (queueCommands inputs corr) w) as H.
  { apply (safe_crashed _ _ _ _ n) in H as [Hr' Hh]. split; [done|]. by intros Hn. }
  assert (grown w w) as Hw by done. unfold queueCommands. destruct inputs as [|i [|? ?]]; [by apply safe_done| |by apply safe_done].
  apply safe_bind. eapply safe_weaken.
  { apply (safe_keeps same _ (fun _ => True)); [apply quiet_bindCommand|]. intros w'. by apply grown_same. }
  intros [b|e] w1 Hw1 _; [|done]. unfold mem. apply safe_bind_call; [done| |by intros e w2 [=]].
  intros l w2 [= <- <-]. rewrite with_mem_id. unfold app. apply safe_bind_call; [done| |by intros e w2 ->%handle_app_Throw].
  intros ids w2 (s1 & (-> & Ho & Hs1)%admit_one & ->)%handle_app_Ok.
  assert (grown w (with_app w1 s1)) as Hw2.
  { destruct Hw1 as [H1 H2]. split; [done|]. intros id [[Hid|[o Hid]]|[Hid|Hid]]%H2.
    - by left; left.
    - left. right. unfold overlaid. rewrite Hs1. cbn. apply lookup_insert_is_Some'. right. by exists o.
    - by right; left.
    - right. right. by rewrite Hs1. }
  apply safe_catch, safe_call; [done|]. intros [[]|e] w3; cbn [handle client_handler]; unfold sdk;
    destruct (env_enqueue _ _) as [[|] s] eqn:Ee; intros [=]; subst w3.
  - apply law_enqueue in Ee as (tid & Hq). apply safe_done; [|done]. destruct Hw2 as [H1 H2]. split; [done|].
    intros id [[(e & He & Hid)|Hid]|Hid]%H2; [|by left; right|by right]. left. left. exists e. split; [|done].
    unfold queued_entries, queue in *. cbn. cbn in Hq. rewrite Hq, bind_app. apply elem_of_app. by left.
  - apply law_enqueue_threw in Ee. cbn in Ee.
    assert (env_queue s = queue w1) as Hq by exact Ee.
    apply safe_done; [eapply grown_same; [exact Hw2|by apply same_env]|]. cbv beta iota.
    apply safe_bind_call; [|intros [] w3 (s2 & Hrem & ->)%handle_app_Ok; apply safe_done; [|done]|].
    + eapply grown_same; [exact Hw2|]. by apply same_env.
    + cbn in Hrem. injection Hrem as <-. eapply grown_same; [exact Hw1|]. split; [done| | |done|done]; intros id.
      * unfold overlaid. rewrite Hs1. cbn. by rewrite delete_insert_id.
      * by rewrite Hs1.
    + intros e' w3 Ht. by apply handle_app_Throw in Ht as ->; split; [eapply grown_same; [exact Hw2|]; by apply same_env|].
Qed.
End Queueing.

(** ** Whole lives *)

Section Lives.
Context {printer : NumPrinter} {reader : NumReader} {collation : Collation} (sha256 : jstr -> jstr).
Context {S : Type} {env : Environment S} {laws : QueueLaws S}.
Implicit Types w : World S.

(** What can happen to a client; the process may die after any effect of any
    operation.  Commands are queued only while no reset is under way, and
    results of other commands than [id] may be acknowledged. *)
Inductive client_step (id : jstr) w w' : Prop :=
| cs_queue n inputs corr : w_reset w = None -> w' = crashed n (queueCommands inputs corr) w -> client_step id w w'
| cs_upload n : w' = crashed n (uploadData sha256) w -> client_step id w w'
| cs_reset n options hooks : (length (queued_entries w) <= 1000)%nat -> quiet_hooks (S := S) hooks ->
    w' = crashed n (performReplicaReset options hooks) w -> client_step id w w'
| cs_open n options : w' = crashed n (openSpikeClient options) w -> client_step id w w'
| cs_acknowledge n other : other <> id -> w' = crashed n (acknowledgeCommandResult other) w -> client_step id w w'
| cs_memory m : w' = with_mem w m -> client_step id w w'
| cs_outside s : env_queue s = queue w -> w' = with_env w s -> client_step id w w'.

Lemma acknowledge_keeps w n other id :
  other <> id -> covered w -> held w id ->
  held (crashed n (acknowledgeCommandResult other) w) id /\ covered (crashed n (acknowledgeCommandResult other) w).
Proof.
  intros Hne Hs Hid. enough (safe (fun w' => held w' id /\ covered w') (fun _ _ => True) (acknowledgeCommandResult other) w) as H
    by exact (safe_crashed _ _ _ _ n H).
  apply safe_call; [done|]. intros [b|e] w1.
  - intros (s1 & Ha & ->)%handle_app_Ok. unfold acknowledgeResult in Ha.
    assert (app_overlays s1 = app_overlays (w_app w) /\ app_results s1 !! id = app_results (w_app w) !! id) as [Ho Hres].
    { destruct (app_results (w_app w) !! other) as [r|]; [destruct (r_completed r)|]; injection Ha as _ <-; try done.
      split; [done|]. cbn. by apply lookup_delete_ne. }
    apply safe_done; [|done]. split.
    + destruct Hid as [[Hid|Hid]|[Hid|Hid]]; [by left; left|left; right; unfold overlaid; cbn; by rewrite Ho|by right; left|].
      right. right. unfold has_result. cbn. by rewrite Hres.
    + intros Hr k [Hk|Hk]; [apply Hs; [done|by left]|]. apply Hs; [done|]. right. unfold overlaid in *. cbn in Hk. by rewrite Ho in Hk.
  - intros ->%handle_app_Throw. by apply safe_done.
Qed.
Lemma step_keeps id w w' : covered w -> held w id -> client_step id w w' -> held w' id /\ covered w'.
Proof.
  intros Hs Hid H. pose proof (conserved_refl w Hs) as Hc.
  assert (forall w1, conserved w w1 -> held w1 id /\ covered w1) as Hby by (intros w1 [Hh Hs1]; split; [by apply Hh|done]).
  destruct H as [n inputs corr Hr ->|n ->|n options hooks Hl Hh ->|n options ->|n other Ho ->|m ->|s Hq ->].
  - by apply Hby, queue_conserves.
  - by apply Hby, upload_conserves.
  - apply Hby. eapply safe_crashed. by apply reset_safe.
  - apply Hby. eapply safe_crashed. by apply open_safe.
  - by apply acknowledge_keeps.
  - apply Hby. by eapply conserved_same; [exact Hc|].
  - apply Hby. eapply conserved_same; [exact Hc|by apply same_env].
Qed.

(** C1: no command is lost.  From the moment a command is held - in the upload
    queue, as an overlay, in the quarantine or by its result - it stays held,
    through uploads, resets, resumptions and any number of deaths of the
    process at any effect, as long as nothing is queued while a reset is under
    way and nobody acknowledges its own result.  The conditions: at the start
    nothing is queued that an interrupted reset has not listed ([covered]), no
    reset meets more than 1000 queued entries, its test hooks do not touch the
    client, and operations run one after another. *)
Theorem no_command_lost id w0 w :
  covered w0 -> held w0 id -> rtc (client_step id) w0 w -> held w id.
Proof.
  intros Hs Hid H. enough (held w id /\ covered w) by tauto.
  induction H as [w|w1 w2 w3 H12 _ IH]; [done|]. destruct (step_keeps id w1 w2 Hs Hid H12). by apply IH.
Qed.
End Lives.
