(* ===== verification/CommandServer.v ===== *)
(** The command server of the harness:
    [spikes/powersync/harness/src/command-server.ts], on the tables its SQL
    reads and writes.  A query is its effect on the tables, as
    [spikes/powersync/postgres/00-source.sql] defines them (columns no query
    of the server reads, and random event ids, are left out); a transaction
    is atomic, its rows being locked, except where another may run in between.
    [sha256] and [hmac] are the platform's hashes: the hexadecimal text of the
    hash of a string, and the base64url text of its keyed hash under the
    rotation key.  [pg_uuid] is how PostgreSQL reads a text as a UUID. *)
From S2P Require Export CommandProtocolSpec.

(** ** Tables *)

Inductive ResultState := state_applied | state_conflict | state_denied.
Inductive ResultCode := code_applied | code_already_applied | code_optimistic_conflict | code_stale_incarnation | code_command_denied.
#[export] Instance ResultState_eq_dec : EqDecision ResultState.
Proof. solve_decision. Defined.
#[export] Instance ResultCode_eq_dec : EqDecision ResultCode.
Proof. solve_decision. Defined.
Definition state_text (s : ResultState) : jstr :=
  match s with state_applied => "applied" | state_conflict => "conflict" | state_denied => "denied" end.
Definition code_text (c : ResultCode) : jstr :=
  match c with
  | code_applied => "applied" | code_already_applied => "already_applied"
  | code_optimistic_conflict => "optimistic_conflict" | code_stale_incarnation => "stale_incarnation"
  | code_command_denied => "command_denied"
  end.

Record ResourceRow := mkResource {
  res_incarnation : jstr; res_version : Z; res_payload : option jstr; res_deleted_at : option Z }.
Record GrantRow := mkGrant {
  g_resource : jstr; g_user : jstr; g_user_active : bool; g_workspace_active : bool;
  g_journey_active : bool; g_party_active : bool }.
Record ReceiptRow := mkReceipt {
  rc_replica : jstr; rc_epoch : Z; rc_resource : jstr; rc_digest : jstr;
  rc_state : ResultState; rc_code : ResultCode; rc_previous : Z; rc_current : Z }.
Record EventRow := mkEvent {
  ev_user : jstr; ev_command : jstr; ev_resource : jstr; ev_ordinal : Z;
  ev_type : SpikeCommandType; ev_version : Z }.
Record ReplicaRow := mkReplica {
  rp_user : jstr; rp_credential_digest : jstr; rp_epoch : Z;
  rp_last_ack : option Z; rp_ack_sequence : option Z; rp_disabled_at : option Z;
  rp_previous_digest : option jstr; rp_staged_reset : option jstr; rp_last_reset : option jstr }.
Record ChallengeRow := mkChallenge {
  ch_replica : jstr; ch_epoch : Z; ch_target : Z; ch_expires : Z; ch_acknowledged : option Z }.
Record WindowRow := mkWindow { w_epoch : Z; w_started : Z; w_count : Z }.

(** The soft-delete trigger allocates a sequence number per deletion. *)
Record Db := mkDb {
  db_now : Z;
  db_floor : Z;
  db_next : Z;
  db_resources : gmap jstr ResourceRow;
  db_graveyard : gmap jstr Z;
  db_grants : list GrantRow;
  db_receipts : gmap (jstr * jstr) ReceiptRow;
  db_events : list EventRow;
  db_replicas : gmap jstr ReplicaRow;
  db_challenges : gmap jstr ChallengeRow;
  db_windows : gmap jstr WindowRow;
}.
Definition set_resources (d : Db) m := mkDb (db_now d) (db_floor d) (db_next d) m (db_graveyard d) (db_grants d)
  (db_receipts d) (db_events d) (db_replicas d) (db_challenges d) (db_windows d).
Definition set_receipts (d : Db) m := mkDb (db_now d) (db_floor d) (db_next d) (db_resources d) (db_graveyard d) (db_grants d)
  m (db_events d) (db_replicas d) (db_challenges d) (db_windows d).
Definition set_events (d : Db) l := mkDb (db_now d) (db_floor d) (db_next d) (db_resources d) (db_graveyard d) (db_grants d)
  (db_receipts d) l (db_replicas d) (db_challenges d) (db_windows d).
Definition set_replicas (d : Db) m := mkDb (db_now d) (db_floor d) (db_next d) (db_resources d) (db_graveyard d) (db_grants d)
  (db_receipts d) (db_events d) m (db_challenges d) (db_windows d).
Definition set_challenges (d : Db) m := mkDb (db_now d) (db_floor d) (db_next d) (db_resources d) (db_graveyard d) (db_grants d)
  (db_receipts d) (db_events d) (db_replicas d) m (db_windows d).
Definition set_windows (d : Db) m := mkDb (db_now d) (db_floor d) (db_next d) (db_resources d) (db_graveyard d) (db_grants d)
  (db_receipts d) (db_events d) (db_replicas d) (db_challenges d) m.
Definition set_graveyard (d : Db) g n := mkDb (db_now d) (db_floor d) n (db_resources d) g (db_grants d)
  (db_receipts d) (db_events d) (db_replicas d) (db_challenges d) (db_windows d).

(** An error of the database: the transaction is rolled back. *)
Inductive DbError := ConstraintViolation | TypeError.
Abbreviation queried := (outcome DbError).

(** ** Answers *)

Record SpikeCommandResult := mkResult {
  cr_commandId : jstr; cr_resourceId : jstr; cr_digest : jstr; cr_state : ResultState; cr_code : ResultCode;
  cr_previousVersion : Z; cr_currentVersion : Z; cr_attemptNumber : Z }.
Inductive Body :=
| ErrorBody (error : jstr)
| ResultsBody (results : list SpikeCommandResult)
| ValueBody (fields : list (jstr * jsval)).
Record Answer := mkAnswer { status : Z; body : Body }.
Definition error_answer (status : Z) (error : string) : Answer := mkAnswer status (ErrorBody error).

Definition encode_result (r : SpikeCommandResult) : jsval :=
  VObj [(js "commandId", VStr (cr_commandId r)); (js "resourceId", VStr (cr_resourceId r));
        (js "digest", VStr (cr_digest r)); (js "state", VStr (state_text (cr_state r)));
        (js "code", VStr (code_text (cr_code r))); (js "previousVersion", VNum (NInt (cr_previousVersion r)));
        (js "currentVersion", VNum (NInt (cr_currentVersion r))); (js "attemptNumber", VNum (NInt (cr_attemptNumber r)))].
Definition encode_body (b : Body) : jsval :=
  match b with
  | ErrorBody e => VObj [(js "error", VStr e)]
  | ResultsBody l => VObj [(js "spikeProtocol", VNum (NInt spikeProtocol)); (js "results", VArr (encode_result <$> l))]
  | ValueBody fs => VObj fs
  end.

(** ** Credentials *)

(** [Buffer.from(s, "hex")]: pairs of hexadecimal digits, up to the first that
    is not one. *)
Definition hex_value (c : N) : option N :=
  (if is_digit c then Some (c - 48) else if (97 <=? c) && (c <=? 102) then Some (c - 87)
   else if (65 <=? c) && (c <=? 70) then Some (c - 55) else None)%N.
Fixpoint buffer_from_hex (s : jstr) : list N :=
  match s with
  | a :: b :: s => match hex_value a, hex_value b with
                   | Some x, Some y => (16 * x + y)%N :: buffer_from_hex s
                   | _, _ => []
                   end
  | _ => []
  end.
Definition credentialMatches (stored candidate : jstr) : bool :=
  bool_decide (buffer_from_hex stored = buffer_from_hex candidate).

Definition credentialFrom (header : option jstr) : option jstr :=
  match header with
  | Some v => if (32 <=? str_length v) && (str_length v <=? 128) then Some v else None
  | None => None
  end.

Definition version4Uuid (value : jsval) : bool := match value with VStr s => commandUuid s | _ => false end.
Definition strictObject (value : jsval) (keys : list jstr) : thrown (list (jstr * jsval)) :=
  match as_record value with
  | None => Throw (js "object_required")
  | Some fs => if existsb (fun key => negb (in_list keys key)) (object_keys fs)
               then Throw (js "unknown_field") else Ok fs
  end.
Definition parseBinding (value : list (jstr * jsval)) : thrown ReplicaBinding :=
  match get value "replicaId", positive_safe (get value "replicaEpoch") with
  | VStr id, Some epoch => if uuid id then Ok (mkBinding id epoch) else Throw (js "invalid_replica")
  | _, _ => Throw (js "invalid_replica")
  end.

(** ** Bounded test records and request slots *)

Definition maxRetainedTestAttemptKeys : nat := 1024.
(** [attempts], a Map, in insertion order. *)
Definition recordTestAttempt (key : jstr) (attempts : list (jstr * Z)) : Z * list (jstr * Z) :=
  match List.find (fun kv => str_eqb kv.1 key) attempts with
  | Some kv =>
      let next := kv.2 + 1 in
      (next, (fun kv : jstr * Z => if str_eqb kv.1 key then (key, next) else kv) <$> attempts)
  | None =>
      let kept := if Nat.leb maxRetainedTestAttemptKeys (length attempts) then
                    match attempts with (oldest, _) :: rest => if str_truthy oldest then rest else attempts | [] => [] end
                  else attempts in
      (1, kept ++ [(key, 1)])
  end.
Definition addBoundedTestKey (target : list jstr) (key : jstr) : list jstr :=
  if in_list target key then target
  else (if Nat.leb maxRetainedTestAttemptKeys (length target) then
          match target with oldest :: rest => if str_truthy oldest then rest else target | [] => [] end
        else target) ++ [key].

Definition maxConcurrentCommandRequests : Z := 4.
Definition acquireCommandSlot (concurrent : Z) : option Z :=
  if maxConcurrentCommandRequests <=? concurrent then None else Some (concurrent + 1).
(** The release function of a slot: only its first call counts. *)
Definition releaseCommandSlot (released : bool) (concurrent : Z) : bool * Z :=
  if released then (true, concurrent) else (true, concurrent - 1).

(** ** Transactions *)

Section Server.
Context `{NumPrinter} (sha256 hmac : jstr -> jstr) (pg_uuid : jstr -> option jstr).

Definition DAY : Z := 86400000.
(** The SQL function [ps8_replica_reset_required]. *)
Definition reset_required (d : Db) (last_ack sequence : option Z) : bool :=
  match last_ack, sequence with
  | Some at_time, Some seq => (at_time + 90 * DAY <? db_now d) || (seq <? db_floor d)
  | _, _ => true
  end.
Definition replicaIsStale (d : Db) (row : ReplicaRow) : bool := reset_required d (rp_last_ack row) (rp_ack_sequence row).

Definition lockReplica (userId : jstr) (binding : ReplicaBinding) (credential : jstr) (d : Db) : option ReplicaRow :=
  match db_replicas d !! replicaId binding with
  | Some row =>
      if negb (str_eqb (rp_user row) userId) || bool_decide (is_Some (rp_disabled_at row))
         || negb (rp_epoch row =? replicaEpoch binding)
         || negb (credentialMatches (rp_credential_digest row) (sha256 credential))
      then None else Some row
  | None => None
  end.

Definition maxCommandRequestsPerMinute : Z := 64.
Definition MINUTE : Z := 60000.
Inductive RateOutcome := rate_accepted | rate_invalid | rate_stale | rate_limited.
Definition consumeCommandRateWindow (userId : jstr) (binding : ReplicaBinding) (credential : jstr) (d : Db)
    : RateOutcome * Db :=
  match lockReplica userId binding credential d with
  | None => (rate_invalid, d)
  | Some row =>
      if replicaIsStale d row then (rate_stale, d)
      else
        let fresh := mkWindow (replicaEpoch binding) (db_now d) 1 in
        let put w := (rate_accepted, set_windows d (<[replicaId binding := w]> (db_windows d))) in
        match db_windows d !! replicaId binding with
        | None => put fresh
        | Some w =>
            if negb (w_epoch w =? replicaEpoch binding) || (w_started w + MINUTE <=? db_now d) then put fresh
            else if w_count w <? maxCommandRequestsPerMinute
            then put (mkWindow (replicaEpoch binding) (w_started w) (w_count w + 1))
            else (rate_limited, d)
        end
  end.

Definition resultFromReceipt (commandId : jstr) (row : ReceiptRow) (attemptNumber : Z) (replay : bool) : SpikeCommandResult :=
  mkResult commandId (rc_resource row) (rc_digest row) (rc_state row)
    (if replay && bool_decide (rc_code row = code_applied) then code_already_applied else rc_code row)
    (rc_previous row) (rc_current row) attemptNumber.
Definition deniedResultFromDurableReceipt (commandId : jstr) (row : ReceiptRow) (attemptNumber : Z) : SpikeCommandResult :=
  mkResult commandId (rc_resource row) (rc_digest row) state_denied code_command_denied
    (rc_previous row) (rc_current row) attemptNumber.

Definition active_grant (userId resourceId : jstr) (g : GrantRow) : bool :=
  str_eqb (g_user g) userId && str_eqb (g_resource g) resourceId
  && g_user_active g && g_workspace_active g && g_journey_active g && g_party_active g.
(** [new Set(rows.map(row => row.resource_id)).size === resourceIds.length] *)
Definition hasActiveGrant (userId : jstr) (resourceIds : list jstr) (d : Db) : bool :=
  Nat.eqb (length (remove_dups (List.filter (fun r => existsb (active_grant userId r) (db_grants d)) resourceIds)))
    (length resourceIds).

(** The receipt answers this very command of this replica and epoch. *)
Definition receipt_matches (binding : ReplicaBinding) (command : SpikeCommand) (r : ReceiptRow) : bool :=
  str_eqb (rc_replica r) (replicaId binding) && (rc_epoch r =? replicaEpoch binding)
  && str_eqb (rc_resource r) (resourceId command) && str_eqb (rc_digest r) (commandDigest sha256 command binding).

Definition insert_receipt (userId : jstr) (command : SpikeCommand) (r : ReceiptRow) (d : Db) : queried Db :=
  match db_receipts d !! (userId, commandId command) with
  | Some _ => Throw ConstraintViolation
  | None => Ok (set_receipts d (<[(userId, commandId command) := r]> (db_receipts d)))
  end.

(** Lines 272-310: without a grant, a durable denial. *)
Definition deny (userId : jstr) (binding : ReplicaBinding) (command : SpikeCommand) (attemptNumber : Z) (d : Db)
    : Answer * Db :=
  let key := (userId, commandId command) in
  let digest := commandDigest sha256 command binding in
  match db_receipts d !! key with
  | Some r =>
      if receipt_matches binding command r
      then (mkAnswer 403 (ResultsBody [deniedResultFromDurableReceipt (commandId command) r attemptNumber]), d)
      else (error_answer 409 "idempotency_conflict", d)
  | None =>
      let r := mkReceipt (replicaId binding) (replicaEpoch binding) (resourceId command) digest
                 state_denied code_command_denied (expectedRecordVersion command) (expectedRecordVersion command) in
      (mkAnswer 403 (ResultsBody [deniedResultFromDurableReceipt (commandId command) r attemptNumber]),
       set_receipts d (<[key := r]> (db_receipts d)))
  end.

(** Lines 351-363: a conflict, recorded for every command. *)
Fixpoint record_conflicts (userId : jstr) (binding : ReplicaBinding) (code : ResultCode) (attemptNumber : Z)
    (commands : list SpikeCommand) (d : Db) : queried (list SpikeCommandResult * Db) :=
  match commands with
  | [] => Ok ([], d)
  | command :: commands =>
      match db_resources d !! resourceId command with
      | None => Throw TypeError
      | Some resource =>
          let currentVersion := res_version resource in
          let digest := commandDigest sha256 command binding in
          d ← insert_receipt userId command
                (mkReceipt (replicaId binding) (replicaEpoch binding) (resourceId command) digest state_conflict code
                   (expectedRecordVersion command) currentVersion) d;
          '(rest, d) ← record_conflicts userId binding code attemptNumber commands d;
          Ok (mkResult (commandId command) (resourceId command) digest state_conflict code
                (expectedRecordVersion command) currentVersion attemptNumber :: rest, d)
      end
  end.

(** Lines 368-372, with the soft-delete trigger. *)
Definition update_resource (command : SpikeCommand) (currentVersion : Z) (d : Db) : queried Db :=
  match db_resources d !! resourceId command with
  | None => Ok d
  | Some row =>
      match type command with
      | resource_update =>
          Ok (set_resources d (<[resourceId command :=
                mkResource (res_incarnation row) currentVersion (payload command) (res_deleted_at row)]> (db_resources d)))
      | resource_soft_delete =>
          let row' := mkResource (res_incarnation row) currentVersion (res_payload row) (Some (db_now d)) in
          let d' := set_resources d (<[resourceId command := row']> (db_resources d)) in
          match res_deleted_at row with
          | Some old => if old =? db_now d then Ok d' else Throw ConstraintViolation
          | None =>
              if bool_decide (is_Some (db_graveyard d !! resourceId command)) then Throw ConstraintViolation
              else Ok (set_graveyard d' (<[resourceId command := db_next d]> (db_graveyard d)) (db_next d + 1))
          end
      end
  end.

Definition insert_event (e : EventRow) (d : Db) : queried Db :=
  if existsb (fun x => str_eqb (ev_user x) (ev_user e) && str_eqb (ev_command x) (ev_command e)
                       && (ev_ordinal x =? ev_ordinal e)) (db_events d)
  then Throw ConstraintViolation else Ok (set_events d (db_events d ++ [e])).

(** Lines 365-387: every command is applied and recorded. *)
Fixpoint apply_commands (userId : jstr) (binding : ReplicaBinding) (attemptNumber ordinal : Z)
    (commands : list SpikeCommand) (d : Db) : queried (list SpikeCommandResult * Db) :=
  match commands with
  | [] => Ok ([], d)
  | command :: commands =>
      let previousVersion := expectedRecordVersion command in
      let currentVersion := previousVersion + 1 in
      let digest := commandDigest sha256 command binding in
      d ← update_resource command currentVersion d;
      d ← insert_event (mkEvent userId (commandId command) (resourceId command) ordinal (type command) currentVersion) d;
      d ← insert_receipt userId command
            (mkReceipt (replicaId binding) (replicaEpoch binding) (resourceId command) digest state_applied code_applied
               previousVersion currentVersion) d;
      '(rest, d) ← apply_commands userId binding attemptNumber (ordinal + 1) commands d;
      Ok (mkResult (commandId command) (resourceId command) digest state_applied code_applied
            previousVersion currentVersion attemptNumber :: rest, d)
  end.

(** Lines 312-390: the command is authorised; its resources are locked. *)
Definition resource_of (d : Db) (command : SpikeCommand) : option ResourceRow := db_resources d !! resourceId command.
Definition perform (userId : jstr) (binding : ReplicaBinding) (commands : list SpikeCommand) (attemptNumber : Z) (d : Db)
    : queried (Answer * Db) :=
  let found := remove_dups (List.filter (fun r => bool_decide (is_Some (db_resources d !! r))) (resourceId <$> commands)) in
  if negb (Nat.eqb (length found) (length commands)) then Ok (error_answer 403 "command_denied", d)
  else
    let receipts := omap (fun id => db_receipts d !! (userId, id)) (remove_dups (commandId <$> commands)) in
    if negb (Nat.eqb (length receipts) 0) then
      if negb (Nat.eqb (length receipts) (length commands)) then Ok (error_answer 409 "partial_idempotency_match", d)
      else if existsb (fun c => match db_receipts d !! (userId, commandId c) with
                                | Some r => negb (receipt_matches binding c r) | None => true end) commands
      then Ok (error_answer 409 "idempotency_conflict", d)
      else Ok (mkAnswer 200 (ResultsBody (omap (fun c =>
                 (fun r => resultFromReceipt (commandId c) r attemptNumber true) <$> db_receipts d !! (userId, commandId c)) commands)), d)
    else
      let staleIncarnation := existsb (fun c => match resource_of d c with
        | Some r => negb (str_eqb (res_incarnation r) (resourceIncarnationId c)) | None => true end) commands in
      let conflict := negb staleIncarnation && existsb (fun c => match resource_of d c with
        | Some r => bool_decide (is_Some (res_deleted_at r)) || negb (res_version r =? expectedRecordVersion c)
        | None => true end) commands in
      '(results, d) ← (if staleIncarnation || conflict then
          record_conflicts userId binding (if staleIncarnation then code_stale_incarnation else code_optimistic_conflict)
            attemptNumber commands d
        else apply_commands userId binding attemptNumber 0 commands d);
      Ok (mkAnswer 200 (ResultsBody results), d).

(** [afterAuthorization] lets other transactions run; the grant lock and the
    replica row stay held. *)
Definition executeCommands (userId : jstr) (binding : ReplicaBinding) (credential : jstr) (commands : list SpikeCommand)
    (attemptNumber : Z) (afterAuthorization : Db -> Db) (d : Db) : queried Answer * Db :=
  match lockReplica userId binding credential d with
  | None => (Ok (error_answer 403 "invalid_replica"), d)
  | Some row =>
      if replicaIsStale d row then (Ok (error_answer 428 "replica_reset_required"), d)
      else if negb (hasActiveGrant userId (resourceId <$> commands) d) then
        match commands with
        | [] => (Throw TypeError, d)
        | command :: _ => let '(a, d) := deny userId binding command attemptNumber d in (Ok a, d)
        end
      else
        let d := afterAuthorization d in
        match perform userId binding commands attemptNumber d with
        | Ok (a, d') => (Ok a, d')
        | Throw e => (Throw e, d)
        end
  end.

(** ** Replica lifecycle *)

Definition maxReplicasPerUser : Z := 16.
Definition set_replica (id : jstr) (row : ReplicaRow) (d : Db) : Db := set_replicas d (<[id := row]> (db_replicas d)).
Definition session_body (id : jstr) (epoch : Z) (credential : jstr) : Body :=
  ValueBody [(js "replicaId", VStr id); (js "replicaEpoch", VNum (NInt epoch)); (js "credential", VStr credential)].
Definition replica_count (userId : jstr) (d : Db) : Z :=
  Z.of_nat (size (filter (fun kv : jstr * ReplicaRow => rp_user kv.2 = userId) (db_replicas d))).

(** [replicaId] and [credential] are the random values drawn. *)
Definition register (userId replicaId credential : jstr) (d : Db) : queried (Answer * Db) :=
  if maxReplicasPerUser <=? replica_count userId d then Ok (error_answer 429 "replica_limit_reached", d)
  else match db_replicas d !! replicaId with
       | Some _ => Throw ConstraintViolation
       | None => Ok (mkAnswer 201 (session_body replicaId 1 credential),
                     set_replica replicaId (mkReplica userId (sha256 credential) 1 None None None None None None) d)
       end.

Definition proof_field : jstr * jsval := (js "checkpointProof", VStr "client-observed-not-server-attested").
Definition challenge (userId : jstr) (binding : ReplicaBinding) (credential challengeId : jstr) (d : Db)
    : queried (Answer * Db) :=
  match lockReplica userId binding credential d with
  | None => Ok (error_answer 403 "invalid_replica", d)
  | Some _ =>
      let expiresAt := db_now d + 5 * MINUTE in
      let kept := filter (fun kv : jstr * ChallengeRow => ch_replica kv.2 <> replicaId binding) (db_challenges d) in
      match kept !! challengeId with
      | Some _ => Throw ConstraintViolation
      | None =>
          Ok (mkAnswer 201 (ValueBody [(js "challengeId", VStr challengeId); (js "targetSequence", VNum (NInt (db_next d)));
                                       (js "expiresAt", VNum (NInt expiresAt)); proof_field]),
              set_challenges d (<[challengeId := mkChallenge (replicaId binding) (replicaEpoch binding) (db_next d)
                                                   expiresAt None]> kept))
      end
  end.

Definition acknowledge (row : ReplicaRow) (now sequence : Z) : ReplicaRow :=
  mkReplica (rp_user row) (rp_credential_digest row) (rp_epoch row) (Some now) (Some sequence) (rp_disabled_at row)
    (rp_previous_digest row) (rp_staged_reset row) (rp_last_reset row).
Definition uuid_like (s : jstr) : bool :=
  (str_length s =? 36) && forallb (fun c => is_lower_hex c || (c =? 45)%N) s.
Definition ack (userId : jstr) (binding : ReplicaBinding) (credential : jstr) (challengeId : jsval) (d : Db)
    : queried (Answer * Db) :=
  match lockReplica userId binding credential d, challengeId with
  | Some row, VStr text =>
      if negb (uuid_like text) then Ok (error_answer 403 "invalid_replica", d)
      else match pg_uuid text with
      | None => Throw TypeError
      | Some id =>
          match db_challenges d !! id with
          | Some c =>
              if str_eqb (ch_replica c) (replicaId binding) && (ch_epoch c =? replicaEpoch binding)
                 && bool_decide (ch_acknowledged c = None) && (db_now d <=? ch_expires c) && (db_floor d <=? ch_target c)
              then Ok (mkAnswer 200 (ValueBody [(js "acknowledged", VBool true); proof_field]),
                       set_replica (replicaId binding) (acknowledge row (db_now d) (ch_target c))
                         (set_challenges d (<[id := mkChallenge (ch_replica c) (ch_epoch c) (ch_target c) (ch_expires c)
                                                      (Some (db_now d))]> (db_challenges d))))
              else Ok (error_answer 409 "checkpoint_ack_rejected", d)
          | None => Ok (error_answer 409 "checkpoint_ack_rejected", d)
          end
      end
  | _, _ => Ok (error_answer 403 "invalid_replica", d)
  end.

Definition rotatedCredential (replicaId resetRequestId : jstr) (targetEpoch : Z) : jstr :=
  js "r2_" ++ hmac (replicaId ++ js ":" ++ resetRequestId ++ js ":" ++ print_int targetEpoch).
Definition rotate (row : ReplicaRow) (targetEpoch : Z) (digest resetRequestId : jstr) : ReplicaRow :=
  mkReplica (rp_user row) digest targetEpoch None None (rp_disabled_at row) (Some (rp_credential_digest row))
    (Some resetRequestId) (rp_last_reset row).
Definition reset (userId : jstr) (binding : ReplicaBinding) (credential resetRequestId : jstr) (d : Db) : Answer * Db :=
  let invalid := (error_answer 403 "invalid_replica", d) in
  match db_replicas d !! replicaId binding with
  | None => invalid
  | Some row =>
      let candidateDigest := sha256 credential in
      if negb (str_eqb (rp_user row) userId) || bool_decide (is_Some (rp_disabled_at row)) then invalid
      else
        let targetEpoch := replicaEpoch binding + 1 in
        let nextCredential := rotatedCredential (replicaId binding) resetRequestId targetEpoch in
        let session := mkAnswer 200 (session_body (replicaId binding) targetEpoch nextCredential) in
        if (rp_epoch row =? targetEpoch) && bool_decide (rp_staged_reset row = Some resetRequestId)
           && match rp_previous_digest row with
              | Some previous => str_truthy previous && credentialMatches previous candidateDigest
              | None => false end
           && credentialMatches (rp_credential_digest row) (sha256 nextCredential)
        then (session, d)
        else if negb (rp_epoch row =? replicaEpoch binding)
                || negb (credentialMatches (rp_credential_digest row) candidateDigest) then invalid
        else if negb (replicaIsStale d row) then (error_answer 409 "replica_not_stale", d)
        else (session,
              let d := set_replica (replicaId binding) (rotate row targetEpoch (sha256 nextCredential) resetRequestId) d in
              set_windows d (delete (replicaId binding) (db_windows d)))
  end.

Definition finish_reset (row : ReplicaRow) (resetRequestId : jstr) : ReplicaRow :=
  mkReplica (rp_user row) (rp_credential_digest row) (rp_epoch row) (rp_last_ack row) (rp_ack_sequence row)
    (rp_disabled_at row) None None (Some resetRequestId).
Definition reset_ack (userId : jstr) (binding : ReplicaBinding) (credential resetRequestId : jstr) (d : Db) : Answer * Db :=
  let acknowledged := mkAnswer 200 (ValueBody [(js "acknowledged", VBool true)]) in
  match lockReplica userId binding credential d with
  | None => (error_answer 403 "invalid_replica", d)
  | Some row =>
      if bool_decide (rp_last_reset row = Some resetRequestId) && bool_decide (rp_previous_digest row = None)
      then (acknowledged, d)
      else if negb (bool_decide (rp_staged_reset row = Some resetRequestId)) || bool_decide (rp_previous_digest row = None)
      then (error_answer 403 "invalid_replica", d)
      else (acknowledged, set_replica (replicaId binding) (finish_reset row resetRequestId) d)
  end.

Definition classify (userId : jstr) (binding : ReplicaBinding) (credential : jstr) (resourceId incarnation : jsval) (d : Db)
    : queried Answer :=
  match lockReplica userId binding credential d, resourceId, incarnation with
  | Some _, VStr r, VStr i =>
      match pg_uuid r, pg_uuid i with
      | Some r, Some i =>
          Ok (mkAnswer 200 (ValueBody [(js "preserve", VBool (
            match db_resources d !! r with
            | Some row => str_eqb (res_incarnation row) i && existsb (active_grant userId r) (db_grants d)
            | None => false end))]))
      | _, _ => Throw TypeError
      end
  | _, _, _ => Ok (error_answer 403 "invalid_replica")
  end.

(** ** Requests *)

Record Request := mkRequest {
  rq_method : jstr; rq_path : jstr;
  rq_user : option jstr;            (** the subject of a valid token *)
  rq_credential : option jstr;      (** header x-ps8-replica-credential *)
  rq_fault : option jstr;           (** header x-ps8-fault *)
  rq_test : bool;                   (** the fault secret is right *)
  rq_json : thrown jsval;           (** the body, or why it cannot be read *)
}.
Inductive Reply := Respond (a : Answer) | DropConnection.
Record ServerState := mkServer {
  srv_db : Db; srv_attempts : list (jstr * Z); srv_dropped : list jstr; srv_dropped_resets : list jstr;
  srv_concurrent : Z }.
Definition with_db (s : ServerState) d := mkServer d (srv_attempts s) (srv_dropped s) (srv_dropped_resets s) (srv_concurrent s).
Definition has_fault (rq : Request) (fault : string) : bool :=
  match rq_fault rq with Some f => str_eqb f fault | None => false end && rq_test rq.

(** A handler that throws answers 400 and changes nothing. *)
Definition lifecycle_answer (r : queried (Answer * Db)) (s : ServerState) : Reply * ServerState :=
  match r with
  | Ok (a, d) => (Respond a, with_db s d)
  | Throw _ => (Respond (error_answer 400 "invalid_replica_request"), s)
  end.

Definition lifecycle_keys (pathname : jstr) : list jstr :=
  js <$> (if str_eqb pathname "/spike/replicas/challenge" then ["replicaId"; "replicaEpoch"]
          else if str_eqb pathname "/spike/replicas/ack" then ["replicaId"; "replicaEpoch"; "challengeId"]
          else if str_eqb pathname "/spike/replicas/reset" then ["replicaId"; "replicaEpoch"; "resetRequestId"]
          else if str_eqb pathname "/spike/replicas/reset/ack" then ["replicaId"; "replicaEpoch"; "resetRequestId"]
          else if str_eqb pathname "/spike/replicas/classify"
          then ["replicaId"; "replicaEpoch"; "resourceId"; "resourceIncarnationId"] else [])%string.

(** [uuid] and [secret] are the random values the request would draw. *)
Definition lifecycleRequest (uuid secret userId : jstr) (rq : Request) (s : ServerState) : option (Reply * ServerState) :=
  let path := rq_path rq in
  let d := srv_db s in
  let answer a := Some (Respond a, s) in
  let bad := answer (error_answer 400 "invalid_replica_request") in
  if negb (startsWith path "/spike/replicas") then None
  else if negb (str_eqb (rq_method rq) "POST") then answer (error_answer 405 "method_not_allowed")
  else if str_eqb path "/spike/replicas/register" then
    match rq_json rq with
    | Ok v => match strictObject v [] with
              | Ok _ => Some (lifecycle_answer (register userId uuid secret d) s)
              | Throw _ => bad end
    | Throw _ => bad
    end
  else match credentialFrom (rq_credential rq) with
  | None => answer (error_answer 403 "invalid_replica")
  | Some credential =>
      if Nat.eqb (length (lifecycle_keys path)) 0 then answer (error_answer 404 "not_found")
      else match (v ← rq_json rq; fs ← strictObject v (lifecycle_keys path); b ← parseBinding fs; mret (fs, b)) : thrown _ with
      | Throw _ => bad
      | Ok (fs, binding) =>
              if str_eqb path "/spike/replicas/challenge" then
                Some (lifecycle_answer (challenge userId binding credential uuid d) s)
              else if str_eqb path "/spike/replicas/ack" then
                Some (lifecycle_answer (ack userId binding credential (get fs "challengeId") d) s)
              else if str_eqb path "/spike/replicas/reset" then
                match get fs "resetRequestId" with
                | VStr id =>
                    if commandUuid id then
                      let '(a, d') := reset userId binding credential id d in
                      if (status a =? 200) && has_fault rq "reset-post-commit-drop" && negb (in_list (srv_dropped_resets s) id)
                      then Some (DropConnection, mkServer d' (srv_attempts s) (srv_dropped s)
                                   (addBoundedTestKey (srv_dropped_resets s) id) (srv_concurrent s))
                      else Some (Respond a, with_db s d')
                    else answer (error_answer 403 "invalid_replica")
                | _ => answer (error_answer 403 "invalid_replica")
                end
              else if str_eqb path "/spike/replicas/reset/ack" then
                match get fs "resetRequestId" with
                | VStr id =>
                    if commandUuid id then
                      let '(a, d') := reset_ack userId binding credential id d in Some (Respond a, with_db s d')
                    else answer (error_answer 403 "invalid_replica")
                | _ => answer (error_answer 403 "invalid_replica")
                end
              else Some (lifecycle_answer (a ← classify userId binding credential (get fs "resourceId")
                                                 (get fs "resourceIncarnationId") d; mret (a, d)) s)
      end
  end.

Definition attempt_key (userId : jstr) (e : SpikeCommandEnvelope) : jstr :=
  userId ++ js ":" ++ replicaId (envelope_binding e) ++ js ":" ++ print_int (replicaEpoch (envelope_binding e))
  ++ js ":" ++ match commands e with c :: _ => commandId c | [] => [] end.

(** Lines 583-634, in a slot; [others] is what runs between authorisation and
    the rest when the request waits at the barrier. *)
Definition commandInSlot (others : Db -> Db) (userId credential : jstr) (rq : Request) (e : SpikeCommandEnvelope) (s : ServerState)
    : Reply * ServerState :=
  let binding := envelope_binding e in
  let '(rate, d) := if has_fault rq "pre-commit-hold" then (rate_accepted, srv_db s)
                    else consumeCommandRateWindow userId binding credential (srv_db s) in
  let s := with_db s d in
  match rate with
  | rate_invalid => (Respond (error_answer 403 "invalid_replica"), s)
  | rate_stale => (Respond (error_answer 428 "replica_reset_required"), s)
  | rate_limited => (Respond (error_answer 429 "command_rate_limited"), s)
  | rate_accepted =>
      let key := attempt_key userId e in
      let '(attemptNumber, attempts) := recordTestAttempt key (srv_attempts s) in
      let s := mkServer (srv_db s) attempts (srv_dropped s) (srv_dropped_resets s) (srv_concurrent s) in
      if has_fault rq "pre-commit-500" then (Respond (error_answer 500 "injected_pre_commit_failure"), s)
      else if has_fault rq "pre-commit-hold" then (Respond (error_answer 409 "injected_pre_commit_hold"), s)
      else
        let meanwhile := if has_fault rq "authorization-barrier" then others else fun d => d in
        match executeCommands userId binding credential (commands e) attemptNumber meanwhile (srv_db s) with
        | (Throw _, d) => (Respond (error_answer 500 "internal_error"), with_db s d)
        | (Ok a, d) =>
            if (status a =? 200) && (has_fault rq "post-commit-drop" || has_fault rq "post-commit-drop-barrier")
               && negb (in_list (srv_dropped s) key)
            then (DropConnection, mkServer d (srv_attempts s) (addBoundedTestKey (srv_dropped s) key)
                                    (srv_dropped_resets s) (srv_concurrent s))
            else (Respond a, with_db s d)
        end
  end.

(** The request handler, but for the health check and the endpoints that only
    serve the test of faults. *)
Definition handleRequest (uuid secret : jstr) (others : Db -> Db) (rq : Request) (s : ServerState) : Reply * ServerState :=
  let answer a := (Respond a, s) in
  if negb (startsWith (rq_path rq) "/spike/") then answer (error_answer 404 "not_found")
  else match rq_user rq with
  | None => answer (error_answer 401 "invalid_token")
  | Some userId =>
      match lifecycleRequest uuid secret userId rq s with
      | Some r => r
      | None =>
          if negb (str_eqb (rq_method rq) "POST" && str_eqb (rq_path rq) "/spike/commands")
          then answer (error_answer 404 "not_found")
          else match credentialFrom (rq_credential rq) with
          | None => answer (error_answer 403 "invalid_replica")
          | Some credential =>
              match (v ← rq_json rq; parseCommandEnvelope v) : thrown _ with
              | Throw message => answer (mkAnswer 400 (ValueBody [(js "error", VStr "invalid_command"); (js "message", VStr message)]))
              | Ok e =>
                  match acquireCommandSlot (srv_concurrent s) with
                  | None => answer (error_answer 503 "command_concurrency_backpressure")
                  | Some n =>
                      let s1 := mkServer (srv_db s) (srv_attempts s) (srv_dropped s) (srv_dropped_resets s) n in
                      let '(reply, s2) := commandInSlot others userId credential rq e s1 in
                      (reply, mkServer (srv_db s2) (srv_attempts s2) (srv_dropped s2) (srv_dropped_resets s2)
                                (snd (releaseCommandSlot false (srv_concurrent s2))))
                  end
              end
          end
      end
  end.
End Server.
