(* ===== verification/CommandServerSpec.v ===== *)
(** What the command server guarantees: commands take effect exactly once,
    a replayed command changes nothing, a command is applied only to the
    version and incarnation it names and only under an active grant, the rate
    window bounds what is accepted, and rotating a credential can be repeated
    but never undone. *)
From S2P Require Export CommandServer.

(** ** The ledger of receipts and change events *)

Definition event_key (e : EventRow) : jstr * jstr := (ev_user e, ev_command e).
Definition state_of_code (c : ResultCode) : ResultState :=
  match c with
  | code_applied | code_already_applied => state_applied
  | code_optimistic_conflict | code_stale_incarnation => state_conflict
  | code_command_denied => state_denied
  end.
Record receipt_ok (r : ReceiptRow) : Prop := {
  ro_stored : rc_code r <> code_already_applied;
  ro_state : rc_state r = state_of_code (rc_code r);
  ro_applied : rc_code r = code_applied -> rc_current r = rc_previous r + 1;
}.

(** Every change event has its applied receipt and every applied receipt its
    one change event. *)
Record consistent (d : Db) : Prop := {
  cs_once : NoDup (event_key <$> db_events d);
  cs_event : forall e, e ∈ db_events d -> exists r, db_receipts d !! event_key e = Some r /\
    rc_code r = code_applied /\ rc_resource r = ev_resource e /\ rc_current r = ev_version e;
  cs_receipt : forall k r, db_receipts d !! k = Some r -> rc_code r = code_applied ->
    exists e, e ∈ db_events d /\ event_key e = k;
  cs_ok : forall k r, db_receipts d !! k = Some r -> receipt_ok r;
}.

Lemma consistent_empty d : db_receipts d = ∅ -> db_events d = [] -> consistent d.
Proof.
  intros Hr He. split; rewrite ?Hr, ?He; [constructor|by intros ? ?%elem_of_nil|..]; intros k r Hk; by rewrite lookup_empty in Hk.
Qed.

(** Receipts and events are only ever added. *)
Definition extends (d d' : Db) : Prop :=
  db_receipts d ⊆ db_receipts d' /\ db_events d `prefix_of` db_events d'.
#[export] Instance extends_preorder : PreOrder extends.
Proof.
  split; [intros d; split; done|]. intros d1 d2 d3 [H1 H2] [H3 H4]. split; [by etrans|by etrans].
Qed.
Definition keeps (d d' : Db) : Prop := extends d d' /\ (consistent d -> consistent d').
#[export] Instance keeps_preorder : PreOrder keeps.
Proof.
  split; [intros d; split; [reflexivity|done]|]. intros d1 d2 d3 [H1 H2] [H3 H4]. split; [by etrans|auto].
Qed.

Lemma keeps_same d d' :
  db_receipts d' = db_receipts d -> db_events d' = db_events d -> keeps d d'.
Proof.
  intros Hr He. unfold keeps, extends. rewrite Hr, He. split; [done|].
  intros [H1 H2 H3 H4]. split; rewrite ?Hr, ?He; done.
Qed.

Section Ledger.
Context {printer : NumPrinter} (sha256 hmac : jstr -> jstr) (pg_uuid : jstr -> option jstr).
#[local] Abbreviation executeCommands := (CommandServer.executeCommands sha256).

Lemma insert_receipt_ok u c r d d' :
  insert_receipt u c r d = Ok d' ->
  db_receipts d !! (u, commandId c) = None /\ d' = set_receipts d (<[(u, commandId c) := r]> (db_receipts d)).
Proof. unfold insert_receipt. destruct (db_receipts d !! _); [done|]. by intros [= <-]. Qed.

Lemma keeps_receipt d k r :
  db_receipts d !! k = None -> rc_code r <> code_applied -> receipt_ok r ->
  keeps d (set_receipts d (<[k := r]> (db_receipts d))).
Proof.
  intros Hk Hc Hr. split.
  - split; cbn; [by apply insert_subseteq|done].
  - intros [H1 H2 H3 H4]. split; cbn; [done|..].
    + intros e He. destruct (H2 e He) as (r' & Hr' & ?). exists r'.
      rewrite lookup_insert_ne by congruence. done.
    + intros k' r' [[<- <-]|[_ Hk']]%lookup_insert_Some Hc'; [done|by eapply H3].
    + intros k' r' [[<- <-]|[_ Hk']]%lookup_insert_Some; [done|by eapply H4].
Qed.

(** An event and its receipt, together. *)
Lemma keeps_applied d e r :
  db_receipts d !! event_key e = None -> rc_code r = code_applied -> receipt_ok r ->
  rc_resource r = ev_resource e -> rc_current r = ev_version e ->
  keeps d (set_receipts (set_events d (db_events d ++ [e])) (<[event_key e := r]> (db_receipts d))).
Proof.
  intros Hk Hc Hr Hres Hcur. split.
  - split; cbn; [by apply insert_subseteq|by apply prefix_app_r].
  - intros [H1 H2 H3 H4]. split; cbn.
    + rewrite fmap_app. cbn. apply NoDup_app. split_and!; [done| |apply NoDup_singleton].
      intros k (e' & -> & He')%list_elem_of_fmap Hin. apply list_elem_of_singleton in Hin.
      destruct (H2 e' He') as (r' & Hr' & _). congruence.
    + intros e' [He'|He']%elem_of_app.
      * destruct (H2 e' He') as (r' & Hr' & ?). exists r'. rewrite lookup_insert_ne by congruence. done.
      * apply list_elem_of_singleton in He' as ->. exists r. by rewrite lookup_insert_eq.
    + intros k r' [[<- <-]|[_ Hk']]%lookup_insert_Some Hc'.
      * exists e. split; [|done]. apply elem_of_app. right. by apply list_elem_of_singleton.
      * destruct (H3 k r' Hk' Hc') as (e' & He' & ?). exists e'. split; [|done]. apply elem_of_app. by left.
    + intros k r' [[<- <-]|[_ Hk']]%lookup_insert_Some; [done|by eapply H4].
Qed.

Lemma update_resource_keeps c v d d' :
  update_resource c v d = Ok d' -> db_receipts d' = db_receipts d /\ db_events d' = db_events d.
Proof.
  unfold update_resource. intros H.
  destruct (db_resources d !! resourceId c) as [row|]; [|by injection H as <-].
  destruct (type c); [by injection H as <-|]. cbv zeta in H.
  destruct (res_deleted_at row) as [old|].
  - destruct (old =? db_now d); [by injection H as <-|done].
  - case_bool_decide; [done|by injection H as <-].
Qed.

Lemma record_conflicts_keeps u b code n cs d l d' :
  code = code_stale_incarnation \/ code = code_optimistic_conflict ->
  record_conflicts sha256 u b code n cs d = Ok (l, d') -> keeps d d'.
Proof.
  intros Hcode. revert d l. induction cs as [|c cs IH]; intros d l; cbn [record_conflicts].
  - intros [= <- <-]. reflexivity.
  - destruct (db_resources d !! resourceId c) as [row|]; [|done]. cbv zeta.
    intros (d1 & [Hn ->]%insert_receipt_ok & H)%bind_Ok. apply bind_Ok in H as ([l1 d2] & H1 & [= <- <-]).
    apply IH in H1. etrans; [|exact H1]. apply keeps_receipt; [done|..].
    + cbn. by destruct Hcode as [-> | ->].
    + split; cbn; by destruct Hcode as [-> | ->].
Qed.

Lemma apply_commands_keeps u b n i cs d l d' :
  apply_commands sha256 u b n i cs d = Ok (l, d') -> keeps d d'.
Proof.
  revert d l i. induction cs as [|c cs IH]; intros d l i; cbn [apply_commands].
  - intros [= <- <-]. reflexivity.
  - cbv zeta. intros (d1 & [Hr He]%update_resource_keeps & H)%bind_Ok.
    apply bind_Ok in H as (d2 & Hev & H). unfold insert_event in Hev.
    destruct (existsb _ (db_events d1)) in Hev; [done|]. injection Hev as <-.
    apply bind_Ok in H as (d3 & [Hn ->]%insert_receipt_ok & H).
    apply bind_Ok in H as ([l1 d4] & H1 & [= <- <-]). apply IH in H1.
    etrans; [apply (keeps_same d d1); done|]. etrans; [|exact H1].
    match goal with |- keeps d1 (set_receipts (set_events d1 (_ ++ [?e])) (<[_ := ?r]> _)) =>
      apply (keeps_applied d1 e r); [exact Hn|done|by split|done|done] end.
Qed.

Lemma perform_keeps u b cs n d a d' : perform sha256 u b cs n d = Ok (a, d') -> keeps d d'.
Proof.
  unfold perform. cbv zeta. intros H.
  destruct (negb _) in H; [injection H as <- <-; reflexivity|].
  destruct (negb _) in H.
  { destruct (negb _) in H; [injection H as <- <-; reflexivity|].
    destruct (existsb _ cs) in H; injection H as <- <-; reflexivity. }
  apply bind_Ok in H as ([l d1] & H & [= <- <-]).
  destruct (_ || _) in H; [|by apply apply_commands_keeps in H].
  eapply record_conflicts_keeps; [|exact H]. case_match; auto.
Qed.

Lemma deny_keeps u b c n d : keeps d (snd (deny sha256 u b c n d)).
Proof.
  unfold deny. cbv zeta. destruct (db_receipts d !! (u, commandId c)) as [r|] eqn:E.
  - case_match; reflexivity.
  - cbn. by apply keeps_receipt.
Qed.

Lemma executeCommands_keeps u b cr cs n others d a d' :
  keeps d (others d) -> executeCommands u b cr cs n others d = (a, d') -> keeps d d'.
Proof.
  intros Ho. unfold CommandServer.executeCommands.
  destruct (lockReplica _ u b cr d) as [row|]; [|by intros [= _ <-]].
  destruct (replicaIsStale d row); [by intros [= _ <-]|]. destruct (negb _).
  - destruct cs as [|c cs]; [by intros [= _ <-]|].
    pose proof (deny_keeps u b c n d) as Hd. destruct (deny _ u b c n d) as [x d1]. by intros [= _ <-].
  - cbv zeta. destruct (perform _ u b cs n (others d)) as [[x d1]|e] eqn:E; intros [= _ <-]; [|done].
    etrans; [exact Ho|]. by eapply perform_keeps.
Qed.

(** Whatever happens to the tables: requests of the server, one inside
    another at the barrier, and changes that are not the server's (time,
    grants, retention, resources), which leave the ledger alone. *)
Inductive history : Db -> Db -> Prop :=
| history_refl d : history d d
| history_trans d1 d2 d3 : history d1 d2 -> history d2 d3 -> history d1 d3
| history_execute u b cr cs n others d a d' :
    history d (others d) -> executeCommands u b cr cs n others d = (a, d') -> history d d'
| history_rate u b cr d : history d (snd (consumeCommandRateWindow sha256 u b cr d))
| history_register u id cr d a d' : register sha256 u id cr d = Ok (a, d') -> history d d'
| history_challenge u b cr id d a d' : challenge sha256 u b cr id d = Ok (a, d') -> history d d'
| history_ack u b cr v d a d' : ack sha256 pg_uuid u b cr v d = Ok (a, d') -> history d d'
| history_reset u b cr id d : history d (snd (reset sha256 hmac u b cr id d))
| history_reset_ack u b cr id d : history d (snd (reset_ack sha256 u b cr id d))
| history_other d d' : db_receipts d' = db_receipts d -> db_events d' = db_events d -> history d d'.

Lemma consume_same u b cr d :
  let d' := snd (consumeCommandRateWindow sha256 u b cr d) in
  db_receipts d' = db_receipts d /\ db_events d' = db_events d.
Proof. unfold consumeCommandRateWindow. by repeat case_match. Qed.

Lemma lifecycle_same u b cr id v d a d' :
  register sha256 u id cr d = Ok (a, d') \/ challenge sha256 u b cr id d = Ok (a, d') \/
  ack sha256 pg_uuid u b cr v d = Ok (a, d') ->
  db_receipts d' = db_receipts d /\ db_events d' = db_events d.
Proof.
  intros [H|[H|H]]; [unfold register in H|unfold challenge in H|unfold ack in H]; cbv zeta in H;
    repeat case_match; simplify_eq; done.
Qed.
Lemma reset_same u b cr id d :
  let d' := snd (reset sha256 hmac u b cr id d) in db_receipts d' = db_receipts d /\ db_events d' = db_events d.
Proof. unfold reset. cbv zeta. by repeat case_match. Qed.
Lemma reset_ack_same u b cr id d :
  let d' := snd (reset_ack sha256 u b cr id d) in db_receipts d' = db_receipts d /\ db_events d' = db_events d.
Proof. unfold reset_ack. cbv zeta. by repeat case_match. Qed.

Lemma history_keeps d d' : history d d' -> keeps d d'.
Proof.
  induction 1 as [d|d1 d2 d3 _ IH1 _ IH2|u b cr cs n others d a d' _ IH E|u b cr d|u id cr d a d' E|u b cr id d a d' E
    |u b cr v d a d' E|u b cr id d|u b cr id d|d d' Hr He].
  - reflexivity.
  - by etrans.
  - by eapply executeCommands_keeps.
  - apply keeps_same; apply consume_same.
  - apply keeps_same; apply (lifecycle_same u (mkBinding [] 0) cr id VNull d a d'); auto.
  - apply keeps_same; apply (lifecycle_same u b cr id VNull d a d'); auto.
  - apply keeps_same; apply (lifecycle_same u b cr [] v d a d'); auto.
  - apply keeps_same; apply reset_same.
  - apply keeps_same; apply reset_ack_same.
  - by apply keeps_same.
Qed.
End Ledger.

(** ** One command *)

Section OneCommand.
Context {printer : NumPrinter} (sha256 : jstr -> jstr).
#[local] Abbreviation executeCommands := (CommandServer.executeCommands sha256).

(** The credential is the replica's, in its epoch, and it need not reset. *)
Definition admitted (u : jstr) (b : ReplicaBinding) (cr : jstr) (d : Db) : Prop :=
  exists row, lockReplica sha256 u b cr d = Some row /\ replicaIsStale d row = false.
Definition granted (u : jstr) (c : SpikeCommand) (d : Db) : Prop :=
  existsb (active_grant u (resourceId c)) (db_grants d) = true.

Lemma hasActiveGrant_one u c d : hasActiveGrant u (resourceId <$> [c]) d = true <-> granted u c d.
Proof.
  unfold hasActiveGrant, granted. cbn. by destruct (existsb _ (db_grants d)).
Qed.

Lemma remove_dups_one (x : jstr) : remove_dups [x] = [x].
Proof. cbn. case_decide as Hx; [by apply elem_of_nil in Hx|done]. Qed.

(** How a request with one command ends. *)
Inductive executed (u : jstr) (b : ReplicaBinding) (cr : jstr) (c : SpikeCommand) (n : Z) (d1 d : Db)
    : queried Answer -> Db -> Prop :=
| ex_invalid : lockReplica sha256 u b cr d = None -> executed u b cr c n d1 d (Ok (error_answer 403 "invalid_replica")) d
| ex_stale : executed u b cr c n d1 d (Ok (error_answer 428 "replica_reset_required")) d
| ex_denied a d' :
    admitted u b cr d -> ~ granted u c d -> deny sha256 u b c n d = (a, d') -> executed u b cr c n d1 d (Ok a) d'
| ex_gone : admitted u b cr d -> granted u c d -> db_resources d1 !! resourceId c = None ->
    executed u b cr c n d1 d (Ok (error_answer 403 "command_denied")) d1
| ex_mismatch r : db_receipts d1 !! (u, commandId c) = Some r -> receipt_matches sha256 b c r = false ->
    executed u b cr c n d1 d (Ok (error_answer 409 "idempotency_conflict")) d1
| ex_replayed row r : admitted u b cr d -> granted u c d -> db_resources d1 !! resourceId c = Some row ->
    db_receipts d1 !! (u, commandId c) = Some r -> receipt_matches sha256 b c r = true ->
    executed u b cr c n d1 d (Ok (mkAnswer 200 (ResultsBody [resultFromReceipt (commandId c) r n true]))) d1
| ex_conflict row l d' code : admitted u b cr d -> granted u c d -> db_resources d1 !! resourceId c = Some row ->
    db_receipts d1 !! (u, commandId c) = None -> code <> code_applied ->
    record_conflicts sha256 u b code n [c] d1 = Ok (l, d') ->
    executed u b cr c n d1 d (Ok (mkAnswer 200 (ResultsBody l))) d'
| ex_applied row l d' : admitted u b cr d -> granted u c d -> db_resources d1 !! resourceId c = Some row ->
    db_receipts d1 !! (u, commandId c) = None -> res_incarnation row = resourceIncarnationId c ->
    res_version row = expectedRecordVersion c -> res_deleted_at row = None ->
    apply_commands sha256 u b n 0 [c] d1 = Ok (l, d') ->
    executed u b cr c n d1 d (Ok (mkAnswer 200 (ResultsBody l))) d'
| ex_error e : executed u b cr c n d1 d (Throw e) d1.

Lemma execute_one u b cr c n others d a d' :
  executeCommands u b cr [c] n others d = (a, d') -> executed u b cr c n (others d) d a d'.
Proof.
  unfold CommandServer.executeCommands. destruct (lockReplica sha256 u b cr d) as [row|] eqn:El; [|intros [= <- <-]; by apply ex_invalid].
  destruct (replicaIsStale d row) eqn:Es; [intros [= <- <-]; apply ex_stale|].
  assert (admitted u b cr d) as Hadm by by exists row.
  pose proof (hasActiveGrant_one u c d) as Hg. destruct (hasActiveGrant _ _ d); cbn [negb].
  2: { destruct (deny sha256 u b c n d) as [x d1] eqn:Ed. intros [= <- <-].
       apply ex_denied; [done| |done]. intros Hx%Hg. done. }
  assert (granted u c d) as Hgr by by apply Hg. clear Hg. cbv zeta. set (d1 := others d).
  unfold perform. cbn [fmap list_fmap List.filter]. cbv zeta. rewrite remove_dups_one.
  destruct (db_resources d1 !! resourceId c) as [res|] eqn:Er; cbn [is_Some bool_decide decide];
    [rewrite bool_decide_eq_true_2 by eauto|rewrite bool_decide_eq_false_2 by (by intros [? ?])];
    rewrite ?remove_dups_one; [|intros [= <- <-]; by apply ex_gone].
  destruct (db_receipts d1 !! (u, commandId c)) as [r|] eqn:Ec;
    cbn -[record_conflicts apply_commands]; rewrite ?Ec, ?Er.
  - destruct (receipt_matches sha256 b c r) eqn:Em; cbn; rewrite ?Ec; intros [= <- <-]; [by eapply ex_replayed|by eapply ex_mismatch].
  - unfold resource_of. rewrite Er. rewrite !orb_false_r.
    destruct (str_eqb (res_incarnation res) (resourceIncarnationId c)) eqn:Ei; cbn [negb orb andb].
    + destruct (bool_decide (is_Some (res_deleted_at res)) || negb (res_version res =? expectedRecordVersion c)) eqn:Ev.
      * destruct (record_conflicts sha256 u b code_optimistic_conflict n [c] d1) as [[l d2]|e] eqn:Ex;
          cbn -[record_conflicts apply_commands]; rewrite ?Ex; intros [= <- <-]; [by apply (ex_conflict u b cr c n d1 d res l d2 code_optimistic_conflict)|apply ex_error].
      * apply orb_false_iff in Ev as [Hdel%bool_decide_eq_false Hv%negb_false_iff].
        destruct (apply_commands sha256 u b n 0 [c] d1) as [[l d2]|e] eqn:Ex;
          cbn -[record_conflicts apply_commands]; rewrite ?Ex; intros [= <- <-]; [|apply ex_error].
        apply str_eqb_eq in Ei. eapply ex_applied; try done; [lia|].
        destruct (res_deleted_at res); [destruct Hdel; by eexists|done].
    + destruct (record_conflicts sha256 u b code_stale_incarnation n [c] d1) as [[l d2]|e] eqn:Ex;
        cbn -[record_conflicts apply_commands]; rewrite ?Ex; intros [= <- <-]; [by apply (ex_conflict u b cr c n d1 d res l d2 code_stale_incarnation)|apply ex_error].
Qed.

(** ** The rate window *)

Definition at_time (d : Db) (t : Z) : Db := mkDb t (db_floor d) (db_next d) (db_resources d) (db_graveyard d)
  (db_grants d) (db_receipts d) (db_events d) (db_replicas d) (db_challenges d) (db_windows d).
(** How many of the requests at the given times are accepted. *)
Fixpoint accepted (u : jstr) (b : ReplicaBinding) (cr : jstr) (times : list Z) (d : Db) : Z :=
  match times with
  | [] => 0
  | t :: times =>
      let '(outcome, d) := consumeCommandRateWindow sha256 u b cr (at_time d t) in
      (match outcome with rate_accepted => 1 | _ => 0 end) + accepted u b cr times d
  end.

Lemma accepted_bound u b cr times d w :
  db_windows d !! replicaId b = Some w -> w_epoch w = replicaEpoch b -> w_count w <= maxCommandRequestsPerMinute ->
  Forall (fun t => t < w_started w + MINUTE) times ->
  accepted u b cr times d + w_count w <= maxCommandRequestsPerMinute.
Proof.
  revert d w. induction times as [|t times IH]; intros d w Hw He Hc Ht; cbn [accepted]; [lia|].
  apply Forall_cons in Ht as [Ht Hts]. unfold consumeCommandRateWindow.
  destruct (lockReplica sha256 u b cr (at_time d t)) as [row|]; [|specialize (IH (at_time d t) w Hw He Hc Hts); lia].
  destruct (replicaIsStale (at_time d t) row); [specialize (IH (at_time d t) w Hw He Hc Hts); lia|].
  change (db_windows (at_time d t)) with (db_windows d). rewrite Hw, He, Z.eqb_refl. cbn [negb orb].
  change (db_now (at_time d t)) with t. replace (w_started w + MINUTE <=? t) with false by lia.
  destruct (w_count w <? maxCommandRequestsPerMinute) eqn:E.
  - match goal with |- 1 + accepted u b cr times (set_windows ?x (<[_ := ?w']> ?m)) + _ <= _ =>
      specialize (IH (set_windows x (<[replicaId b := w']> m)) w') end.
    cbn [w_count w_epoch w_started] in IH. cbn in IH. rewrite lookup_insert_eq in IH.
    specialize (IH eq_refl eq_refl ltac:(lia) Hts). lia.
  - specialize (IH (at_time d t) w Hw He Hc Hts). lia.
Qed.
End OneCommand.

(** ** Properties *)

Section Properties.
Context {printer : NumPrinter} (sha256 hmac : jstr -> jstr) (pg_uuid : jstr -> option jstr).
#[local] Abbreviation executeCommands := (CommandServer.executeCommands sha256).

(** C3: commands take effect exactly once.  Over any history of requests,
    interleaved at the barrier and with foreign changes in between, a user's
    command has at most one change event, which has its applied receipt and
    the version it recorded; every applied receipt has its event; and receipts
    and events, once written, stay as they are. *)
Theorem ledger_exactly_once d0 d d' :
  db_receipts d0 = ∅ -> db_events d0 = [] ->
  history sha256 hmac pg_uuid d0 d -> history sha256 hmac pg_uuid d d' ->
  NoDup (event_key <$> db_events d') /\
  (forall e, e ∈ db_events d' -> exists r, db_receipts d' !! event_key e = Some r /\
     rc_code r = code_applied /\ rc_resource r = ev_resource e /\ rc_current r = ev_version e) /\
  (forall k r, db_receipts d' !! k = Some r -> rc_code r = code_applied -> exists e, e ∈ db_events d' /\ event_key e = k) /\
  db_receipts d ⊆ db_receipts d' /\ db_events d `prefix_of` db_events d'.
Proof.
  intros Hr He [_ H0]%history_keeps [[Hsub Hpre] H1]%history_keeps.
  destruct (H1 (H0 (consistent_empty d0 Hr He))) as [Hn Hev Hrc _]. done.
Qed.

End Properties.

Section Commands.
Context {printer : NumPrinter} (sha256 : jstr -> jstr).
#[local] Abbreviation executeCommands := (CommandServer.executeCommands sha256).

(** C33: a command that has its receipt changes nothing when it is sent again
    by the same replica in the same epoch: the answer is the recorded outcome,
    an applied one reported as already applied, or a denial that names no
    applied outcome when the grant is gone. *)
Theorem replayed_command u b cr c n others d r row :
  admitted sha256 u b cr d -> db_receipts d !! (u, commandId c) = Some r -> receipt_matches sha256 b c r = true ->
  db_receipts d ⊆ db_receipts (others d) -> db_resources (others d) !! resourceId c = Some row ->
  executeCommands u b cr [c] n others d =
    if hasActiveGrant u [resourceId c] d
    then (Ok (mkAnswer 200 (ResultsBody [resultFromReceipt (commandId c) r n true])), others d)
    else (Ok (mkAnswer 403 (ResultsBody [deniedResultFromDurableReceipt (commandId c) r n])), d).
Proof.
  intros (lr & Hl & Hs) Hr Hm Hsub Hrow. unfold CommandServer.executeCommands. rewrite Hl, Hs.
  cbn [fmap list_fmap]. destruct (hasActiveGrant u [resourceId c] d); cbn [negb].
  - pose proof (lookup_weaken _ _ _ _ Hr Hsub) as Hr'. generalize dependent (others d). intros d1 Hsub Hrow Hr'.
    unfold perform. cbn [fmap list_fmap List.filter]. cbv zeta. rewrite remove_dups_one, Hrow.
    rewrite bool_decide_eq_true_2 by eauto. rewrite remove_dups_one.
    cbn -[record_conflicts apply_commands receipt_matches]. rewrite ?Hr'.
    cbn -[record_conflicts apply_commands receipt_matches]. rewrite ?Hr', ?Hm.
    cbn -[record_conflicts apply_commands receipt_matches]. by rewrite ?Hr'.
  - unfold deny. by rewrite Hr, Hm.
Qed.

(** C6: a command newly reported as applied came from an admitted replica with
    an active grant, found the incarnation and the version it names and no
    deletion, and changed that one resource: its version by one, its payload
    or its deletion time; it left its event and its receipt and nothing else. *)
Theorem applied_when_current u b cr c n others d d' res :
  executeCommands u b cr [c] n others d = (Ok (mkAnswer 200 (ResultsBody [res])), d') -> cr_code res = code_applied ->
  let d1 := others d in
  admitted sha256 u b cr d /\ granted u c d /\ db_receipts d1 !! (u, commandId c) = None /\
  exists row, db_resources d1 !! resourceId c = Some row /\ res_incarnation row = resourceIncarnationId c /\
    res_version row = expectedRecordVersion c /\ res_deleted_at row = None /\
    db_resources d' = <[resourceId c := match type c with
      | resource_update => mkResource (res_incarnation row) (res_version row + 1) (payload c) None
      | resource_soft_delete => mkResource (res_incarnation row) (res_version row + 1) (res_payload row) (Some (db_now d1))
      end]> (db_resources d1) /\
    db_events d' = db_events d1 ++ [mkEvent u (commandId c) (resourceId c) 0 (type c) (res_version row + 1)] /\
    exists r, receipt_matches sha256 b c r = true /\ db_receipts d' = <[(u, commandId c) := r]> (db_receipts d1).
Proof.
  intros E Hcode. cbv zeta. apply execute_one in E. generalize dependent (others d). intros d1 E.
  remember (Ok (mkAnswer 200 (ResultsBody [res]))) as x eqn:Ex.
  destruct E as [| |a d' _ _ Hd| | |row r _ _ _ _ _|row l d' code _ _ _ _ Hnc Hrc|row l d' Ha Hg Hrow Hn Hinc Hver Hdel Hap|];
    try done; injection Ex; intros; subst.
  - unfold deny in Hd. cbv zeta in Hd. destruct (db_receipts d !! _) as [r|]; [destruct (receipt_matches sha256 b c r)|]; done.
  - cbn in Hcode. case_bool_decide; [done|]. by destruct (rc_code r).
  - cbn in Hrc. destruct (db_resources d1 !! resourceId c); [|done].
    apply bind_Ok in Hrc as (d2 & _ & Hrc). cbn in Hrc. injection Hrc as <- <-. done.
  - cbn [apply_commands] in Hap. cbv zeta in Hap. apply bind_Ok in Hap as (d2 & Hu & Hap).
    apply bind_Ok in Hap as (d3 & Hev & Hap). apply bind_Ok in Hap as (d4 & [_ ->]%insert_receipt_ok & Hap).
    cbn in Hap. injection Hap as _ <-. unfold insert_event in Hev. destruct (existsb _ (db_events d2)) in Hev; [done|].
    injection Hev as <-. split_and!; [done..|]. exists row. split_and!; [done..| | |].
    + unfold update_resource in Hu. rewrite Hrow in Hu. cbv zeta in Hu. rewrite Hdel, <- Hver in Hu.
      destruct (type c); cbn in Hu |- *; [by injection Hu as <-|]. case_bool_decide; [done|by injection Hu as <-].
    + apply update_resource_keeps in Hu as [_ He]. cbn. by rewrite He, Hver.
    + apply update_resource_keeps in Hu as [He _]. cbn. rewrite He. eexists. split; [|done].
      unfold receipt_matches. cbn. by rewrite !str_eqb_refl, Z.eqb_refl.
Qed.

(** without an active grant a command changes no resource and no event,
    and what is answered is a refusal. *)
Theorem denied_without_grant u b cr c n others d a d' :
  ~ granted u c d -> executeCommands u b cr [c] n others d = (Ok a, d') ->
  db_resources d' = db_resources d /\ db_events d' = db_events d /\ db_receipts d ⊆ db_receipts d' /\
  (status a = 403 \/ status a = 409 \/ status a = 428) /\
  forall res l, body a = ResultsBody l -> res ∈ l -> cr_state res = state_denied.
Proof.
  intros Hg. unfold CommandServer.executeCommands. intros E.
  destruct (lockReplica sha256 u b cr d) as [row|]; [|injection E as <- <-; by split_and!; auto].
  destruct (replicaIsStale d row); [injection E as <- <-; by split_and!; auto|].
  pose proof (hasActiveGrant_one u c d) as Hone. destruct (hasActiveGrant _ _ d); [destruct Hg; by apply Hone|].
  cbn [negb] in E. unfold deny in E. cbv zeta in E.
  destruct (db_receipts d !! (u, commandId c)) as [r|] eqn:Er; [destruct (receipt_matches _ _ _ r)|];
    injection E as <- <-; cbn; split_and!; auto; try (intros ? ? [= <-] ->%list_elem_of_singleton; done).
  by apply insert_subseteq.
Qed.

(** C36: once a request has opened a window, at most 64 requests of that
    replica and epoch are accepted until the minute is over, however many are
    made and whenever. *)
Theorem rate_window_bound u b cr times d d1 :
  consumeCommandRateWindow sha256 u b cr d = (rate_accepted, d1) ->
  (forall w, db_windows d !! replicaId b = Some w -> w_epoch w <> replicaEpoch b \/ w_started w + MINUTE <= db_now d) ->
  Forall (fun t => t < db_now d + MINUTE) times ->
  1 + accepted sha256 u b cr times d1 <= 64.
Proof.
  unfold consumeCommandRateWindow. intros E Hw Ht.
  destruct (lockReplica sha256 u b cr d) as [row|]; [|done]. destruct (replicaIsStale d row); [done|]. cbv zeta in E.
  assert (d1 = set_windows d (<[replicaId b := mkWindow (replicaEpoch b) (db_now d) 1]> (db_windows d))) as ->.
  { destruct (db_windows d !! replicaId b) as [w|] eqn:Ew; [|by injection E as <-].
    assert (negb (w_epoch w =? replicaEpoch b) || (w_started w + MINUTE <=? db_now d) = true) as Hfresh
      by (destruct (Hw w eq_refl); lia).
    rewrite Hfresh in E. by injection E as <-. }
  match goal with |- context [set_windows d (<[_ := ?w]> _)] =>
    pose proof (accepted_bound sha256 u b cr times (set_windows d (<[replicaId b := w]> (db_windows d))) w) as Hb end.
  cbn in Hb. rewrite lookup_insert_eq in Hb. specialize (Hb eq_refl eq_refl ltac:(done) Ht). unfold maxCommandRequestsPerMinute in Hb. lia.
Qed.

End Commands.

Section Rotation.
Context (sha256 hmac : jstr -> jstr).

(** C32: a reset that hands out a new session can be repeated and hands out the
    same one; from then on the old credential is dead for every other request
    while the new one is locked in; and once the client has acknowledged it,
    the old credential cannot even repeat the reset. *)
Theorem reset_rotates u b cr id d d1 fs :
  (forall row, db_replicas d !! replicaId b = Some row -> str_truthy (rp_credential_digest row) = true) ->
  reset sha256 hmac u b cr id d = (mkAnswer 200 (ValueBody fs), d1) -> db_replicas d !! replicaId b <> db_replicas d1 !! replicaId b ->
  let b' := mkBinding (replicaId b) (replicaEpoch b + 1) in
  let cr' := rotatedCredential hmac (replicaId b) id (replicaEpoch b + 1) in
  ValueBody fs = session_body (replicaId b) (replicaEpoch b + 1) cr' /\
  reset sha256 hmac u b cr id d1 = (mkAnswer 200 (ValueBody fs), d1) /\
  lockReplica sha256 u b cr d1 = None /\ is_Some (lockReplica sha256 u b' cr' d1) /\
  exists d2, reset_ack sha256 u b' cr' id d1 = (mkAnswer 200 (ValueBody [(js "acknowledged", VBool true)]), d2) /\
    reset sha256 hmac u b cr id d2 = (error_answer 403 "invalid_replica", d2).
Proof.
  unfold reset at 1. cbv zeta. intros Hstored E Hne. destruct (db_replicas d !! replicaId b) as [row|] eqn:Erow; [|done].
  set (cr' := rotatedCredential hmac (replicaId b) id (replicaEpoch b + 1)) in *.
  destruct (negb (str_eqb (rp_user row) u) || bool_decide (is_Some (rp_disabled_at row))) eqn:Eu; [done|].
  destruct (_ && _ && _ && _) in E; [injection E as _ <-; by rewrite Erow in Hne|].
  destruct (negb (rp_epoch row =? replicaEpoch b) || negb (credentialMatches (rp_credential_digest row) (sha256 cr))) eqn:Ec; [done|].
  destruct (negb (replicaIsStale d row)); [done|]. injection E as <- <-. clear Hne.
  apply orb_false_iff in Eu as [Eu Edis]. apply orb_false_iff in Ec as [Eep Ecr].
  apply negb_false_iff in Eu, Ecr.
  assert (forall x, credentialMatches x x = true) as Hrefl by (intros; by apply bool_decide_eq_true).
  set (row' := rotate row (replicaEpoch b + 1) (sha256 cr') id).
  set (d1 := set_windows _ _). assert (db_replicas d1 !! replicaId b = Some row') as E1
    by (unfold d1; cbn; by rewrite lookup_insert_eq).
  assert (lockReplica sha256 u (mkBinding (replicaId b) (replicaEpoch b + 1)) cr' d1 = Some row') as Elock.
  { unfold lockReplica. cbn [replicaId replicaEpoch]. rewrite E1. cbn. by rewrite Eu, Edis, Z.eqb_refl, Hrefl. }
  split_and!.
  - done.
  - unfold reset. rewrite E1. cbv zeta. cbn [row' rotate rp_user rp_disabled_at rp_epoch rp_staged_reset rp_previous_digest rp_credential_digest].
    fold cr'. rewrite Eu, Edis, Z.eqb_refl, bool_decide_eq_true_2, Hrefl, Ecr, (Hstored row eq_refl) by done. done.
  - unfold lockReplica. rewrite E1. cbn [row' rotate rp_user rp_disabled_at rp_epoch].
    rewrite Eu, Edis. by replace (replicaEpoch b + 1 =? replicaEpoch b) with false by lia.
  - by rewrite Elock.
  - exists (set_replica (replicaId b) (finish_reset row' id) d1). split.
    + unfold reset_ack. rewrite Elock. cbn [row' rotate rp_last_reset rp_previous_digest rp_staged_reset].
      rewrite (bool_decide_eq_false_2 (Some _ = None)), (bool_decide_eq_true_2 (Some id = Some id)) by done.
      by rewrite andb_false_r.
    + unfold reset. cbn [set_replica db_replicas set_replicas]. rewrite lookup_insert_eq. cbv zeta.
      cbn [finish_reset row' rotate rp_user rp_disabled_at rp_epoch rp_staged_reset rp_previous_digest rp_credential_digest].
      rewrite Eu, Edis, bool_decide_eq_false_2 by done. cbn [negb orb]. rewrite !andb_false_r.
      by replace (replicaEpoch b + 1 =? replicaEpoch b) with false by lia.
Qed.
End Rotation.

(** ** Concrete runs *)

Module ServerSample.
Definition no_numbers : NumPrinter := fun _ => [].
Definition nibble (n : N) : N := (if n <? 10 then n + 48 else n + 87)%N.
(** A hash that tells short texts apart: their units in hexadecimal. *)
Definition toy_hash (s : jstr) : jstr := s ≫= fun u => [nibble ((u / 16) mod 16); nibble (u mod 16)]%N.
Definition toy_hmac (s : jstr) : jstr := s.
Definition read_uuid (s : jstr) : option jstr := Some s.

Definition user : jstr := "maria".
Definition binding : ReplicaBinding := mkBinding "aaaaaaaa-aaaa-4aaa-8aaa-aaaaaaaaaaa1" 3.
Definition secret : jstr := "a credential of more than thirty characters".
Definition id : jstr := "bbbbbbbb-bbbb-4bbb-8bbb-bbbbbbbbbbb2".
Definition resource : jstr := "55555555-5555-4555-8555-555555555501".
Definition incarnation : jstr := "75555555-5555-4555-8555-555555555501".
Definition update : SpikeCommand := mkCommand id resource_update resource incarnation 4 (Some (js "note")).

Definition replica (acknowledged : option Z) : ReplicaRow :=
  mkReplica user (toy_hash secret) 3 acknowledged (Some 7) None None None None.
Definition db (acknowledged : option Z) (active : bool) : Db :=
  mkDb 1000 1 9 {[resource := mkResource incarnation 4 (Some (js "old")) None]} ∅
    [mkGrant resource user active true true true] ∅ [] {[replicaId binding := replica acknowledged]} ∅ ∅.
Definition fresh : Db := db (Some 500) true.
Definition unchanged (d : Db) : Db := d.
Definition run (c : SpikeCommand) (n : Z) (d : Db) : queried Answer * Db :=
  executeCommands (H := no_numbers) toy_hash user binding secret [c] n unchanged d.
Definition after : Db := snd (run update 1 fresh).
Definition result : SpikeCommandResult :=
  mkResult id resource (commandDigest (H := no_numbers) toy_hash update binding) state_applied code_applied 4 5 1.
Definition stored : ReceiptRow :=
  mkReceipt (replicaId binding) 3 resource (commandDigest (H := no_numbers) toy_hash update binding)
    state_applied code_applied 4 5.
End ServerSample.

Module ServerWitnesses.
Import ServerSample.
#[local] Existing Instance no_numbers.

Lemma admitted_fresh : admitted toy_hash user binding secret fresh.
Proof. exists (replica (Some 500)). split; vm_compute; reflexivity. Qed.

Theorem ledger_exactly_once_witness :
  length (db_events (snd (run update 2 after))) = 1%nat /\ NoDup (event_key <$> db_events (snd (run update 2 after))).
Proof.
  split; [vm_compute; reflexivity|].
  apply (ledger_exactly_once toy_hash toy_hmac read_uuid fresh after (snd (run update 2 after))); [reflexivity..| |].
  - eapply (history_execute _ _ _ user binding secret [update] 1 unchanged fresh);
      [apply history_refl|unfold after, run; apply surjective_pairing].
  - eapply (history_execute _ _ _ user binding secret [update] 2 unchanged after);
      [apply history_refl|unfold run; apply surjective_pairing].
Defined.

Theorem replayed_command_witness :
  run update 2 after = (Ok (mkAnswer 200 (ResultsBody [resultFromReceipt id stored 2 true])), after).
Proof.
  unfold run. rewrite (replayed_command toy_hash user binding secret update 2 unchanged after stored
    (mkResource incarnation 5 (Some (js "note")) None)); [vm_compute; reflexivity| |vm_compute; reflexivity..|done|vm_compute; reflexivity].
  exists (replica (Some 500)). split; vm_compute; reflexivity.
Defined.

Theorem applied_when_current_witness :
  run update 1 fresh = (Ok (mkAnswer 200 (ResultsBody [result])), after) /\
  db_resources after = {[resource := mkResource incarnation 5 (Some (js "note")) None]}.
Proof.
  assert (run update 1 fresh = (Ok (mkAnswer 200 (ResultsBody [result])), after)) as E by (vm_compute; reflexivity).
  split; [exact E|].
  destruct (applied_when_current toy_hash user binding secret update 1 unchanged fresh after result E eq_refl)
    as (_ & _ & _ & row & Hrow & _ & _ & _ & Hdb & _).
  assert (row = mkResource incarnation 4 (Some (js "old")) None) as -> by (vm_compute in Hrow; injection Hrow as <-; vm_compute; reflexivity).
  rewrite Hdb. vm_compute. reflexivity.
Defined.

Theorem denied_without_grant_witness :
  let '(a, d') := run update 1 (db (Some 500) false) in
  db_resources d' = db_resources fresh /\ size (db_receipts d') = 1%nat /\
  exists x, a = Ok x /\ (status x = 403 \/ status x = 409 \/ status x = 428).
Proof.
  destruct (run update 1 (db (Some 500) false)) as [a d'] eqn:E.
  assert (exists x, a = Ok x) as [x ->] by (destruct a; [by eexists|vm_compute in E; discriminate]).
  destruct (denied_without_grant toy_hash user binding secret update 1 unchanged (db (Some 500) false) x d') as (Hr & _ & _ & Hs & _);
    [vm_compute; discriminate|exact E|].
  split; [rewrite Hr; reflexivity|]. split; [|by exists x].
  apply (f_equal snd) in E. cbn [snd] in E. rewrite <- E. vm_compute. reflexivity.
Defined.

Theorem rate_window_bound_witness :
  1 + accepted toy_hash user binding secret (repeat 2000 100)
        (snd (consumeCommandRateWindow toy_hash user binding secret fresh)) <= 64 /\
  accepted toy_hash user binding secret (repeat 2000 100)
        (snd (consumeCommandRateWindow toy_hash user binding secret fresh)) = 63.
Proof.
  split; [|vm_compute; reflexivity].
  apply (rate_window_bound toy_hash user binding secret (repeat 2000 100) fresh);
    [vm_compute; reflexivity|intros w Hw; vm_compute in Hw; discriminate|apply List.Forall_forall; intros x ->%repeat_spec; vm_compute; reflexivity].
Defined.

Theorem reset_rotates_witness :
  let stale := db None true in
  let d1 := snd (reset toy_hash toy_hmac user binding secret id stale) in
  fst (reset toy_hash toy_hmac user binding secret id stale) = fst (reset toy_hash toy_hmac user binding secret id d1) /\
  lockReplica toy_hash user binding secret d1 = None.
Proof.
  intros stale d1. destruct (reset toy_hash toy_hmac user binding secret id stale) as [a x] eqn:E.
  assert (exists fs, a = mkAnswer 200 (ValueBody fs)) as [fs ->] by (vm_compute in E; injection E as <- _; by eexists).
  destruct (reset_rotates toy_hash toy_hmac user binding secret id stale x fs) as (_ & Hr & Hl & _).
  - intros row Hrow. vm_compute in Hrow. injection Hrow as <-. vm_compute. reflexivity.
  - exact E.
  - apply (f_equal snd) in E. cbn [snd] in E. rewrite <- E. vm_compute. discriminate.
  - unfold d1. cbn [fst snd]. rewrite Hr. split; [reflexivity|exact Hl].
Defined.
End ServerWitnesses.
