(* ===== verification/EndToEnd.v ===== *)
(** The client and the command server together: an environment whose requests
    are served by [CommandServer], in any weather - requests and answers that
    get lost, other transactions in between - and what the client's recorded
    results then say about the server's tables. *)
From S2P Require Export UploadSpec CommandServerSpec.

(** ** A network with the server at its end *)

(** What happens around one request. *)
Record Weather := mkWeather {
  wx_before : Db -> Db;      (** changes of others before it arrives *)
  wx_others : Db -> Db;      (** and while it waits at the barrier *)
  wx_lost : bool;            (** it never arrives *)
  wx_dropped : bool;         (** its answer never arrives *)
  wx_uuid : jstr; wx_secret : jstr;  (** the random values the server draws *)
}.
Definition fair_weather : Weather := mkWeather (fun d => d) (fun d => d) false false [] [].
Record Net := mkNet {
  n_server : ServerState; n_user : jstr; n_secret : jstr;
  n_replica : gmap jstr jstr;  (** the incarnations replicated so far *)
  n_queue : list Transaction; n_next : Z; n_weather : list Weather }.
Definition net_queue (n : Net) q := mkNet (n_server n) (n_user n) (n_secret n) (n_replica n) q (n_next n) (n_weather n).
Definition net_server (n : Net) s := mkNet s (n_user n) (n_secret n) (n_replica n) (n_queue n) (n_next n) (n_weather n).
Definition net_replica (n : Net) rows := mkNet (n_server n) (n_user n) (n_secret n) rows (n_queue n) (n_next n) (n_weather n).
Definition next_weather (n : Net) : Weather * Net :=
  match n_weather n with
  | [] => (fair_weather, n)
  | x :: l => (x, mkNet (n_server n) (n_user n) (n_secret n) (n_replica n) (n_queue n) (n_next n) l)
  end.

Section Network.
Context {printer : NumPrinter} (sha256 hmac : jstr -> jstr) (pg_uuid : jstr -> option jstr).

(** [readJson] of the server, on the text of a JSON value. *)
Definition maxRequestBytes : Z := 32768.
Definition readJson (body : jsval) : thrown jsval :=
  _ ← throw_if (maxRequestBytes <? serialized body) (js "Request body exceeds the spike limit.");
  mret body.
Definition request_of (n : Net) (h : Http) : Request :=
  mkRequest "POST" (h_path h) (Some (n_user n)) (h_credential h) (fst <$> h_fault h)
    (match h_fault h with Some (_, secret) => str_eqb secret (n_secret n) | None => false end) (readJson (h_body h)).

Definition serve (h : Http) (n : Net) : option Response * Net :=
  let '(x, n) := next_weather n in
  let s := with_db (n_server n) (wx_before x (srv_db (n_server n))) in
  if wx_lost x then (None, net_server n s)
  else let '(reply, s) := handleRequest sha256 hmac pg_uuid (wx_uuid x) (wx_secret x) (wx_others x) (request_of n h) s in
    (match reply with
     | Respond a => if wx_dropped x then None else Some (mkResponse (status a) (Some (encode_body (body a))))
     | DropConnection => None
     end, net_server n s).

Definition net_enqueue (e : CrudEntry) (n : Net) : bool * Net :=
  (false, mkNet (n_server n) (n_user n) (n_secret n) (n_replica n) (n_queue n ++ [mkTransaction (num (n_next n)) [e]]) (n_next n + 1) (n_weather n)).
Definition network : Environment Net := {|
  env_fetch := serve;
  env_queue := n_queue;
  env_complete _ n := (false, net_queue n (tail (n_queue n)));
  env_enqueue := net_enqueue;
  env_disconnect n := (false, n);
  env_clear n := (false, net_queue n []);
  env_close n := (false, n);
  env_connect n := (false, n);
  env_chmod n := (false, n);
  env_incarnation id n := n_replica n !! id;
  env_live id incarnation n := bool_decide (n_replica n !! id = Some incarnation);
  env_files _ := (Ok true, Ok true);
  env_write n := (None, n);
  env_unlink n := (false, n);
  env_uuid n := ([], n);
|}.

Lemma serve_queue h n : n_queue (snd (serve h n)) = n_queue n.
Proof.
  unfold serve, next_weather. destruct (n_weather n) as [|x l]; cbn.
  - destruct (handleRequest _ _ _ _ _ _ _ _). done.
  - destruct (wx_lost x); [done|]. destruct (handleRequest _ _ _ _ _ _ _ _). done.
Qed.
Lemma network_laws : QueueLaws (H := network) Net.
Proof.
  split; cbn; try done.
  - intros t q s s' Hq [= <-]. cbn. by rewrite Hq.
  - intros e s s' [= <-]. by eexists.
  - by intros s s' [= <-].
  - apply serve_queue.
Qed.
End Network.

(** ** What the server's answers say *)

Section Answers.
Context {printer : NumPrinter} (sha256 hmac : jstr -> jstr) (pg_uuid : jstr -> option jstr).

(** The tables have the applied receipt of a command, bound to its digest. *)
Definition applied_in (d : Db) (u id digest : jstr) : Prop :=
  exists r, db_receipts d !! (u, id) = Some r /\ rc_code r = code_applied /\ rc_digest r = digest.
Lemma applied_extends d d' u id digest : extends d d' -> applied_in d u id digest -> applied_in d' u id digest.
Proof. intros [Hr _] (r & H & ? & ?). exists r. split; [by eapply lookup_weaken|done]. Qed.

(** Every result of an answer that says applied has its receipt. *)
Definition truthful (d : Db) (u : jstr) (b : Body) : Prop :=
  match b with
  | ResultsBody l => forall res, res ∈ l -> cr_state res = state_applied -> applied_in d u (cr_commandId res) (cr_digest res)
  | ValueBody fs => get fs "results" = VUndef
  | ErrorBody _ => True
  end.

Lemma execute_truthful u b cr c n others d a d' :
  consistent (others d) -> CommandServer.executeCommands sha256 u b cr [c] n others d = (Ok a, d') -> truthful d' u (body a).
Proof.
  intros Hcons E. apply execute_one in E. generalize dependent (others d). intros d1 Hcons E.
  remember (Ok a) as x eqn:Ex.
  destruct E as [| |a' d' _ _ Hd| | |row r _ _ _ Hr _|row l' d' code _ _ _ _ Hnc Hrc|row l' d' _ _ _ _ _ _ _ Hap|];
    try done; injection Ex; intros; subst a; try done.
  - unfold deny in Hd. cbv zeta in Hd. destruct (db_receipts d !! _) as [r|]; [destruct (receipt_matches sha256 b c r)|];
      injection Hd; intros; subst; try done; cbn; by intros res ->%list_elem_of_singleton.
  - cbn. intros res ->%list_elem_of_singleton Hst. exists r. cbn in *.
    destruct (cs_ok d1 Hcons _ _ Hr) as [Hne Hso _]. split_and!; [done| |done].
    rewrite Hso in Hst. by destruct (rc_code r).
  - cbn. cbn in Hrc. destruct (db_resources d1 !! resourceId c); [|done].
    apply bind_Ok in Hrc as (d2 & _ & Hrc). cbn in Hrc. injection Hrc as <- <-. by intros res ->%list_elem_of_singleton.
  - cbn. cbn [apply_commands] in Hap. cbv zeta in Hap.
    apply bind_Ok in Hap as (d2 & _ & Hap). apply bind_Ok in Hap as (d3 & _ & Hap).
    apply bind_Ok in Hap as (d4 & [_ ->]%insert_receipt_ok & Hap). cbn in Hap. injection Hap as <- <-.
    intros res ->%list_elem_of_singleton _. cbn. eexists. cbn. by rewrite lookup_insert_eq.
Qed.

Lemma truthful_error d u status e : truthful d u (body (error_answer status e)).
Proof. done. Qed.

Lemma slot_truthful (others : Db -> Db) u cr rq e s reply s' c :
  (forall d, history sha256 hmac pg_uuid d (others d)) -> consistent (srv_db s) -> commands e = [c] ->
  commandInSlot sha256 others u cr rq e s = (reply, s') ->
  history sha256 hmac pg_uuid (srv_db s) (srv_db s') /\
  forall a, reply = Respond a -> truthful (srv_db s') u (body a).
Proof.
  intros Hoth Hcons Hc. unfold commandInSlot. cbv zeta.
  set (rate := if has_fault rq "pre-commit-hold" then _ else _).
  assert (history sha256 hmac pg_uuid (srv_db s) (snd rate)) as Hrate.
  { unfold rate. destruct (has_fault rq "pre-commit-hold"); [apply history_refl|apply history_rate]. }
  destruct rate as [outcome d]. cbn [snd] in Hrate. pose proof (history_keeps _ _ _ _ _ Hrate) as [_ Hd]. specialize (Hd Hcons).
  assert (forall x status err, (Respond (error_answer status err), x) = (reply, s') -> srv_db x = d ->
    history sha256 hmac pg_uuid (srv_db s) (srv_db s') /\ forall a, reply = Respond a -> truthful (srv_db s') u (body a)) as Herr.
  { intros x status err [= <- <-] ->. split; [done|]. intros a [= <-]. apply truthful_error. }
  destruct outcome; try (intros H; by eapply Herr).
  destruct (recordTestAttempt _ _) as [n attempts]. cbn [srv_db with_db].
  destruct (has_fault rq "pre-commit-500"); [intros H; by eapply Herr|].
  destruct (has_fault rq "pre-commit-hold"); [intros H; by eapply Herr|].
  set (meanwhile := if has_fault rq "authorization-barrier" then others else fun d => d).
  assert (history sha256 hmac pg_uuid d (meanwhile d)) as Hm by (unfold meanwhile; case_match; [apply Hoth|apply history_refl]).
  rewrite Hc. destruct (CommandServer.executeCommands sha256 u (envelope_binding e) cr [c] n meanwhile d) as [[a|err] d'] eqn:Ex.
  2: { intros H. injection H as <- <-. split; [|intros a [= <-]; apply truthful_error]. cbn.
       eapply history_trans; [exact Hrate|]. by eapply history_execute. }
  assert (truthful d' u (body a)) as Ht.
  { eapply execute_truthful; [|exact Ex]. by apply (history_keeps _ _ _ _ _ Hm). }
  assert (history sha256 hmac pg_uuid (srv_db s) d') as Hh.
  { eapply history_trans; [exact Hrate|]. by eapply history_execute. }
  destruct (_ && _ && _); intros H; injection H as <- <-; (split; [done|]).
  - by intros a' [=].
  - by intros a' [= <-].
Qed.

(** A request for commands, from the beginning. *)
Lemma handle_truthful uuid secret others rq s reply s' u :
  (forall d, history sha256 hmac pg_uuid d (others d)) -> consistent (srv_db s) ->
  rq_path rq = js "/spike/commands" -> rq_user rq = Some u ->
  handleRequest sha256 hmac pg_uuid uuid secret others rq s = (reply, s') ->
  history sha256 hmac pg_uuid (srv_db s) (srv_db s') /\
  forall a, reply = Respond a -> truthful (srv_db s') u (body a).
Proof.
  intros Hoth Hcons Hpath Hu. unfold handleRequest. rewrite Hpath, Hu. cbv zeta.
  assert (forall st b, truthful (srv_db s) u b -> (Respond (mkAnswer st b), s) = (reply, s') ->
    history sha256 hmac pg_uuid (srv_db s) (srv_db s') /\ forall a, reply = Respond a -> truthful (srv_db s') u (body a)) as Herr.
  { intros st b Hb [= <- <-]. split; [apply history_refl|]. by intros a [= <-]. }
  destruct (negb (startsWith _ _)); [intros H; eapply Herr; [|exact H]; done|].
  unfold lifecycleRequest. rewrite Hpath. change (negb (startsWith "/spike/commands" "/spike/replicas")) with true. cbv iota.
  destruct (negb (_ && _)); [intros H; eapply Herr; [|exact H]; done|].
  destruct (credentialFrom _) as [cr|]; [|intros H; eapply Herr; [|exact H]; done].
  destruct (rq_json rq ≫= parseCommandEnvelope) as [e|m] eqn:Ee; [|intros H; eapply Herr; [|exact H]; done].
  destruct (acquireCommandSlot _) as [n|]; [|intros H; eapply Herr; [|exact H]; done].
  apply bind_Ok in Ee as (v & _ & He). apply parseCommandEnvelope_ok in He as [_ _ (c & Hc & _)].
  destruct (commandInSlot _ _ _ _ _ _ _) as [r s2] eqn:Es. intros H. injection H as <- <-. cbn [srv_db].
  eapply slot_truthful in Es; [exact Es|done|done|done].
Qed.
End Answers.

(** ** What the client records of them *)

Section Recorded.
Context {printer : NumPrinter} {reader : NumReader}.

(** Every row that says applied was there, or is one of the new results. *)
Lemma persistResults_rows rs s u s' id row :
  persistResults rs s = Ok (u, s') -> app_results s' !! id = Some row ->
  app_results s !! id = Some row \/
  exists r, r ∈ rs /\ t_commandId r = id /\ r_state row = t_state r /\ r_digest row = t_digest r.
Proof.
  revert s. induction rs as [|r rs IH]; intros s H Hrow; [injection H as _ <-; by left|].
  cbn in H. unfold mbind, sql_bind in H. apply bind_Ok in H as ([u1 s1] & H1 & H2).
  destruct (IH s1 H2 Hrow) as [Hs1|(r' & ? & ?)]; [|right; exists r'; split; [by apply list_elem_of_further|done]].
  clear IH H2. unfold persistResult, mbind, sql_bind, sql_get in H1. cbn [mbind outcome_bind] in H1.
  apply bind_Ok in H1 as ([? s2] & H1 & H3). cbn in H3. injection H3 as _ <-. cbn in Hs1.
  destruct (app_results s !! t_commandId r) as [old|] eqn:Er.
  - unfold sql_lift in H1. apply bind_Ok in H1 as (? & _ & [= _ <-]). by left.
  - unfold sql_lift in H1. repeat (apply bind_Ok in H1 as ([? ?] & (? & _ & [= _ <-])%bind_Ok & H1)). injection H1 as _ <-.
    cbn in Hs1. apply lookup_insert_Some in Hs1 as [[<- <-]|[_ Hs]]; [|by left].
    right. exists r. split; [apply list_elem_of_here|done].
Qed.
Lemma markResults_rows ids s u s' id row :
  markResultsSdkCompleted ids s = Ok (u, s') -> app_results s' !! id = Some row ->
  exists old, app_results s !! id = Some old /\ r_state row = r_state old /\ r_digest row = r_digest old.
Proof.
  revert s. induction ids as [|k ids IH]; intros s H Hrow; [injection H as _ <-; by exists row|].
  cbn in H. unfold mbind, sql_bind in H. apply bind_Ok in H as ([u1 s1] & H1 & H2).
  destruct (IH s1 H2 Hrow) as (old & Hold & Hst & Hd). unfold markResult, mbind, sql_bind, sql_get in H1. cbn in H1.
  destruct (app_results s !! k) as [r|] eqn:Er; [|done]. cbn in H1. injection H1 as _ <-. cbn in Hold.
  apply lookup_insert_Some in Hold as [[<- <-]|[_ Hold]]; [by exists r|by exists old].
Qed.

(** A result read from the server's text is one of the answer's. *)
Lemma encoded_result l res fs r :
  VArr (VObj <$> l) = VArr (encode_result <$> res) -> fs ∈ l -> terminal_of fs = Ok r ->
  exists x, x ∈ res /\ t_commandId r = cr_commandId x /\ t_state r = state_text (cr_state x) /\ t_digest r = cr_digest x.
Proof.
  intros [= Hl] Hfs Hr. assert (VObj fs ∈ encode_result <$> res) as Hin by (rewrite <- Hl; by apply list_elem_of_fmap_2).
  apply list_elem_of_fmap in Hin as (x & Hx & Hin). exists x. split; [done|].
  unfold encode_result in Hx. injection Hx as Hfields. unfold terminal_of in Hr.
  assert (get fs "commandId" = VStr (cr_commandId x) /\ get fs "resourceId" = VStr (cr_resourceId x) /\
    get fs "state" = VStr (state_text (cr_state x)) /\ get fs "code" = VStr (code_text (cr_code x)) /\
    get fs "digest" = VStr (cr_digest x)) as (H1 & H2 & H3 & H4 & H5) by (by rewrite Hfields).
  rewrite H1, H2, H3, H4, H5 in Hr. do 3 (match type of Hr with context [positive_safe ?v] => destruct (positive_safe v); [|done] end).
  by injection Hr as <-.
Qed.
Lemma applied_text s : state_text s = js "applied" -> s = state_applied.
Proof. by destruct s. Qed.
End Recorded.

Section Life.
Context {printer : NumPrinter} {reader : NumReader} (sha256 hmac : jstr -> jstr) (pg_uuid : jstr -> option jstr).
#[local] Instance net_env : Environment Net := network sha256 hmac pg_uuid.
#[local] Instance net_laws : QueueLaws Net := network_laws sha256 hmac pg_uuid.
Implicit Types w : World Net.
#[local] Abbreviation history := (CommandServerSpec.history sha256 hmac pg_uuid).

Definition tables w : Db := srv_db (n_server (w_env w)).
Definition honest (x : Weather) : Prop := forall d, history d (wx_before x d) /\ history d (wx_others x d).
(** What the client has recorded as applied, the server has applied. *)
Record sound (u : jstr) w : Prop := {
  so_consistent : consistent (tables w);
  so_user : n_user (w_env w) = u;
  so_weather : Forall honest (n_weather (w_env w));
  so_results : forall id r, app_results (w_app w) !! id = Some r -> r_state r = js "applied" ->
    applied_in (tables w) u id (r_digest r);
}.

Lemma sound_app u w s :
  sound u w -> (forall id r, app_results s !! id = Some r -> r_state r = js "applied" ->
    applied_in (tables w) u id (r_digest r)) -> sound u (with_app w s).
Proof. intros [H1 H2 H3 _] Hs. by split. Qed.
Lemma sound_same u w s : sound u w -> app_results s ⊆ app_results (w_app w) -> sound u (with_app w s).
Proof. intros Hw Hs. apply sound_app; [done|]. intros id r Hr. apply (so_results u w Hw). by eapply lookup_weaken. Qed.
Lemma sound_env u w n :
  sound u w -> srv_db (n_server n) = tables w -> n_user n = n_user (w_env w) -> n_weather n = n_weather (w_env w) ->
  sound u (with_env w n).
Proof.
  intros [H1 H2 H3 H4] Hd Hu Hx. split; unfold tables in *; cbn; [by rewrite Hd|congruence|by rewrite Hx|].
  intros id r Hr Hst. rewrite Hd. by apply H4.
Qed.
Lemma sound_mem u w m : sound u w -> sound u (with_mem w m).
Proof. by intros [H1 H2 H3 H4]. Qed.

Lemma serve_sound u w h r n :
  sound u w -> h_path h = js "/spike/commands" -> env_fetch h (w_env w) = (r, n) ->
  sound u (with_env w n) /\
  forall resp, r = Some resp -> exists b, r_json resp = Some (encode_body b) /\ truthful (srv_db (n_server n)) u b.
Proof.
  intros [H1 H2 H3 H4] Hp. cbn [env_fetch net_env network]. unfold serve.
  destruct (next_weather (w_env w)) as [x n0] eqn:Ex.
  assert (n_server n0 = n_server (w_env w) /\ n_user n0 = u /\ honest x /\ Forall honest (n_weather n0)) as (Hs & Hu & Hx & Hxs).
  { unfold next_weather in Ex. destruct (n_weather (w_env w)) as [|y l] eqn:El; injection Ex as <- <-.
    - split_and!; [done|done| |by rewrite El]. intros d. split; apply history_refl.
    - apply List.Forall_cons_iff in H3 as [Hy Hl]. done. }
  cbv zeta. rewrite Hs. set (s := with_db _ _). assert (history (tables w) (srv_db s)) as Hb by apply Hx.
  pose proof (history_keeps _ _ _ _ _ Hb) as [Hext Hcons]. specialize (Hcons H1).
  assert (forall d, history (tables w) d -> forall n', srv_db (n_server n') = d -> n_user n' = u -> n_weather n' = n_weather n0 ->
    sound u (with_env w n')) as Hsound.
  { intros d Hd n' Hn' Hu' Hw'. pose proof (history_keeps _ _ _ _ _ Hd) as [He Hc]. split; unfold tables; cbn.
    - rewrite Hn'. auto.
    - done.
    - by rewrite Hw'.
    - intros id row Hrow Hst. rewrite Hn'. eapply applied_extends; [exact He|]. by apply H4. }
  destruct (wx_lost x).
  { intros [= <- <-]. split; [|done]. eapply Hsound; [exact Hb|done..]. }
  destruct (handleRequest _ _ _ _ _ _ _ s) as [reply s'] eqn:Eh.
  eapply handle_truthful in Eh as [Hh Ht]; [|apply Hx|done|done|cbn; by rewrite Hu].
  intros [= <- <-]. split.
  - eapply Hsound; [by eapply history_trans|done..].
  - intros resp Hresp. destruct reply as [a|]; [|done]. destruct (wx_dropped x); [done|].
    injection Hresp as <-. exists (body a). split; [done|]. by apply Ht.
Qed.

Lemma complete_sound u w t rs :
  sound u w -> (forall r, r ∈ rs -> t_state r = js "applied" -> applied_in (tables w) u (t_commandId r) (t_digest r)) ->
  safe (sound u) (fun _ _ => True) (completeWithResults t rs) w.
Proof.
  intros Hw Hrs. unfold completeWithResults, app. apply safe_bind_call; [done| |intros e w1 ->%handle_app_Throw; done].
  intros x w1 (s1 & Hp & ->)%handle_app_Ok.
  assert (sound u (with_app w s1)) as Hw1.
  { apply sound_app; [done|]. intros id row Hrow Hst.
    destruct (persistResults_rows _ _ _ _ _ _ Hp Hrow) as [Hold|(r & Hin & <- & Hs & ->)]; [by apply (so_results u w Hw)|].
    apply Hrs; [done|congruence]. }
  unfold holdBeforeSdkCompletion, set_mem. apply safe_bind_call; [done| |by intros e w2 [=]].
  intros x1 w2 [= <- <-]. apply (sound_mem u _ (w_mem (with_app w s1))) in Hw1. set (w2 := with_mem _ _) in *.
  apply safe_bind_call; [done| |by intros e w3 [=]]. intros x2 w3 [= <- <-].
  assert (sound u (with_env w2 (net_queue (w_env w2) (tail (n_queue (w_env w2)))))) as Hw3 by (by apply sound_env).
  apply safe_call; [done|]. intros [x3|e] w4.
  - intros (s4 & Hm & ->)%handle_app_Ok. apply safe_done; [|done]. apply sound_app; [done|].
    intros id row Hrow Hst. destruct (markResults_rows _ _ _ _ _ _ Hm Hrow) as (old & Hold & Hs & ->).
    apply (so_results u _ Hw3); [done|congruence].
  - intros ->%handle_app_Throw. by apply safe_done.
Qed.
Lemma made_up_not_applied c b code n : t_state (failed_result sha256 c b code n) <> js "applied".
Proof. done. Qed.
Lemma complete_failed_sound u w t c b code n :
  sound u w -> safe (sound u) (fun _ _ => True) (completeWithResults t [failed_result sha256 c b code n]) w.
Proof. intros Hw. apply complete_sound; [done|]. by intros r ->%list_elem_of_singleton. Qed.
Lemma transient_sound u w t c b e :
  sound u w -> safe (sound u) (fun _ _ => True) (transient_failure sha256 t c b e) w.
Proof.
  intros Hw. unfold transient_failure, app. apply safe_bind_call; [done| |intros e1 w1 ->%handle_app_Throw; done].
  intros n w1 (s1 & Hs & ->)%handle_app_Ok. assert (sound u (with_app w s1)) as Hw1.
  { apply sound_same; [done|]. unfold recordTransientFailure in Hs. destruct (5 <? _) in Hs; [done|]. by injection Hs as _ <-. }
  destruct (_ <=? n); [by apply complete_failed_sound|by apply safe_done].
Qed.

Lemma parsed_sound u w t c b body rs :
  sound u w -> truthful (tables w) u body -> parseCommandResponse sha256 (encode_body body) [c] b = Ok rs ->
  safe (sound u) (fun _ _ => True) (complete_parsed t rs) w.
Proof.
  intros Hw Ht Hp. apply parseCommandResponse_sound in Hp as ((input & Hin & Hres) & _); [|apply NoDup_singleton].
  unfold complete_parsed, lift_local. destruct (mapM terminal_of rs) as [records|e] eqn:Er; [|by apply safe_done].
  apply complete_sound; [done|]. intros r Hr Hst.
  destruct body as [err|l|fs]; cbn in Hin; injection Hin as <-; [by vm_compute in Hres| |by rewrite Ht in Hres].
  assert (VArr (VObj <$> rs) = VArr (encode_result <$> l)) as Hl by (by rewrite <- Hres).
  assert (exists fs, fs ∈ rs /\ terminal_of fs = Ok r) as (fs & Hfs & Hr').
  { clear -Er Hr. revert records Er Hr. induction rs as [|f rs IH]; intros records; cbn; [intros [= <-] Hr; by apply elem_of_nil in Hr|].
    intros (x & Hx & H)%bind_Ok. apply bind_Ok in H as (xs & Hxs & [= <-]). intros [->|Hin]%elem_of_cons.
    - exists f. split; [apply list_elem_of_here|done].
    - destruct (IH xs Hxs Hin) as (g & Hg & Hr). exists g. split; [by apply list_elem_of_further|done]. }
  destruct (encoded_result _ _ _ _ Hl Hfs Hr') as (x & Hx & -> & Hs & ->). apply (Ht x Hx). apply applied_text. congruence.
Qed.

Lemma answer_sound u w t c b response body :
  sound u w -> r_json response = Some (encode_body body) -> truthful (tables w) u body ->
  safe (sound u) (fun _ _ => True) (upload_answer sha256 t [c] c b response) w.
Proof.
  intros Hw Hj Ht. unfold upload_answer. cbv zeta.
  assert (forall e, safe (sound u) (fun _ _ => True) (Done (Throw e) : Client ()) w) as Hthrow by (intros e; by apply safe_done).
  destruct (r_status response =? 428).
  { unfold set_mem. apply safe_bind_call; [done| |by intros e w1 [=]]. intros x w1 [= <- <-].
    apply safe_done; [by apply sound_mem|done]. }
  destruct (isRetryableUploadStatus _); [by apply transient_sound|]. rewrite Hj. unfold parsed_results, lift_thrown.
  destruct (r_status response =? 403).
  { destruct (parseCommandResponse sha256 _ [c] b) as [rs|m] eqn:Ep; [|apply Hthrow].
    cbn [mbind prog_mbind prog_bind mret prog_ret]. destruct rs as [|r rs]; [apply Hthrow|]. destruct (strict_eq _ _); [|apply Hthrow].
    by eapply parsed_sound. }
  destruct (_ && _); [by apply complete_failed_sound|]. destruct (negb _); [apply Hthrow|].
  destruct (parseCommandResponse sha256 _ [c] b) as [rs|m] eqn:Ep; [|apply Hthrow]. by eapply parsed_sound.
Qed.
Lemma upload_sound u w : sound u w -> safe (sound u) (fun _ _ => True) (uploadData sha256) w.
Proof.
  intros Hw. unfold uploadData. apply safe_bind_call; [done| |by intros e w1 [=]]. intros next w1 [= <- <-].
  destruct (head _) as [t|]; [|by apply safe_done].
  unfold lift_local. destruct (validateQueuedCrud (tx_crud t)) as [cs|e] eqn:Hv; [|by apply safe_done].
  destruct (validateQueuedCrud_one _ _ Hv) as [c ->]. unfold mem.
  apply safe_bind_call; [done| |by intros e w1 [=]]. intros session w1 [= <- <-]. rewrite with_mem_id.
  apply safe_bind_call; [done| |by intros e w1 [=]]. intros fault w1 [= <- <-]. rewrite with_mem_id.
  destruct (m_connector (w_mem w)) as [session|]; [|by apply safe_done].
  apply safe_call; [done|]. intros r w2. cbn [handle client_handler].
  destruct (env_fetch _ _) as [resp n] eqn:Ef. eapply serve_sound in Ef as [Hn Hr]; [|done|done].
  destruct resp as [response|]; intros [= <- <-]; [|by apply transient_sound].
  destruct (Hr response eq_refl) as (b & Hb & Ht). by eapply answer_sound.
Qed.

(** Queueing and acknowledging record nothing as applied. *)
Lemma lift_sound {A B} u w (o : outcome client_error A) (k : A -> Client B) :
  sound u w -> (forall a, safe (sound u) (fun _ _ => True) (k a) w) -> safe (sound u) (fun _ _ => True) (Done o ≫= k) w.
Proof. intros Hw Hk. apply safe_bind_lift; [done|by intros|done]. Qed.
Lemma bind_sound {A} u w i (k : BoundCommand -> Client A) :
  sound u w -> (forall b, safe (sound u) (fun _ _ => True) (k b) w) -> safe (sound u) (fun _ _ => True) (bindCommand i ≫= k) w.
Proof.
  intros Hw Hk. apply safe_bind. unfold bindCommand, lift_local.
  destruct (assertPositiveExpectedRecordVersion _) as [v|e]; [|by apply safe_done].
  destruct (in_resourceIncarnationId i) as [x|].
  - cbn [mbind prog_mbind prog_bind mret prog_ret]. destruct (str_truthy x); [|by apply safe_done].
    destruct (bind_command _); [apply safe_done; [done|apply Hk]|by apply safe_done].
  - apply safe_call; [done|]. intros r w1 [= <- <-].
    destruct (n_replica (w_env w) !! in_resourceId i) as [x|]; cbn; [|by split].
    destruct (str_truthy x); cbn; [|by split].
    destruct (bind_command _); [apply safe_done; [done|apply Hk]|by apply safe_done].
Qed.
Lemma queue_sound u w inputs corr : sound u w -> safe (sound u) (fun _ _ => True) (queueCommands inputs corr) w.
Proof.
  intros Hw. unfold queueCommands. destruct inputs as [|i [|? ?]]; [by apply safe_done| |by apply safe_done].
  apply bind_sound; [done|]. intros b. unfold mem. apply safe_bind_call; [done| |by intros e w1 [=]].
  intros l w1 [= <- <-]. rewrite with_mem_id. unfold app. apply safe_bind_call; [done| |intros e w1 ->%handle_app_Throw; done].
  intros ids w1 (s1 & Ha & ->)%handle_app_Ok.
  assert (app_results s1 = app_results (w_app w)) as Hs.
  { unfold admit_bound, mbind, sql_bind, sql_get in Ha. cbn [mbind outcome_bind] in Ha.
    destruct (local_if _ _) as [[]|] in Ha; [|done]. cbn [sql_lift mbind outcome_bind] in Ha. unfold sql_lift in Ha. cbn in Ha.
    destruct (assertOutstandingCapacity _ _ _) as [[]|] in Ha; [|done]. cbn in Ha.
    by apply addOverlays_one in Ha as (_ & _ & _ & _ & ->). }
  assert (sound u (with_app w s1)) as Hw1 by (apply sound_same; [done|by rewrite Hs]).
  apply safe_catch, safe_call; [done|]. intros [x|e] w2 [= <- <-]. apply safe_done; [|done]. by apply sound_env.
Qed.
Lemma acknowledge_sound u w id : sound u w -> safe (sound u) (fun _ _ => True) (acknowledgeCommandResult id) w.
Proof.
  intros Hw. apply safe_call; [done|]. intros [b|e] w1.
  - intros (s1 & Ha & ->)%handle_app_Ok. apply safe_done; [|done]. apply sound_same; [done|].
    unfold acknowledgeResult in Ha. destruct (app_results (w_app w) !! id) as [r|]; [destruct (r_completed r)|];
      injection Ha as _ <-; [apply delete_subseteq|done|done].
  - intros ->%handle_app_Throw. by apply safe_done.
Qed.

(** The life of a client, which may die at any point of queueing, uploading or
    acknowledging, and of the server it talks to.  Resets, openings and the
    discard of quarantined commands, which write no result, are left out. *)
Inductive life w w' : Prop :=
| life_queue n inputs corr : w' = crashed n (queueCommands inputs corr) w -> life w w'
| life_upload n : w' = crashed n (uploadData sha256) w -> life w w'
| life_acknowledge n id : w' = crashed n (acknowledgeCommandResult id) w -> life w w'
| life_restart m : w' = with_mem w m -> life w w'
| life_replicate rows : w' = with_env w (net_replica (w_env w) rows) -> life w w'
| life_server d : history (tables w) d ->
    w' = with_env w (net_server (w_env w) (with_db (n_server (w_env w)) d)) -> life w w'.

Lemma life_sound u w w' : sound u w -> life w w' -> sound u w'.
Proof.
  intros Hw [n inputs corr ->|n ->|n id ->|m ->|rows ->|d Hd ->].
  - eapply safe_crashed. by apply queue_sound.
  - eapply safe_crashed. by apply upload_sound.
  - eapply safe_crashed. by apply acknowledge_sound.
  - by apply sound_mem.
  - by apply sound_env.
  - destruct Hw as [H1 H2 H3 H4]. pose proof (history_keeps _ _ _ _ _ Hd) as [He Hc]. split; unfold tables; cbn; auto.
    intros id r Hr Hst. eapply applied_extends; [exact He|]. by apply H4.
Qed.

(** C2: what the client shows as applied has been applied exactly once.  From
    empty tables, through any loss of requests and answers, any death of the
    client while it queues, uploads or acknowledges, any activity of other
    users in between, a command whose recorded
    result says applied has the server's applied receipt, with the digest of
    the result, and one change event. *)
Theorem applied_means_applied_once u w0 w id row :
  app_results (w_app w0) = ∅ -> db_receipts (tables w0) = ∅ -> db_events (tables w0) = [] ->
  n_user (w_env w0) = u -> Forall honest (n_weather (w_env w0)) -> rtc life w0 w ->
  app_results (w_app w) !! id = Some row -> r_state row = js "applied" ->
  exists receipt e, db_receipts (tables w) !! (u, id) = Some receipt /\ rc_code receipt = code_applied /\
    rc_digest receipt = r_digest row /\ e ∈ db_events (tables w) /\ event_key e = (u, id) /\
    forall e', e' ∈ db_events (tables w) -> event_key e' = (u, id) -> e' = e.
Proof.
  intros Hres Hrc Hev Hu Hx Hl Hrow Hst.
  assert (sound u w0) as H0.
  { split; [|done|done|intros k r Hk; by rewrite Hres, lookup_empty in Hk]. by apply consistent_empty. }
  assert (sound u w) as [Hcons _ _ Hs] by (clear -H0 Hl; induction Hl; eauto using life_sound).
  destruct (Hs id row Hrow Hst) as (r & Hr & Hc & Hd).
  destruct (cs_receipt _ Hcons (u, id) r Hr Hc) as (e & He & Hk).
  exists r, e. split_and!; [done..|]. intros e' He' Hk'.
  pose proof (cs_once _ Hcons) as Hn. apply list_elem_of_lookup_1 in He as [i Hi], He' as [j Hj].
  assert (i = j) as ->; [|congruence]. apply (NoDup_lookup _ i j (u, id) Hn);
    rewrite list_lookup_fmap; [rewrite Hi|rewrite Hj]; cbn; by f_equal.
Qed.
End Life.

(** ** Concrete lives *)

Module LifeSample.
Export ServerSample QuarantineSample.
#[export] Existing Instance no_numbers.
#[export] Existing Instance no_reader.

(** A hash of sixty-four lower-case hexadecimal digits. *)
Definition short_hash (s : jstr) : jstr := take 64 (toy_hash s ++ repeat 48%N 64).
Lemma short_hash_digest s : hex_digest (short_hash s).
Proof.
  split; [|unfold short_hash; rewrite length_take, length_app, repeat_length; lia].
  apply Forall_take, Forall_app. split; [|apply List.Forall_forall; intros x ->%repeat_spec; done].
  assert (forall n, (n < 16)%N -> is_lower_hex (nibble n) = true) as Hn.
  { intros n Hlt. unfold nibble, is_lower_hex, is_digit. case_match eqn:E; [apply N.ltb_lt in E|apply N.ltb_ge in E]; lia. }
  unfold toy_hash. induction s as [|u s IH]; [apply List.Forall_nil|].
  cbn [mbind list_bind]. apply Forall_app. split; [|exact IH].
  apply List.Forall_cons; [|apply List.Forall_cons; [|apply List.Forall_nil]]; apply Hn, N.mod_lt; done.
Qed.

Definition session : ReplicaSessionSecret := mkSession binding secret.
Definition memory : Memory := mkMemory (Some session) 0 [] (Some session) false None false.
Definition server_db : Db :=
  mkDb 1000 1 9 {[resource := mkResource incarnation 4 (Some (js "old")) None]} ∅
    [mkGrant resource user true true true true] ∅ []
    {[replicaId binding := mkReplica user (short_hash secret) 3 (Some 500) (Some 7) None None None None]} ∅ ∅.
Definition lost : Weather := mkWeather unchanged unchanged true false [] [].
Definition dropped : Weather := mkWeather unchanged unchanged false true [] [].
Definition net (xs : list Weather) : Net := mkNet (mkServer server_db [] [] [] 0) user [] {[resource := incarnation]} [] 1 xs.
Definition world {S} (n : S) : World S := mkWorld fresh_state None None memory n.
Definition input : QueuedCommandInput := mkInput id resource_update resource None (num 4) (Some (js "note")).
Definition correlation : jstr := "dddddddd-dddd-4ddd-8ddd-ddddddddddd4".

(** What a client does when nothing kills it in between. *)
Inductive Act := act_queue | act_upload | act_upload_dying (n : nat).
Section Acts.
Context {S : Type} {env : Environment S}.
Definition act (w : World S) (a : Act) : World S :=
  match a with
  | act_queue => crashed 100 (queueCommands [input] correlation) w
  | act_upload => crashed 100 (uploadData short_hash) w
  | act_upload_dying n => crashed n (uploadData short_hash) w
  end.
Definition acts (l : list Act) (w : World S) : World S := fold_left act l w.
End Acts.
End LifeSample.

Module LifeWitnesses.
Import LifeSample.

(** *** One command, two failures *)

#[local] Instance sample_env : Environment Net := net_env short_hash toy_hmac read_uuid.
#[local] Instance sample_laws : QueueLaws Net := net_laws short_hash toy_hmac read_uuid.
Definition story : list Act := [act_queue; act_upload; act_upload; act_upload].
Definition told : World Net := acts story (world (net [lost; dropped])).

Lemma told_life : rtc (life short_hash toy_hmac read_uuid) (world (net [lost; dropped])) told.
Proof.
  unfold told, story, acts. cbn [fold_left act].
  eapply rtc_l; [by eapply life_queue|]. do 2 (eapply rtc_l; [by eapply life_upload|]). eapply rtc_once. by eapply life_upload.
Qed.
Lemma calm x : wx_before x = unchanged -> wx_others x = unchanged -> honest short_hash toy_hmac read_uuid x.
Proof. intros Hb Ho d. rewrite Hb, Ho. split; apply history_refl. Qed.
Lemma applied_means_applied_once_witness :
  exists receipt e, db_receipts (tables told) !! (user, id) = Some receipt /\ rc_code receipt = code_applied /\
    e ∈ db_events (tables told) /\ event_key e = (user, id).
Proof.
  assert (r_state <$> app_results (w_app told) !! id = Some (js "applied")) as Hrow by (vm_compute; reflexivity).
  destruct (app_results (w_app told) !! id) as [row|] eqn:Er; [|discriminate Hrow].
  destruct (applied_means_applied_once short_hash toy_hmac read_uuid user (world (net [lost; dropped])) told id row)
    as (receipt & e & H1 & H2 & _ & H3 & H4 & _); [reflexivity..| | | | |].
  - apply List.Forall_cons; [by apply calm|]. apply List.Forall_cons; [by apply calm|apply List.Forall_nil].
  - exact told_life.
  - exact Er.
  - exact (f_equal (default []) Hrow).
  - exists receipt, e. exact (conj H1 (conj H2 (conj H3 H4))).
Defined.
Lemma upload_never_loses_witness :
  queue (act (acts [act_queue] (world (net []))) act_upload) = [] /\
  has_result (w_app (act (acts [act_queue] (world (net []))) act_upload)) id.
Proof.
  set (w := acts [act_queue] (world (net []))).
  destruct (upload_never_loses short_hash w 100) as (_ & Hq & _).
  change (crashed 100 (uploadData short_hash) w) with (act w act_upload) in Hq. assert (queue (act w act_upload) = []) as E by (vm_compute; reflexivity).
  split; [exact E|]. destruct Hq as [Hq|(t & q & c & r & Hw & _ & Hv & Hr & _)].
  - rewrite E in Hq. vm_compute in Hq. discriminate Hq.
  - assert (c = update) as ->; [|by exists r].
    assert (validateQueuedCrud (tx_crud t) = Ok [update]) as Hu; [|rewrite Hv in Hu; by injection Hu].
    assert (tx_crud t ∈ tx_crud <$> queue w) as Ht by (rewrite Hw; apply list_elem_of_here).
    apply list_elem_of_singleton in Ht as ->. vm_compute. reflexivity.
Defined.

(** *** An outcome recorded too early *)

(** The answer that says applied is lost, four more requests are, and the
    client dies between recording that it gives up and completing the
    transaction. *)
Definition stuck : World Net :=
  acts [act_queue; act_upload; act_upload; act_upload; act_upload; act_upload_dying 6]
    (world (net [dropped; lost; lost; lost; lost])).
Definition put : Transaction := default (mkTransaction VNull []) (head (queue stuck)).
Definition verdict : option Response * Net :=
  env_fetch (upload_request put session None [update]) (w_env stuck).
Definition verdict_json : jsval :=
  match fst verdict with Some (mkResponse _ (Some v)) => v | _ => VNull end.
Definition verdict_result : list (jstr * jsval) :=
  match parseCommandResponse short_hash verdict_json [update] binding with Ok [fs] => fs | _ => [] end.
Definition verdict_record : TerminalResultRecord :=
  match terminal_of verdict_result with Ok r => r | Throw _ => failed_result short_hash update binding "" 0 end.
Definition stuck_row : ResultRow :=
  match app_results (w_app stuck) !! id with
  | Some r => r | None => result_row verdict_record 0 0 end.

Lemma contradicting_answer_refused_witness :
  r_code stuck_row = js "retry_exhausted" /\ t_state verdict_record = js "applied" /\
  exec (uploadData short_hash) stuck =
    (Throw (Local (LocalError (js "command_result_id_conflict"))), with_env stuck (snd verdict)).
Proof.
  split; [vm_compute; reflexivity|]. split; [vm_compute; reflexivity|].
  destruct (contradicting_answer_refused short_hash stuck put [] update session stuck_row
    (mkResponse 200 (Some verdict_json)) verdict_record (snd verdict)) as [H _]; [vm_compute; reflexivity..| |].
  - apply (answers_success _ _ _ 200 verdict_json verdict_result); [lia|vm_compute; reflexivity..].
  - apply H. intros [_ Hst _ _ _]. vm_compute in Hst. discriminate Hst.
Defined.

(** *** A line that is always down *)

#[local] Instance down : Environment (list Transaction) := {|
  env_fetch _ s := (None, s);
  env_queue s := s;
  env_complete _ s := (false, tail s);
  env_enqueue e s := (false, s ++ [mkTransaction VNull [e]]);
  env_disconnect s := (false, s);
  env_clear s := (false, []);
  env_close s := (false, s);
  env_connect s := (false, s);
  env_chmod s := (false, s);
  env_incarnation _ _ := Some incarnation;
  env_live _ _ _ := true;
  env_files _ := (Ok true, Ok true);
  env_write s := (None, s);
  env_unlink s := (false, s);
  env_uuid s := ([], s);
|}.
#[local] Instance down_laws : QueueLaws (list Transaction).
Proof.
  split; cbn; try done.
  - intros t q s s' -> [= <-]. done.
  - intros e s s' [= <-]. by eexists.
  - by intros s s' [= <-].
Qed.
Definition waiting : World (list Transaction) := act (world []) act_queue.
Definition waiting_overlay : OverlayRow :=
  match app_overlays (w_app waiting) !! id with Some o => o | None => mkOverlayRow [] [] [] None 0 0 0 end.
Lemma sample_update_ok : command_ok update.
Proof. split; vm_compute; try reflexivity; split; discriminate. Qed.
Lemma gives_up_after_five_witness :
  queue (uploads short_hash 5 waiting) = [] /\
  exists r, app_results (w_app (uploads short_hash 5 waiting)) !! id = Some r /\ r_code r = js "retry_exhausted".
Proof.
  destruct (gives_up_after_five short_hash waiting (default (mkTransaction VNull []) (head (queue waiting))) [] update
    session waiting_overlay 0) as (Hq & r & Hr & _ & Hc & _);
    [intros h s; exact I|reflexivity|exact short_hash_digest|exact sample_update_ok|vm_compute; reflexivity..
    |vm_compute; discriminate|vm_compute; reflexivity|lia|].
  split; [exact Hq|]. exists r. exact (conj Hr Hc).
Defined.
End LifeWitnesses.
