(* ===== verification/ResetRuns.v ===== *)
(** Concrete resets: the witnesses of the theorems about them, and runs that
    show where the client's own promise fails. *)
From S2P Require Export CommandLife EndToEnd.

Module ResetSample.
Export LifeSample.
#[export] Instance by_units : Collation := fun a b => negb (str_ltb b a).

(** A network that answers from a script, and an SDK that works. *)
Record Script := mkScript { sc_answers : list Response; sc_queue : list Transaction }.
#[export] Instance scripted : Environment Script := {|
  env_fetch _ s := match sc_answers s with
                   | [] => (None, s)
                   | r :: l => (Some r, mkScript l (sc_queue s))
                   end;
  env_queue := sc_queue;
  env_complete _ s := (false, mkScript (sc_answers s) (tail (sc_queue s)));
  env_enqueue e s := (false, mkScript (sc_answers s) (sc_queue s ++ [mkTransaction VNull [e]]));
  env_disconnect s := (false, s);
  env_clear s := (false, mkScript (sc_answers s) []);
  env_close s := (false, s);
  env_connect s := (false, s);
  env_chmod s := (false, s);
  env_incarnation _ _ := Some incarnation;
  env_live _ _ _ := true;
  env_files _ := (Ok true, Ok true);
  env_write s := (None, s);
  env_unlink s := (false, s);
  env_uuid s := (js "eeeeeeee-eeee-4eee-8eee-eeeeeeeeeee5", s);
|}.
#[export] Instance scripted_laws : QueueLaws Script.
Proof.
  split; cbn; try done.
  - intros t q s s' -> [= <-]. done.
  - intros e s s' [= <-]. by eexists.
  - by intros s s' [= <-].
  - intros h s. by destruct (sc_answers s).
Qed.

Definition answer (status : Z) (fs : list (jstr * jsval)) : Response := mkResponse status (Some (VObj fs)).
Definition preserve : Response := answer 200 [(js "preserve", VBool true)].
Definition old_session : ReplicaSessionSecret := mkSession binding (js "r2_AAAAAAAAAAAAAAAAAAAAAAAAAAAAAAAAAAAAAAAAAAA").
Definition new_secret : jstr := "r2_AAAAAAAAAAAAAAAAAAAAAAAAAAAAAAAAAAAAAAAAAAE".
Definition renewed : Response :=
  answer 200 [(js "replicaId", VStr (replicaId binding)); (js "replicaEpoch", num 4); (js "credential", VStr new_secret)].
Definition done_ : Response := answer 200 [].
Definition challenged : Response := answer 201 [(js "challengeId", VStr "c")].
(** What a reset of one command asks for. *)
Definition script : list Response := [preserve; renewed; done_; challenged; done_; preserve].

Definition options : OpenOptions := mkOptions "client" (Some (js "http://127.0.0.1")) None true (Some user).
Definition stale : Memory := mkMemory (Some old_session) 0 [] (Some old_session) true None false.
Definition opened_state : ApplicationState :=
  mkApp ∅ ∅ ∅ (Some (mkSessionRow old_session (js "client_observed") 0 true (Some (js "client")) (Some user))) applicationStateSchemaVersion.
Definition begin_with (answers : list Response) : World Script := mkWorld opened_state None None stale (mkScript answers []).
Definition enqueue (i : QueuedCommandInput) (w : World Script) : World Script := crashed 100 (queueCommands [i] correlation) w.
Definition reset (n : nat) (w : World Script) : World Script := crashed n (performReplicaReset options no_hooks) w.
Definition reopen (n : nat) (w : World Script) : World Script := crashed n (openSpikeClient options) w.
Definition waiting : World Script := enqueue input (begin_with script).
End ResetSample.

Module ResetWitnesses.
Import ResetSample.

(** *** A reset, whole and interrupted *)

Lemma no_hooks_quiet : quiet_hooks (S := Script) no_hooks.
Proof. done. Qed.
Lemma waiting_covered : covered waiting.
Proof. by intros []. Qed.
Lemma waiting_short : (length (queued_entries waiting) <= 1000)%nat.
Proof. vm_compute. lia. Qed.
Lemma waiting_held : held waiting id.
Proof. left. right. apply not_eq_None_Some. vm_compute. discriminate. Qed.

Definition succeeded : World Script := snd (exec (performReplicaReset options no_hooks) waiting).
Lemma reset_loses_no_command_witness :
  held (reset 11 waiting) id /\ idle succeeded /\ reset_done waiting succeeded.
Proof.
  destruct (reset_loses_no_command options waiting 11 no_hooks waiting_covered waiting_short no_hooks_quiet) as (Hh & _ & Hd).
  split; [exact (Hh id waiting_held)|]. destruct (Hd succeeded) as [Hdone He].
  - assert (fst (exec (performReplicaReset options no_hooks) waiting) = Ok tt) as Hok by (vm_compute; reflexivity).
    rewrite <- Hok. apply surjective_pairing.
  - split; [apply He; vm_compute; reflexivity|exact Hdone].
Defined.

(** Queued, uploaded in vain, a reset that dies after its state is
    written, another that dies after the new session is staged, and a client
    that opens again and finishes. *)
Definition story_queued : World Script := enqueue input (begin_with []).
Definition story_uploaded : World Script := crashed 100 (uploadData short_hash) story_queued.
Definition supply (answers : list Response) (w : World Script) : World Script :=
  with_env w (mkScript answers (sc_queue (w_env w))).
Definition story_stale : World Script := with_mem (supply [preserve; renewed; done_; challenged; done_; preserve] story_uploaded) stale.
Definition story_dead : World Script := reset 12 story_stale.
Definition story_dead_again : World Script := reset 8 story_dead.
Definition story_end : World Script := reopen 100 story_dead_again.
Lemma no_command_lost_witness :
  held story_end id /\ q_id <$> m_finalized (w_mem story_end) = [id] /\ w_reset story_end = None.
Proof.
  split; [|vm_compute; split; reflexivity].
  apply (no_command_lost short_hash id story_queued story_end).
  - by intros [].
  - left. right. apply not_eq_None_Some. vm_compute. discriminate.
  - eapply rtc_l; [by eapply (cs_upload _ _ _ _ 100)|]. fold story_uploaded.
    eapply rtc_l; [by apply (cs_outside _ _ _ (supply [preserve; renewed; done_; challenged; done_; preserve] story_uploaded)
      (mkScript [preserve; renewed; done_; challenged; done_; preserve] (sc_queue (w_env story_uploaded))))|].
    eapply rtc_l; [by apply (cs_memory _ _ _ story_stale stale)|].
    eapply rtc_l; [apply (cs_reset _ _ _ story_dead 12 options no_hooks); [vm_compute; lia|exact no_hooks_quiet|reflexivity]|].
    eapply rtc_l; [apply (cs_reset _ _ _ story_dead_again 8 options no_hooks); [vm_compute; lia|exact no_hooks_quiet|reflexivity]|].
    apply rtc_once. by apply (cs_open _ _ _ _ 100 options).
Defined.
End ResetWitnesses.

(** ** Where the promise fails *)

Section Failures.
Context {printer : NumPrinter} {reader : NumReader} {collation : Collation} {S : Type} {env : Environment S}.
Implicit Types w : World S.

(** Acknowledging a finalized command writes the quarantine without its
    pending intents: during an interrupted reset every other intent is gone. *)
Lemma acknowledging_drops_pending w w' id :
  exec (acknowledgeOrDiscardQuarantinedCommand id) w = (Ok true, w') ->
  listed (w_quarantine w') ⊆ q_id <$> m_finalized (w_mem w).
Proof.
  unfold acknowledgeOrDiscardQuarantinedCommand. rewrite exec_bind, exec_mem. unfold persistQuarantineAcknowledgement.
  destruct (without_quarantined id (m_finalized (w_mem w))) as [next|] eqn:En; [|by intros [=]].
  rewrite exec_bind, exec_bind, exec_call. cbn [handle client_handler]. unfold disk.
  destruct (env_write (w_env w)) as [[b|] s]; [by intros [=]|]. unfold set_mem, call.
  cbn [exec mret prog_ret mbind prog_mbind prog_bind handle client_handler]. intros [= <-].
  cbn [w_quarantine with_env with_quarantine with_mem].
  rewrite listed_store. unfold store_ids. cbn [qs_finalized qs_pending fmap list_fmap]. rewrite app_nil_r.
  unfold without_quarantined in En. destruct (_ <? 0); [done|]. injection En as <-. intros k Hk.
  apply list_elem_of_fmap in Hk as (c & -> & Hc). apply list_elem_of_fmap. exists c. split; [done|].
  exact (elem_of_sublist _ _ _ Hc (sublist_delete _ _)).
Qed.

(** A reset that dies between writing the quarantine and its own state leaves
    intents no state accounts for: neither opening nor another reset goes on. *)
Lemma pending_without_reset_state w r :
  w_reset w = None -> assertPrivateRegularFile (w_quarantine w) = Ok true ->
  readQuarantineStore (w_quarantine w) = Ok r -> qs_pending (sr_store r) <> [] ->
  exec readSidecars w = (Throw (Failed (js "pending_quarantine_requires_reset_state")), w).
Proof.
  intros Hr Hp Hq Hne. unfold readSidecars. rewrite exec_bind, exec_call. cbn [handle client_handler]. rewrite Hr.
  cbn [readResetState lift_thrown]. rewrite exec_bind. cbn [exec mret prog_ret lift_thrown readResetState assertPrivateRegularFile mbind outcome_bind outcome_ret].
  rewrite exec_bind, exec_call. cbn [handle client_handler]. rewrite Hp. cbn [lift_thrown]. rewrite exec_bind. cbn [exec mret prog_ret].
  rewrite Hq. cbn [lift_thrown]. rewrite exec_bind. cbn [exec mret prog_ret]. rewrite exec_bind. unfold validateQuarantineResetLink.
  destruct (qs_pending (sr_store r)) as [|i l]; [done|]. reflexivity.
Qed.
End Failures.

Module ResetFailures.
Import ResetSample.
Definition id_later : jstr := "cccccccc-cccc-4ccc-8ccc-ccccccccccc3".
Definition input_later : QueuedCommandInput :=
  mkInput id_later resource_update (js "55555555-5555-4555-8555-555555555502") None (num 4) (Some (js "later")).
Definition supply (answers : list Response) (w : World Script) : World Script :=
  with_env w (mkScript answers (sc_queue (w_env w))).

(** A reset that fails on the network, a command queued before it is tried
    again, and the second try, which succeeds: the command is nowhere. *)
Definition failed_once : World Script := reset 100 (enqueue input (begin_with [preserve])).
Definition queued_meanwhile : World Script := supply [renewed; done_; challenged; done_; preserve] (enqueue input_later failed_once).
Lemma queued_during_reset_lost :
  held queued_meanwhile id_later /\
  let '(r, w) := exec (performReplicaReset options no_hooks) queued_meanwhile in r = Ok tt /\ ~ held w id_later.
Proof.
  split; [left; right; apply not_eq_None_Some; vm_compute; discriminate|].
  destruct (exec _ _) as [r w] eqn:E. assert (fst (exec (performReplicaReset options no_hooks) queued_meanwhile) = Ok tt) as Hok by (vm_compute; reflexivity).
  assert (queue (snd (exec (performReplicaReset options no_hooks) queued_meanwhile)) = [] /\
    app_overlays (w_app (snd (exec (performReplicaReset options no_hooks) queued_meanwhile))) !! id_later = None /\
    listed (w_quarantine (snd (exec (performReplicaReset options no_hooks) queued_meanwhile))) = [id] /\
    app_results (w_app (snd (exec (performReplicaReset options no_hooks) queued_meanwhile))) !! id_later = None) as (Hq & Ho & Hl & Hr)
    by (vm_compute; repeat split).
  rewrite E in *. cbn [fst snd] in *. split; [done|]. intros [[(e & He & _)|[o Ho']]|[Hl'|[row Hr']]].
  - unfold queued_entries in He. rewrite Hq in He. by apply elem_of_nil in He.
  - congruence.
  - unfold quarantined in Hl'. rewrite Hl in Hl'. apply list_elem_of_singleton in Hl'. by vm_compute in Hl'.
  - congruence.
Qed.

(** A result recorded but not completed when a reset comes: the reset succeeds
    and quarantines the command as well, and the client never opens again. *)
Definition answered : World Script :=
  crashed 5 (uploadData short_hash) (supply [answer 409 [(js "error", VStr "idempotency_conflict")]] (enqueue input (begin_with []))).
Lemma result_and_quarantine_unopenable :
  let '(r, w) := exec (performReplicaReset options no_hooks) (with_mem (supply script answered) stale) in
  r = Ok tt /\ fst (exec (openSpikeClient options) w) = Throw (Failed (js "command_id_already_active_in_multiple_states")).
Proof. vm_compute. split; reflexivity. Qed.

(** Died between the two files. *)
Lemma reset_state_missing :
  fst (exec (openSpikeClient options) (reset 10 waiting)) = Throw (Failed (js "pending_quarantine_requires_reset_state")) /\
  fst (exec (performReplicaReset options no_hooks) (reset 10 waiting)) =
    Throw (Failed (js "Unexpected pending quarantine without reset state.")).
Proof. vm_compute. split; reflexivity. Qed.
End ResetFailures.
